(** * Bookmark collection: URL canonicalisation, deduplication, metadata

    A shallow embedding of the decision logic of the bookmark manager:

    - [src/lib/utils/index.ts]: [normalizeUrl], [stripRefParam],
      [searchBookmarks] and its helpers;
    - [src/lib/storage/index.ts]: [normalizeCompareUrl], [dedupeBookmarks];
    - the metadata module ([extractTitle], [resolveUrl],
      [decodeHtmlEntities]).

    The TypeScript code leans on three pieces of the JavaScript platform:
    strings, regular expressions and the [URL] class.  Each of them gets
    an executable model below, in a module of its own, before the
    repository's functions are transcribed on top of it.

    Conventions.

    - A JavaScript string is modelled by the [string] of its UTF-8 bytes
      (so only well-formed strings are covered).  All the literals the
      code compares against are ASCII, and the only index arithmetic in
      the code ([slice(0, -1)]) is applied to a string that ends with
      the ASCII character [/].
    - A JavaScript exception is explicit: a computation is an [Outcome],
      either [Returns v] or [Throws e], and [try_catch] is the only
      place where an exception is absorbed.
    - [Date.now()] reads an explicit clock: the [n]-th call answers
      [now n]. *)

From Stdlib Require Import String Ascii List Bool Arith NArith ZArith Lia.
Import ListNotations.
Local Open Scope list_scope.
Local Open Scope string_scope.

Set Implicit Arguments.

(* ================================================================== *)
(** * Outcomes: values and exceptions *)
(* ================================================================== *)

Inductive JSError : Type :=
| TypeError (msg : string).

Inductive Outcome (A : Type) : Type :=
| Returns (a : A)
| Throws (e : JSError).

Arguments Returns {A} a.
Arguments Throws {A} e.

Definition bind {A B : Type} (m : Outcome A) (k : A -> Outcome B) : Outcome B :=
  match m with
  | Returns a => k a
  | Throws e => Throws e
  end.

(** [try { body } catch { handler }] *)
Definition try_catch {A : Type} (body handler : Outcome A) : Outcome A :=
  match body with
  | Returns a => Returns a
  | Throws _ => handler
  end.

(** [x ?? d] *)
Definition nullish {A : Type} (x : option A) (d : A) : A :=
  match x with Some v => v | None => d end.

Declare Scope outcome_scope.
Delimit Scope outcome_scope with outcome.
Notation "x <- m ;; k" := (bind m (fun x => k))
  (at level 61, m at next level, right associativity) : outcome_scope.
Local Open Scope outcome_scope.

(* ================================================================== *)
(** * Characters and strings of the platform *)
(* ================================================================== *)

Module Chars.

Definition code (c : ascii) : N := N_of_ascii c.

Definition in_range (lo hi : N) (c : ascii) : bool :=
  (lo <=? code c)%N && (code c <=? hi)%N.

Definition is_upper : ascii -> bool := in_range 65 90.
Definition is_lower : ascii -> bool := in_range 97 122.
Definition is_digit : ascii -> bool := in_range 48 57.
Definition is_alpha (c : ascii) : bool := is_upper c || is_lower c.
Definition is_alnum (c : ascii) : bool := is_alpha c || is_digit c.

Definition is_hex_digit (c : ascii) : bool :=
  is_digit c || in_range 65 70 c || in_range 97 102 c.

Definition lower (c : ascii) : ascii :=
  if is_upper c then ascii_of_N (code c + 32) else c.

Definition upper (c : ascii) : ascii :=
  if is_lower c then ascii_of_N (code c - 32) else c.

(** The double quote, which a string literal cannot hold. *)
Definition dquote : ascii := "034"%char.

Definition mem (c : ascii) (cs : list ascii) : bool :=
  existsb (Ascii.eqb c) cs.

End Chars.

Module Str.
Import Chars.

Fixpoint map (f : ascii -> ascii) (s : string) : string :=
  match s with
  | EmptyString => EmptyString
  | String c s' => String (f c) (map f s')
  end.

Fixpoint filter (p : ascii -> bool) (s : string) : string :=
  match s with
  | EmptyString => EmptyString
  | String c s' => if p c then String c (filter p s') else filter p s'
  end.

Fixpoint forallb (p : ascii -> bool) (s : string) : bool :=
  match s with
  | EmptyString => true
  | String c s' => p c && forallb p s'
  end.

Definition existsb (p : ascii -> bool) (s : string) : bool :=
  negb (forallb (fun c => negb (p c)) s).

Fixpoint rev_onto (s acc : string) : string :=
  match s with
  | EmptyString => acc
  | String c s' => rev_onto s' (String c acc)
  end.

Definition rev (s : string) : string := rev_onto s EmptyString.

(** Longest prefix whose characters all satisfy [p], and the rest. *)
Fixpoint span (p : ascii -> bool) (s : string) : string * string :=
  match s with
  | EmptyString => (EmptyString, EmptyString)
  | String c s' =>
      if p c then let (a, b) := span p s' in (String c a, b)
      else (EmptyString, s)
  end.

Fixpoint drop_while (p : ascii -> bool) (s : string) : string :=
  match s with
  | EmptyString => EmptyString
  | String c s' => if p c then drop_while p s' else s
  end.

(** [s] without its longest suffix whose characters all satisfy [p]. *)
Fixpoint drop_while_end (p : ascii -> bool) (s : string) : string :=
  match s with
  | EmptyString => EmptyString
  | String c s' =>
      match drop_while_end p s' with
      | EmptyString => if p c then EmptyString else String c EmptyString
      | r => String c r
      end
  end.

(** [s] before its last [c] and after it, when [c] occurs in [s]. *)
Fixpoint split_last (c : ascii) (s : string) : option (string * string) :=
  match s with
  | EmptyString => None
  | String d s' =>
      match split_last c s' with
      | Some (a, b) => Some (String d a, b)
      | None => if Ascii.eqb d c then Some (EmptyString, s') else None
      end
  end.

Definition is_empty (s : string) : bool :=
  match s with EmptyString => true | _ => false end.

(** [p] is a prefix of [s]. *)
Fixpoint prefixb (p s : string) : bool :=
  match p with
  | EmptyString => true
  | String a p' =>
      match s with
      | String b s' => Ascii.eqb a b && prefixb p' s'
      | EmptyString => false
      end
  end.

(** [s.startsWith(p)] *)
Definition startsWith (s p : string) : bool := prefixb p s.

(** [s.endsWith(p)] *)
Definition endsWith (s p : string) : bool := prefixb (rev p) (rev s).

(** [s.slice(0, -1)]: the string without its last code unit.  The code
    only applies it to a string that ends with ["/"]. *)
Fixpoint slice_0_m1 (s : string) : string :=
  match s with
  | EmptyString => EmptyString
  | String c EmptyString => EmptyString
  | String c s' => String c (slice_0_m1 s')
  end.

(** [s.replace(/^p/, "")] for a literal [p]. *)
Fixpoint strip_prefix (p s : string) : option string :=
  match p, s with
  | EmptyString, _ => Some s
  | String a p', String b s' => if Ascii.eqb a b then strip_prefix p' s' else None
  | String _ _, EmptyString => None
  end.

Definition replace_prefix (p s : string) : string :=
  match strip_prefix p s with Some r => r | None => s end.

(** [s.replace(p, "")] for a non-empty literal [p]: the first
    occurrence of [p], wherever it is, is removed. *)
Fixpoint replace_first (p s : string) : string :=
  match strip_prefix p s with
  | Some r => r
  | None =>
      match s with
      | EmptyString => EmptyString
      | String c s' => String c (replace_first p s')
      end
  end.

(** [s.includes(p)] *)
Fixpoint includes (s p : string) : bool :=
  if prefixb p s then true
  else match s with
       | EmptyString => false
       | String _ s' => includes s' p
       end.

(** [s.toLowerCase()] on the ASCII letters.  The code of the URL part
    only asks whether the result starts with ["utm_"]; no character
    outside ASCII lower-cases to one of [u], [t], [m], [_], so that
    test does not see the difference with the full Unicode mapping. *)
Definition toLowerCase (s : string) : string := map lower s.

(** ** [String.prototype.trim]

    White space and line terminators of ECMAScript, read on the UTF-8
    bytes: U+0009..U+000D, U+0020, U+00A0, U+1680, U+2000..U+200A,
    U+2028, U+2029, U+202F, U+205F, U+3000, U+FEFF. *)

Definition ws1 (a : ascii) : bool :=
  in_range 9 13 a || (code a =? 32)%N.

Definition ws2 (a b : ascii) : bool :=
  (code a =? 194)%N && (code b =? 160)%N.

Definition ws3 (a b c : ascii) : bool :=
  let x := code a in let y := code b in let z := code c in
  ((x =? 225) && (y =? 154) && (z =? 128))%N
  || ((x =? 226)%N && (y =? 128)%N
      && (in_range 128 138 c || (z =? 168)%N || (z =? 169)%N || (z =? 175)%N))
  || ((x =? 226) && (y =? 129) && (z =? 159))%N
  || ((x =? 227) && (y =? 128) && (z =? 128))%N
  || ((x =? 239) && (y =? 187) && (z =? 191))%N.

(** Strips white space at the head; [fwd] says whether the bytes are
    read first to last ([true]) or last to first ([false]). *)
Fixpoint strip_ws (fwd : bool) (s : string) : string :=
  match s with
  | EmptyString => EmptyString
  | String a s1 =>
      if ws1 a then strip_ws fwd s1 else
      match s1 with
      | EmptyString => s
      | String b s2 =>
          if (if fwd then ws2 a b else ws2 b a) then strip_ws fwd s2 else
          match s2 with
          | EmptyString => s
          | String c s3 =>
              if (if fwd then ws3 a b c else ws3 c b a)
              then strip_ws fwd s3 else s
          end
      end
  end.

Definition trimStart (s : string) : string := strip_ws true s.
Definition trimEnd (s : string) : string := rev (strip_ws false (rev s)).
Definition trim (s : string) : string := trimEnd (trimStart s).

(** The printable ASCII characters other than the space. *)
Definition plain (c : ascii) : bool := (32 <? code c)%N && (code c <? 127)%N.

(** [a.join(sep)] *)
Fixpoint join (sep : string) (l : list string) : string :=
  match l with
  | [] => EmptyString
  | [x] => x
  | x :: l' => x ++ sep ++ join sep l'
  end.

(** [s.split(c)] for a one-character separator class. *)
Fixpoint split_on (p : ascii -> bool) (s : string) : list string :=
  match s with
  | EmptyString => [EmptyString]
  | String c s' =>
      if p c then EmptyString :: split_on p s'
      else match split_on p s' with
           | x :: l => String c x :: l
           | [] => [String c EmptyString]
           end
  end.

End Str.

(* ================================================================== *)
(** * The URL Standard, as far as the code calls it *)
(* ================================================================== *)

(** A reference model of the WHATWG URL Standard behind [new URL(s)],
    the getters and setters [href], [hostname], [hash], [pathname] and
    [searchParams].  It is written as structured functions rather than
    as the standard's character-by-character state machine; the comments
    name the states they stand for.

    Not modelled, and answered by a parse failure: [file:] URLs, IPv6
    literals, hosts outside ASCII or with a punycode ([xn--]) label.
    Wherever [URL_new] answers a record, it is the standard's. *)

Module URLStd.
Import Chars.

(** ** Percent encoding *)

Definition hex_digit (n : N) : ascii :=
  if (n <? 10)%N then ascii_of_N (48 + n) else ascii_of_N (55 + n).

Definition hex_value (c : ascii) : N :=
  if is_digit c then code c - 48
  else if in_range 65 70 c then code c - 55
  else code c - 87.

Definition percent_byte (c : ascii) : string :=
  String "%" (String (hex_digit (code c / 16)) (String (hex_digit (code c mod 16)) "")).

(** The percent-encode sets.  Every set holds the C0 controls and all
    bytes above [~]. *)
Definition c0_control_set (c : ascii) : bool :=
  (code c <? 32)%N || (126 <? code c)%N.

Definition fragment_set (c : ascii) : bool :=
  c0_control_set c || mem c [" "; dquote; "<"; ">"; "`"]%char.

Definition query_set (c : ascii) : bool :=
  c0_control_set c || mem c [" "; dquote; "#"; "<"; ">"]%char.

Definition special_query_set (c : ascii) : bool :=
  query_set c || mem c ["'"]%char.

Definition path_set (c : ascii) : bool :=
  query_set c || mem c ["?"; "^"; "`"; "{"; "}"]%char.

Definition userinfo_set (c : ascii) : bool :=
  path_set c || mem c ["/"; ":"; ";"; "="; "@"; "["; "\"; "]"; "|"]%char.

Definition urlencoded_set (c : ascii) : bool :=
  negb (is_alnum c || mem c ["*"; "-"; "."; "_"]%char).

Fixpoint percent_encode (set : ascii -> bool) (s : string) : string :=
  match s with
  | EmptyString => EmptyString
  | String c s' =>
      (if set c then percent_byte c else String c "") ++ percent_encode set s'
  end.

Fixpoint percent_decode (s : string) : string :=
  match s with
  | EmptyString => EmptyString
  | String c s1 =>
      if Ascii.eqb c "%" then
        match s1 with
        | String a (String b s3) =>
            if is_hex_digit a && is_hex_digit b
            then String (ascii_of_N (16 * hex_value a + hex_value b))
                        (percent_decode s3)
            else String c (percent_decode s1)
        | _ => String c (percent_decode s1)
        end
      else String c (percent_decode s1)
  end.

(** ** UTF-8 decode without BOM, followed by UTF-8 encode

    The form-urlencoded parser decodes the percent-decoded bytes as
    UTF-8, replacing each ill-formed sequence by U+FFFD.  On the byte
    view of strings this is the function below: well-formed sequences
    are copied, each maximal ill-formed part becomes [EF BF BD]. *)

Definition replacement : string :=
  String (ascii_of_N 239) (String (ascii_of_N 191) (String (ascii_of_N 189) "")).

Inductive utf8_head : Type :=
| OneByte
| Lead (need : nat) (lo hi : N)
| Stray.

Definition utf8_classify (b : ascii) : utf8_head :=
  let n := code b in
  if (n <=? 127)%N then OneByte
  else if in_range 194 223 b then Lead 1 128 191
  else if in_range 224 239 b then
    Lead 2 (if (n =? 224)%N then 160 else 128) (if (n =? 237)%N then 159 else 191)
  else if in_range 240 244 b then
    Lead 3 (if (n =? 240)%N then 144 else 128) (if (n =? 244)%N then 143 else 191)
  else Stray.

(** [need] continuation bytes are awaited, the next one within
    [lo..hi]; [pend] holds the bytes of the sequence read so far. *)
Fixpoint utf8_go (s : string) (need : nat) (lo hi : N) (pend : string) : string :=
  match s with
  | EmptyString => match need with O => "" | S _ => replacement end
  | String b s' =>
      let restart :=
        match utf8_classify b with
        | OneByte => String b (utf8_go s' 0 128 191 "")
        | Lead n l h => utf8_go s' n l h (String b "")
        | Stray => replacement ++ utf8_go s' 0 128 191 ""
        end in
      match need with
      | O => restart
      | S n =>
          if in_range lo hi b then
            match n with
            | O => pend ++ String b (utf8_go s' 0 128 191 "")
            | S _ => utf8_go s' n 128 191 (pend ++ String b "")
            end
          else replacement ++ restart
      end
  end.

Definition utf8_lossy (s : string) : string := utf8_go s 0 128 191 "".

(** ** application/x-www-form-urlencoded *)

Definition plus_to_space (c : ascii) : ascii :=
  if Ascii.eqb c "+" then " "%char else c.

Definition urlencoded_decode (s : string) : string :=
  utf8_lossy (percent_decode (Str.map plus_to_space s)).

Definition split_pair (s : string) : string * string :=
  let (n, r) := Str.span (fun c => negb (Ascii.eqb c "=")) s in
  (n, match r with String _ v => v | EmptyString => "" end).

(** The urlencoded parser: the name-value tuples of a query. *)
Definition urlencoded_parse (s : string) : list (string * string) :=
  List.map (fun seq => let (n, v) := split_pair seq in
                       (urlencoded_decode n, urlencoded_decode v))
           (List.filter (fun seq => negb (Str.is_empty seq))
                        (Str.split_on (fun c => Ascii.eqb c "&") s)).

Fixpoint urlencoded_encode (s : string) : string :=
  match s with
  | EmptyString => EmptyString
  | String c s' =>
      (if Ascii.eqb c " " then "+"
       else if urlencoded_set c then percent_byte c else String c "")
      ++ urlencoded_encode s'
  end.

(** The urlencoded serializer. *)
Definition urlencoded_serialize (l : list (string * string)) : string :=
  Str.join "&" (List.map (fun nv => urlencoded_encode (fst nv) ++ "=" ++ urlencoded_encode (snd nv)) l).

(** ** Numbers in hosts and ports *)

Fixpoint digits_value (radix : N) (s : string) (acc : N) : N :=
  match s with
  | EmptyString => acc
  | String c s' => digits_value radix s' (acc * radix + hex_value c)%N
  end.

Fixpoint decimal_go (fuel : nat) (n : N) (acc : string) : string :=
  match fuel with
  | O => acc
  | S f =>
      let acc' := String (ascii_of_N (48 + n mod 10)) acc in
      if (n <? 10)%N then acc' else decimal_go f (n / 10)%N acc'
  end.

(** Shortest decimal numeral of [n]; a numeral of [n] has at most
    [N.size_nat n + 1] digits. *)
Definition decimal (n : N) : string := decimal_go (S (N.size_nat n)) n "".

Definition is_radix_digit (radix : N) (c : ascii) : bool :=
  is_hex_digit c && (hex_value c <? radix)%N.

(** The IPv4 number parser. *)
Definition ipv4_number (s : string) : option N :=
  match s with
  | EmptyString => None
  | String "0" (String x r) =>
      if Ascii.eqb (lower x) "x"
      then if Str.forallb (is_radix_digit 16) r then Some (digits_value 16 r 0) else None
      else if Str.forallb (is_radix_digit 8) (String x r)
           then Some (digits_value 8 (String x r) 0) else None
  | _ => if Str.forallb (is_radix_digit 10) s then Some (digits_value 10 s 0) else None
  end.

Definition is_dot (c : ascii) : bool := Ascii.eqb c ".".

(** The parts of a host between dots, a last empty part dropped. *)
Definition host_parts (s : string) : list string :=
  let parts := Str.split_on is_dot s in
  match List.rev parts with
  | EmptyString :: before =>
      match before with
      | [] => parts
      | _ => List.rev before
      end
  | _ => parts
  end.

(** The ends-in-a-number checker. *)
Definition ends_in_number (s : string) : bool :=
  match List.rev (host_parts s) with
  | [] => false
  | last :: _ =>
      match last with
      | EmptyString => false
      | _ => Str.forallb is_digit last
             || match ipv4_number last with Some _ => true | None => false end
      end
  end.

Fixpoint ipv4_numbers (parts : list string) : option (list N) :=
  match parts with
  | [] => Some []
  | p :: ps =>
      match ipv4_number p, ipv4_numbers ps with
      | Some n, Some ns => Some (n :: ns)
      | _, _ => None
      end
  end.

(** [numbers] most significant first; all but the last are octets, the
    last one fills the remaining bytes. *)
Fixpoint ipv4_value (numbers : list N) (room : nat) : option N :=
  match numbers, room with
  | [], _ => None
  | _, O => None
  | [n], S r => if (n <? 256 ^ N.of_nat (S r))%N then Some n else None
  | n :: ns, S r =>
      if (n <? 256)%N then
        match ipv4_value ns r with
        | Some v => Some (n * 256 ^ N.of_nat r + v)%N
        | None => None
        end
      else None
  end.

Definition ipv4_serialize (v : N) : string :=
  decimal (v / 16777216) ++ "." ++ decimal (v / 65536 mod 256) ++ "."
    ++ decimal (v / 256 mod 256) ++ "." ++ decimal (v mod 256).

(** The IPv4 parser, followed by the serializer. *)
Definition ipv4_parse (s : string) : option string :=
  match ipv4_numbers (host_parts s) with
  | Some numbers =>
      match ipv4_value numbers 4 with
      | Some v => Some (ipv4_serialize v)
      | None => None
      end
  | None => None
  end.

(** ** Hosts *)

Definition forbidden_host (c : ascii) : bool :=
  mem c (List.map ascii_of_N [0; 9; 10; 13]%N)
  || mem c [" "; "#"; "/"; ":"; "<"; ">"; "?"; "@"; "["; "\"; "]"; "^"; "|"]%char.

Definition forbidden_domain (c : ascii) : bool :=
  forbidden_host c || (code c <? 32)%N || Ascii.eqb c "%" || (code c =? 127)%N.

Definition has_punycode_label (s : string) : bool :=
  List.existsb (fun l => Str.startsWith l "xn--") (Str.split_on is_dot s).

(** The host parser; the answer is the serialized host. *)
Definition host_parse (is_opaque : bool) (input : string) : option string :=
  if Str.startsWith input "[" then None
  else if is_opaque then
    if Str.existsb forbidden_host input then None
    else Some (percent_encode c0_control_set input)
  else
    let domain := Str.toLowerCase (percent_decode input) in
    if Str.existsb (fun c => (127 <? code c)%N) domain then None
    else if has_punycode_label domain then None
    else if Str.is_empty domain then None
    else if Str.existsb forbidden_domain domain then None
    else if ends_in_number domain then ipv4_parse domain
    else Some domain.

(** ** URL records *)

Inductive URLPath : Type :=
| Opaque (p : string)
| Segments (l : list string).

Record URL : Type := mkURL {
  scheme : string;
  username : string;
  password : string;
  host : option string;
  port : option N;
  path : URLPath;
  query : option string;
  fragment : option string
}.

Definition is_special_scheme (s : string) : bool :=
  List.existsb (String.eqb s) ["ftp"; "file"; "http"; "https"; "ws"; "wss"].

Definition is_special (u : URL) : bool := is_special_scheme (scheme u).

Definition default_port (s : string) : option N :=
  if String.eqb s "ftp" then Some 21%N
  else if String.eqb s "http" || String.eqb s "ws" then Some 80%N
  else if String.eqb s "https" || String.eqb s "wss" then Some 443%N
  else None.

Definition has_opaque_path (u : URL) : bool :=
  match path u with Opaque _ => true | Segments _ => false end.

Definition includes_credentials (u : URL) : bool :=
  negb (Str.is_empty (username u)) || negb (Str.is_empty (password u)).

(** ** The basic URL parser *)

Definition is_c0_or_space (c : ascii) : bool := (code c <=? 32)%N.
Definition is_tab_or_newline (c : ascii) : bool :=
  mem c (List.map ascii_of_N [9; 10; 13]%N).

Definition strip_c0_space (s : string) : string :=
  Str.drop_while_end is_c0_or_space (Str.drop_while is_c0_or_space s).

Definition remove_tab_newline (s : string) : string :=
  Str.filter (fun c => negb (is_tab_or_newline c)) s.

Definition is_scheme_char (c : ascii) : bool :=
  is_alnum c || mem c ["+"; "-"; "."]%char.

(** Scheme start state and scheme state: an ASCII letter, then scheme
    characters up to a colon; anything else is the no scheme state,
    which fails without a base URL. *)
Definition split_scheme (s : string) : option (string * string) :=
  match s with
  | String c _ =>
      if is_alpha c then
        match Str.span is_scheme_char s with
        | (sch, String ":" rest) => Some (Str.toLowerCase sch, rest)
        | _ => None
        end
      else None
  | EmptyString => None
  end.

(** [s] up to the first [c], and what follows that [c], if any. *)
Definition cut (c : ascii) (s : string) : string * option string :=
  let (a, b) := Str.span (fun x => negb (Ascii.eqb x c)) s in
  (a, match b with String _ r => Some r | EmptyString => None end).

Definition is_slash (special : bool) (c : ascii) : bool :=
  Ascii.eqb c "/" || (special && Ascii.eqb c "\").

Definition is_single_dot (buf : string) : bool :=
  String.eqb buf "." || String.eqb (Str.toLowerCase buf) "%2e".

Definition is_double_dot (buf : string) : bool :=
  String.eqb buf ".."
  || List.existsb (String.eqb (Str.toLowerCase buf)) [".%2e"; "%2e."; "%2e%2e"].

(** Path state, one buffer at a time: [segs] are the pieces of the
    input between slashes, [acc] the path built so far. *)
Fixpoint path_state (segs : list string) (acc : list string) : list string :=
  match segs with
  | [] => acc
  | s :: rest =>
      let last := match rest with [] => true | _ => false end in
      let buf := percent_encode path_set s in
      if is_double_dot buf then
        path_state rest ((List.removelast acc ++ if last then [""] else [])%list)
      else if is_single_dot buf then
        path_state rest ((acc ++ if last then [""] else [])%list)
      else path_state rest (acc ++ [buf])%list
  end.

Definition parse_path (special : bool) (raw : string) : list string :=
  path_state (Str.split_on (is_slash special) raw) [].

(** Port state. *)
Definition parse_port (sch : string) (digits : string) : option (option N) :=
  if Str.forallb is_digit digits then
    match digits with
    | EmptyString => Some None
    | _ =>
        let n := digits_value 10 digits 0 in
        if (65535 <? n)%N then None
        else if match default_port sch with Some d => (d =? n)%N | None => false end
             then Some None
             else Some (Some n)
    end
  else None.

(** Host state and port state on what follows the credentials. *)
Definition parse_hostport (sch : string) (hostport : string)
  : option (string * option N) :=
  let special := is_special_scheme sch in
  let (h, p) := cut ":" hostport in
  let checked :=
    match p with
    | Some digits => if Str.is_empty h then None else parse_port sch digits
    | None => if special && Str.is_empty h then None else Some None
    end in
  match checked, host_parse (negb special) h with
  | Some prt, Some hst => Some (hst, prt)
  | _, _ => None
  end.

(** Authority state on the authority [auth]; the answer is user name,
    password, host and port. *)
Definition parse_authority (sch : string) (auth : string)
  : option (string * string * string * option N) :=
  let (creds, hostport) :=
    match Str.split_last "@" auth with
    | Some (c, hp) => (Some c, hp)
    | None => (None, auth)
    end in
  let (user, pass) :=
    match creds with
    | Some c =>
        let (u, p) := cut ":" c in
        (percent_encode userinfo_set u,
         percent_encode userinfo_set (match p with Some p => p | None => "" end))
    | None => ("", "")
    end in
  match creds, hostport with
  | Some _, EmptyString => None
  | _, _ =>
      match parse_hostport sch hostport with
      | Some (hst, prt) => Some (user, pass, hst, prt)
      | None => None
      end
  end.

(** What lies between the scheme and the query: user name, password,
    host, port and path. *)
Definition hierarchy : Type :=
  string * string * option string * option N * URLPath.

(** Authority state and path start state on [after], which follows the
    slashes. *)
Definition parse_with_authority (sch : string) (after : string) : option hierarchy :=
  let special := is_special_scheme sch in
  let (auth, p) := Str.span (fun c => negb (is_slash special c)) after in
  match parse_authority sch auth with
  | Some (user, pass, hst, prt) =>
      let segs :=
        match p with
        | String _ p' => parse_path special p'
        | EmptyString => if special then [""] else []
        end in
      Some (user, pass, Some hst, prt, Segments segs)
  | None => None
  end.

(** The states that follow the scheme, on the input up to the query:
    special authority slashes and special authority ignore slashes for
    a special scheme; otherwise path or authority, or opaque path. *)
Definition parse_hierarchy (sch : string) (main : string) : option hierarchy :=
  if is_special_scheme sch then
    parse_with_authority sch (Str.drop_while (is_slash true) main)
  else
    match Str.strip_prefix "//" main with
    | Some after => parse_with_authority sch after
    | None =>
        match Str.strip_prefix "/" main with
        | Some p => Some ("", "", None, None, Segments (parse_path false p))
        | None => Some ("", "", None, None, Opaque (percent_encode c0_control_set main))
        end
    end.

Definition basic_parse (input : string) : option URL :=
  match split_scheme (remove_tab_newline (strip_c0_space input)) with
  | None => None
  | Some (sch, rest) =>
      let special := is_special_scheme sch in
      let (rest1, frag) := cut "#" rest in
      let (main, qry) := cut "?" rest1 in
      let q := option_map (percent_encode (if special then special_query_set else query_set)) qry in
      let f := option_map (percent_encode fragment_set) frag in
      if String.eqb sch "file" then None
      else
        match parse_hierarchy sch main with
        | Some (user, pass, hst, prt, pth) => Some (mkURL sch user pass hst prt pth q f)
        | None => None
        end
  end.

(** ** The URL serializer *)

Fixpoint serialize_segments (l : list string) : string :=
  match l with
  | [] => ""
  | seg :: l' => "/" ++ seg ++ serialize_segments l'
  end.

Definition serialize_path (p : URLPath) : string :=
  match p with
  | Opaque s => s
  | Segments l => serialize_segments l
  end.

Definition serialize_authority (u : URL) (h : string) : string :=
  (if includes_credentials u
   then username u
        ++ (if Str.is_empty (password u) then "" else ":" ++ password u)
        ++ "@"
   else "")
  ++ h
  ++ match port u with Some n => ":" ++ decimal n | None => "" end.

Definition serialize_hierarchy (u : URL) : string :=
  match host u with
  | Some h => "//" ++ serialize_authority u h ++ serialize_path (path u)
  | None =>
      match path u with
      | Segments (EmptyString :: _ :: _) => "/." ++ serialize_path (path u)
      | _ => serialize_path (path u)
      end
  end.

Definition serialize (u : URL) : string :=
  scheme u ++ ":"
  ++ serialize_hierarchy u
  ++ match query u with Some q => "?" ++ q | None => "" end
  ++ match fragment u with Some f => "#" ++ f | None => "" end.

(** ** The [URL] class

    A [URL] object owns its URL record and the list of its
    [searchParams] object, which is filled from the query when the
    object is constructed and written back to the query by every
    update. *)

Record URLObject : Type := mkObject {
  record : URL;
  params : list (string * string)
}.

(** [new URL(s)] *)
Definition URL_new (s : string) : Outcome URLObject :=
  match basic_parse s with
  | Some u =>
      Returns (mkObject u (urlencoded_parse (match query u with Some q => q | None => "" end)))
  | None => Throws (TypeError "Invalid URL")
  end.

(** [o.href] and [o.toString()] *)
Definition href (o : URLObject) : string := serialize (record o).
Definition toString (o : URLObject) : string := href o.

(** [o.hostname] *)
Definition hostname (o : URLObject) : string :=
  match host (record o) with Some h => h | None => "" end.

(** [o.pathname] *)
Definition pathname (o : URLObject) : string := serialize_path (path (record o)).

Definition set_host (h : option string) (u : URL) : URL :=
  mkURL (scheme u) (username u) (password u) h (port u) (path u) (query u) (fragment u).
Definition set_path (p : URLPath) (u : URL) : URL :=
  mkURL (scheme u) (username u) (password u) (host u) (port u) p (query u) (fragment u).
Definition set_query (q : option string) (u : URL) : URL :=
  mkURL (scheme u) (username u) (password u) (host u) (port u) (path u) q (fragment u).
Definition set_fragment (f : option string) (u : URL) : URL :=
  mkURL (scheme u) (username u) (password u) (host u) (port u) (path u) (query u) f.

Definition is_space (c : ascii) : bool := Ascii.eqb c " ".

Definition strip_trailing_spaces (s : string) : string :=
  Str.drop_while_end is_space s.

(** Potentially strip trailing spaces from an opaque path. *)
Definition strip_opaque_path (u : URL) : URL :=
  match path u, fragment u, query u with
  | Opaque p, None, None => set_path (Opaque (strip_trailing_spaces p)) u
  | _, _, _ => u
  end.

(** [o.hostname = v]: the basic URL parser on [v] with the hostname
    state as state override.  A colon, an empty host where the URL
    cannot have one, or a host that does not parse leave [o] as it is. *)
Definition set_hostname (v : string) (o : URLObject) : URLObject :=
  let u := record o in
  if has_opaque_path u then o
  else
    let special := is_special u in
    let (h, rest) :=
      Str.span (fun c => negb (is_slash special c || mem c ["?"; "#"; ":"]%char))
               (remove_tab_newline v) in
    if Str.startsWith rest ":" then o
    else if special && Str.is_empty h then o
    else if Str.is_empty h && (includes_credentials u || match port u with Some _ => true | None => false end)
    then o
    else match host_parse (negb special) h with
         | Some hst => mkObject (set_host (Some hst) u) (params o)
         | None => o
         end.

(** [o.hash = v] *)
Definition set_hash (v : string) (o : URLObject) : URLObject :=
  match v with
  | EmptyString => mkObject (strip_opaque_path (set_fragment None (record o))) (params o)
  | _ =>
      let input := match v with String "#" r => r | _ => v end in
      mkObject (set_fragment (Some (percent_encode fragment_set (remove_tab_newline input))) (record o))
               (params o)
  end.

(** [o.pathname = v]: the path is emptied, then [v] goes through the
    basic URL parser with the path start state as state override. *)
Definition set_pathname (v : string) (o : URLObject) : URLObject :=
  let u := record o in
  if has_opaque_path u then o
  else
    let special := is_special u in
    let input := remove_tab_newline v in
    let segs :=
      match input with
      | EmptyString =>
          if special then [""]
          else match host u with None => [""] | Some _ => [] end
      | String c r =>
          parse_path special (if is_slash special c then r else input)
      end in
    mkObject (set_path (Segments segs) u) (params o).

(** The update steps of a [URLSearchParams] object. *)
Definition update_query (l : list (string * string)) (u : URL) : URL :=
  match urlencoded_serialize l with
  | EmptyString => strip_opaque_path (set_query None u)
  | q => set_query (Some q) u
  end.

(** [o.searchParams.delete(name)] *)
Definition searchParams_delete (name : string) (o : URLObject) : URLObject :=
  let l := List.filter (fun nv => negb (String.eqb (fst nv) name)) (params o) in
  mkObject (update_query l (record o)) l.

(** [Array.from(o.searchParams.keys())] *)
Definition searchParams_keys (o : URLObject) : list string :=
  List.map fst (params o).

End URLStd.

(* ================================================================== *)
(** * [src/lib/utils/index.ts] and [src/lib/storage/index.ts]: URLs *)
(* ================================================================== *)

Import URLStd.

(** [normalizeUrl], utils lines 45-52. *)
Definition normalizeUrl (url : string) : Outcome string :=
  try_catch
    (urlObj <- URL_new (if Str.startsWith url "http" then url else "https://" ++ url) ;;
     Returns (href urlObj))
    (Returns url).

(** [stripRefParam], utils lines 32-43. *)
Definition stripRefParam (url : string) : Outcome string :=
  let trimmed := Str.trim url in
  if Str.is_empty trimmed then Returns url
  else
    try_catch
      (normalized <- normalizeUrl trimmed ;;
       parsed <- URL_new normalized ;;
       let parsed := searchParams_delete "ref" parsed in
       Returns (href parsed))
      (Returns url).

(** The callback of [forEach] at storage lines 19-23. *)
Definition delete_if_utm (parsed : URLObject) (key : string) : URLObject :=
  if Str.startsWith (Str.toLowerCase key) "utm_"
  then searchParams_delete key parsed
  else parsed.

(** [normalizeCompareUrl], storage lines 10-31. *)
Definition normalizeCompareUrl (url : string) : Outcome string :=
  let trimmed := Str.trim url in
  if Str.is_empty trimmed then Returns url
  else
    try_catch
      (normalized <- normalizeUrl trimmed ;;
       parsed <- URL_new normalized ;;
       let parsed := set_hostname (Str.replace_prefix "www." (hostname parsed)) parsed in
       let parsed := set_hash "" parsed in
       let parsed := searchParams_delete "ref" parsed in
       let parsed := List.fold_left delete_if_utm (searchParams_keys parsed) parsed in
       let parsed :=
         if negb (String.eqb (pathname parsed) "/") && Str.endsWith (pathname parsed) "/"
         then set_pathname (Str.slice_0_m1 (pathname parsed)) parsed
         else parsed in
       Returns (toString parsed))
      (Returns url).

(** The key under which [dedupeBookmarks] files a bookmark (storage
    line 36); the specification calls it [canonicalize]. *)
Definition canonicalize (url : string) : Outcome string :=
  stripped <- stripRefParam url ;;
  normalizeCompareUrl stripped.

(* ================================================================== *)
(** * [src/lib/storage/index.ts]: deduplication *)
(* ================================================================== *)

(** [Bookmark] of [lib/types].  The interface declares every field but
    [icon] and [image] as present; the code nevertheless guards
    [createdAt], [updatedAt] (with [??]) and [tags] against being
    absent, so these three are optional here. *)
Record Bookmark : Type := mkBookmark {
  id : string;
  url : string;
  title : string;
  description : string;
  icon : option string;
  image : option string;
  tags : option (list string);
  collectionId : string;
  createdAt : option Z;
  updatedAt : option Z
}.

(** A JavaScript [Map] with string keys: the entries in insertion
    order; [set] on a key that is present keeps the entry's place. *)
Module JSMap.
Section WithValue.
Variable V : Type.

Definition t : Type := list (string * V).

Definition empty : t := [].

Fixpoint get (k : string) (m : t) : option V :=
  match m with
  | [] => None
  | (k', v) :: m' => if String.eqb k k' then Some v else get k m'
  end.

Fixpoint set (k : string) (v : V) (m : t) : t :=
  match m with
  | [] => [(k, v)]
  | (k', v') :: m' =>
      if String.eqb k k' then (k', v) :: m' else (k', v') :: set k v m'
  end.

Definition keys (m : t) : list string := List.map fst m.
Definition values (m : t) : list V := List.map snd m.
End WithValue.
End JSMap.

Section Dedupe.

(** [Date.now()]: the [n]-th reading of the clock. *)
Variable now : nat -> Z.

(** The object literal of storage lines 46-51, given the number of
    clock readings made so far. *)
Definition stored (tick : nat) (bookmark : Bookmark) (normalized : string)
  : Bookmark * nat :=
  let (u, tick1) :=
    match updatedAt bookmark with
    | Some t => (t, tick)
    | None => (now tick, S tick)
    end in
  let (c, tick2) :=
    match createdAt bookmark with
    | Some t => (t, tick1)
    | None => (now tick1, S tick1)
    end in
  (mkBookmark (id bookmark) normalized (title bookmark) (description bookmark)
              (icon bookmark) (image bookmark) (tags bookmark)
              (collectionId bookmark) (Some c) (Some u),
   tick2).

(** Storage lines 38-44. *)
Definition preferIncoming (existing : option Bookmark) (bookmark : Bookmark) : bool :=
  let existingInDefault :=
    match existing with
    | Some e => String.eqb (collectionId e) "default"
    | None => false
    end in
  let incomingInDefault := String.eqb (collectionId bookmark) "default" in
  match existing with
  | None => true
  | Some e =>
      (existingInDefault && negb incomingInDefault)
      || (Bool.eqb existingInDefault incomingInDefault
          && (nullish (updatedAt e) 0 <? nullish (updatedAt bookmark) 0)%Z)
  end.

(** The [for] loop of storage lines 35-53. *)
Fixpoint dedupe_loop (bookmarks : list Bookmark) (byUrl : JSMap.t Bookmark) (tick : nat)
  : Outcome (JSMap.t Bookmark * nat) :=
  match bookmarks with
  | [] => Returns (byUrl, tick)
  | bookmark :: rest =>
      normalized <- canonicalize (url bookmark) ;;
      let existing := JSMap.get normalized byUrl in
      if preferIncoming existing bookmark then
        let (b, tick') := stored tick bookmark normalized in
        dedupe_loop rest (JSMap.set normalized b byUrl) tick'
      else dedupe_loop rest byUrl tick
  end.

(** [dedupeBookmarks], storage lines 33-55; [tick] clock readings
    were made before the call. *)
Definition dedupeBookmarks (tick : nat) (bookmarks : list Bookmark)
  : Outcome (list Bookmark) :=
  r <- dedupe_loop bookmarks (JSMap.empty Bookmark) tick ;;
  Returns (JSMap.values (fst r)).

End Dedupe.

(* ================================================================== *)
(** * Regular expressions of the metadata module *)
(* ================================================================== *)

(** A backtracking matcher for the fragment of ECMAScript regular
    expressions that the metadata patterns use: literal characters,
    character classes, greedy stars of a class, and one capturing group
    around such a star.  Alternatives are tried in the order of the
    ECMAScript semantics: a star first takes as many characters as it
    can and gives them back one by one. *)
Module Regex.
Import Chars.

Inductive atom : Type :=
| Lit (c : ascii)                         (* one character *)
| Class (neg : bool) (cs : list ascii)    (* a class, negated or not *)
| Star (neg : bool) (cs : list ascii)     (* the greedy star of a class *)
| Group (neg : bool) (cs : list ascii).   (* the same, captured *)

Definition regex : Type := list atom.

Fixpoint lit (s : string) : regex :=
  match s with
  | EmptyString => []
  | String c s' => Lit c :: lit s'
  end.

(** Character comparison, under the flag [i] when [ci] is set. *)
Definition char_eq (ci : bool) (c d : ascii) : bool :=
  if ci then Ascii.eqb (lower c) (lower d) else Ascii.eqb c d.

Definition in_class (neg : bool) (cs : list ascii) (d : ascii) : bool :=
  xorb neg (mem d cs).

(** [match_here ci re s]: a match of [re] starting at the head of
    [s]; the answer is the text of the group and what follows the
    match. *)
Fixpoint match_here (ci : bool) (re : regex) (s : string) : option (string * string) :=
  match re with
  | [] => Some ("", s)
  | Lit c :: re' =>
      match s with
      | String d s' => if char_eq ci c d then match_here ci re' s' else None
      | EmptyString => None
      end
  | Class neg cs :: re' =>
      match s with
      | String d s' => if in_class neg cs d then match_here ci re' s' else None
      | EmptyString => None
      end
  | Star neg cs :: re' =>
      (fix star (s : string) : option (string * string) :=
         match s with
         | String d s' =>
             if in_class neg cs d then
               match star s' with
               | Some r => Some r
               | None => match_here ci re' s
               end
             else match_here ci re' s
         | EmptyString => match_here ci re' s
         end) s
  | Group neg cs :: re' =>
      (fix group (s : string) : option (string * string) :=
         let stop :=
           match match_here ci re' s with
           | Some (_, r) => Some ("", r)
           | None => None
           end in
         match s with
         | String d s' =>
             if in_class neg cs d then
               match group s' with
               | Some (g, r) => Some (String d g, r)
               | None => stop
               end
             else stop
         | EmptyString => stop
         end) s
  end.

(** The leftmost match. *)
Fixpoint search (ci : bool) (re : regex) (s : string) : option (string * string) :=
  match match_here ci re s with
  | Some r => Some r
  | None =>
      match s with
      | String _ s' => search ci re s'
      | EmptyString => None
      end
  end.

(** [s.match(re)[1]] for a pattern without the flag [g]: [None] when
    [s.match(re)] is [null]. *)
Definition match_group (ci : bool) (re : regex) (s : string) : option string :=
  option_map fst (search ci re s).

(** [s.replace(re, f)] for a pattern with the flag [g] whose matches
    are never empty; [skip] characters of [s] belong to the match
    that was just replaced. *)
Fixpoint replace_go (ci : bool) (re : regex) (f : string -> string)
         (s : string) (skip : nat) : string :=
  match s with
  | EmptyString => EmptyString
  | String c s' =>
      match skip with
      | S k => replace_go ci re f s' k
      | O =>
          match match_here ci re s with
          | Some (_, rest) =>
              let n := (String.length s - String.length rest)%nat in
              match n with
              | O => String c (replace_go ci re f s' 0)
              | S k => f (String.substring 0 n s) ++ replace_go ci re f s' k
              end
          | None => String c (replace_go ci re f s' 0)
          end
      end
  end.

Definition replace_all (ci : bool) (re : regex) (f : string -> string) (s : string) : string :=
  replace_go ci re f s 0.

End Regex.

(* ================================================================== *)
(** * The metadata module *)
(* ================================================================== *)

Module Metadata.
Import Chars Regex.

Definition quotes : list ascii := [dquote; "'"%char].

(** The pattern of line 8, matched with the flag [i]: the text
    [<meta], any characters but [>], [property=], a quote of either
    kind, [og:title], a quote, any characters but [>], [content=], a
    quote, the group (any characters but quotes), a quote. *)
Definition og_title_re : regex :=
  (lit "<meta" ++ [Star true [">"%char]] ++ lit "property=" ++ [Class false quotes]
   ++ lit "og:title" ++ [Class false quotes; Star true [">"%char]]
   ++ lit "content=" ++ [Class false quotes; Group true quotes; Class false quotes])%list.

(** The pattern of line 12: as above with [name=] and
    [twitter:title]. *)
Definition twitter_title_re : regex :=
  (lit "<meta" ++ [Star true [">"%char]] ++ lit "name=" ++ [Class false quotes]
   ++ lit "twitter:title" ++ [Class false quotes; Star true [">"%char]]
   ++ lit "content=" ++ [Class false quotes; Group true quotes; Class false quotes])%list.

(** The pattern of line 16, matched with the flag [i]: [<title], any
    characters but [>], [>], the group (any characters but [<]), and
    the closing tag. *)
Definition title_re : regex :=
  (lit "<title" ++ [Star true [">"%char]] ++ lit ">" ++ [Group true ["<"%char]]
   ++ lit "</title>")%list.

(** The pattern of line 111, matched with the flag [g]: an ampersand,
    one or more characters other than a semicolon, a semicolon. *)
Definition entity_re : regex :=
  [Lit "&"; Class true [";"%char]; Star true [";"%char]; Lit ";"]%char.

(** The table [entities], lines 103-110. *)
Definition entities : list (string * string) :=
  [("&amp;", "&"); ("&lt;", "<"); ("&gt;", ">");
   ("&quot;", String dquote ""); ("&#39;", "'"); ("&apos;", "'")].

Fixpoint lookup (k : string) (l : list (string * string)) : option string :=
  match l with
  | [] => None
  | (k', v) :: l' => if String.eqb k k' then Some v else lookup k l'
  end.

(** [decodeHtmlEntities], lines 102-112.  All the values of the table
    are non-empty, so [entities[match] || match] is the table's value
    whenever there is one. *)
Definition decodeHtmlEntities (text : string) : string :=
  replace_all false entity_re
    (fun m => match lookup m entities with Some v => v | None => m end) text.

(** [match && match[1]] *)
Definition truthy_group (m : option string) : option string :=
  match m with
  | Some EmptyString => None
  | Some g => Some g
  | None => None
  end.

(** [extractTitle], lines 6-26. *)
Definition extractTitle (html url : string) : Outcome string :=
  match truthy_group (match_group true og_title_re html) with
  | Some g => Returns (decodeHtmlEntities g)
  | None =>
  match truthy_group (match_group true twitter_title_re html) with
  | Some g => Returns (decodeHtmlEntities g)
  | None =>
  match truthy_group (match_group true title_re html) with
  | Some g => Returns (decodeHtmlEntities g)
  | None =>
      try_catch
        (urlObj <- URL_new url ;;
         Returns (Str.replace_first "www." (hostname urlObj)))
        (Returns "Untitled")
  end end end.

(** [resolveUrl], lines 91-100. *)
Definition resolveUrl (href base : string) : Outcome string :=
  try_catch
    (if Str.startsWith href "http" then Returns href
     else if Str.startsWith href "//" then Returns ("https:" ++ href)
     else if Str.startsWith href "/" then Returns (base ++ href)
     else Returns (base ++ "/" ++ href))
    (Returns href).

End Metadata.

(* ================================================================== *)
(** * [src/lib/utils/index.ts]: search *)
(* ================================================================== *)

Section Search.
Import Chars.

(** The Unicode tables behind [toLowerCase()] and [normalize("NFD")]
    stay abstract. *)
Variable toLowerCaseU : string -> string.
Variable normalizeNFD : string -> string.

(** The replacement that erases the combining marks U+0300 to
    U+036F, which on the bytes are the
    two-byte sequences [CC 80..BF] and [CD 80..AF]. *)
Fixpoint remove_marks (s : string) : string :=
  match s with
  | EmptyString => EmptyString
  | String a s1 =>
      match s1 with
      | String b s2 =>
          if ((code a =? 204)%N && in_range 128 191 b)
             || ((code a =? 205)%N && in_range 128 175 b)
          then remove_marks s2
          else String a (remove_marks s1)
      | EmptyString => s
      end
  end.

Definition is_search_char (c : ascii) : bool := is_lower c || is_digit c.

(** [replace(/[^a-z0-9]+/g, " ")]; [inside] says that the previous
    character was already replaced. *)
Fixpoint collapse_other (s : string) (inside : bool) : string :=
  match s with
  | EmptyString => EmptyString
  | String c s' =>
      if is_search_char c then String c (collapse_other s' false)
      else if inside then collapse_other s' true
      else String " " (collapse_other s' true)
  end.

(** [normalizeSearchText], lines 155-162. *)
Definition normalizeSearchText (value : string) : string :=
  Str.trim (collapse_other (remove_marks (normalizeNFD (toLowerCaseU value))) false).

(** [matchesTokens], lines 164-167. *)
Definition matchesTokens (text : string) (tokens : list string) : bool :=
  if (List.length tokens =? 0)%nat then true
  else List.forallb (fun token => Str.includes text token) tokens.

(** [split(/\s+/)] on a normalized text, whose only white space is
    the space character, and [filter(Boolean)]. *)
Definition split_tokens (s : string) : list string :=
  List.filter (fun t => negb (Str.is_empty t)) (Str.split_on Str.ws1 s).

(** [replace(/^tag:/i, "")] *)
Definition strip_tag_prefix (s : string) : string :=
  match s with
  | String a (String b (String c (String d r))) =>
      if String.eqb (Str.toLowerCase (String a (String b (String c (String d ""))))) "tag:"
      then r else s
  | _ => s
  end.

(** [searchBookmarks], lines 65-109. *)
Definition searchBookmarks (bookmarks : list Bookmark) (query : string) : list Bookmark :=
  let trimmedQuery := Str.trim query in
  if Str.is_empty trimmedQuery then bookmarks
  else
    let tagOnly :=
      Str.startsWith trimmedQuery "#"
      || Str.startsWith (toLowerCaseU trimmedQuery) "tag:" in
    let rawTagQuery :=
      if tagOnly
      then Str.trim (strip_tag_prefix (Str.drop_while (Ascii.eqb "#") trimmedQuery))
      else trimmedQuery in
    let normalizedQuery := normalizeSearchText rawTagQuery in
    let tokens := split_tokens normalizedQuery in
    if (List.length tokens =? 0)%nat then
      if negb tagOnly then bookmarks
      else List.filter (fun bookmark => (0 <? List.length (nullish (tags bookmark) []))%nat)
                       bookmarks
    else
      List.filter
        (fun bookmark =>
           let title := normalizeSearchText (title bookmark) in
           let url := normalizeSearchText (url bookmark) in
           let description := normalizeSearchText (description bookmark) in
           let tags := List.map normalizeSearchText (nullish (tags bookmark) []) in
           let tagsText := Str.join " " tags in
           if tagOnly then matchesTokens tagsText tokens
           else
             let combined := Str.join " " [title; url; description; tagsText] in
             if matchesTokens combined tokens then true
             else
               match tokens with
               | [token] =>
                   let compactToken := Str.filter (fun c => negb (Str.ws1 c)) token in
                   if Str.is_empty compactToken then false
                   else
                     let compactCombined := Str.filter (fun c => negb (Str.ws1 c)) combined in
                     Str.includes compactCombined compactToken
               | _ => false
               end)
        bookmarks.

End Search.

(* ================================================================== *)
(** * Notions used by the statements *)
(* ================================================================== *)

(** The value of [canonicalize], which never throws (see
    [canonicalize_returns] below). *)
Definition canonical_key (u : string) : string :=
  match canonicalize u with
  | Returns k => k
  | Throws _ => u
  end.

(** The parse that [stripRefParam] and [normalizeCompareUrl] attempt on
    their argument: [new URL(normalizeUrl(url.trim()))]. *)
Definition parse_attempt (url : string) : Outcome URLObject :=
  normalized <- normalizeUrl (Str.trim url) ;;
  URL_new normalized.

(** [url] fails URL parsing: the attempt throws. *)
Definition fails_parsing (url : string) : Prop :=
  exists e, parse_attempt url = Throws e.

(** A string has a scheme, in the sense of the URL Standard's scheme
    start state and scheme state. *)
Definition has_scheme (s : string) : bool :=
  match split_scheme s with
  | Some _ => true
  | None => false
  end.

(** A bookmark of the sentinel collection. *)
Definition in_default (b : Bookmark) : bool :=
  String.eqb (collectionId b) "default".

(** Two bookmarks agree on every field that [dedupeBookmarks] is meant
    to leave alone. *)
Definition same_payload (r b : Bookmark) : Prop :=
  id r = id b /\ title r = title b /\ description r = description b
  /\ icon r = icon b /\ image r = image b /\ tags r = tags b
  /\ collectionId r = collectionId b.

(** An entry of the map of [dedupeBookmarks] that is the stored form of
    one of the bookmarks, under that bookmark's key. *)
Definition from_input (now : nat -> Z) (bookmarks : list Bookmark)
           (k : string) (v : Bookmark) : Prop :=
  exists b n, In b bookmarks
              /\ canonicalize (url b) = Returns k
              /\ v = fst (stored now n b k).



(** The string that [normalizeUrl] hands to the parser (utils line 47). *)
Definition with_scheme (url : string) : string :=
  if Str.startsWith url "http" then url else "https://" ++ url.

(** [normalizeUrl] reads [x] as the URL [o]: its own parse, of the
    trimmed string with [https://] in front unless it starts with
    [http], succeeds with [o].  This is the test of [isLikelyUrl]
    (utils line 129); these are the valid URL strings of the
    specification. *)
Definition reads_as (x : string) (o : URLObject) : Prop :=
  URL_new (with_scheme (Str.trim x)) = Returns o.


(** The object that [normalizeCompareUrl] prints, storage lines 16-26,
    from the one it has parsed. *)
Definition compare_form (parsed : URLObject) : URLObject :=
  let parsed := set_hostname (Str.replace_prefix "www." (hostname parsed)) parsed in
  let parsed := set_hash "" parsed in
  let parsed := searchParams_delete "ref" parsed in
  let parsed := List.fold_left delete_if_utm (searchParams_keys parsed) parsed in
  if negb (String.eqb (pathname parsed) "/") && Str.endsWith (pathname parsed) "/"
  then set_pathname (Str.slice_0_m1 (pathname parsed)) parsed
  else parsed.

(** An [http:] or [https:] URL. *)
Definition is_http (o : URLObject) : bool :=
  String.eqb (scheme (record o)) "http" || String.eqb (scheme (record o)) "https".

(** The query parameters that [canonicalize] removes. *)
Definition is_utm (key : string) : bool :=
  Str.startsWith (Str.toLowerCase key) "utm_".

Definition tracking (key : string) : bool :=
  String.eqb key "ref" || is_utm key.

(** The other parameters, in their order. *)
Definition kept_params (o : URLObject) : list (string * string) :=
  List.filter (fun nv => negb (tracking (fst nv))) (params o).

(** Two strings that are equal, or differ by [pre] in front of one of
    them that is not already in front of the other. *)
Definition prefix_variant (pre a b : string) : Prop :=
  a = b
  \/ (a = pre ++ b /\ Str.startsWith b pre = false)
  \/ (b = pre ++ a /\ Str.startsWith a pre = false).

(** The same with [post] at the end. *)
Definition suffix_variant (post a b : string) : Prop :=
  a = b
  \/ (a = b ++ post /\ Str.endsWith b post = false)
  \/ (b = a ++ post /\ Str.endsWith a post = false).

(** Two URLs that differ only by a [www.] host prefix, a trailing
    slash, a fragment, or [ref] and [utm_*] query parameters. *)
Definition decoration_only (a b : URLObject) : Prop :=
  scheme (record a) = scheme (record b)
  /\ username (record a) = username (record b)
  /\ password (record a) = password (record b)
  /\ port (record a) = port (record b)
  /\ prefix_variant "www." (hostname a) (hostname b)
  /\ suffix_variant "/" (pathname a) (pathname b)
  /\ kept_params a = kept_params b.

(** The two URLs of the example of the specification, the first one
    with the scheme of the second:
    [https://www.example.com/page/?ref=abc&utm_source=x#frag] and
    [https://example.com/page]. *)
Definition decorated_example : URLObject :=
  mkObject
    (mkURL "https" "" "" (Some "www.example.com") None (Segments ["page"; ""])
           (Some "ref=abc&utm_source=x") (Some "frag"))
    [("ref", "abc"); ("utm_source", "x")].

Definition plain_example : URLObject :=
  mkObject
    (mkURL "https" "" "" (Some "example.com") None (Segments ["page"]) None None)
    [].

(* ================================================================== *)
(** * Well-formed URL records *)
(* ================================================================== *)

(** The shape of the records that the parser of [URLStd] produces, and
    that the setters called by the code preserve.  Every well-formed
    record is parsed back from its serialization. *)
Module WF.
Import Chars URLStd.

(** No character of [s] is in [set]. *)
Definition no_chars (set : ascii -> bool) (s : string) : bool :=
  Str.forallb (fun c => negb (set c)) s.

(** The characters that end a host in an authority. *)
Definition host_delim (c : ascii) : bool :=
  mem c ["/"; "\"; "?"; "#"; ":"; "@"]%char.

Definition query_delim (c : ascii) : bool := mem c ["?"; "#"]%char.

Definition wf_scheme (sch : string) : bool :=
  match sch with
  | String c _ => is_lower c
  | EmptyString => false
  end
  && Str.forallb (fun c => is_scheme_char c && negb (is_upper c)) sch
  && negb (String.eqb sch "file").

Definition wf_host (special : bool) (h : string) : bool :=
  match host_parse (negb special) h with
  | Some h' => String.eqb h' h
  | None => false
  end
  && no_chars host_delim h
  && Str.forallb Str.plain h.

Definition wf_port (sch : string) (p : option N) : bool :=
  match p with
  | Some n =>
      (n <=? 65535)%N
      && negb (match default_port sch with Some d => (d =? n)%N | None => false end)
  | None => true
  end.

Definition is_none {A : Type} (x : option A) : bool :=
  match x with Some _ => false | None => true end.

(** A segment of a path list. *)
Definition seg_ok (special : bool) (seg : string) : bool :=
  no_chars path_set seg
  && no_chars (is_slash special) seg
  && negb (is_single_dot seg)
  && negb (is_double_dot seg).

Definition wf_authority (u : URL) : bool :=
  let special := is_special u in
  no_chars userinfo_set (username u)
  && no_chars userinfo_set (password u)
  && wf_port (scheme u) (port u)
  && match host u with
     | Some h =>
         wf_host special h
         && (negb (Str.is_empty h)
             || (negb special && negb (includes_credentials u) && is_none (port u)))
     | None => negb special && negb (includes_credentials u) && is_none (port u)
     end.

Definition wf_path (u : URL) : bool :=
  let special := is_special u in
  match path u with
  | Opaque p =>
      negb special && is_none (host u)
      && no_chars c0_control_set p && no_chars query_delim p
      && negb (Str.startsWith p "/")
      && (String.eqb (Str.drop_while_end is_space p) p
          || negb (is_none (query u)) || negb (is_none (fragment u)))
  | Segments l =>
      List.forallb (seg_ok special) l
      && match l with
         | [] => negb special && negb (is_none (host u))
         | _ => true
         end
  end.

Definition wf_query (u : URL) : bool :=
  match query u with
  | Some q => no_chars (if is_special u then special_query_set else query_set) q
  | None => true
  end.

Definition wf_fragment (u : URL) : bool :=
  match fragment u with
  | Some f => no_chars fragment_set f
  | None => true
  end.

Definition wf_url (u : URL) : bool :=
  wf_scheme (scheme u) && wf_authority u && wf_path u && wf_query u && wf_fragment u.

(** [P] holds of every number below [k]; used to settle facts about
    ports and octets by evaluation. *)
Fixpoint all_below (k : nat) (P : N -> bool) : bool :=
  match k with
  | O => true
  | S k' => P (N.of_nat k') && all_below k' P
  end.

(** The decimal numeral of [n] is made of digits and reads back as
    [n], as a port and as a part of an IPv4 address. *)
Definition decimal_ok (n : N) : bool :=
  match decimal n with
  | EmptyString => false
  | String c _ =>
      is_digit c
      && Str.forallb is_digit (decimal n)
      && (digits_value 10 (decimal n) 0 =? n)%N
      && match ipv4_number (decimal n) with
         | Some m => (m =? n)%N
         | None => false
         end
  end.

(** A string that the lossy UTF-8 decoder leaves as it is. *)
Definition utf8_clean (s : string) : Prop := utf8_lossy s = s.

(** A [URL] object whose record is well formed and whose
    [searchParams] list is the one of its query. *)
Definition wf_object (o : URLObject) : Prop :=
  wf_url (record o) = true
  /\ params o = urlencoded_parse (nullish (query (record o)) "").

End WF.

(* ================================================================== *)
(** * Notions used by the proofs *)
(* ================================================================== *)

Module ProofNotions.
Import Chars Str URLStd WF.

(** [s] is empty or its first character fails [p]. *)
Definition stops (p : ascii -> bool) (s : string) : bool :=
  match s with
  | EmptyString => true
  | String c _ => negb (p c)
  end.

(** [s] is empty or its last character fails [p]. *)
Definition ends_clear (p : ascii -> bool) (s : string) : Prop :=
  drop_while_end p s = s.

(** The characters that percent encoding writes. *)
Definition escapes (q : ascii -> bool) : Prop :=
  List.forallb q (list_ascii_of_string "%0123456789ABCDEF") = true.

Definition is_char (c : ascii) : ascii -> bool := fun x => Ascii.eqb x c.

Definition all_ascii : list ascii := List.map ascii_of_nat (List.seq 0 256).

Definition digit_char (k : N) : ascii := ascii_of_N (48 + k).

Definition digit_or_dot (c : ascii) : bool := is_digit c || is_dot c.

(** The four parts of a serialized address, for octets [a b c d]. *)
Definition dotted (a b c d : N) : string :=
  decimal a ++ "." ++ decimal b ++ "." ++ decimal c ++ "." ++ decimal d.

(** A character that can stand in an authority. *)
Definition auth_char (c : ascii) : bool :=
  plain c && negb (is_slash true c) && negb (query_delim c).

(** A printable ASCII character, the space included. *)
Definition vis (c : ascii) : bool := (32 <=? code c)%N && (code c <? 127)%N.

Definition port_string (p : option N) : string :=
  match p with Some n => ":" ++ decimal n | None => "" end.

Definition query_string (q : option string) : string :=
  match q with Some q => "?" ++ q | None => "" end.

Definition fragment_string (f : option string) : string :=
  match f with Some f => "#" ++ f | None => "" end.

(** Reading [pend] from the start state leads to the state
    [(need, lo, hi, pend)]. *)
Definition pending (need : nat) (lo hi : N) (pend : string) : Prop :=
  forall t, utf8_lossy (pend ++ t) = utf8_go t need lo hi pend.

Definition escape_ok (c : ascii) : bool :=
  let a := hex_digit (code c / 16) in
  let b := hex_digit (code c mod 16) in
  is_hex_digit a && is_hex_digit b
  && Ascii.eqb (ascii_of_N (16 * hex_value a + hex_value b)) c
  && Ascii.eqb (plus_to_space a) a && Ascii.eqb (plus_to_space b) b.

Definition decode_form (s : string) : string :=
  percent_decode (map plus_to_space s).

(** What the serializer writes: letters, digits, [*-._], [+], [%],
    [=] and [&]. *)
Definition form_char (c : ascii) : bool :=
  negb (urlencoded_set c) || mem c ["+"; "%"; "="; "&"]%char.

Definition name_char (c : ascii) : bool :=
  negb (urlencoded_set c) || mem c ["+"; "%"]%char.

Definition pair_string (nv : string * string) : string :=
  urlencoded_encode (fst nv) ++ "=" ++ urlencoded_encode (snd nv).

Definition clean_pair (nv : string * string) : Prop :=
  utf8_clean (fst nv) /\ utf8_clean (snd nv).

Definition mem_string (k : string) (ks : list string) : bool :=
  List.existsb (String.eqb k) ks.

(** The canonical form of an [http(s)] URL, field by field: one
    leading [www.] of the host removed (unless nothing else is left),
    one trailing slash of a path other than [/] removed, no fragment,
    and the query written again from the parameters that are kept. *)
Definition canon_host (h : string) : string :=
  let v := replace_prefix "www." h in
  if is_empty v then h else v.

Definition canon_segs (segs : list string) : list string :=
  match List.rev segs with
  | EmptyString :: ((_ :: _) as r) => List.rev r
  | _ => segs
  end.

Definition query_of (l : list (string * string)) : option string :=
  match urlencoded_serialize l with
  | EmptyString => None
  | q => Some q
  end.

Definition canon_obj (o : URLObject) : URLObject :=
  let u := record o in
  mkObject
    (mkURL (scheme u) (username u) (password u)
           (option_map canon_host (host u)) (port u)
           (match path u with
            | Segments segs => Segments (canon_segs segs)
            | Opaque p => Opaque p
            end)
           (query_of (kept_params o)) None)
    (kept_params o).

(** The hostname setter leaves the host alone when it is given the
    empty string for a URL that cannot have an empty host. *)
Definition host_blocked (u : URL) (v : string) : bool :=
  is_empty v
  && (is_special u || includes_credentials u
      || match port u with Some _ => true | None => false end).

(** The canonical form of any URL, as a composition of updates of the
    record: the host without one leading [www.], no fragment, the query
    of the parameters that are kept, the path list without one trailing
    empty segment. *)
Definition canon_host_of (u : URL) : option string :=
  if has_opaque_path u then host u
  else
    let v := replace_prefix "www." (nullish (host u) "") in
    if host_blocked u v then host u else Some v.

Definition canon_path_of (p : URLPath) : URLPath :=
  match p with
  | Opaque s => Opaque s
  | Segments l => Segments (canon_segs l)
  end.

(** The record of the canonical form before the path is settled. *)
Definition canon_record (o : URLObject) : URL :=
  update_query (kept_params o)
    (strip_opaque_path
       (set_fragment None (set_host (canon_host_of (record o)) (record o)))).

Definition canon_form (o : URLObject) : URLObject :=
  let l := kept_params o in
  let u := record o in
  let u4 :=
    update_query l (strip_opaque_path (set_fragment None (set_host (canon_host_of u) u))) in
  mkObject (set_path (canon_path_of (path u4)) u4) l.

(** Splits a hypothesis that is a boolean conjunction. *)
Ltac split_andb H :=
  repeat match type of H with
         | (_ && _ = true) =>
             let H' := fresh in
             apply andb_true_iff in H; destruct H as [H H']
         end.

(** Concludes one conjunct of a property of a character from the
    conjunction in the context. *)
Ltac pick_conjunct :=
  let c := fresh "c" in let Hc := fresh "Hc" in
  intros c Hc; cbv beta in Hc; unfold auth_char in Hc; split_andb Hc;
  first [ assumption
        | unfold auth_char;
          repeat match goal with
                 | |- (_ && _ = true) => apply andb_true_iff; split
                 end;
          assumption ].

End ProofNotions.

(* ================================================================== *)
(** * [src/lib/utils/index.ts]: duplicates, domains and likely URLs *)
(* ================================================================== *)


(** The callback of [find] at utils lines 59-61, applied to the
    bookmarks in their order until it holds. *)
Fixpoint find_duplicate (normalized : string) (bookmarks : list Bookmark)
  : Outcome (option Bookmark) :=
  match bookmarks with
  | [] => Returns None
  | b :: rest =>
      s <- stripRefParam (url b) ;;
      if String.eqb s normalized then Returns (Some b)
      else find_duplicate normalized rest
  end.

(** [isDuplicateUrl], utils lines 54-63; [None] is [null]. *)
Definition isDuplicateUrl (url : string) (bookmarks : list Bookmark)
  : Outcome (option Bookmark) :=
  normalized <- stripRefParam url ;;
  find_duplicate normalized bookmarks.

(** [getDomainFromUrl], utils lines 111-118. *)
Definition getDomainFromUrl (url : string) : Outcome string :=
  try_catch
    (urlObj <- URL_new url ;;
     Returns (Str.replace_first "www." (hostname urlObj)))
    (Returns "").

(** [isLikelyUrl], utils lines 120-134. *)
Definition isLikelyUrl (value : string) : Outcome bool :=
  if Str.is_empty value then Returns false
  else
    let trimmed := Str.trim value in
    if Str.includes trimmed " " then Returns false
    else
      try_catch
        (_ <- URL_new (if Str.startsWith trimmed "http" then trimmed
                       else "https://" ++ trimmed) ;;
         Returns true)
        (Returns false).

(* ================================================================== *)
(** * [src/lib/utils/index.ts]: tag colours *)
(* ================================================================== *)

(** The UTF-16 code units of a string, which [charCodeAt] reads, from
    its UTF-8 bytes: a sequence of one, two or three bytes is one code
    unit, a sequence of four bytes is a surrogate pair. *)
Fixpoint utf16_units (s : string) : list Z :=
  match s with
  | EmptyString => []
  | String a s1 =>
      let x := Z.of_N (Chars.code a) in
      if (x <? 192)%Z then x :: utf16_units s1
      else
        match s1 with
        | EmptyString => [x]
        | String b s2 =>
            let y := Z.land (Z.of_N (Chars.code b)) 63 in
            if (x <? 224)%Z then (Z.land x 31 * 64 + y)%Z :: utf16_units s2
            else
              match s2 with
              | EmptyString => [x; Z.of_N (Chars.code b)]
              | String c s3 =>
                  let z := Z.land (Z.of_N (Chars.code c)) 63 in
                  if (x <? 240)%Z
                  then (Z.land x 15 * 4096 + y * 64 + z)%Z :: utf16_units s3
                  else
                    match s3 with
                    | EmptyString => [x; Z.of_N (Chars.code b); Z.of_N (Chars.code c)]
                    | String d s4 =>
                        let w := Z.land (Z.of_N (Chars.code d)) 63 in
                        let cp := (Z.land x 7 * 262144 + y * 4096 + z * 64 + w - 65536)%Z in
                        (55296 + cp / 1024)%Z :: (56320 + cp mod 1024)%Z :: utf16_units s4
                    end
              end
        end
  end.

(** [tagColorOptions], utils lines 17-26. *)
Definition tagColorOptions : list string :=
  ["bg-amber-100 text-amber-900 border-amber-200";
   "bg-emerald-100 text-emerald-900 border-emerald-200";
   "bg-sky-100 text-sky-900 border-sky-200";
   "bg-rose-100 text-rose-900 border-rose-200";
   "bg-violet-100 text-violet-900 border-violet-200";
   "bg-lime-100 text-lime-900 border-lime-200";
   "bg-orange-100 text-orange-900 border-orange-200";
   "bg-cyan-100 text-cyan-900 border-cyan-200"].

(** The loop of utils lines 143-145 over the code units of the tag. *)
Fixpoint tag_hash (units : list Z) (hash : Z) : Z :=
  match units with
  | [] => hash
  | c :: rest => tag_hash rest ((hash * 31 + c) mod 2147483647)%Z
  end.

(** A value that is not [undefined] and not the empty string. *)
Definition truthy (v : option string) : option string :=
  match v with
  | Some EmptyString => None
  | Some c => Some c
  | None => None
  end.

(** [getTagColorClasses], utils lines 136-148.  [tagColorMap], when it
    is given, is read through its lookup [tagColorMap[tag]]; the answer
    [None] is [undefined]. *)
Definition getTagColorClasses (tag : string) (tagColorMap : option (string -> option string))
  : option string :=
  if Str.is_empty tag then Some "bg-black/5 text-black/70 border-black/10"
  else
    match match tagColorMap with Some m => truthy (m tag) | None => None end with
    | Some c => Some c
    | None =>
        let hash := tag_hash (utf16_units tag) 0 in
        let index := (Z.abs hash mod Z.of_nat (List.length tagColorOptions))%Z in
        List.nth_error tagColorOptions (Z.to_nat index)
    end.


(* ================================================================== *)
(** * The metadata module: description, icon and image *)
(* ================================================================== *)

(** [o.origin]: for the schemes [ftp], [http], [https], [ws] and [wss]
    the scheme, the host and the port; for [blob] the origin of the URL
    that the path holds when that is an [http] or [https] URL; the text
    [null] of an opaque origin otherwise. *)
Definition tuple_origin (u : URL) : string :=
  scheme u ++ "://"
  ++ match host u with Some h => h | None => "" end
  ++ match port u with Some n => ":" ++ decimal n | None => "" end.

Definition origin (o : URLObject) : string :=
  let u := record o in
  if List.existsb (String.eqb (scheme u)) ["ftp"; "http"; "https"; "ws"; "wss"]
  then tuple_origin u
  else if String.eqb (scheme u) "blob" then
    match basic_parse (serialize_path (path u)) with
    | Some v =>
        if String.eqb (scheme v) "http" || String.eqb (scheme v) "https"
        then tuple_origin v else "null"
    | None => "null"
    end
  else "null".

(** The patterns of the metadata module all have one shape, matched
    with the flag [i]: [<], the tag name, any characters but [>], an
    attribute with [=], a quote of either kind, the attribute's value,
    a quote, any characters but [>], a second attribute with [=], a
    quote, the group (any characters but quotes), a quote. *)
Definition tag_re (tag attr value target : string) : Regex.regex :=
  (Regex.lit ("<" ++ tag) ++ [Regex.Star true [">"%char]] ++ Regex.lit (attr ++ "=")
   ++ [Regex.Class false Metadata.quotes] ++ Regex.lit value
   ++ [Regex.Class false Metadata.quotes; Regex.Star true [">"%char]]
   ++ Regex.lit (target ++ "=")
   ++ [Regex.Class false Metadata.quotes; Regex.Group true Metadata.quotes;
       Regex.Class false Metadata.quotes])%list.

(** Lines 30, 34 and 38. *)
Definition og_description_re : Regex.regex := tag_re "meta" "property" "og:description" "content".
Definition twitter_description_re : Regex.regex :=
  tag_re "meta" "name" "twitter:description" "content".
Definition description_re : Regex.regex := tag_re "meta" "name" "description" "content".




(** [html.match(re)] followed by the test [match && match[1]]. *)
Definition group_of (re : Regex.regex) (html : string) : option string :=
  Metadata.truthy_group (Regex.match_group true re html).

(** [extractDescription], lines 28-42. *)
Definition extractDescription (html : string) : string :=
  match group_of og_description_re html with
  | Some g => Metadata.decodeHtmlEntities g
  | None =>
  match group_of twitter_description_re html with
  | Some g => Metadata.decodeHtmlEntities g
  | None =>
  match group_of description_re html with
  | Some g => Metadata.decodeHtmlEntities g
  | None => ""
  end end end.



(* ================================================================== *)
(** * [src/lib/utils/index.ts]: the URLs of a markdown text *)
(* ================================================================== *)

(** The patterns of [extractUrlsFromMarkdown] are matched by hand; each
    matcher answers, for a match at the head of the text, what the
    code reads of the match and the number of characters matched. *)

(** The position of the first occurrence of [p] in [s]. *)
Fixpoint index_of (p s : string) : option nat :=
  if Str.prefixb p s then Some O
  else match s with
       | EmptyString => None
       | String _ s' => option_map S (index_of p s')
       end.

(** Line 183: three backquotes, as few characters of any kind as
    possible, three backquotes. *)
Definition fence_match (s : string) : option nat :=
  match Str.strip_prefix "```" s with
  | Some body => option_map (fun k => (3 + k + 3)%nat) (index_of "```" body)
  | None => None
  end.

(** Line 184: a backquote, one or more characters other than a
    backquote, a backquote. *)
Definition code_match (s : string) : option nat :=
  match s with
  | String "`" body =>
      match Str.span (fun c => negb (Ascii.eqb c "`")) body with
      | (String _ _ as inner, String _ _) => Some (1 + String.length inner + 1)%nat
      | _ => None
      end
  | _ => None
  end.

(** [s.replace(re, "")] for a pattern with the flag [g] whose matches
    are never empty; [skip] characters of [s] belong to the match that
    was just removed. *)
Fixpoint remove_all (re : string -> option nat) (s : string) (skip : nat) : string :=
  match s with
  | EmptyString => EmptyString
  | String c s' =>
      match skip with
      | S k => remove_all re s' k
      | O =>
          match re s with
          | Some (S k) => remove_all re s' k
          | _ => String c (remove_all re s' 0)
          end
      end
  end.

(** Line 187: [[], one or more characters other than []], [](], the
    group of one or more characters other than [)], and [)]; the
    answer is that group. *)
Definition link_match (s : string) : option (string * nat) :=
  match s with
  | String "[" s1 =>
      match Str.span (fun c => negb (Ascii.eqb c "]")) s1 with
      | (String _ _ as text, String _ (String "(" s2)) =>
          match Str.span (fun c => negb (Ascii.eqb c ")")) s2 with
          | (String _ _ as target, String _ _) =>
              Some (target, (1 + String.length text + 2 + String.length target + 1)%nat)
          | _ => None
          end
      | _ => None
      end
  | _ => None
  end.

(** White space, in the sense of [\s], at the head of the bytes. *)
Definition ws_head (s : string) : bool :=
  match s with
  | String a s1 =>
      Str.ws1 a
      || match s1 with
         | String b s2 =>
             Str.ws2 a b
             || match s2 with
                | String c _ => Str.ws3 a b c
                | EmptyString => false
                end
         | EmptyString => false
         end
  | EmptyString => false
  end.

(** The longest prefix matched by [[^\s\)]*]. *)
Fixpoint url_chars (s : string) : string :=
  match s with
  | EmptyString => EmptyString
  | String a s' =>
      if ws_head s || Ascii.eqb a ")" then EmptyString
      else String a (url_chars s')
  end.

(** [s.split(/\s+/)[0]] for a string without white space in front. *)
Fixpoint first_word (s : string) : string :=
  match s with
  | EmptyString => EmptyString
  | String a s' => if ws_head s then EmptyString else String a (first_word s')
  end.

(** Line 206, with the flag [i]: [http], an [s] or none, [://] and one
    or more characters other than white space and [)]; or else [www.]
    and one or more such characters.  The answer is the match. *)
Definition plain_match (s : string) : option (string * nat) :=
  let folded := Str.toLowerCase s in
  let with_head (head : string) :=
    match url_chars (String.substring (String.length head) (String.length s) s) with
    | EmptyString => None
    | rest =>
        let n := (String.length head + String.length rest)%nat in
        Some (String.substring 0 n s, n)
    end in
  let first :=
    if Str.startsWith folded "https://" then with_head "https://"
    else if Str.startsWith folded "http://" then with_head "http://"
    else None in
  match first with
  | Some r => Some r
  | None => if Str.startsWith folded "www." then with_head "www." else None
  end.

(** The matches of a pattern with the flag [g], as the [while] loops of
    lines 189 and 207 get them from [exec]. *)
Fixpoint all_matches (re : string -> option (string * nat)) (s : string) (skip : nat)
  : list string :=
  match s with
  | EmptyString => []
  | String _ s' =>
      match skip with
      | S k => all_matches re s' k
      | O =>
          match re s with
          | Some (m, S k) => m :: all_matches re s' k
          | _ => all_matches re s' 0
          end
      end
  end.

(** Lines 193-201 and 209-217: the array [urls]; the set [urlSet]
    holds the same strings. *)
Definition add_url (urls : list string) (url : string) : list string :=
  match try_catch
          (normalized <- normalizeUrl url ;;
           if negb (List.existsb (String.eqb normalized) urls)
           then Returns (urls ++ [normalized])%list
           else Returns urls)
          (Returns urls) with
  | Returns l => l
  | Throws _ => urls
  end.

(** The body of the first loop, lines 190-202. *)
Definition add_link (urls : list string) (target : string) : list string :=
  let url := first_word (Str.trim target) in
  if negb (Str.is_empty url) && negb (Str.startsWith url "#")
  then add_url urls url
  else urls.

(** The body of the second loop, lines 208-217. *)
Definition add_plain (urls : list string) (m : string) : list string :=
  add_url urls (Str.trim m).

(** [extractUrlsFromMarkdown], utils lines 177-221. *)
Definition extractUrlsFromMarkdown (markdown : string) : list string :=
  let withoutCodeBlocks := remove_all code_match (remove_all fence_match markdown 0) 0 in
  let urls := List.fold_left add_link (all_matches link_match withoutCodeBlocks 0) [] in
  List.fold_left add_plain (all_matches plain_match withoutCodeBlocks 0) urls.

(** A string that [normalizeUrl] hands back as it is. *)
Definition normalized_url (u : string) : Prop := normalizeUrl u = Returns u.

(* ================================================================== *)
(** * [src/lib/storage/index.ts]: the store of bookmarks *)
(* ================================================================== *)

(** What becomes of a request that [fetchJson] sends to the store: it
    is answered, or [fetchJson] throws (the request fails, or the
    status of the answer is not [ok]). *)
Inductive Reply : Type :=
| Answered
| Failed (e : JSError).

(** [getBookmarks], storage lines 150-161, in the browser; [store] is
    the list that the store holds. *)
Definition getBookmarks (reply : Reply) (store : list Bookmark) : Outcome (list Bookmark) :=
  try_catch
    (match reply with
     | Answered => Returns store
     | Failed e => Throws e
     end)
    (Returns []).

(** [saveBookmarks], storage lines 163-169; the value is the list that
    the store holds afterwards. *)
Definition saveBookmarks (reply : Reply) (bookmarks : list Bookmark)
  : Outcome (list Bookmark) :=
  match reply with
  | Answered => Returns bookmarks
  | Failed e => Throws e
  end.

(** [addBookmark], storage lines 171-175; [load] and [save] are the
    replies to its two requests. *)
Definition addBookmark (load save : Reply) (bookmark : Bookmark) (store : list Bookmark)
  : Outcome (list Bookmark) :=
  bookmarks <- getBookmarks load store ;;
  saveBookmarks save (bookmark :: bookmarks).

(** [deleteBookmark], storage lines 193-196. *)
Definition deleteBookmark (load save : Reply) (id0 : string) (store : list Bookmark)
  : Outcome (list Bookmark) :=
  loaded <- getBookmarks load store ;;
  let bookmarks := List.filter (fun b => negb (String.eqb (id b) id0)) loaded in
  saveBookmarks save bookmarks.

(** [deleteBookmarks], storage lines 198-204; [idSet.has] is membership
    in [ids]. *)
Definition deleteBookmarks (load save : Reply) (ids : list string) (store : list Bookmark)
  : Outcome (list Bookmark) :=
  loaded <- getBookmarks load store ;;
  let bookmarks :=
    List.filter (fun b => negb (List.existsb (String.eqb (id b)) ids)) loaded in
  saveBookmarks save bookmarks.

(** [{ ...bookmark, url: sanitizedUrl }] *)
Definition with_url (bookmark : Bookmark) (sanitizedUrl : string) : Bookmark :=
  mkBookmark (id bookmark) sanitizedUrl (title bookmark) (description bookmark)
             (icon bookmark) (image bookmark) (tags bookmark)
             (collectionId bookmark) (createdAt bookmark) (updatedAt bookmark).

(** The [map] of storage lines 209-216, with the counter
    [normalizedRef] that its callback increments. *)
Fixpoint strip_refs (bookmarks : list Bookmark) (normalizedRef : Z)
  : Outcome (list Bookmark * Z) :=
  match bookmarks with
  | [] => Returns ([], normalizedRef)
  | bookmark :: rest =>
      sanitizedUrl <- stripRefParam (url bookmark) ;;
      if negb (String.eqb sanitizedUrl (url bookmark)) then
        r <- strip_refs rest (normalizedRef + 1) ;;
        Returns (with_url bookmark sanitizedUrl :: fst r, snd r)
      else
        r <- strip_refs rest normalizedRef ;;
        Returns (bookmark :: fst r, snd r)
  end.

(** The object that [dedupeBookmarksByUrl] returns. *)
Record DedupeReport : Type := mkDedupeReport {
  removed : Z;
  normalizedRef : Z
}.

(** [dedupeBookmarksByUrl], storage lines 206-223; the value is the
    report and the list that the store holds afterwards. *)
Definition dedupeBookmarksByUrl (now : nat -> Z) (tick : nat) (load save : Reply)
           (store : list Bookmark) : Outcome (DedupeReport * list Bookmark) :=
  bookmarks <- getBookmarks load store ;;
  r <- strip_refs bookmarks 0 ;;
  let refStripped := fst r in
  let normalizedRef := snd r in
  deduped <- dedupeBookmarks now tick refStripped ;;
  let removed :=
    Z.max 0 (Z.of_nat (List.length bookmarks) - Z.of_nat (List.length deduped)) in
  if (0 <? removed)%Z || (0 <? normalizedRef)%Z then
    store' <- saveBookmarks save deduped ;;
    Returns (mkDedupeReport removed normalizedRef, store')
  else Returns (mkDedupeReport removed normalizedRef, store).


(** [Partial<Bookmark>]: the fields that an update names, each with the
    value it gives, which for a field that may be absent can be
    [undefined]. *)
Record BookmarkUpdates : Type := mkUpdates {
  set_id : option string;
  set_url : option string;
  set_title : option string;
  set_description : option string;
  set_icon : option (option string);
  set_image : option (option string);
  set_tags : option (option (list string));
  set_collectionId : option string;
  set_createdAt : option (option Z);
  set_updatedAt : option (option Z)
}.

(** [{ ...bookmark, ...updates, updatedAt: t }], storage lines 184-188. *)
Definition spread_updates (bookmark : Bookmark) (updates : BookmarkUpdates) (t : Z)
  : Bookmark :=
  mkBookmark (nullish (set_id updates) (id bookmark))
             (nullish (set_url updates) (url bookmark))
             (nullish (set_title updates) (title bookmark))
             (nullish (set_description updates) (description bookmark))
             (nullish (set_icon updates) (icon bookmark))
             (nullish (set_image updates) (image bookmark))
             (nullish (set_tags updates) (tags bookmark))
             (nullish (set_collectionId updates) (collectionId bookmark))
             (nullish (set_createdAt updates) (createdAt bookmark))
             (Some t).

(** [a.findIndex(p)]; [None] is [-1]. *)
Fixpoint findIndex {A : Type} (p : A -> bool) (a : list A) : option nat :=
  match a with
  | [] => None
  | x :: a' => if p x then Some O else option_map S (findIndex p a')
  end.

(** [a[index] = f(a[index])] for an [index] within the array. *)
Fixpoint assign_at {A : Type} (index : nat) (f : A -> A) (a : list A) : list A :=
  match a, index with
  | [], _ => []
  | x :: a', O => f x :: a'
  | x :: a', S i => x :: assign_at i f a'
  end.

(** [updateBookmark], storage lines 177-191; the value is the list
    that the store holds afterwards and the number of clock readings
    made. *)
Definition updateBookmark (now : nat -> Z) (tick : nat) (load save : Reply)
           (id0 : string) (updates : BookmarkUpdates) (store : list Bookmark)
  : Outcome (list Bookmark * nat) :=
  bookmarks <- getBookmarks load store ;;
  match findIndex (fun b => String.eqb (id b) id0) bookmarks with
  | Some index =>
      let bookmarks :=
        assign_at index (fun b => spread_updates b updates (now tick)) bookmarks in
      store' <- saveBookmarks save bookmarks ;;
      Returns (store', S tick)
  | None => Returns (store, tick)
  end.

(** The value of [stripRefParam], which never throws. *)
Definition stripped_url (u : string) : string :=
  match stripRefParam u with
  | Returns s => s
  | Throws _ => u
  end.

(** The bookmarks whose URL [stripRefParam] changes. *)
Definition carries_ref (b : Bookmark) : bool :=
  negb (String.eqb (stripped_url (url b)) (url b)).

(* ================================================================== *)
(** * [src/lib/storage/index.ts]: the store of collections *)
(* ================================================================== *)

(** [Collection] of [lib/types].  The interface declares [color] as
    present; the code guards it against being absent or empty. *)
Module Collection.
Record t : Type := mk {
  id : string;
  name : string;
  icon : string;
  color : option string;
  createdAt : Z;
  updatedAt : Z
}.
End Collection.






(* ================================================================== *)
(** * [src/components/settings/SettingsModal.tsx]: the export *)
(* ================================================================== *)

(** [s.replace(/c/g, r)] for a pattern of one character. *)
Fixpoint replace_char (c : ascii) (r : string) (s : string) : string :=
  match s with
  | EmptyString => EmptyString
  | String d s' => (if Ascii.eqb d c then r else String d "") ++ replace_char c r s'
  end.

(** [escapeHtml], SettingsModal lines 144-150. *)
Definition escapeHtml (value : string) : string :=
  replace_char "'" "&#39;"
    (replace_char Chars.dquote "&quot;"
       (replace_char ">" "&gt;"
          (replace_char "<" "&lt;"
             (replace_char "&" "&amp;" value)))).

(* ================================================================== *)
(** * Notions used by the further statements and their proofs *)
(* ================================================================== *)


(** The strings of [l] that are not in [seen], each at its first
    occurrence only. *)
Fixpoint first_seen (seen l : list string) : list string :=
  match l with
  | [] => []
  | k :: l' =>
      if List.existsb (String.eqb k) seen then first_seen seen l'
      else k :: first_seen (k :: seen) l'
  end.

(** The keys of a list of bookmarks, in its order. *)
Definition keys_of (bookmarks : list Bookmark) : list string :=
  List.map (fun b => canonical_key (url b)) bookmarks.

(** A record of the output of [dedupeBookmarks] that stands for the
    bookmark [b] alone: [b] with its key as [url], and a reading of the
    clock for each timestamp that [b] lacks. *)
Definition stored_form (now : nat -> Z) (b r : Bookmark) : Prop :=
  url r = canonical_key (url b)
  /\ same_payload r b
  /\ (exists n, updatedAt r = Some (nullish (updatedAt b) (now n)))
  /\ (exists n, createdAt r = Some (nullish (createdAt b) (now n))).

(** The characters of a normalized search text. *)
Definition is_text_char (c : ascii) : bool := is_search_char c || Ascii.eqb c " ".

(** No two spaces of [s] are next to each other. *)
Fixpoint single_spaced (s : string) : bool :=
  match s with
  | EmptyString => true
  | String c s' =>
      negb (is_space c && negb (ProofNotions.stops is_space s')) && single_spaced s'
  end.

Definition nonempty (s : string) : bool := negb (Str.is_empty s).

Definition no_space (c : ascii) : bool := negb (Ascii.eqb c " ").

(** The places of [a], from its end to its start, at which the rest of
    a pattern is tried after a greedy star has run over [a]; [init] is
    the outcome at the end of [a], [rest] what follows [a]. *)
Fixpoint scan_back (ci : bool) (re : Regex.regex) (init : option (string * string))
         (a rest : string) : option (string * string) :=
  match a with
  | EmptyString => init
  | String d a' =>
      match scan_back ci re init a' rest with
      | Some r => Some r
      | None => Regex.match_here ci re (String d a' ++ rest)
      end
  end.

(** The characters that the content of an attribute must not have for
    the patterns to find it: the quotes, [>] and [=]. *)
Definition attr_stop (c : ascii) : bool :=
  Chars.mem c [Chars.dquote; "'"; ">"; "="]%char.

(** A tag as the patterns expect it, up to the quote that closes it:
    the tag name, an attribute with its value and a second attribute
    with the content, each value between quotes. *)
Definition tag_text (tag attr value target : string) (q1 q2 : ascii) (content : string)
  : string :=
  "<" ++ tag ++ " " ++ attr ++ "=" ++ String q1 value ++ String q1 " "
      ++ target ++ "=" ++ String q2 content ++ String q2 "".

(** The characters that the text between the content and the end of
    the tag must not have: [>] and [=]. *)
Definition attr_end (c : ascii) : bool := Chars.mem c [">"; "="]%char.

Definition tail_of (s : string) : string :=
  match s with
  | String _ t => t
  | EmptyString => EmptyString
  end.

(* ================================================================== *)
(** * Outcomes of the URL functions *)
(* ================================================================== *)

Lemma try_catch_returns {A : Type} (body : Outcome A) (v : A) :
  exists r, try_catch body (Returns v) = Returns r.
Proof. destruct body as [a | e]; simpl; eauto. Qed.

Lemma try_catch_throws {A : Type} (body : Outcome A) (h : Outcome A) (e : JSError) :
  body = Throws e -> try_catch body h = h.
Proof. intros ->. reflexivity. Qed.

Lemma normalizeUrl_returns (url : string) :
  exists r, normalizeUrl url = Returns r.
Proof. apply try_catch_returns. Qed.

Lemma stripRefParam_returns (url : string) :
  exists r, stripRefParam url = Returns r.
Proof.
  unfold stripRefParam.
  destruct (Str.is_empty (Str.trim url)); [eauto | apply try_catch_returns].
Qed.

Lemma normalizeCompareUrl_returns (url : string) :
  exists r, normalizeCompareUrl url = Returns r.
Proof.
  unfold normalizeCompareUrl.
  destruct (Str.is_empty (Str.trim url)); [eauto | apply try_catch_returns].
Qed.

Lemma canonicalize_returns (url : string) :
  canonicalize url = Returns (canonical_key url).
Proof.
  unfold canonical_key, canonicalize.
  destruct (stripRefParam_returns url) as [s ->]. simpl.
  destruct (normalizeCompareUrl_returns s) as [k ->]. reflexivity.
Qed.

Lemma dedupe_loop_returns (now : nat -> Z) (bookmarks : list Bookmark) :
  forall byUrl tick, exists r, dedupe_loop now bookmarks byUrl tick = Returns r.
Proof.
  induction bookmarks as [| b rest IH]; intros byUrl tick; simpl.
  - eauto.
  - rewrite canonicalize_returns. simpl.
    destruct (preferIncoming _ b).
    + destruct (stored now tick b _) as [b' tick']. apply IH.
    + apply IH.
Qed.

Lemma dedupeBookmarks_returns (now : nat -> Z) (tick : nat) (bookmarks : list Bookmark) :
  exists out, dedupeBookmarks now tick bookmarks = Returns out.
Proof.
  unfold dedupeBookmarks.
  destruct (dedupe_loop_returns now bookmarks (JSMap.empty Bookmark) tick) as [r ->].
  simpl. eauto.
Qed.

(** When the parse attempt throws, both functions hand back their
    argument as it was given. *)
Lemma stripRefParam_fallback (url : string) :
  fails_parsing url -> stripRefParam url = Returns url.
Proof.
  intros [e He]. unfold stripRefParam, parse_attempt in *.
  destruct (Str.is_empty (Str.trim url)); [reflexivity |].
  destruct (normalizeUrl (Str.trim url)) as [n | e']; simpl in *.
  - destruct (URL_new n); [discriminate | reflexivity].
  - reflexivity.
Qed.

Lemma normalizeCompareUrl_fallback (url : string) :
  fails_parsing url -> normalizeCompareUrl url = Returns url.
Proof.
  intros [e He]. unfold normalizeCompareUrl, parse_attempt in *.
  destruct (Str.is_empty (Str.trim url)); [reflexivity |].
  destruct (normalizeUrl (Str.trim url)) as [n | e']; simpl in *.
  - destruct (URL_new n); [discriminate | reflexivity].
  - reflexivity.
Qed.

(* ================================================================== *)
(** * C5: failure semantics *)
(* ================================================================== *)

(** C5, as stated, fails: the string [" a b "] is not empty and does
    not parse, and its key is the string itself, with the spaces
    around it, not the trimmed ["a b"]. *)
Lemma canonicalize_untrimmed_fallback :
  ~ (forall s : string,
        Str.trim s <> "" -> fails_parsing s ->
        canonicalize s = Returns (Str.trim s)).
Proof.
  intros H.
  assert (Hk : canonicalize " a b " = Returns (Str.trim " a b ")).
  { apply H.
    - vm_compute. discriminate.
    - exists (TypeError "Invalid URL"). vm_compute. reflexivity. }
  vm_compute in Hk. discriminate.
Qed.

(** C5, amended: [canonicalize] and [dedupeBookmarks] never throw, and
    for every input string that fails URL parsing the key is the
    original input string, returned unchanged (white space around it
    included); so are the results of [stripRefParam] and
    [normalizeCompareUrl]. *)
Theorem canonicalize_never_throws_and_fallback (s : string) :
  (exists k, canonicalize s = Returns k)
  /\ (forall now tick bookmarks,
         exists out, dedupeBookmarks now tick bookmarks = Returns out)
  /\ (fails_parsing s ->
      stripRefParam s = Returns s
      /\ normalizeCompareUrl s = Returns s
      /\ canonicalize s = Returns s).
Proof.
  split; [| split].
  - exists (canonical_key s). apply canonicalize_returns.
  - intros. apply dedupeBookmarks_returns.
  - intros Hf. split; [| split].
    + now apply stripRefParam_fallback.
    + now apply normalizeCompareUrl_fallback.
    + unfold canonicalize. rewrite (stripRefParam_fallback Hf). simpl.
      now apply normalizeCompareUrl_fallback.
Qed.

Lemma canonicalize_never_throws_and_fallback_witness :
  fails_parsing " a b " /\ canonicalize " a b " = Returns " a b ".
Proof.
  assert (Hf : fails_parsing " a b ").
  { exists (TypeError "Invalid URL"). vm_compute. reflexivity. }
  split; [exact Hf |].
  exact (proj2 (proj2 (proj2 (proj2 (canonicalize_never_throws_and_fallback " a b ")) Hf))).
Defined.

(* ================================================================== *)
(** * C7: [resolveUrl] *)
(* ================================================================== *)

(** C7, as stated, fails: ["data:x"] has a scheme, and [resolveUrl]
    does not return it unchanged but puts the origin in front. *)
Lemma resolveUrl_scheme_counterexample :
  ~ (forall href origin : string,
        has_scheme href = true ->
        Metadata.resolveUrl href origin = Returns href).
Proof.
  intros H.
  specialize (H "data:x" "https://x.com" eq_refl).
  vm_compute in H. discriminate.
Qed.

(** C7, amended: for every [href] and [origin], [resolveUrl] returns
    [href] unchanged when [href] starts with the four characters
    [http]; otherwise prefixes [https:] when [href] starts with [//];
    otherwise prefixes [origin] when [href] starts with [/]; and
    otherwise returns [origin + "/" + href]. *)
Theorem resolveUrl_cases (href origin : string) :
  Metadata.resolveUrl href origin =
  Returns (if Str.startsWith href "http" then href
           else if Str.startsWith href "//" then "https:" ++ href
           else if Str.startsWith href "/" then origin ++ href
           else origin ++ "/" ++ href).
Proof.
  unfold Metadata.resolveUrl.
  destruct (Str.startsWith href "http"); [reflexivity |].
  destruct (Str.startsWith href "//"); [reflexivity |].
  destruct (Str.startsWith href "/"); reflexivity.
Qed.

(* ================================================================== *)
(** * C10: the empty search *)
(* ================================================================== *)

(** C10: for every bookmark list and every query string that is empty
    or trims to empty, [searchBookmarks] returns the input list
    unchanged. *)
Theorem searchBookmarks_blank_query
        (toLowerCaseU normalizeNFD : string -> string)
        (bookmarks : list Bookmark) (query : string) :
  Str.trim query = "" ->
  searchBookmarks toLowerCaseU normalizeNFD bookmarks query = bookmarks.
Proof.
  intros H. unfold searchBookmarks. rewrite H. reflexivity.
Qed.

Lemma searchBookmarks_blank_query_witness :
  let b := mkBookmark "1" "https://example.com/" "Example" "" None None
                      (Some ["news"]) "default" (Some 1%Z) (Some 2%Z) in
  Str.trim "  " = ""
  /\ searchBookmarks Str.toLowerCase (fun s => s) [b; b] "  " = [b; b].
Proof.
  split; [reflexivity |].
  apply (@searchBookmarks_blank_query Str.toLowerCase (fun s => s)).
  reflexivity.
Defined.

(* ================================================================== *)
(** * C6: the title fallback *)
(* ================================================================== *)

(** C6, evaluated where the code departs from it: the page has no
    title of any kind, the host name is [sub.www.example.com], which
    has no leading [www.], and [extractTitle] answers
    [sub.example.com]: [replace('www.', '')] removes the first
    occurrence of [www.] wherever it stands. *)
Theorem extractTitle_inner_www :
  let html := "<html><head></head></html>" in
  let url := "https://sub.www.example.com" in
  Regex.match_group true Metadata.og_title_re html = None
  /\ Regex.match_group true Metadata.twitter_title_re html = None
  /\ Regex.match_group true Metadata.title_re html = None
  /\ (urlObj <- URL_new url ;; Returns (hostname urlObj)) = Returns "sub.www.example.com"
  /\ Str.replace_prefix "www." "sub.www.example.com" = "sub.www.example.com"
  /\ Metadata.extractTitle html url = Returns "sub.example.com".
Proof. vm_compute. repeat split. Qed.

(* ================================================================== *)
(** * The map of [dedupeBookmarks] *)
(* ================================================================== *)

Section MapFacts.
Variable V : Type.
Implicit Types (m : JSMap.t V) (k : string) (v : V).

Lemma set_length m k v :
  (List.length (JSMap.set k v m) <= S (List.length m))%nat.
Proof.
  induction m as [| [k' v'] m IH]; simpl; [lia |].
  destruct (String.eqb k k'); simpl; lia.
Qed.

Lemma set_In m k v k0 v0 :
  In (k0, v0) (JSMap.set k v m) -> (k0 = k /\ v0 = v) \/ In (k0, v0) m.
Proof.
  induction m as [| [k' v'] m IH]; simpl.
  - intros [H | []]. inversion H. auto.
  - destruct (String.eqb_spec k k') as [-> | Hne]; simpl.
    + intros [H | H]; [inversion H; auto | auto].
    + intros [H | H]; [auto |]. destruct (IH H); auto.
Qed.

Lemma set_keys_In m k v k0 :
  In k0 (JSMap.keys (JSMap.set k v m)) -> k0 = k \/ In k0 (JSMap.keys m).
Proof.
  unfold JSMap.keys. rewrite !in_map_iff.
  intros [[k1 v1] [<- Hin]]. simpl.
  destruct (set_In _ _ _ _ _ Hin) as [[-> _] | H]; [auto |].
  right. exists (k1, v1). auto.
Qed.

Lemma set_keys_NoDup m k v :
  NoDup (JSMap.keys m) -> NoDup (JSMap.keys (JSMap.set k v m)).
Proof.
  induction m as [| [k' v'] m IH]; simpl; intros Hnd.
  - constructor; [intros [] | constructor].
  - inversion Hnd as [| ? ? Hnot Hnd']; subst.
    destruct (String.eqb_spec k k') as [-> | Hne]; simpl.
    + constructor; assumption.
    + constructor; [| now apply IH].
      intros Hin. apply set_keys_In in Hin. destruct Hin; [congruence | auto].
Qed.

Lemma get_head k v m : JSMap.get k ((k, v) :: m) = Some v.
Proof. simpl. now rewrite String.eqb_refl. Qed.

End MapFacts.

(* ================================================================== *)
(** * The loop of [dedupeBookmarks] *)
(* ================================================================== *)

Section DedupeFacts.
Variable now : nat -> Z.

Lemma stored_url tick b k : url (fst (stored now tick b k)) = k.
Proof.
  unfold stored. destruct (updatedAt b), (createdAt b); reflexivity.
Qed.

Lemma stored_payload tick b k : same_payload (fst (stored now tick b k)) b.
Proof.
  unfold stored, same_payload.
  destruct (updatedAt b), (createdAt b); simpl; repeat split.
Qed.

Lemma stored_updatedAt tick b k :
  updatedAt (fst (stored now tick b k)) = Some (nullish (updatedAt b) (now tick)).
Proof.
  unfold stored. destruct (updatedAt b), (createdAt b); reflexivity.
Qed.

Lemma stored_createdAt tick b k :
  exists n, createdAt (fst (stored now tick b k)) = Some (nullish (createdAt b) (now n)).
Proof.
  unfold stored.
  destruct (updatedAt b), (createdAt b); simpl;
    first [ now exists tick | now exists (S tick) ].
Qed.

Lemma dedupe_loop_invariant (bookmarks : list Bookmark) :
  forall byUrl tick r,
    dedupe_loop now bookmarks byUrl tick = Returns r ->
    NoDup (JSMap.keys byUrl) ->
    NoDup (JSMap.keys (fst r))
    /\ (List.length (fst r) <= List.length byUrl + List.length bookmarks)%nat
    /\ (forall k v, In (k, v) (fst r) -> In (k, v) byUrl \/ from_input now bookmarks k v).
Proof.
  induction bookmarks as [| b rest IH]; intros byUrl tick r Hrun Hnd; simpl in Hrun.
  - inversion Hrun; subst; simpl. repeat split; auto. lia.
  - rewrite canonicalize_returns in Hrun. simpl in Hrun.
    set (k := canonical_key (url b)) in *.
    destruct (preferIncoming (JSMap.get k byUrl) b).
    + destruct (stored now tick b k) as [b' tick'] eqn:Hst.
      apply IH in Hrun; [| now apply set_keys_NoDup].
      destruct Hrun as (Hn & Hl & Hin). repeat split; [assumption | |].
      * pose proof (set_length byUrl k b'). simpl. lia.
      * intros k0 v0 H0. destruct (Hin _ _ H0) as [H1 | (b0 & n & Hb & Hk & Hv)].
        -- apply set_In in H1. destruct H1 as [[-> ->] | H1]; [| auto].
           right. exists b, tick. repeat split; [now left | | ].
           ++ apply canonicalize_returns.
           ++ now rewrite Hst.
        -- right. exists b0, n. repeat split; [now right | assumption | assumption].
    + apply IH in Hrun; [| assumption].
      destruct Hrun as (Hn & Hl & Hin). repeat split; [assumption | simpl; lia |].
      intros k0 v0 H0. destruct (Hin _ _ H0) as [H1 | (b0 & n & Hb & Hk & Hv)]; [auto |].
      right. exists b0, n. repeat split; [now right | assumption | assumption].
Qed.

Lemma values_url_keys (m : JSMap.t Bookmark) :
  (forall k v, In (k, v) m -> url v = k) ->
  List.map url (JSMap.values m) = JSMap.keys m.
Proof.
  induction m as [| [k v] m IH]; simpl; intros H; [reflexivity |].
  f_equal; [apply H; now left | apply IH; intros; apply H; now right].
Qed.

(** What [dedupeBookmarks] returns, in terms of its input. *)
Lemma dedupeBookmarks_spec tick bookmarks out :
  dedupeBookmarks now tick bookmarks = Returns out ->
  (List.length out <= List.length bookmarks)%nat
  /\ NoDup (List.map url out)
  /\ (forall r, In r out -> from_input now bookmarks (url r) r).
Proof.
  unfold dedupeBookmarks. intros H.
  destruct (dedupe_loop now bookmarks (JSMap.empty Bookmark) tick) as [[m t] | e] eqn:Hl;
    simpl in H; [| discriminate].
  inversion H; subst out; clear H.
  apply dedupe_loop_invariant in Hl; [| constructor].
  simpl in Hl. destruct Hl as (Hn & Hlen & Hin).
  assert (Hfrom : forall k v, In (k, v) m -> from_input now bookmarks k v).
  { intros k v Hkv. destruct (Hin _ _ Hkv) as [[] | ?]; assumption. }
  assert (Hurl : forall k v, In (k, v) m -> url v = k).
  { intros k v Hkv. destruct (Hfrom _ _ Hkv) as (b & n & _ & _ & ->). apply stored_url. }
  repeat split.
  - unfold JSMap.values. rewrite length_map. simpl in Hlen. lia.
  - rewrite values_url_keys; assumption.
  - intros r Hr. unfold JSMap.values in Hr. apply in_map_iff in Hr.
    destruct Hr as [[k v] [<- Hkv]]. simpl.
    rewrite (Hurl _ _ Hkv). now apply Hfrom.
Qed.

End DedupeFacts.

(* ================================================================== *)
(** * C4: size and keys of the result *)
(* ================================================================== *)

(** C4, as stated, fails: the two URLs below get different keys, so
    both records are kept; the keys are what the output stores, and
    canonicalizing the stored values once more maps both to the same
    string. *)
Lemma dedupe_output_keys_collide :
  ~ (forall (now : nat -> Z) (tick : nat) (bookmarks out : list Bookmark),
        dedupeBookmarks now tick bookmarks = Returns out ->
        (List.length out <= List.length bookmarks)%nat
        /\ NoDup (List.map (fun r => canonical_key (url r)) out)).
Proof.
  intros H.
  pose (b := fun u => mkBookmark "1" u "" "" None None None "default" (Some 1%Z) (Some 1%Z)).
  destruct (H (fun _ => 0%Z) 0%nat
              [b "https://example.com/a//"; b "https://example.com/a"]
              [b "https://example.com/a/"; b "https://example.com/a"]) as [_ Hnd].
  - vm_compute. reflexivity.
  - vm_compute in Hnd. inversion Hnd as [| ? ? Hnot _]. apply Hnot. now left.
Qed.

(** C4, amended: for every input list, [dedupeBookmarks] returns at
    most as many records as it was given, and no two records of its
    output have the same stored [url]; each stored [url] is the
    canonical key that was computed for an input record.  Where
    [canonicalize] is idempotent on the URLs of the input, the stored
    [url]s are their own canonical keys, and no two records of the
    output have the same canonical key. *)
Theorem dedupe_no_growth_distinct_urls
        (now : nat -> Z) (tick : nat) (bookmarks : list Bookmark) :
  exists out,
    dedupeBookmarks now tick bookmarks = Returns out
    /\ (List.length out <= List.length bookmarks)%nat
    /\ NoDup (List.map url out)
    /\ (forall r, In r out ->
                  exists b, In b bookmarks /\ canonicalize (url b) = Returns (url r))
    /\ ((forall b, In b bookmarks ->
                   (k <- canonicalize (url b) ;; canonicalize k) = canonicalize (url b)) ->
        NoDup (List.map (fun r => canonical_key (url r)) out)).
Proof.
  destruct (dedupeBookmarks_returns now tick bookmarks) as [out Hout].
  exists out. split; [assumption |].
  destruct (dedupeBookmarks_spec _ _ _ Hout) as (Hlen & Hnd & Hfrom).
  assert (Hkey : forall r, In r out ->
                           exists b, In b bookmarks
                                     /\ canonicalize (url b) = Returns (url r)).
  { intros r Hr. destruct (Hfrom r Hr) as (b & n & Hb & Hk & _). eauto. }
  repeat split; try assumption.
  intros Hidem. rewrite (List.map_ext_in _ url); [assumption |].
  intros r Hr. destruct (Hkey r Hr) as (b & Hb & Hk).
  specialize (Hidem b Hb). rewrite Hk in Hidem. simpl in Hidem.
  unfold canonical_key. now rewrite Hidem.
Qed.

Lemma dedupe_no_growth_distinct_urls_witness :
  let b := fun u => mkBookmark "1" u "" "" None None None "default" (Some 1%Z) (Some 1%Z) in
  let bookmarks := [b "https://www.example.com/a/"; b "https://example.com/a"] in
  exists out,
    dedupeBookmarks (fun _ => 0%Z) 0 bookmarks = Returns out
    /\ NoDup (List.map (fun r => canonical_key (url r)) out).
Proof.
  intros b bookmarks.
  destruct (dedupe_no_growth_distinct_urls (fun _ => 0%Z) 0 bookmarks)
    as (out & Hout & _ & _ & _ & Hkeys).
  exists out. split; [exact Hout |]. apply Hkeys.
  intros x [<- | [<- | []]]; vm_compute; reflexivity.
Defined.

(* ================================================================== *)
(** * C8: what the result keeps of the input *)
(* ================================================================== *)

(** C8: for every input list, each record returned by
    [dedupeBookmarks] equals an input record with the same key (the
    winner for that key) in every field except [url], which is the
    canonical key, and [createdAt] and [updatedAt], which are the input
    record's when present and a reading of the clock when absent; [id],
    [title], [description], [icon], [image], [tags] and [collectionId]
    are unchanged. *)
Theorem dedupe_frame
        (now : nat -> Z) (tick : nat) (bookmarks out : list Bookmark) (r : Bookmark) :
  dedupeBookmarks now tick bookmarks = Returns out ->
  In r out ->
  exists b n1 n2,
    In b bookmarks
    /\ canonicalize (url b) = Returns (url r)
    /\ same_payload r b
    /\ updatedAt r = Some (nullish (updatedAt b) (now n1))
    /\ createdAt r = Some (nullish (createdAt b) (now n2)).
Proof.
  intros Hout Hr.
  destruct (dedupeBookmarks_spec _ _ _ Hout) as (_ & _ & Hfrom).
  destruct (Hfrom r Hr) as (b & n & Hb & Hk & Hv).
  destruct (stored_createdAt now n b (url r)) as [n2 Hc].
  pose proof (stored_payload now n b (url r)) as Hp.
  pose proof (stored_updatedAt now n b (url r)) as Hu.
  rewrite <- Hv in Hp, Hu, Hc.
  exists b, n, n2. repeat split; try assumption; apply Hp.
Qed.

Lemma dedupe_frame_witness :
  let now := fun n : nat => (1000 + Z.of_nat n)%Z in
  let a := mkBookmark "1" "http://a.com" "A" "first" None None (Some ["x"]) "default" None None in
  let b := mkBookmark "2" "http://www.a.com/?ref=z" "B" "second" (Some "i.png") None None "work"
                      (Some 7%Z) None in
  let r := mkBookmark "2" "http://a.com/" "B" "second" (Some "i.png") None None "work"
                      (Some 7%Z) (Some 1002%Z) in
  dedupeBookmarks now 0 [a; b] = Returns [r]
  /\ exists b0 n1 n2,
       In b0 [a; b]
       /\ canonicalize (url b0) = Returns (url r)
       /\ same_payload r b0
       /\ updatedAt r = Some (nullish (updatedAt b0) (now n1))
       /\ createdAt r = Some (nullish (createdAt b0) (now n2)).
Proof.
  intros now a b r.
  assert (Hrun : dedupeBookmarks now 0 [a; b] = Returns [r]) by (vm_compute; reflexivity).
  split; [exact Hrun |].
  apply (@dedupe_frame now 0%nat [a; b] [r] r Hrun).
  now left.
Defined.

(* ================================================================== *)
(** * C2: the conflict policy *)
(* ================================================================== *)





(* ================================================================== *)
(** * Facts about strings *)
(* ================================================================== *)

Unset Implicit Arguments.

Module StrFacts.
Import Chars Str ProofNotions.

Lemma app_nil_r (s : string) : s ++ "" = s.
Proof. induction s as [| c s IH]; simpl; [reflexivity | now rewrite IH]. Qed.

Lemma app_assoc (a b c : string) : (a ++ b) ++ c = a ++ b ++ c.
Proof. induction a as [| x a IH]; simpl; [reflexivity | now rewrite IH]. Qed.

Lemma app_eq_nil (a b : string) : a ++ b = "" -> a = "" /\ b = "".
Proof. destruct a; simpl; [auto | discriminate]. Qed.

Lemma forallb_app (p : ascii -> bool) (a b : string) :
  forallb p (a ++ b) = forallb p a && forallb p b.
Proof.
  induction a as [| c a IH]; simpl; [reflexivity |].
  rewrite IH. now rewrite andb_assoc.
Qed.

Lemma forallb_impl (p q : ascii -> bool) (s : string) :
  (forall c, p c = true -> q c = true) -> forallb p s = true -> forallb q s = true.
Proof.
  intros Hpq. induction s as [| c s IH]; simpl; [reflexivity |].
  intros H. apply andb_true_iff in H. destruct H as [Hc Hs].
  rewrite (Hpq _ Hc). now apply IH.
Qed.

Lemma forallb_map (p : ascii -> bool) (f : ascii -> ascii) (s : string) :
  forallb p (map f s) = forallb (fun c => p (f c)) s.
Proof. induction s as [| c s IH]; simpl; [reflexivity | now rewrite IH]. Qed.

Lemma map_id (f : ascii -> ascii) (s : string) :
  forallb (fun c => Ascii.eqb (f c) c) s = true -> map f s = s.
Proof.
  induction s as [| c s IH]; simpl; [reflexivity |].
  intros H. apply andb_true_iff in H. destruct H as [Hc Hs].
  apply Ascii.eqb_eq in Hc. rewrite Hc. now rewrite IH.
Qed.

Lemma filter_id (p : ascii -> bool) (s : string) :
  forallb p s = true -> filter p s = s.
Proof.
  induction s as [| c s IH]; simpl; [reflexivity |].
  intros H. apply andb_true_iff in H. destruct H as [Hc Hs].
  rewrite Hc. now rewrite IH.
Qed.

(** ** [span] and [drop_while] *)

Lemma span_app (p : ascii -> bool) (a b : string) :
  forallb p a = true -> stops p b = true -> span p (a ++ b) = (a, b).
Proof.
  intros Ha Hb. induction a as [| c a IH]; simpl in *.
  - destruct b as [| d b]; simpl in *; [reflexivity |].
    apply negb_true_iff in Hb. now rewrite Hb.
  - apply andb_true_iff in Ha. destruct Ha as [Hc Ha].
    rewrite Hc. now rewrite (IH Ha).
Qed.

Lemma span_all (p : ascii -> bool) (a : string) :
  forallb p a = true -> span p a = (a, "").
Proof.
  intros Ha. rewrite <- (app_nil_r a) at 1. now apply span_app.
Qed.

Lemma span_spec (p : ascii -> bool) (s : string) :
  forall a b, span p s = (a, b) ->
              s = a ++ b /\ forallb p a = true /\ stops p b = true.
Proof.
  induction s as [| c s IH]; simpl; intros a b H.
  - inversion H; subst. auto.
  - destruct (p c) eqn:Hc.
    + destruct (span p s) as [x y]. inversion H; subst.
      destruct (IH x b eq_refl) as (-> & Hx & Hy). simpl. rewrite Hc. auto.
    + inversion H; subst. simpl. rewrite Hc. auto.
Qed.

Lemma drop_while_stops (p : ascii -> bool) (s : string) :
  stops p s = true -> drop_while p s = s.
Proof.
  destruct s as [| c s]; simpl; [reflexivity |].
  intros H. apply negb_true_iff in H. now rewrite H.
Qed.

(** ** The end of a string *)

Lemma drop_while_end_nil (p : ascii -> bool) (s : string) :
  drop_while_end p s = "" -> forallb p s = true.
Proof.
  induction s as [| c s IH]; simpl; [reflexivity |].
  destruct (drop_while_end p s) eqn:Hd; [| discriminate].
  destruct (p c); [intros _; now rewrite IH | discriminate].
Qed.

Lemma drop_while_end_all (p : ascii -> bool) (s : string) :
  forallb p s = true -> drop_while_end p s = "".
Proof.
  induction s as [| c s IH]; simpl; [reflexivity |].
  intros H. apply andb_true_iff in H. destruct H as [Hc Hs].
  now rewrite (IH Hs), Hc.
Qed.

Lemma drop_while_end_idem (p : ascii -> bool) (s : string) :
  ends_clear p (drop_while_end p s).
Proof.
  unfold ends_clear. induction s as [| c s IH]; simpl; [reflexivity |].
  destruct (drop_while_end p s) as [| d r] eqn:Hd.
  - destruct (p c) eqn:Hc; simpl; [reflexivity | now rewrite Hc].
  - simpl in *. rewrite IH. reflexivity.
Qed.

Lemma ends_clear_cons (p : ascii -> bool) (c : ascii) (s : string) :
  s <> "" -> ends_clear p s -> ends_clear p (String c s).
Proof.
  unfold ends_clear. intros Hne H. simpl. rewrite H.
  destruct s; [congruence | reflexivity].
Qed.

Lemma ends_clear_app (p : ascii -> bool) (a b : string) :
  b <> "" -> ends_clear p b -> ends_clear p (a ++ b).
Proof.
  intros Hne Hb. induction a as [| c a IH]; simpl; [assumption |].
  apply ends_clear_cons; [| assumption].
  destruct a; simpl; [assumption | discriminate].
Qed.

Lemma ends_clear_all (p : ascii -> bool) (s : string) :
  forallb (fun c => negb (p c)) s = true -> ends_clear p s.
Proof.
  unfold ends_clear. induction s as [| c s IH]; simpl; [reflexivity |].
  intros H. apply andb_true_iff in H. destruct H as [Hc Hs].
  rewrite (IH Hs). apply negb_true_iff in Hc. rewrite Hc. now destruct s.
Qed.

Lemma ends_clear_tail (p : ascii -> bool) (a b : string) :
  b <> "" -> ends_clear p (a ++ b) -> ends_clear p b.
Proof.
  unfold ends_clear. intros Hne. induction a as [| c a IH]; simpl; [auto |].
  intros H.
  destruct (drop_while_end p (a ++ b)) as [| d r] eqn:Hd.
  - apply drop_while_end_nil in Hd.
    destruct (p c); [discriminate |].
    inversion H as [H1]. symmetry in H1. apply app_eq_nil in H1. destruct H1; congruence.
  - inversion H as [H1]. apply IH. congruence.
Qed.

Lemma ends_clear_weaken (p q : ascii -> bool) (s : string) :
  (forall c, q c = true -> p c = true) -> ends_clear p s -> ends_clear q s.
Proof.
  unfold ends_clear. intros Hqp. induction s as [| c s IH]; simpl; [reflexivity |].
  destruct (drop_while_end p s) as [| d r] eqn:Hd.
  - destruct (p c) eqn:Hc; [discriminate |]. intros H. inversion H as [H1].
    subst s. simpl. destruct (q c) eqn:Hq; [| reflexivity].
    apply Hqp in Hq. congruence.
  - intros H. inversion H as [H1]. rewrite H1 in *. rewrite (IH eq_refl).
    now destruct s.
Qed.

Lemma ends_clear_within (r p q : ascii -> bool) (s : string) :
  forallb r s = true ->
  (forall c, r c = true -> q c = true -> p c = true) ->
  ends_clear p s -> ends_clear q s.
Proof.
  unfold ends_clear. intros Hr Hqp. induction s as [| c s IH]; simpl; [reflexivity |].
  simpl in Hr. apply andb_true_iff in Hr. destruct Hr as [Hc Hs].
  destruct (drop_while_end p s) as [| d t] eqn:Hd.
  - destruct (p c) eqn:Hp; [discriminate |]. intros H. inversion H as [H1].
    subst s. simpl. destruct (q c) eqn:Hq; [| reflexivity].
    rewrite (Hqp _ Hc Hq) in Hp. discriminate.
  - intros H. inversion H as [H1]. rewrite H1 in *. rewrite (IH Hs eq_refl).
    now destruct s.
Qed.

Lemma ends_clear_filter (p q : ascii -> bool) (s : string) :
  (forall c, q c = false -> p c = true) ->
  ends_clear p s -> ends_clear p (filter q s).
Proof.
  unfold ends_clear. intros Hq. induction s as [| c s IH]; simpl; [reflexivity |].
  destruct (drop_while_end p s) as [| d t] eqn:Hd.
  - destruct (p c) eqn:Hp; [discriminate |]. intros H. inversion H as [H1]. subst s.
    simpl. destruct (q c) eqn:Hqc; simpl; [now rewrite Hp |].
    apply Hq in Hqc. congruence.
  - intros H. inversion H as [H1]. rewrite H1 in *. specialize (IH eq_refl).
    destruct (q c) eqn:Hqc; simpl; [| assumption].
    rewrite IH. destruct (filter q s) eqn:Hf; [| reflexivity].
    destruct (p c) eqn:Hp; [| reflexivity].
    (* the filtered tail is empty: every character of [s] satisfies [p] *)
    exfalso.
    assert (Hall : forallb p s = true).
    { clear - Hf Hq. induction s as [| x s IHs]; simpl in *; [reflexivity |].
      destruct (q x) eqn:Hx; [discriminate |]. rewrite (Hq _ Hx). now apply IHs. }
    rewrite (drop_while_end_all _ _ Hall) in Hd. congruence.
Qed.

(** ** Reversal *)

Lemma rev_onto_app (s acc : string) : rev_onto s acc = rev s ++ acc.
Proof.
  unfold rev. revert acc. induction s as [| c s IH]; intros acc; simpl; [reflexivity |].
  rewrite (IH (String c acc)), (IH (String c "")). now rewrite app_assoc.
Qed.

Lemma rev_cons (c : ascii) (s : string) : rev (String c s) = rev s ++ String c "".
Proof. unfold rev at 1. simpl. apply rev_onto_app. Qed.

Lemma rev_app (a b : string) : rev (a ++ b) = rev b ++ rev a.
Proof.
  induction a as [| c a IH]; simpl.
  - now rewrite app_nil_r.
  - now rewrite !rev_cons, IH, app_assoc.
Qed.

Lemma rev_involutive (s : string) : rev (rev s) = s.
Proof.
  induction s as [| c s IH]; [reflexivity |].
  now rewrite rev_cons, rev_app, IH.
Qed.

(** The first character of the reversal of a string whose end is
    clear does not satisfy [p]. *)
Lemma rev_ends_clear (p : ascii -> bool) (s : string) :
  s <> "" -> ends_clear p s ->
  exists c r, rev s = String c r /\ p c = false.
Proof.
  unfold ends_clear. induction s as [| c s IH]; [congruence |].
  intros _ H. simpl in H. rewrite rev_cons.
  destruct (drop_while_end p s) as [| d t] eqn:Hd.
  - destruct (p c) eqn:Hc; [discriminate |]. inversion H; subst s.
    exists c, "". auto.
  - injection H as H1. rewrite H1 in Hd.
    destruct IH as (x & r & Hr & Hx); [rewrite <- H1; discriminate | assumption |].
    rewrite Hr. exists x, (r ++ String c ""). auto.
Qed.

(** ** [trim] *)

Lemma strip_ws_plain (fwd : bool) (c : ascii) (s : string) :
  plain c = true -> strip_ws fwd (String c s) = String c s.
Proof.
  unfold plain. intros H. apply andb_true_iff in H. destruct H as [H1 H2].
  apply N.ltb_lt in H1, H2.
  assert (E : forall n, (127 <= n)%N -> (code c =? n)%N = false)
    by (intros n Hn; apply N.eqb_neq; lia).
  assert (W1 : ws1 c = false).
  { unfold ws1, in_range. rewrite (proj2 (N.eqb_neq _ _)) by lia.
    destruct (N.leb_spec 9 (code c)), (N.leb_spec (code c) 13); simpl; try reflexivity; lia. }
  assert (R : forall lo hi, (127 <= lo)%N -> in_range lo hi c = false).
  { intros lo hi Hlo. unfold in_range. rewrite (proj2 (N.leb_gt _ _)) by lia. reflexivity. }
  simpl. rewrite W1.
  destruct s as [| b s2]; [reflexivity |].
  assert (W2 : (if fwd then ws2 c b else ws2 b c) = false).
  { unfold ws2. destruct fwd; rewrite E by lia; [reflexivity | apply andb_false_r]. }
  rewrite W2.
  destruct s2 as [| d s3]; [reflexivity |].
  assert (W3 : (if fwd then ws3 c b d else ws3 d b c) = false).
  { unfold ws3. destruct fwd; cbv zeta.
    - rewrite !E by lia. reflexivity.
    - rewrite !E by lia. rewrite R by lia.
      rewrite !andb_false_r. reflexivity. }
  now rewrite W3.
Qed.

Lemma trim_plain (c : ascii) (s : string) :
  plain c = true ->
  ends_clear (fun x => negb (plain x)) (String c s) ->
  trim (String c s) = String c s.
Proof.
  intros Hc He. unfold trim, trimStart, trimEnd.
  rewrite (strip_ws_plain true c s Hc).
  destruct (rev_ends_clear (fun x => negb (plain x)) (String c s)) as (x & r & Hr & Hx);
    [discriminate | assumption |].
  apply negb_false_iff in Hx.
  rewrite Hr, (strip_ws_plain false x r Hx), <- Hr. apply rev_involutive.
Qed.

End StrFacts.


(* ================================================================== *)
(** * Facts about percent encoding *)
(* ================================================================== *)

Module EncodeFacts.
Import Chars Str StrFacts URLStd WF ProofNotions.

Lemma code_lt_256 (c : ascii) : (code c < 256)%N.
Proof. unfold code. apply N_ascii_bounded. Qed.

Lemma hex_digit_cases (n : N) :
  (n < 16)%N -> Chars.mem (hex_digit n) (list_ascii_of_string "0123456789ABCDEF") = true.
Proof.
  intros H. rewrite <- (N2Nat.id n).
  assert (Hk : (N.to_nat n < 16)%nat) by lia.
  revert Hk. generalize (N.to_nat n). intros k Hk.
  do 16 (destruct k as [| k]; [reflexivity |]). lia.
Qed.

Lemma mem_forallb (q : ascii -> bool) (c : ascii) (l : list ascii) :
  List.forallb q l = true -> Chars.mem c l = true -> q c = true.
Proof.
  unfold Chars.mem. intros Hq Hc. apply List.existsb_exists in Hc.
  destruct Hc as (x & Hin & Hx). apply Ascii.eqb_eq in Hx. subst x.
  rewrite List.forallb_forall in Hq. now apply Hq.
Qed.

Lemma percent_byte_forallb (q : ascii -> bool) (c : ascii) :
  escapes q -> forallb q (percent_byte c) = true.
Proof.
  unfold escapes. intros Hq.
  change (q "%"%char && List.forallb q (list_ascii_of_string "0123456789ABCDEF") = true) in Hq.
  apply andb_true_iff in Hq. destruct Hq as [Hp Hq].
  unfold percent_byte. simpl. rewrite Hp. simpl.
  assert (Hlt : (code c < 256)%N) by apply code_lt_256.
  assert (Hhi : (code c / 16 < 16)%N) by (apply N.Div0.div_lt_upper_bound; lia).
  assert (Hlo : (code c mod 16 < 16)%N) by (apply N.mod_lt; lia).
  apply hex_digit_cases in Hhi, Hlo.
  rewrite (mem_forallb q _ _ Hq Hhi), (mem_forallb q _ _ Hq Hlo).
  reflexivity.
Qed.

Lemma percent_encode_forallb (set q : ascii -> bool) (s : string) :
  escapes q ->
  forallb (fun c => set c || q c) s = true ->
  forallb q (percent_encode set s) = true.
Proof.
  intros Hq. induction s as [| c s IH]; simpl; [reflexivity |].
  intros H. apply andb_true_iff in H. destruct H as [Hc Hs].
  rewrite forallb_app, (IH Hs), andb_true_r.
  destruct (set c) eqn:Hset.
  - now apply percent_byte_forallb.
  - simpl in *. now rewrite Hc.
Qed.

Lemma percent_encode_id (set : ascii -> bool) (s : string) :
  no_chars set s = true -> percent_encode set s = s.
Proof.
  unfold no_chars. induction s as [| c s IH]; simpl; [reflexivity |].
  intros H. apply andb_true_iff in H. destruct H as [Hc Hs].
  apply negb_true_iff in Hc. rewrite Hc. simpl. now rewrite IH.
Qed.

(** What is encoded holds no character of the set, as long as the set
    holds none of the characters that encoding writes. *)
Lemma percent_encode_clean (set : ascii -> bool) (s : string) :
  escapes (fun c => negb (set c)) -> no_chars set (percent_encode set s) = true.
Proof.
  intros He. unfold no_chars. apply percent_encode_forallb; [assumption |].
  clear. induction s as [| c s IH]; simpl; [reflexivity |].
  rewrite IH. now destruct (set c).
Qed.

Lemma percent_encode_keeps (set q : ascii -> bool) (s : string) :
  escapes q -> forallb q s = true -> forallb q (percent_encode set s) = true.
Proof.
  intros He Hs. apply percent_encode_forallb; [assumption |].
  revert Hs. apply forallb_impl. intros c ->. apply orb_true_r.
Qed.

Lemma percent_encode_nil (set : ascii -> bool) (s : string) :
  percent_encode set s = "" -> s = "".
Proof.
  destruct s as [| c s]; [reflexivity |]. simpl.
  destruct (set c); discriminate.
Qed.

Lemma percent_decode_id (s : string) :
  no_chars (fun c => Ascii.eqb c "%") s = true -> percent_decode s = s.
Proof.
  unfold no_chars. induction s as [| c s IH]; simpl; [reflexivity |].
  intros H. apply andb_true_iff in H. destruct H as [Hc Hs].
  apply negb_true_iff in Hc. rewrite Hc. now rewrite IH.
Qed.

Lemma escapes_c0 : escapes (fun c => negb (c0_control_set c)).
Proof. reflexivity. Qed.
Lemma escapes_fragment : escapes (fun c => negb (fragment_set c)).
Proof. reflexivity. Qed.
Lemma escapes_query : escapes (fun c => negb (query_set c)).
Proof. reflexivity. Qed.
Lemma escapes_special_query : escapes (fun c => negb (special_query_set c)).
Proof. reflexivity. Qed.
Lemma escapes_path : escapes (fun c => negb (path_set c)).
Proof. reflexivity. Qed.
Lemma escapes_userinfo : escapes (fun c => negb (userinfo_set c)).
Proof. reflexivity. Qed.

End EncodeFacts.

(* ================================================================== *)
(** * Facts about cutting and splitting *)
(* ================================================================== *)

Module SplitFacts.
Import Chars Str StrFacts URLStd WF ProofNotions.

Lemma cut_some (c : ascii) (a r : string) :
  no_chars (is_char c) a = true -> cut c (a ++ String c r) = (a, Some r).
Proof.
  intros Ha. unfold cut.
  rewrite (span_app (fun x => negb (Ascii.eqb x c)) a (String c r)).
  - reflexivity.
  - exact Ha.
  - simpl. now rewrite Ascii.eqb_refl.
Qed.

Lemma cut_none (c : ascii) (a : string) :
  no_chars (is_char c) a = true -> cut c a = (a, None).
Proof.
  intros Ha. unfold cut.
  rewrite (span_all (fun x => negb (Ascii.eqb x c)) a); [reflexivity | exact Ha].
Qed.

Lemma cut_spec (c : ascii) (s a : string) (o : option string) :
  cut c s = (a, o) ->
  no_chars (is_char c) a = true
  /\ s = a ++ match o with Some r => String c r | None => "" end.
Proof.
  unfold cut. destruct (span (fun x => negb (Ascii.eqb x c)) s) as [x y] eqn:E.
  intros H. inversion H; subst; clear H.
  destruct (span_spec _ _ _ _ E) as (-> & Hx & Hy). split; [exact Hx |].
  destruct y as [| d y]; [reflexivity |].
  simpl in Hy. apply negb_true_iff, negb_false_iff, Ascii.eqb_eq in Hy. now subst.
Qed.

Lemma split_last_none (c : ascii) (s : string) :
  no_chars (is_char c) s = true -> split_last c s = None.
Proof.
  unfold no_chars, is_char. induction s as [| d s IH]; simpl; [reflexivity |].
  intros H. apply andb_true_iff in H. destruct H as [Hd Hs].
  rewrite (IH Hs). apply negb_true_iff in Hd. now rewrite Hd.
Qed.

Lemma split_last_app (c : ascii) (a b : string) :
  no_chars (is_char c) b = true -> split_last c (a ++ String c b) = Some (a, b).
Proof.
  intros Hb. induction a as [| d a IH]; simpl.
  - rewrite (split_last_none _ _ Hb). now rewrite Ascii.eqb_refl.
  - now rewrite IH.
Qed.

Lemma split_on_none (p : ascii -> bool) (a : string) :
  no_chars p a = true -> split_on p a = [a].
Proof.
  unfold no_chars. induction a as [| c a IH]; simpl; [reflexivity |].
  intros H. apply andb_true_iff in H. destruct H as [Hc Ha].
  apply negb_true_iff in Hc. rewrite Hc. now rewrite (IH Ha).
Qed.

Lemma split_on_app (p : ascii -> bool) (a b : string) (c : ascii) :
  no_chars p a = true -> p c = true ->
  split_on p (a ++ String c b) = a :: split_on p b.
Proof.
  unfold no_chars. intros Ha Hc. induction a as [| d a IH]; simpl in *.
  - now rewrite Hc.
  - apply andb_true_iff in Ha. destruct Ha as [Hd Ha].
    apply negb_true_iff in Hd. rewrite Hd. now rewrite (IH Ha).
Qed.

Lemma split_on_clean (p : ascii -> bool) (s : string) :
  List.forallb (no_chars p) (split_on p s) = true /\ split_on p s <> [].
Proof.
  unfold no_chars. induction s as [| c s IH]; simpl; [split; [reflexivity | discriminate] |].
  destruct IH as [IH Hne].
  destruct (p c) eqn:Hc; simpl; [split; [assumption | discriminate] |].
  destruct (split_on p s) as [| x l]; [congruence |].
  simpl in *. rewrite Hc. simpl. split; [assumption | discriminate].
Qed.

Lemma split_on_single (p : ascii -> bool) (s : string) :
  split_on p s = [""] -> s = "".
Proof.
  destruct s as [| c s]; [reflexivity |]. simpl.
  destruct (p c); [| destruct (split_on p s)]; try discriminate.
  destruct (split_on_clean p s) as [_ Hne]. intros H. inversion H. congruence.
Qed.

Lemma prefixb_app (p a b : string) :
  prefixb p a = true -> prefixb p (a ++ b) = true.
Proof.
  revert a. induction p as [| c p IH]; intros a; simpl; [reflexivity |].
  destruct a as [| d a]; simpl; [discriminate |].
  intros H. apply andb_true_iff in H. destruct H as [-> H]. now apply IH.
Qed.

Lemma startsWith_head (q : ascii -> bool) (s : string) (c : ascii) :
  forallb q s = true -> q c = false -> startsWith s (String c "") = false.
Proof.
  unfold startsWith. destruct s as [| d s]; simpl; [reflexivity |].
  intros H Hc. apply andb_true_iff in H. destruct H as [Hd _].
  destruct (Ascii.eqb_spec c d) as [-> | ?]; [congruence | reflexivity].
Qed.

(** ** All characters *)

Lemma ascii_forall (P : ascii -> bool) :
  List.forallb P all_ascii = true -> forall c, P c = true.
Proof.
  intros H c. rewrite List.forallb_forall in H. apply H.
  unfold all_ascii. rewrite <- (ascii_nat_embedding c).
  apply List.in_map, List.in_seq. pose proof (nat_ascii_bounded c). lia.
Qed.

Lemma ascii_implies (p q : ascii -> bool) :
  List.forallb (fun c => implb (p c) (q c)) all_ascii = true ->
  forall c, p c = true -> q c = true.
Proof.
  intros H c Hp. pose proof (ascii_forall _ H c) as Hc. simpl in Hc.
  now rewrite Hp in Hc.
Qed.

End SplitFacts.

(* ================================================================== *)
(** * Facts about numbers and hosts *)
(* ================================================================== *)

Module HostFacts.
Import Chars Str StrFacts URLStd WF ProofNotions EncodeFacts SplitFacts.

Lemma all_below_spec (k : nat) (P : N -> bool) :
  all_below k P = true -> forall n, (n < N.of_nat k)%N -> P n = true.
Proof.
  induction k as [| k IH]; simpl; intros H n Hn; [lia |].
  apply andb_true_iff in H. destruct H as [Hk Hr].
  destruct (N.eq_dec n (N.of_nat k)) as [-> | Hne]; [assumption |].
  apply IH; [assumption | lia].
Qed.

Lemma all_below_N (k : N) (P : N -> bool) :
  all_below (N.to_nat k) P = true -> forall n, (n < k)%N -> P n = true.
Proof.
  intros H n Hn. apply (all_below_spec _ _ H). now rewrite N2Nat.id.
Qed.

(** ** Decimal numerals *)

Lemma digit_char_spec (k : N) :
  (k < 10)%N -> is_digit (digit_char k) = true /\ hex_value (digit_char k) = k.
Proof.
  intros H.
  assert (E : (k = 0 \/ k = 1 \/ k = 2 \/ k = 3 \/ k = 4 \/ k = 5 \/ k = 6 \/ k = 7
               \/ k = 8 \/ k = 9)%N) by lia.
  repeat (destruct E as [-> | E]; [split; reflexivity |]). subst. split; reflexivity.
Qed.

Lemma digits_value_app (r : N) (x y : string) (a : N) :
  digits_value r (x ++ y) a = digits_value r y (digits_value r x a).
Proof. revert a. induction x as [| c x IH]; intros a; simpl; [reflexivity | apply IH]. Qed.

Lemma decimal_go_acc (f : nat) :
  forall n acc, decimal_go f n acc = decimal_go f n "" ++ acc.
Proof.
  induction f as [| f IH]; intros n acc; simpl; [reflexivity |].
  destruct (n <? 10)%N; [reflexivity |].
  rewrite (IH _ (String _ acc)), (IH _ (String _ "")). now rewrite app_assoc.
Qed.

(** With enough fuel, [decimal_go] writes the numeral of [n / 10]
    followed by the last digit of [n]. *)
Lemma decimal_go_step (f : nat) (n : N) :
  decimal_go (S f) n "" =
  if (n <? 10)%N then String (digit_char n) ""
  else decimal_go f (n / 10) "" ++ String (digit_char (n mod 10)) "".
Proof.
  simpl. destruct (N.ltb_spec n 10) as [Hlt | Hge].
  - unfold digit_char. now rewrite N.mod_small.
  - now rewrite decimal_go_acc.
Qed.

Lemma decimal_go_ok (f : nat) :
  forall n, (n < 2 ^ N.of_nat f)%N ->
            forallb is_digit (decimal_go (S f) n "") = true
            /\ digits_value 10 (decimal_go (S f) n "") 0 = n
            /\ exists c r, decimal_go (S f) n "" = String c r /\ is_digit c = true.
Proof.
  induction f as [| f IH]; intros n Hn; rewrite decimal_go_step.
  - assert (n = 0%N) by (simpl in Hn; lia). subst. simpl. repeat split. eauto.
  - destruct (N.ltb_spec n 10) as [Hlt | Hge].
    + destruct (digit_char_spec _ Hlt) as [Hd Hv]. simpl. rewrite Hd, Hv.
      repeat split. eauto.
    + assert (Hq : (n / 10 < 2 ^ N.of_nat f)%N).
      { rewrite Nat2N.inj_succ, N.pow_succ_r' in Hn.
        apply N.Div0.div_lt_upper_bound. lia. }
      destruct (IH _ Hq) as (Ha & Hb & c & r & Hc & Hd).
      assert (Hm : (n mod 10 < 10)%N) by (apply N.mod_lt; lia).
      destruct (digit_char_spec _ Hm) as [Hmd Hmv].
      rewrite forallb_app, Ha, digits_value_app, Hb, Hc. simpl. rewrite Hmd, Hmv.
      repeat split.
      * pose proof (N.div_mod n 10). lia.
      * eauto.
Qed.

Lemma size_nat_bound (p : positive) :
  (N.pos p < 2 ^ N.of_nat (Pos.size_nat p))%N.
Proof.
  induction p as [p IH | p IH |]; cbn [Pos.size_nat].
  - rewrite Nat2N.inj_succ, N.pow_succ_r'. lia.
  - rewrite Nat2N.inj_succ, N.pow_succ_r'. lia.
  - reflexivity.
Qed.

Lemma decimal_spec (n : N) :
  forallb is_digit (decimal n) = true
  /\ digits_value 10 (decimal n) 0 = n
  /\ exists c r, decimal n = String c r /\ is_digit c = true.
Proof.
  unfold decimal. apply decimal_go_ok.
  destruct n as [| p]; [simpl; lia | apply size_nat_bound].
Qed.

Lemma decimal_digits (n : N) : forallb is_digit (decimal n) = true.
Proof. apply decimal_spec. Qed.

Lemma decimal_head (n : N) :
  exists c r, decimal n = String c r /\ is_digit c = true.
Proof. apply decimal_spec. Qed.

Lemma decimal_value (n : N) : digits_value 10 (decimal n) 0 = n.
Proof. apply decimal_spec. Qed.

Lemma decimal_ipv4_number (n : N) :
  (n < 256)%N -> ipv4_number (decimal n) = Some n.
Proof.
  intros H.
  assert (Hok : decimal_ok n = true)
    by (apply (all_below_N 256%N decimal_ok); [vm_compute; reflexivity | assumption]).
  unfold decimal_ok in Hok.
  destruct (decimal n) as [| c r] eqn:E; [discriminate |].
  repeat (apply andb_true_iff in Hok; destruct Hok as [Hok ?]).
  destruct (ipv4_number (String c r)); [| discriminate].
  f_equal. now apply N.eqb_eq.
Qed.

(** The port state reads a serialized port back. *)
Lemma parse_port_decimal (sch : string) (n : N) :
  wf_port sch (Some n) = true -> parse_port sch (decimal n) = Some (Some n).
Proof.
  unfold wf_port, parse_port. intros H.
  apply andb_true_iff in H. destruct H as [Hle Hdef].
  apply N.leb_le in Hle. apply negb_true_iff in Hdef.
  rewrite (decimal_digits n).
  destruct (decimal_head n) as (c & r & E & _).
  rewrite E. rewrite <- E. rewrite (decimal_value n).
  rewrite (proj2 (N.ltb_ge _ _) Hle). now rewrite Hdef.
Qed.

(** ** Characters of hosts *)

Lemma existsb_false (p : ascii -> bool) (s : string) :
  existsb p s = false <-> no_chars p s = true.
Proof. unfold existsb, no_chars. apply negb_false_iff. Qed.

Lemma forallb_and (p q : ascii -> bool) (s : string) :
  forallb p s = true -> forallb q s = true ->
  forallb (fun c => p c && q c) s = true.
Proof.
  induction s as [| c s IH]; simpl; [reflexivity |].
  intros Hp Hq. apply andb_true_iff in Hp, Hq.
  destruct Hp as [-> Hp], Hq as [-> Hq]. simpl. now apply IH.
Qed.

Lemma host_char_delim c : negb (forbidden_host c) = true -> negb (host_delim c) = true.
Proof. revert c. apply ascii_implies. vm_compute. reflexivity. Qed.

Lemma host_char_plain c :
  negb (forbidden_host c) && negb (c0_control_set c) = true -> plain c = true.
Proof. revert c. apply ascii_implies. vm_compute. reflexivity. Qed.

Lemma domain_char c :
  negb (127 <? code c)%N && negb (forbidden_domain c) = true ->
  plain c && negb (host_delim c) && negb (forbidden_host c)
  && negb (Ascii.eqb c "%") = true.
Proof. revert c. apply ascii_implies. vm_compute. reflexivity. Qed.

Lemma digit_or_dot_char c :
  digit_or_dot c = true ->
  plain c && negb (host_delim c) && negb (forbidden_domain c)
  && negb (127 <? code c)%N && Ascii.eqb (lower c) c && negb (Ascii.eqb c "%")
  && negb (Ascii.eqb c "[") = true.
Proof. revert c. apply ascii_implies. vm_compute. reflexivity. Qed.

Lemma digit_not_dot c : is_digit c = true -> negb (is_dot c) = true.
Proof. revert c. apply ascii_implies. vm_compute. reflexivity. Qed.

Lemma digit_is_digit_or_dot c : is_digit c = true -> digit_or_dot c = true.
Proof. unfold digit_or_dot. now intros ->. Qed.

Lemma lower_idem c : Ascii.eqb (lower (lower c)) (lower c) = true.
Proof. revert c. apply ascii_forall. vm_compute. reflexivity. Qed.

Lemma toLowerCase_idem (s : string) : toLowerCase (toLowerCase s) = toLowerCase s.
Proof.
  unfold toLowerCase. apply map_id. rewrite forallb_map.
  induction s as [| c s IH]; simpl; [reflexivity |]. now rewrite lower_idem.
Qed.

Lemma digit_not_xn (c : ascii) (r : string) :
  is_digit c = true -> startsWith (String c r) "xn--" = false.
Proof.
  intros H. unfold startsWith. cbn [prefixb].
  destruct (Ascii.eqb_spec "x" c) as [<- | ?]; [discriminate | reflexivity].
Qed.

(** ** IPv4 addresses *)

Lemma ipv4_value_cons (n m : N) (l : list N) (r : nat) :
  ipv4_value (n :: m :: l) (S r) =
  if (n <? 256)%N then
    match ipv4_value (m :: l) r with
    | Some v => Some (n * 256 ^ N.of_nat r + v)%N
    | None => None
    end
  else None.
Proof. reflexivity. Qed.

Lemma ipv4_value_last (n : N) (r : nat) :
  ipv4_value [n] (S r) = if (n <? 256 ^ N.of_nat (S r))%N then Some n else None.
Proof. reflexivity. Qed.

Lemma ipv4_value_bound (l : list N) :
  forall r v, ipv4_value l r = Some v -> (v < 256 ^ N.of_nat r)%N.
Proof.
  induction l as [| n l IH]; intros r v H; [simpl in H; discriminate |].
  destruct r as [| r]; [destruct l; simpl in H; discriminate |].
  destruct l as [| m l].
  - rewrite ipv4_value_last in H.
    destruct (N.ltb_spec n (256 ^ N.of_nat (S r))) as [Hn | Hn]; [| discriminate].
    now inversion H; subst.
  - rewrite ipv4_value_cons in H.
    destruct (N.ltb_spec n 256) as [Hn | Hn]; [| discriminate].
    destruct (ipv4_value (m :: l) r) as [v' |] eqn:E; [| discriminate].
    inversion H; subst. apply IH in E.
    rewrite Nat2N.inj_succ, N.pow_succ_r'. nia.
Qed.

Lemma ipv4_serialize_dotted (v : N) :
  (v < 256 ^ 4)%N ->
  let a := (v / 16777216)%N in
  let b := (v / 65536 mod 256)%N in
  let c := (v / 256 mod 256)%N in
  let d := (v mod 256)%N in
  ipv4_serialize v = dotted a b c d
  /\ (a < 256 /\ b < 256 /\ c < 256 /\ d < 256)%N
  /\ (a * 16777216 + (b * 65536 + (c * 256 + d)) = v)%N.
Proof.
  intros Hv a b c d. change (256 ^ 4)%N with 4294967296%N in Hv.
  split; [reflexivity |]. subst a b c d.
  split.
  - repeat split; try (apply N.mod_lt; lia).
    apply N.Div0.div_lt_upper_bound. lia.
  - assert (E1 : (v / 256 / 256 = v / 65536)%N) by (now rewrite N.Div0.div_div).
    assert (E2 : (v / 65536 / 256 = v / 16777216)%N) by (now rewrite N.Div0.div_div).
    pose proof (N.div_mod v 256 ltac:(lia)) as H0.
    pose proof (N.div_mod (v / 256) 256 ltac:(lia)) as H1.
    pose proof (N.div_mod (v / 65536) 256 ltac:(lia)) as H2.
    rewrite E1 in H1. rewrite E2 in H2. lia.
Qed.

Lemma dotted_chars (a b c d : N) : forallb digit_or_dot (dotted a b c d) = true.
Proof.
  unfold dotted.
  assert (H : forall n, forallb digit_or_dot (decimal n) = true).
  { intros n. apply (forallb_impl _ _ _ digit_is_digit_or_dot), decimal_digits. }
  rewrite !forallb_app, !H. reflexivity.
Qed.

Lemma decimal_no_dot (n : N) : no_chars is_dot (decimal n) = true.
Proof. unfold no_chars. apply (forallb_impl _ _ _ digit_not_dot), decimal_digits. Qed.

Lemma dotted_split (a b c d : N) :
  split_on is_dot (dotted a b c d) = [decimal a; decimal b; decimal c; decimal d].
Proof.
  unfold dotted. cbn [append].
  rewrite !(split_on_app is_dot _ _ "."%char (decimal_no_dot _) eq_refl).
  now rewrite (split_on_none _ _ (decimal_no_dot d)).
Qed.

Lemma dotted_parts (a b c d : N) :
  host_parts (dotted a b c d) = [decimal a; decimal b; decimal c; decimal d].
Proof.
  unfold host_parts. rewrite dotted_split. cbn [List.rev List.app].
  destruct (decimal_head d) as (x & r & -> & _). reflexivity.
Qed.

(** A serialized address is a host that the host parser answers
    unchanged. *)
Lemma dotted_host (a b c d : N) :
  (a < 256)%N -> (b < 256)%N -> (c < 256)%N -> (d < 256)%N ->
  host_parse false (dotted a b c d) =
  Some (ipv4_serialize (a * 16777216 + (b * 65536 + (c * 256 + d)))).
Proof.
  intros Ha Hb Hc Hd.
  pose proof (forallb_impl _ _ _ digit_or_dot_char (dotted_chars a b c d)) as Hall.
  assert (Hsel : forall q : ascii -> bool,
             (forall x, plain x && negb (host_delim x) && negb (forbidden_domain x)
                        && negb (127 <? code x)%N && Ascii.eqb (lower x) x
                        && negb (Ascii.eqb x "%") && negb (Ascii.eqb x "[") = true ->
                        q x = true) ->
             forallb q (dotted a b c d) = true).
  { intros q Hq. exact (forallb_impl _ _ _ Hq Hall). }
  assert (H1 : startsWith (dotted a b c d) "[" = false).
  { apply (startsWith_head (fun x => negb (Ascii.eqb x "["))); [| reflexivity].
    apply Hsel. intros x Hx. split_andb Hx.
    assumption. }
  assert (H2 : percent_decode (dotted a b c d) = dotted a b c d).
  { apply percent_decode_id. apply Hsel. intros x Hx.
    split_andb Hx. assumption. }
  assert (H3 : toLowerCase (dotted a b c d) = dotted a b c d).
  { apply map_id. apply Hsel. intros x Hx.
    split_andb Hx. assumption. }
  assert (H4 : existsb (fun x => (127 <? code x)%N) (dotted a b c d) = false).
  { apply existsb_false. apply Hsel. intros x Hx.
    split_andb Hx. assumption. }
  assert (H5 : has_punycode_label (dotted a b c d) = false).
  { unfold has_punycode_label. rewrite dotted_split.
    destruct (decimal_head a) as (xa & ra & -> & Da), (decimal_head b) as (xb & rb & -> & Db),
             (decimal_head c) as (xc & rc & -> & Dc), (decimal_head d) as (xd & rd & -> & Dd).
    cbn [List.existsb]. now rewrite !digit_not_xn. }
  assert (H6 : is_empty (dotted a b c d) = false).
  { unfold dotted. destruct (decimal_head a) as (x & r & -> & _). reflexivity. }
  assert (H7 : existsb forbidden_domain (dotted a b c d) = false).
  { apply existsb_false. apply Hsel. intros x Hx.
    split_andb Hx. assumption. }
  assert (H8 : ends_in_number (dotted a b c d) = true).
  { unfold ends_in_number. rewrite dotted_parts. cbn [List.rev List.app].
    rewrite (decimal_digits d).
    destruct (decimal_head d) as (x & r & -> & _). reflexivity. }
  assert (H9 : ipv4_parse (dotted a b c d) =
               Some (ipv4_serialize (a * 16777216 + (b * 65536 + (c * 256 + d))))).
  { unfold ipv4_parse. rewrite dotted_parts. cbn [ipv4_numbers].
    rewrite !decimal_ipv4_number by assumption.
    rewrite !ipv4_value_cons, ipv4_value_last.
    rewrite (proj2 (N.ltb_lt a 256) Ha), (proj2 (N.ltb_lt b 256) Hb),
            (proj2 (N.ltb_lt c 256) Hc).
    assert (Hd' : (d <? 256 ^ N.of_nat 1)%N = true) by (apply N.ltb_lt; exact Hd).
    rewrite Hd'. reflexivity. }
  unfold host_parse. rewrite H1, H2, H3, H4, H5, H6, H7, H8. exact H9.
Qed.

Lemma ipv4_parse_host (x h : string) :
  ipv4_parse x = Some h ->
  host_parse false h = Some h /\ forallb digit_or_dot h = true /\ h <> "".
Proof.
  unfold ipv4_parse.
  destruct (ipv4_numbers (host_parts x)) as [numbers |]; [| discriminate].
  destruct (ipv4_value numbers 4) as [v |] eqn:E; [| discriminate].
  intros H. inversion H; subst h; clear H.
  apply ipv4_value_bound in E.
  destruct (ipv4_serialize_dotted _ E) as (Hs & (Ha & Hb & Hc & Hd) & Hv).
  rewrite Hs. split; [| split].
  - rewrite (dotted_host _ _ _ _ Ha Hb Hc Hd). now rewrite Hv, Hs.
  - apply dotted_chars.
  - unfold dotted. destruct (decimal_head (v / 16777216)) as (c & r & -> & _). discriminate.
Qed.

(** ** The host parser answers well-formed hosts *)

Lemma wf_host_intro (special : bool) (h : string) :
  host_parse (negb special) h = Some h ->
  no_chars host_delim h = true ->
  forallb plain h = true ->
  wf_host special h = true.
Proof.
  intros H1 H2 H3. unfold wf_host. now rewrite H1, String.eqb_refl, H2, H3.
Qed.

Lemma wf_host_elim (special : bool) (h : string) :
  wf_host special h = true ->
  host_parse (negb special) h = Some h
  /\ no_chars host_delim h = true
  /\ forallb plain h = true.
Proof.
  unfold wf_host. intros H.
  apply andb_true_iff in H. destruct H as [H H3].
  apply andb_true_iff in H. destruct H as [H1 H2].
  destruct (host_parse (negb special) h) as [h' |]; [| discriminate].
  apply String.eqb_eq in H1. subst. auto.
Qed.

Lemma opaque_host_wf (x : string) :
  no_chars forbidden_host x = true ->
  startsWith x "[" = false ->
  percent_encode c0_control_set x = x ->
  wf_host false x = true.
Proof.
  intros Hf Hb He.
  assert (Hc : no_chars c0_control_set x = true).
  { rewrite <- He. apply percent_encode_clean, escapes_c0. }
  apply wf_host_intro.
  - simpl. unfold host_parse. rewrite Hb.
    rewrite (proj2 (existsb_false _ _) Hf). now rewrite He.
  - exact (forallb_impl _ _ _ host_char_delim Hf).
  - apply (forallb_impl _ _ _ host_char_plain). now apply forallb_and.
Qed.

Lemma domain_host_wf (d : string) :
  toLowerCase d = d ->
  existsb (fun c => (127 <? code c)%N) d = false ->
  has_punycode_label d = false ->
  is_empty d = false ->
  existsb forbidden_domain d = false ->
  ends_in_number d = false ->
  wf_host true d = true.
Proof.
  intros Hl Ha Hp He Hf Hn.
  apply existsb_false in Ha, Hf.
  pose proof (forallb_impl _ _ _ domain_char (forallb_and _ _ _ Ha Hf)) as Hall.
  assert (Hsel : forall q : ascii -> bool,
             (forall x, plain x && negb (host_delim x) && negb (forbidden_host x)
                        && negb (Ascii.eqb x "%") = true -> q x = true) ->
             forallb q d = true).
  { intros q Hq. exact (forallb_impl _ _ _ Hq Hall). }
  assert (Hb : startsWith d "[" = false).
  { apply (startsWith_head (fun x => negb (forbidden_host x))); [| reflexivity].
    apply Hsel. intros x Hx. split_andb Hx.
    assumption. }
  assert (Hd : percent_decode d = d).
  { apply percent_decode_id. apply Hsel. intros x Hx.
    split_andb Hx. assumption. }
  apply wf_host_intro.
  - simpl. unfold host_parse. rewrite Hb, Hd, Hl.
    rewrite (proj2 (existsb_false _ _) Ha), Hp, He, (proj2 (existsb_false _ _) Hf), Hn.
    reflexivity.
  - apply Hsel. intros x Hx. split_andb Hx.
    assumption.
  - apply Hsel. intros x Hx. split_andb Hx.
    assumption.
Qed.

Lemma ipv4_host_wf (x h : string) :
  ipv4_parse x = Some h -> wf_host true h = true /\ h <> "".
Proof.
  intros H. destruct (ipv4_parse_host _ _ H) as (Hp & Hc & Hne).
  split; [| exact Hne].
  pose proof (forallb_impl _ _ _ digit_or_dot_char Hc) as Hall.
  apply wf_host_intro; [exact Hp | |].
  - revert Hall. apply forallb_impl. intros y Hy. simpl in Hy. split_andb Hy. assumption.
  - revert Hall. apply forallb_impl. intros y Hy. simpl in Hy. split_andb Hy. assumption.
Qed.

(** What the host parser answers is a well-formed host, and not the
    empty one unless the host is opaque. *)
Lemma host_parse_wf (opaque : bool) (x h : string) :
  host_parse opaque x = Some h ->
  wf_host (negb opaque) h = true /\ (opaque = false -> h <> "").
Proof.
  unfold host_parse.
  destruct (startsWith x "[") eqn:Hb; [discriminate |].
  destruct opaque.
  - destruct (existsb forbidden_host x) eqn:Hf; [discriminate |].
    intros H. inversion H; subst h; clear H. split; [| discriminate].
    apply existsb_false in Hf.
    assert (Hk : no_chars forbidden_host (percent_encode c0_control_set x) = true).
    { apply percent_encode_keeps; [reflexivity | exact Hf]. }
    apply opaque_host_wf.
    + exact Hk.
    + apply (startsWith_head (fun c => negb (forbidden_host c))); [exact Hk | reflexivity].
    + apply percent_encode_id, percent_encode_clean, escapes_c0.
  - set (d := toLowerCase (percent_decode x)).
    destruct (existsb (fun c => (127 <? code c)%N) d) eqn:Ha; [discriminate |].
    destruct (has_punycode_label d) eqn:Hp; [discriminate |].
    destruct (is_empty d) eqn:He; [discriminate |].
    destruct (existsb forbidden_domain d) eqn:Hf; [discriminate |].
    destruct (ends_in_number d) eqn:Hn.
    + intros H. destruct (ipv4_host_wf _ _ H) as [Hw Hne]. split; [exact Hw | auto].
    + intros H. inversion H; subst h; clear H. split.
      * apply domain_host_wf; try assumption. apply toLowerCase_idem.
      * intros _ E. rewrite E in He. discriminate.
Qed.

(** ** A host without its leading [www.] *)

Lemma www_split (h : string) :
  split_on is_dot ("www." ++ h) = "www" :: split_on is_dot h.
Proof. exact (split_on_app is_dot "www" h "."%char eq_refl eq_refl). Qed.

Lemma ends_in_number_www (h : string) :
  h <> "" -> ends_in_number ("www." ++ h) = ends_in_number h.
Proof.
  intros Hne. unfold ends_in_number, host_parts. rewrite www_split.
  destruct (split_on_clean is_dot h) as [_ Hnil].
  pose proof (split_on_single is_dot h) as Hone.
  set (L := split_on is_dot h) in *.
  cbn [List.rev]. destruct (List.rev L) as [| x R] eqn:HL.
  - exfalso. apply Hnil. rewrite <- (List.rev_involutive L), HL. reflexivity.
  - assert (EL : L = (List.rev R ++ [x])%list).
    { rewrite <- (List.rev_involutive L), HL. reflexivity. }
    cbn [List.app]. destruct x as [| c x].
    + destruct R as [| y R'].
      * exfalso. apply Hne, Hone. rewrite EL. reflexivity.
      * cbn [List.app]. now rewrite !List.rev_involutive.
    + cbn [List.rev]. rewrite !HL. reflexivity.
Qed.

Lemma www_host (special : bool) (h : string) :
  wf_host special ("www." ++ h) = true ->
  (special = true -> h <> "") ->
  wf_host special h = true.
Proof.
  intros Hw Hne. destruct (wf_host_elim _ _ Hw) as (Hp & _ & _).
  unfold host_parse in Hp. change (startsWith ("www." ++ h) "[") with false in Hp.
  cbv iota in Hp. destruct special; simpl negb in Hp; cbv iota in Hp.
  - change (percent_decode ("www." ++ h)) with ("www." ++ percent_decode h) in Hp.
    change (toLowerCase ("www." ++ percent_decode h))
      with ("www." ++ toLowerCase (percent_decode h)) in Hp.
    set (d := toLowerCase (percent_decode h)) in *.
    destruct (existsb (fun c => (127 <? code c)%N) ("www." ++ d)) eqn:Ha; [discriminate |].
    destruct (has_punycode_label ("www." ++ d)) eqn:Hpu; [discriminate |].
    destruct (is_empty ("www." ++ d)) eqn:He; [discriminate |].
    destruct (existsb forbidden_domain ("www." ++ d)) eqn:Hf; [discriminate |].
    destruct (ends_in_number ("www." ++ d)) eqn:Hn.
    + exfalso. destruct (ipv4_parse_host _ _ Hp) as (_ & Hc & _). discriminate Hc.
    + assert (Hd : d = h) by (injection Hp; auto).
      apply existsb_false in Hf. unfold no_chars in Hf.
      change ("www." ++ d) with ("www" ++ "." ++ d) in Hf.
      assert (Hdec : percent_decode h = h).
      { apply percent_decode_id. rewrite <- Hd at 1.
        rewrite !forallb_app in Hf. split_andb Hf.
        revert H. apply forallb_impl. intros c Hc.
        generalize c Hc. apply ascii_implies. vm_compute. reflexivity. }
      subst d. rewrite Hdec in *.
      apply domain_host_wf.
      * exact Hd.
      * rewrite Hd in Ha. apply existsb_false in Ha. apply existsb_false.
        unfold no_chars in *. now rewrite (forallb_app _ "www." h) in Ha.
      * rewrite Hd in Hpu. unfold has_punycode_label in *. rewrite www_split in Hpu.
        exact Hpu.
      * destruct h; [now specialize (Hne eq_refl) | reflexivity].
      * rewrite Hd in Hf. apply existsb_false. unfold no_chars.
        rewrite !forallb_app in Hf. now split_andb Hf.
      * rewrite Hd in Hn. rewrite ends_in_number_www in Hn; auto.
  - destruct (existsb forbidden_host ("www." ++ h)) eqn:Hf; [discriminate |].
    change (percent_encode c0_control_set ("www." ++ h))
      with ("www." ++ percent_encode c0_control_set h) in Hp.
    assert (He : percent_encode c0_control_set h = h) by (injection Hp; auto).
    apply existsb_false in Hf. unfold no_chars in Hf.
    rewrite (forallb_app _ "www." h) in Hf. apply andb_true_iff in Hf. destruct Hf as [_ Hf].
    apply opaque_host_wf; [exact Hf | | exact He].
    apply (startsWith_head (fun c => negb (forbidden_host c))); [exact Hf | reflexivity].
Qed.

End HostFacts.


(* ================================================================== *)
(** * Facts about paths *)
(* ================================================================== *)

Module PathFacts.
Import Chars Str StrFacts URLStd WF ProofNotions EncodeFacts SplitFacts HostFacts.

Lemma seg_ok_elim (special : bool) (seg : string) :
  seg_ok special seg = true ->
  percent_encode path_set seg = seg
  /\ no_chars (is_slash special) seg = true
  /\ is_single_dot seg = false
  /\ is_double_dot seg = false.
Proof.
  unfold seg_ok. intros H. split_andb H.
  apply negb_true_iff in H0, H1. repeat split; try assumption.
  now apply percent_encode_id.
Qed.

Lemma escapes_slash (special : bool) : escapes (fun c => negb (is_slash special c)).
Proof. destruct special; reflexivity. Qed.

(** The path state leaves well-formed segments as they are. *)
Lemma path_state_ok (special : bool) (segs : list string) :
  forall acc, List.forallb (seg_ok special) segs = true ->
              path_state segs acc = (acc ++ segs)%list.
Proof.
  induction segs as [| s rest IH]; intros acc H; simpl.
  - now rewrite List.app_nil_r.
  - simpl in H. apply andb_true_iff in H. destruct H as [Hs Hr].
    destruct (seg_ok_elim _ _ Hs) as (He & _ & H1 & H2).
    rewrite He, H1, H2, (IH _ Hr). now rewrite <- List.app_assoc.
Qed.

Lemma forallb_removelast {A : Type} (p : A -> bool) (l : list A) :
  List.forallb p l = true -> List.forallb p (List.removelast l) = true.
Proof.
  induction l as [| x l IH]; simpl; [reflexivity |].
  intros H. apply andb_true_iff in H. destruct H as [Hx Hl].
  destruct l; [reflexivity |]. simpl in *. rewrite Hx. now apply IH.
Qed.

(** The path state builds well-formed segments, whatever it reads. *)
Lemma path_state_wf (special : bool) (segs : list string) :
  forall acc,
    List.forallb (no_chars (is_slash special)) segs = true ->
    List.forallb (seg_ok special) acc = true ->
    List.forallb (seg_ok special) (path_state segs acc) = true.
Proof.
  induction segs as [| s rest IH]; intros acc Hs Ha; simpl; [exact Ha |].
  simpl in Hs. apply andb_true_iff in Hs. destruct Hs as [Hs Hr].
  destruct (is_double_dot (percent_encode path_set s)) eqn:Hdd.
  - apply IH; [exact Hr |]. rewrite List.forallb_app, forallb_removelast by exact Ha.
    now destruct rest.
  - destruct (is_single_dot (percent_encode path_set s)) eqn:Hsd.
    + apply IH; [exact Hr |]. rewrite List.forallb_app, Ha. now destruct rest.
    + apply IH; [exact Hr |]. rewrite List.forallb_app, Ha. simpl.
      unfold seg_ok. rewrite Hdd, Hsd.
      rewrite (percent_encode_clean _ _ escapes_path).
      unfold no_chars.
      rewrite (percent_encode_keeps path_set _ _ (escapes_slash special) Hs).
      reflexivity.
Qed.

Lemma path_state_nonempty (segs : list string) :
  forall acc, segs <> [] -> path_state segs acc <> [].
Proof.
  induction segs as [| s rest IH]; intros acc Hne; [congruence |].
  destruct rest as [| s' rest'].
  - simpl.
    destruct (is_double_dot _); [now destruct (List.removelast acc) |].
    destruct (is_single_dot _); now destruct acc.
  - cbn [path_state].
    destruct (is_double_dot _); [apply IH; discriminate |].
    destruct (is_single_dot _); apply IH; discriminate.
Qed.

Lemma parse_path_wf (special : bool) (raw : string) :
  List.forallb (seg_ok special) (parse_path special raw) = true
  /\ parse_path special raw <> [].
Proof.
  unfold parse_path. destruct (split_on_clean (is_slash special) raw) as [Hc Hne].
  split; [now apply path_state_wf | now apply path_state_nonempty].
Qed.

(** Splitting a serialized path gives its segments back. *)
Lemma split_serialized (special : bool) (l : list string) :
  forall s, List.forallb (seg_ok special) (s :: l) = true ->
            split_on (is_slash special) (s ++ serialize_segments l) = s :: l.
Proof.
  induction l as [| s2 l IH]; intros s H; simpl in H;
    apply andb_true_iff in H; destruct H as [Hs Hl];
    destruct (seg_ok_elim _ _ Hs) as (_ & Hn & _ & _).
  - simpl. rewrite app_nil_r. now apply split_on_none.
  - cbn [serialize_segments append].
    rewrite (split_on_app _ _ _ "/"%char Hn eq_refl). f_equal. now apply IH.
Qed.

Lemma parse_serialized (special : bool) (s : string) (l : list string) :
  List.forallb (seg_ok special) (s :: l) = true ->
  parse_path special (s ++ serialize_segments l) = s :: l.
Proof.
  intros H. unfold parse_path. rewrite (split_serialized _ _ _ H).
  now rewrite (path_state_ok _ _ [] H).
Qed.

End PathFacts.

(* ================================================================== *)
(** * Serialized URL records parse back *)
(* ================================================================== *)

Module RoundTrip.
Import Chars Str StrFacts URLStd WF ProofNotions EncodeFacts SplitFacts HostFacts PathFacts.

(** ** Characters of the components *)

Lemma userinfo_char c :
  negb (userinfo_set c) = true ->
  auth_char c && negb (Ascii.eqb c "@") && negb (Ascii.eqb c ":") = true.
Proof. revert c. apply ascii_implies. vm_compute. reflexivity. Qed.

Lemma hostname_char c :
  plain c && negb (host_delim c) = true ->
  auth_char c && negb (Ascii.eqb c "@") && negb (Ascii.eqb c ":") = true.
Proof. revert c. apply ascii_implies. vm_compute. reflexivity. Qed.

Lemma digit_char_auth c :
  is_digit c = true ->
  auth_char c && negb (Ascii.eqb c "@") && negb (Ascii.eqb c ":") = true.
Proof. revert c. apply ascii_implies. vm_compute. reflexivity. Qed.

Lemma path_char c :
  negb (path_set c) = true -> plain c && negb (query_delim c) = true.
Proof. revert c. apply ascii_implies. vm_compute. reflexivity. Qed.

Lemma query_char (special : bool) c :
  negb ((if special then special_query_set else query_set) c) = true ->
  plain c && negb (Ascii.eqb c "#") = true.
Proof. destruct special; revert c; apply ascii_implies; vm_compute; reflexivity. Qed.

Lemma fragment_char c : negb (fragment_set c) = true -> plain c = true.
Proof. revert c. apply ascii_implies. vm_compute. reflexivity. Qed.

Lemma opaque_char c : negb (c0_control_set c) = true -> vis c = true.
Proof. revert c. apply ascii_implies. vm_compute. reflexivity. Qed.

Lemma scheme_char c :
  is_scheme_char c && negb (is_upper c) = true ->
  plain c && is_scheme_char c && Ascii.eqb (lower c) c = true.
Proof. revert c. apply ascii_implies. vm_compute. reflexivity. Qed.

Lemma plain_vis c : plain c = true -> vis c = true.
Proof. revert c. apply ascii_implies. vm_compute. reflexivity. Qed.

Lemma vis_no_tab c : vis c = true -> negb (is_tab_or_newline c) = true.
Proof. revert c. apply ascii_implies. vm_compute. reflexivity. Qed.

Lemma space_not_plain c : is_c0_or_space c = true -> negb (plain c) = true.
Proof. revert c. apply ascii_implies. vm_compute. reflexivity. Qed.

Lemma vis_not_plain_space c : vis c && negb (plain c) = true -> is_space c = true.
Proof. revert c. apply ascii_implies. vm_compute. reflexivity. Qed.

Lemma lower_is_alpha c : is_lower c = true -> is_alpha c && plain c = true.
Proof. revert c. apply ascii_implies. vm_compute. reflexivity. Qed.

(** ** The authority *)

Lemma wf_authority_elim (u : URL) (h : string) :
  wf_authority u = true -> host u = Some h ->
  no_chars userinfo_set (username u) = true
  /\ no_chars userinfo_set (password u) = true
  /\ wf_port (scheme u) (port u) = true
  /\ wf_host (is_special u) h = true
  /\ (h = "" -> is_special u = false /\ includes_credentials u = false /\ port u = None).
Proof.
  unfold wf_authority. intros H Hh. rewrite Hh in H.
  apply andb_true_iff in H. destruct H as [H Hhost].
  apply andb_true_iff in H. destruct H as [H Hport].
  apply andb_true_iff in H. destruct H as [Huser Hpass].
  apply andb_true_iff in Hhost. destruct Hhost as [Hwf Hcond].
  repeat split; try assumption;
    subst h; simpl in Hcond;
    destruct (is_special u), (includes_credentials u), (port u);
    simpl in Hcond; congruence.
Qed.

Lemma port_string_chars (p : option N) :
  forallb (fun c => auth_char c && negb (Ascii.eqb c "@")) (port_string p) = true.
Proof.
  destruct p as [n |]; [| reflexivity].
  pose proof (forallb_impl _ _ _ digit_char_auth (decimal_digits n)) as Hall.
  unfold port_string. cbn [append forallb].
  apply andb_true_iff. split; [reflexivity | (revert Hall; apply forallb_impl; pick_conjunct)].
Qed.

(** Host state and port state on a serialized host and port. *)
Lemma hostport_serialized (u : URL) (h : string) :
  wf_authority u = true -> host u = Some h ->
  parse_hostport (scheme u) (h ++ port_string (port u)) = Some (h, port u)
  /\ forallb (fun c => auth_char c && negb (Ascii.eqb c "@")) h = true.
Proof.
  intros Hw Hh. destruct (wf_authority_elim _ _ Hw Hh) as (_ & _ & Hp & Hhost & Hempty).
  destruct (wf_host_elim _ _ Hhost) as (Hparse & Hd & Hpl).
  pose proof (forallb_impl _ _ _ hostname_char (forallb_and _ _ _ Hpl Hd)) as Hall.
  assert (Hcolon : no_chars (is_char ":") h = true).
  { unfold no_chars, is_char. (revert Hall; apply forallb_impl; pick_conjunct). }
  split; [| (revert Hall; apply forallb_impl; pick_conjunct)].
  unfold parse_hostport. change (is_special_scheme (scheme u)) with (is_special u).
  destruct (port u) as [n |] eqn:Hport; cbn [port_string].
  - change (":" ++ decimal n) with (String ":" (decimal n)).
    rewrite (cut_some _ _ _ Hcolon). cbv iota beta zeta. rewrite Hparse.
    destruct h as [| c h']; [destruct (Hempty eq_refl) as (_ & _ & ?); discriminate |].
    cbn [is_empty]. cbv iota. now rewrite (parse_port_decimal _ _ Hp).
  - rewrite app_nil_r, (cut_none _ _ Hcolon). cbv iota beta zeta. rewrite Hparse.
    destruct h as [| c h']; [| now rewrite andb_false_r].
    destruct (Hempty eq_refl) as (-> & _). reflexivity.
Qed.

Lemma parse_authority_serialized (u : URL) (h : string) :
  wf_authority u = true -> host u = Some h ->
  parse_authority (scheme u) (serialize_authority u h) =
  Some (username u, password u, h, port u)
  /\ forallb auth_char (serialize_authority u h) = true.
Proof.
  intros Hw Hh.
  destruct (wf_authority_elim _ _ Hw Hh) as (Huser & Hpass & _ & _ & Hempty).
  destruct (hostport_serialized _ _ Hw Hh) as (Hhp & Hhc).
  pose proof (port_string_chars (port u)) as Hpc.
  pose proof (forallb_impl _ _ _ userinfo_char Huser) as Huc.
  pose proof (forallb_impl _ _ _ userinfo_char Hpass) as Hpwc.
  assert (Hat : no_chars (is_char "@") (h ++ port_string (port u)) = true).
  { unfold no_chars, is_char. rewrite forallb_app. apply andb_true_iff. split.
    - (revert Hhc; apply forallb_impl; pick_conjunct).
    - (revert Hpc; apply forallb_impl; pick_conjunct). }
  unfold parse_authority, serialize_authority.
  change (match port u with Some n => ":" ++ decimal n | None => "" end)
    with (port_string (port u)).
  destruct (includes_credentials u) eqn:Hcred.
  - (* user name and password are written *)
    assert (Hne : h <> "").
    { intros ->. destruct (Hempty eq_refl) as (_ & ? & _). discriminate. }
    set (passpart := if is_empty (password u) then "" else ":" ++ password u).
    replace ((username u ++ passpart ++ "@") ++ h ++ port_string (port u))
      with ((username u ++ passpart) ++ String "@" (h ++ port_string (port u)))
      by (now rewrite !app_assoc).
    rewrite (split_last_app "@" _ _ Hat).
    assert (Hcc : cut ":" (username u ++ passpart) =
                  (username u, if is_empty (password u) then None else Some (password u))).
    { unfold passpart. destruct (is_empty (password u)).
      - rewrite app_nil_r. apply cut_none. unfold no_chars, is_char. (revert Huc; apply forallb_impl; pick_conjunct).
      - apply cut_some. unfold no_chars, is_char. (revert Huc; apply forallb_impl; pick_conjunct). }
    rewrite Hcc, Hhp.
    rewrite (percent_encode_id _ _ Huser).
    assert (Hpe : percent_encode userinfo_set
                    (match (if is_empty (password u) then None else Some (password u)) with
                     | Some p => p
                     | None => ""
                     end) = password u).
    { destruct (password u) eqn:E; [reflexivity |]. simpl is_empty. cbv iota.
      rewrite <- E. apply percent_encode_id. now rewrite E. }
    rewrite Hpe.
    split.
    + destruct h as [| c h']; [congruence |]. reflexivity.
    + rewrite !forallb_app. unfold passpart.
      repeat match goal with
             | |- (_ && _ = true) => apply andb_true_iff; split
             end.
      * (revert Huc; apply forallb_impl; pick_conjunct).
      * destruct (is_empty (password u)); [reflexivity |].
        cbn [append forallb]. apply andb_true_iff. split; [reflexivity | (revert Hpwc; apply forallb_impl; pick_conjunct)].
      * cbn [forallb]. rewrite forallb_app.
        apply andb_true_iff. split; [reflexivity |].
        apply andb_true_iff. split; [(revert Hhc; apply forallb_impl; pick_conjunct) | (revert Hpc; apply forallb_impl; pick_conjunct)].
  - (* no credentials *)
    assert (Hu : username u = "" /\ password u = "").
    { unfold includes_credentials in Hcred.
      destruct (username u), (password u); simpl in Hcred; try discriminate. auto. }
    destruct Hu as [Hu Hp]. cbn [append].
    rewrite (split_last_none "@" _ Hat).
    rewrite Hhp, Hu, Hp.
    split; [reflexivity |].
    rewrite forallb_app, andb_true_iff. split; [(revert Hhc; apply forallb_impl; pick_conjunct) | (revert Hpc; apply forallb_impl; pick_conjunct)].
Qed.

(** ** The path after an authority *)

Lemma segments_chars (special : bool) (l : list string) :
  List.forallb (seg_ok special) l = true ->
  forallb (fun c => plain c && negb (query_delim c)) (serialize_segments l) = true.
Proof.
  induction l as [| s l IH]; simpl; [reflexivity |].
  intros H. apply andb_true_iff in H. destruct H as [Hs Hl].
  unfold seg_ok in Hs. split_andb Hs.
  rewrite forallb_app, (IH Hl), andb_true_r.
  exact (forallb_impl _ _ _ path_char Hs).
Qed.

Lemma stops_app (p : ascii -> bool) (a b : string) :
  a <> "" -> no_chars p a = true -> stops p (a ++ b) = true.
Proof.
  destruct a as [| c a]; [congruence |]. intros _ H. simpl in *.
  now apply andb_true_iff in H.
Qed.

Lemma segments_stop (special : bool) (l : list string) :
  stops (fun c => negb (is_slash special c)) (serialize_segments l) = true.
Proof. destruct l; [reflexivity |]. now destruct special. Qed.

Lemma slash_weaken (special : bool) (s : string) :
  forallb auth_char s = true -> no_chars (is_slash special) s = true.
Proof.
  unfold no_chars. apply forallb_impl. intros c Hc. unfold auth_char in Hc. split_andb Hc.
  destruct special; [assumption |].
  apply negb_true_iff in H0. apply negb_true_iff. unfold is_slash in *. simpl in *.
  now destruct (Ascii.eqb c "/").
Qed.

Lemma parse_with_authority_serialized (u : URL) (h : string) (l : list string) :
  wf_authority u = true -> host u = Some h ->
  List.forallb (seg_ok (is_special u)) l = true ->
  (l = [] -> is_special u = false) ->
  parse_with_authority (scheme u) (serialize_authority u h ++ serialize_segments l) =
  Some (username u, password u, Some h, port u, Segments l).
Proof.
  intros Hw Hh Hl Hnil.
  destruct (parse_authority_serialized _ _ Hw Hh) as [Hpa Hac].
  unfold parse_with_authority. change (is_special_scheme (scheme u)) with (is_special u).
  rewrite (span_app _ _ _ (slash_weaken (is_special u) _ Hac) (segments_stop _ l)).
  rewrite Hpa. destruct l as [| s l'].
  - now rewrite (Hnil eq_refl).
  - cbn [serialize_segments append]. now rewrite (parse_serialized _ _ _ Hl).
Qed.

Lemma authority_nonempty (u : URL) (h : string) :
  h <> "" -> serialize_authority u h <> "".
Proof.
  intros Hne E. unfold serialize_authority in E.
  apply app_eq_nil in E. destruct E as [_ E].
  apply app_eq_nil in E. destruct E as [E _]. congruence.
Qed.

(** ** Without an authority *)

Lemma strip_prefix_slash (p : string) :
  startsWith p "/" = false ->
  strip_prefix "//" p = None /\ strip_prefix "/" p = None.
Proof.
  unfold startsWith. destruct p as [| c p]; [auto |]. cbn [prefixb strip_prefix].
  rewrite andb_true_r. now intros ->.
Qed.

Lemma single_segment_strip (special : bool) (s : string) (l : list string) :
  no_chars (is_slash special) s = true ->
  (s = "" -> l = []) ->
  strip_prefix "//" (serialize_segments (s :: l)) = None.
Proof.
  intros Hs Hnil. cbn [serialize_segments append strip_prefix].
  rewrite Ascii.eqb_refl.
  destruct s as [| c s'].
  - rewrite (Hnil eq_refl). reflexivity.
  - cbn [append]. unfold no_chars in Hs. cbn [forallb] in Hs.
    apply andb_true_iff in Hs. destruct Hs as [Hc _].
    apply negb_true_iff in Hc. unfold is_slash in Hc.
    apply orb_false_iff in Hc. destruct Hc as [Hc _].
    now rewrite (Ascii.eqb_sym "/" c), Hc.
Qed.

(** ** The hierarchy *)

Lemma wf_url_elim (u : URL) :
  wf_url u = true ->
  wf_scheme (scheme u) = true /\ wf_authority u = true /\ wf_path u = true
  /\ wf_query u = true /\ wf_fragment u = true.
Proof. unfold wf_url. intros H. split_andb H. auto. Qed.

Lemma no_host_elim (u : URL) :
  wf_authority u = true -> host u = None ->
  is_special u = false /\ username u = "" /\ password u = "" /\ port u = None.
Proof.
  unfold wf_authority. intros H Hh. rewrite Hh in H.
  apply andb_true_iff in H. destruct H as [_ H].
  apply andb_true_iff in H. destruct H as [H Hport].
  apply andb_true_iff in H. destruct H as [Hsp Hcred].
  apply negb_true_iff in Hsp, Hcred.
  unfold includes_credentials in Hcred.
  destruct (username u), (password u), (port u); simpl in *; try discriminate. auto.
Qed.

Lemma wf_opaque_elim (u : URL) (p : string) :
  wf_path u = true -> path u = Opaque p ->
  is_special u = false /\ host u = None
  /\ no_chars c0_control_set p = true /\ no_chars query_delim p = true
  /\ startsWith p "/" = false
  /\ (query u = None -> fragment u = None -> drop_while_end is_space p = p).
Proof.
  unfold wf_path. intros H Hp. rewrite Hp in H.
  apply andb_true_iff in H. destruct H as [H Hend].
  apply andb_true_iff in H. destruct H as [H Hslash].
  apply andb_true_iff in H. destruct H as [H Hdelim].
  apply andb_true_iff in H. destruct H as [H Hc0].
  apply andb_true_iff in H. destruct H as [Hsp Hhost].
  apply negb_true_iff in Hsp, Hslash.
  repeat split; try assumption.
  - now destruct (host u).
  - intros Hq Hf. rewrite Hq, Hf in Hend. simpl in Hend.
    rewrite !orb_false_r in Hend. now apply String.eqb_eq.
Qed.

Lemma path_state_dot (x : string) (r : list string) :
  path_state ("." :: x :: r) [] = path_state (x :: r) [].
Proof. reflexivity. Qed.

Lemma parse_hierarchy_serialized (u : URL) :
  wf_url u = true ->
  parse_hierarchy (scheme u) (serialize_hierarchy u) =
  Some (username u, password u, host u, port u, path u).
Proof.
  intros Hw. destruct (wf_url_elim _ Hw) as (_ & Ha & Hp & _ & _).
  unfold parse_hierarchy, serialize_hierarchy.
  change (is_special_scheme (scheme u)) with (is_special u).
  unfold wf_path in Hp.
  destruct (host u) as [h |] eqn:Hh.
  - (* with an authority *)
    destruct (path u) as [p | l] eqn:Hpath; [simpl in Hp; split_andb Hp; discriminate |].
    apply andb_true_iff in Hp. destruct Hp as [Hl Hnil].
    assert (Hnil' : l = [] -> is_special u = false).
    { intros ->. apply andb_true_iff in Hnil. destruct Hnil as [Hs _].
      now apply negb_true_iff in Hs. }
    cbn [serialize_path].
    pose proof (parse_with_authority_serialized u h l Ha Hh Hl Hnil') as P.
    destruct (is_special u) eqn:Hsp.
    + change (drop_while (is_slash true)
                ("//" ++ serialize_authority u h ++ serialize_segments l))
        with (drop_while (is_slash true) (serialize_authority u h ++ serialize_segments l)).
      destruct (wf_authority_elim _ _ Ha Hh) as (_ & _ & _ & _ & Hempty).
      destruct (parse_authority_serialized _ _ Ha Hh) as [_ Hac].
      rewrite drop_while_stops.
      * exact P.
      * apply stops_app; [| exact (slash_weaken true _ Hac)].
        apply authority_nonempty. intros ->.
        destruct (Hempty eq_refl) as (E & _). congruence.
    + change (strip_prefix "//" ("//" ++ serialize_authority u h ++ serialize_segments l))
        with (Some (serialize_authority u h ++ serialize_segments l)).
      exact P.
  - (* without an authority *)
    destruct (no_host_elim _ Ha Hh) as (Hsp & -> & -> & ->). rewrite Hsp in *.
    destruct (path u) as [p | l] eqn:Hpath.
    + cbn [serialize_path].
      destruct (wf_opaque_elim u p) as (_ & _ & Hc0 & _ & Hslash & _);
        [unfold wf_path; now rewrite Hpath, Hh, Hsp | exact Hpath |].
      destruct (strip_prefix_slash _ Hslash) as [-> ->].
      now rewrite (percent_encode_id _ _ Hc0).
    + apply andb_true_iff in Hp. destruct Hp as [Hl Hnil].
      destruct l as [| s l']; [discriminate |].
      assert (Hs : no_chars (is_slash false) s = true).
      { cbn [List.forallb] in Hl. apply andb_true_iff in Hl. destruct Hl as [Hs _].
        now destruct (seg_ok_elim _ _ Hs) as (_ & ? & _). }
      destruct s as [| c s'].
      * destruct l' as [| s2 l''].
        -- reflexivity.
        -- cbn [serialize_path serialize_segments append strip_prefix].
           change (Ascii.eqb "/" "/") with true. change (Ascii.eqb "/" ".") with false.
           cbv iota. unfold parse_path.
           change (String "." (String "/" (String "/" (s2 ++ serialize_segments l''))))
             with ("." ++ String "/" ("" ++ serialize_segments (s2 :: l''))).
           rewrite (split_on_app (is_slash false) "." _ "/"%char eq_refl eq_refl).
           assert (Hl2 : List.forallb (seg_ok false) ("" :: s2 :: l'') = true) by exact Hl.
           rewrite (split_serialized _ _ _ Hl2).
           rewrite path_state_dot. now rewrite (path_state_ok _ _ [] Hl2).
      * cbn [serialize_path].
        rewrite (single_segment_strip false _ l' Hs) by discriminate.
        cbn [serialize_segments append strip_prefix].
        change (Ascii.eqb "/" "/") with true. cbv iota.
        change (String c (s' ++ serialize_segments l'))
          with (String c s' ++ serialize_segments l').
        now rewrite (parse_serialized _ _ _ Hl).
Qed.

(** ** Characters of a serialization *)

Lemma plain_no_delim (s : string) :
  forallb auth_char s = true ->
  forallb (fun c => plain c && negb (query_delim c)) s = true.
Proof.
  apply forallb_impl. intros c Hc. unfold auth_char in Hc. split_andb Hc.
  now rewrite Hc, H.
Qed.

Lemma hierarchy_chars (u : URL) :
  wf_url u = true ->
  no_chars query_delim (serialize_hierarchy u) = true
  /\ forallb vis (serialize_hierarchy u) = true
  /\ (has_opaque_path u = false -> forallb plain (serialize_hierarchy u) = true).
Proof.
  intros Hw. destruct (wf_url_elim _ Hw) as (_ & Ha & Hp & _ & _).
  assert (Hstep : forall s,
             forallb (fun c => plain c && negb (query_delim c)) s = true ->
             no_chars query_delim s = true /\ forallb vis s = true
             /\ (has_opaque_path u = false -> forallb plain s = true)).
  { intros s Hs. repeat split.
    - unfold no_chars. revert Hs. apply forallb_impl. intros c Hc. now split_andb Hc.
    - revert Hs. apply forallb_impl. intros c Hc. split_andb Hc. now apply plain_vis.
    - intros _. revert Hs. apply forallb_impl. intros c Hc. now split_andb Hc. }
  unfold serialize_hierarchy.
  destruct (host u) as [h |] eqn:Hh.
  - destruct (parse_authority_serialized _ _ Ha Hh) as [_ Hac].
    apply Hstep. cbn [append forallb]. rewrite forallb_app.
    rewrite (plain_no_delim _ Hac).
    destruct (path u) as [p | l] eqn:Hpath.
    + unfold wf_path in Hp. rewrite Hpath, Hh in Hp. simpl in Hp.
      rewrite andb_false_r in Hp. discriminate.
    + unfold wf_path in Hp. rewrite Hpath in Hp.
      apply andb_true_iff in Hp. destruct Hp as [Hl _].
      cbn [serialize_path]. now rewrite (segments_chars _ _ Hl).
  - destruct (path u) as [p | l] eqn:Hpath.
    + destruct (wf_opaque_elim u p Hp Hpath) as (_ & _ & Hc0 & Hd & _).
      cbn [serialize_path]. repeat split; [exact Hd | |].
      * exact (forallb_impl _ _ _ opaque_char Hc0).
      * unfold has_opaque_path. rewrite Hpath. discriminate.
    + unfold wf_path in Hp. rewrite Hpath in Hp.
      apply andb_true_iff in Hp. destruct Hp as [Hl _].
      pose proof (segments_chars _ _ Hl) as Hsc.
      destruct l as [| [| c s] [| s2 l']]; apply Hstep; cbn [serialize_path];
        exact Hsc.
Qed.

Lemma wf_scheme_elim (sch : string) :
  wf_scheme sch = true ->
  (exists c r, sch = String c r /\ is_lower c = true)
  /\ forallb (fun c => plain c && is_scheme_char c && Ascii.eqb (lower c) c) sch = true
  /\ String.eqb sch "file" = false.
Proof.
  unfold wf_scheme. intros H.
  apply andb_true_iff in H. destruct H as [H Hfile].
  apply andb_true_iff in H. destruct H as [Hhead Hall].
  apply negb_true_iff in Hfile. repeat split; [| | exact Hfile].
  - destruct sch as [| c r]; [discriminate |]. eauto.
  - exact (forallb_impl _ _ _ scheme_char Hall).
Qed.

Lemma query_string_chars (u : URL) :
  wf_query u = true ->
  forallb (fun c => plain c && negb (Ascii.eqb c "#")) (query_string (query u)) = true.
Proof.
  unfold wf_query. destruct (query u) as [q |]; [| reflexivity]. intros H.
  cbn [query_string append forallb]. apply andb_true_iff. split; [reflexivity |].
  exact (forallb_impl _ _ _ (query_char (is_special u)) H).
Qed.

Lemma fragment_string_chars (u : URL) :
  wf_fragment u = true -> forallb plain (fragment_string (fragment u)) = true.
Proof.
  unfold wf_fragment. destruct (fragment u) as [f |]; [| reflexivity]. intros H.
  cbn [fragment_string append forallb]. apply andb_true_iff. split; [reflexivity |].
  exact (forallb_impl _ _ _ fragment_char H).
Qed.

Lemma serialize_unfold (u : URL) :
  serialize u =
  scheme u ++ ":" ++ serialize_hierarchy u
    ++ query_string (query u) ++ fragment_string (fragment u).
Proof. reflexivity. Qed.

(** A serialization starts with a lower-case letter, is printable, and
    does not end with a space. *)
Lemma serialize_shape (u : URL) :
  wf_url u = true ->
  (exists c r, serialize u = String c r /\ is_lower c = true)
  /\ forallb vis (serialize u) = true
  /\ ends_clear (fun c => negb (plain c)) (serialize u).
Proof.
  intros Hw. destruct (wf_url_elim _ Hw) as (Hs & Ha & Hp & Hq & Hf).
  destruct (wf_scheme_elim _ Hs) as ((c & r & Hsch & Hc) & Hsc & _).
  destruct (hierarchy_chars _ Hw) as (_ & Hhv & Hhp).
  pose proof (query_string_chars _ Hq) as Hqc.
  pose proof (fragment_string_chars _ Hf) as Hfc.
  assert (Hplain_s : forallb plain (scheme u ++ ":") = true).
  { rewrite forallb_app. apply andb_true_iff. split; [| reflexivity].
    revert Hsc. apply forallb_impl. intros x Hx. now split_andb Hx. }
  assert (Hplain_q : forallb plain (query_string (query u)) = true).
  { revert Hqc. apply forallb_impl. intros x Hx. now split_andb Hx. }
  rewrite serialize_unfold. split; [| split].
  - rewrite Hsch. cbn [append]. eauto.
  - rewrite <- (app_assoc (scheme u) ":").
    rewrite (forallb_app _ (scheme u ++ ":")), (forallb_app _ (serialize_hierarchy u)),
      (forallb_app _ (query_string (query u))).
    rewrite (forallb_impl _ _ _ plain_vis Hplain_s), Hhv.
    rewrite (forallb_impl _ _ _ plain_vis Hplain_q), (forallb_impl _ _ _ plain_vis Hfc).
    reflexivity.
  - destruct (fragment u) as [f |] eqn:Ef.
    + rewrite <- !app_assoc. apply ends_clear_app; [discriminate |].
      apply ends_clear_all. revert Hfc. apply forallb_impl. intros x ->. reflexivity.
    + cbn [fragment_string]. rewrite app_nil_r.
      destruct (query u) as [q |] eqn:Eq.
      * rewrite <- !app_assoc. apply ends_clear_app; [discriminate |].
        apply ends_clear_all. revert Hplain_q. apply forallb_impl. intros x ->. reflexivity.
      * cbn [query_string]. rewrite app_nil_r.
        destruct (path u) as [p | l] eqn:Epath.
        -- destruct (wf_opaque_elim u p Hp Epath) as (_ & Hh & Hc0 & _ & _ & Hend).
           unfold serialize_hierarchy. rewrite Hh, Epath. cbn [serialize_path].
           destruct p as [| x p'].
           ++ rewrite app_nil_r. apply ends_clear_all.
              revert Hplain_s. apply forallb_impl. intros y ->. reflexivity.
           ++ rewrite <- app_assoc. apply ends_clear_app; [discriminate |].
              apply (ends_clear_within vis is_space).
              ** exact (forallb_impl _ _ _ opaque_char Hc0).
              ** intros y Hy Hn. apply vis_not_plain_space. now rewrite Hy, Hn.
              ** exact (Hend Eq Ef).
        -- rewrite <- app_assoc. apply ends_clear_all.
           rewrite forallb_app. apply andb_true_iff. split.
           ++ revert Hplain_s. apply forallb_impl. intros y ->. reflexivity.
           ++ assert (Hno : has_opaque_path u = false)
                by (unfold has_opaque_path; now rewrite Epath).
              generalize (Hhp Hno). apply forallb_impl. intros y ->. reflexivity.
Qed.

(** ** Parsing a serialization *)

Lemma split_scheme_app (sch rest : string) :
  (exists c r, sch = String c r /\ is_lower c = true) ->
  forallb (fun c => plain c && is_scheme_char c && Ascii.eqb (lower c) c) sch = true ->
  split_scheme (sch ++ ":" ++ rest) = Some (sch, rest).
Proof.
  intros (c & r & -> & Hc) Hall.
  pose proof (lower_is_alpha _ Hc) as Hal. apply andb_true_iff in Hal.
  destruct Hal as [Hal _].
  unfold split_scheme. cbn [append]. rewrite Hal.
  change (String c (r ++ String ":" rest)) with (String c r ++ String ":" rest).
  rewrite (span_app is_scheme_char (String c r) (String ":" rest)).
  - unfold toLowerCase. rewrite (map_id lower (String c r)); [reflexivity |].
    revert Hall. apply forallb_impl. intros x Hx. now split_andb Hx.
  - revert Hall. apply forallb_impl. intros x Hx. now split_andb Hx.
  - reflexivity.
Qed.

Lemma no_delim_hash (s : string) :
  no_chars query_delim s = true -> no_chars (is_char "#") s = true.
Proof.
  unfold no_chars. apply forallb_impl. revert s. intros _.
  apply ascii_implies. vm_compute. reflexivity.
Qed.

Lemma no_delim_question (s : string) :
  no_chars query_delim s = true -> no_chars (is_char "?") s = true.
Proof.
  unfold no_chars. apply forallb_impl. revert s. intros _.
  apply ascii_implies. vm_compute. reflexivity.
Qed.

Lemma cut_fragment (a : string) (f : option string) :
  no_chars (is_char "#") a = true ->
  cut "#" (a ++ fragment_string f) = (a, f).
Proof.
  intros Ha. destruct f as [f |]; cbn [fragment_string append].
  - now apply cut_some.
  - rewrite app_nil_r. now apply cut_none.
Qed.

Lemma cut_query (a : string) (q : option string) :
  no_chars (is_char "?") a = true ->
  cut "?" (a ++ query_string q) = (a, q).
Proof.
  intros Ha. destruct q as [q |]; cbn [query_string append].
  - now apply cut_some.
  - rewrite app_nil_r. now apply cut_none.
Qed.

Lemma preprocess_serialized (u : URL) :
  wf_url u = true ->
  remove_tab_newline (strip_c0_space (serialize u)) = serialize u.
Proof.
  intros Hw. destruct (serialize_shape _ Hw) as ((c & r & Hser & Hc) & Hvis & Hend).
  unfold strip_c0_space. rewrite (drop_while_stops is_c0_or_space (serialize u)).
  - assert (E : ends_clear is_c0_or_space (serialize u)).
    { apply (ends_clear_within vis (fun c => negb (plain c))); [exact Hvis | | exact Hend].
      intros x _ Hx. now apply space_not_plain. }
    unfold ends_clear in E. rewrite E.
    unfold remove_tab_newline. apply filter_id.
    exact (forallb_impl _ _ _ vis_no_tab Hvis).
  - rewrite Hser. cbn [stops]. clear Hser. revert c Hc.
    apply ascii_implies. vm_compute. reflexivity.
Qed.

Lemma url_eta (u : URL) :
  mkURL (scheme u) (username u) (password u) (host u) (port u) (path u)
        (query u) (fragment u) = u.
Proof. now destruct u. Qed.

(** Parsing the serialization of a well-formed record gives the record
    back. *)
Lemma basic_parse_serialize (u : URL) :
  wf_url u = true -> basic_parse (serialize u) = Some u.
Proof.
  intros Hw. destruct (wf_url_elim _ Hw) as (Hs & _ & _ & Hq & Hf).
  destruct (wf_scheme_elim _ Hs) as (Hhead & Hsc & Hfile).
  destruct (hierarchy_chars _ Hw) as (Hhd & _ & _).
  pose proof (query_string_chars _ Hq) as Hqc.
  unfold basic_parse. rewrite (preprocess_serialized _ Hw), serialize_unfold.
  rewrite (split_scheme_app _ _ Hhead Hsc).
  rewrite <- (app_assoc (serialize_hierarchy u)).
  rewrite cut_fragment.
  2:{ unfold no_chars. rewrite forallb_app. apply andb_true_iff. split.
      - exact (no_delim_hash _ Hhd).
      - revert Hqc. apply forallb_impl. intros x Hx. split_andb Hx. exact H. }
  rewrite (cut_query _ _ (no_delim_question _ Hhd)).
  rewrite Hfile, (parse_hierarchy_serialized _ Hw).
  assert (Eq : option_map
                 (percent_encode
                    (if is_special_scheme (scheme u) then special_query_set else query_set))
                 (query u) = query u).
  { unfold wf_query, is_special in Hq. destruct (query u) as [q |]; [| reflexivity].
    cbn [option_map]. now rewrite (percent_encode_id _ _ Hq). }
  assert (Ef : option_map (percent_encode fragment_set) (fragment u) = fragment u).
  { unfold wf_fragment in Hf. destruct (fragment u) as [f |]; [| reflexivity].
    cbn [option_map]. now rewrite (percent_encode_id _ _ Hf). }
  cbv zeta. rewrite Eq, Ef. now rewrite url_eta.
Qed.

End RoundTrip.

(* ================================================================== *)
(** * Facts about [application/x-www-form-urlencoded] *)
(* ================================================================== *)

Module FormFacts.
Import Chars Str URLStd WF ProofNotions StrFacts EncodeFacts SplitFacts HostFacts.

(** ** The lossy UTF-8 decoder is idempotent *)

Lemma pending_start : pending 0 128 191 "".
Proof. intros t. reflexivity. Qed.

Lemma utf8_lossy_one (b : ascii) (t : string) :
  utf8_classify b = OneByte -> utf8_lossy (String b t) = String b (utf8_lossy t).
Proof. intros H. unfold utf8_lossy. cbn [utf8_go]. now rewrite H. Qed.

Lemma pending_lead (b : ascii) (n : nat) (l h : N) :
  utf8_classify b = Lead n l h -> pending n l h (String b "").
Proof. intros H t. unfold utf8_lossy. cbn [append utf8_go]. now rewrite H. Qed.

Lemma pending_step (n : nat) (lo hi : N) (pend : string) (b : ascii) :
  pending (S (S n)) lo hi pend -> in_range lo hi b = true ->
  pending (S n) 128 191 (pend ++ String b "").
Proof.
  intros Hp Hb t. rewrite app_assoc. cbn [append]. rewrite Hp.
  cbn [utf8_go]. now rewrite Hb.
Qed.

Lemma pending_finish (lo hi : N) (pend : string) (b : ascii) (t : string) :
  pending 1 lo hi pend -> in_range lo hi b = true ->
  utf8_lossy (pend ++ String b t) = pend ++ String b (utf8_lossy t).
Proof. intros Hp Hb. rewrite Hp. cbn [utf8_go]. now rewrite Hb. Qed.

Lemma utf8_lossy_replacement (t : string) :
  utf8_lossy (replacement ++ t) = replacement ++ utf8_lossy t.
Proof. reflexivity. Qed.

Lemma utf8_go_stable (s : string) :
  forall need lo hi pend,
    pending need lo hi pend ->
    utf8_lossy (utf8_go s need lo hi pend) = utf8_go s need lo hi pend.
Proof.
  induction s as [| b s IH]; intros need lo hi pend Hp.
  - destruct need; reflexivity.
  - assert (Hrestart :
      utf8_lossy
        match utf8_classify b with
        | OneByte => String b (utf8_go s 0 128 191 "")
        | Lead n l h => utf8_go s n l h (String b "")
        | Stray => replacement ++ utf8_go s 0 128 191 ""
        end =
        match utf8_classify b with
        | OneByte => String b (utf8_go s 0 128 191 "")
        | Lead n l h => utf8_go s n l h (String b "")
        | Stray => replacement ++ utf8_go s 0 128 191 ""
        end).
    { destruct (utf8_classify b) as [| n l h |] eqn:Hb.
      - rewrite (utf8_lossy_one _ _ Hb). now rewrite (IH _ _ _ _ pending_start).
      - apply IH. now apply pending_lead.
      - rewrite utf8_lossy_replacement. now rewrite (IH _ _ _ _ pending_start). }
    cbn [utf8_go]. destruct need as [| n]; [exact Hrestart |].
    destruct (in_range lo hi b) eqn:Hin.
    + destruct n as [| n].
      * rewrite (pending_finish _ _ _ _ _ Hp Hin).
        now rewrite (IH _ _ _ _ pending_start).
      * apply IH. exact (pending_step _ _ _ _ _ Hp Hin).
    + rewrite utf8_lossy_replacement. now rewrite Hrestart.
Qed.

Lemma utf8_lossy_idem (s : string) : utf8_clean (utf8_lossy s).
Proof. apply utf8_go_stable. exact pending_start. Qed.


(** ** Decoding an encoded name or value *)

Lemma escape_ok_all (c : ascii) : escape_ok c = true.
Proof. revert c. apply ascii_forall. vm_compute. reflexivity. Qed.

Lemma decode_form_escape (c : ascii) (s : string) :
  decode_form (percent_byte c ++ s) = String c (decode_form s).
Proof.
  pose proof (escape_ok_all c) as H. unfold escape_ok in H. cbv zeta in H.
  split_andb H. apply Ascii.eqb_eq in H0, H1, H2.
  unfold decode_form, percent_byte. cbn [append map].
  rewrite H0, H1. change (plus_to_space "%") with "%"%char.
  cbn [percent_decode]. change (Ascii.eqb "%" "%") with true. cbv iota.
  now rewrite H, H3, H2.
Qed.

Lemma plus_to_space_plain (c : ascii) :
  urlencoded_set c = false ->
  plus_to_space c = c /\ Ascii.eqb c "%" = false.
Proof.
  intros H.
  assert (E : Ascii.eqb (plus_to_space c) c && negb (Ascii.eqb c "%") = true).
  { revert c H. intros c H. apply negb_true_iff in H. revert c H.
    apply ascii_implies. vm_compute. reflexivity. }
  split_andb E. apply Ascii.eqb_eq in E. now apply negb_true_iff in H0.
Qed.

Lemma decode_form_plain (c : ascii) (s : string) :
  plus_to_space c = c -> Ascii.eqb c "%" = false ->
  decode_form (String c s) = String c (decode_form s).
Proof.
  intros Hp Hc. unfold decode_form. cbn [map percent_decode].
  now rewrite Hp, Hc.
Qed.

Lemma decode_form_encode (x : string) : decode_form (urlencoded_encode x) = x.
Proof.
  induction x as [| c x IH]; [reflexivity |]. cbn [urlencoded_encode].
  destruct (Ascii.eqb c " ") eqn:Hsp.
  - apply Ascii.eqb_eq in Hsp. subst c. cbn [append].
    unfold decode_form. cbn [map]. change (plus_to_space "+") with " "%char.
    cbn [percent_decode]. change (Ascii.eqb " " "%") with false. cbv iota.
    fold (decode_form (urlencoded_encode x)). now rewrite IH.
  - destruct (urlencoded_set c) eqn:Hset.
    + now rewrite decode_form_escape, IH.
    + destruct (plus_to_space_plain _ Hset) as [Hp Hc]. cbn [append].
      now rewrite (decode_form_plain _ _ Hp Hc), IH.
Qed.

Lemma urlencoded_decode_encode (x : string) :
  urlencoded_decode (urlencoded_encode x) = utf8_lossy x.
Proof.
  unfold urlencoded_decode. fold (decode_form (urlencoded_encode x)).
  now rewrite decode_form_encode.
Qed.

(** ** The characters of a serialization *)

Lemma urlencoded_encode_chars (x : string) :
  forallb name_char (urlencoded_encode x) = true.
Proof.
  induction x as [| c x IH]; [reflexivity |]. cbn [urlencoded_encode].
  rewrite forallb_app, IH, andb_true_r.
  destruct (Ascii.eqb c " "); [reflexivity |].
  destruct (urlencoded_set c) eqn:Hset.
  - apply percent_byte_forallb. vm_compute. reflexivity.
  - cbn [forallb]. unfold name_char. now rewrite Hset.
Qed.

Lemma name_char_spec c :
  name_char c = true ->
  form_char c && negb (Ascii.eqb c "&") && negb (Ascii.eqb c "=") = true.
Proof. revert c. apply ascii_implies. vm_compute. reflexivity. Qed.

Lemma form_char_spec (special : bool) c :
  form_char c = true ->
  negb ((if special then special_query_set else query_set) c) = true.
Proof. destruct special; revert c; apply ascii_implies; vm_compute; reflexivity. Qed.

Lemma pair_string_chars (nv : string * string) :
  forallb (fun c => form_char c && negb (Ascii.eqb c "&")) (pair_string nv) = true.
Proof.
  unfold pair_string. rewrite forallb_app. cbn [append forallb].
  assert (H : forall x, forallb (fun c => form_char c && negb (Ascii.eqb c "&"))
                                (urlencoded_encode x) = true).
  { intros x. generalize (urlencoded_encode_chars x). apply forallb_impl.
    intros c Hc. pose proof (name_char_spec _ Hc) as H. split_andb H.
    apply andb_true_iff. split; assumption. }
  now rewrite !H.
Qed.

Lemma split_pair_string (nv : string * string) :
  split_pair (pair_string nv) = (urlencoded_encode (fst nv), urlencoded_encode (snd nv)).
Proof.
  unfold split_pair, pair_string. cbn [append].
  rewrite (span_app (fun c => negb (Ascii.eqb c "=")) (urlencoded_encode (fst nv))
                    (String "=" (urlencoded_encode (snd nv)))).
  - reflexivity.
  - generalize (urlencoded_encode_chars (fst nv)). apply forallb_impl.
    intros c Hc. pose proof (name_char_spec _ Hc) as H. now split_andb H.
  - reflexivity.
Qed.

Lemma pair_string_nonempty (nv : string * string) : is_empty (pair_string nv) = false.
Proof.
  unfold pair_string. destruct (urlencoded_encode (fst nv)); reflexivity.
Qed.

Lemma join_cons (sep x y : string) (l : list string) :
  join sep (x :: y :: l) = x ++ sep ++ join sep (y :: l).
Proof. reflexivity. Qed.

Lemma split_join (c : ascii) (l : list string) :
  l <> [] ->
  List.forallb (no_chars (is_char c)) l = true ->
  split_on (is_char c) (join (String c "") l) = l.
Proof.
  induction l as [| x [| y l] IH]; intros Hne Hl; [congruence | |].
  - cbn [List.forallb] in Hl. apply andb_true_iff in Hl. destruct Hl as [Hx _].
    cbn [join]. now apply split_on_none.
  - rewrite join_cons. cbn [List.forallb] in Hl. apply andb_true_iff in Hl.
    destruct Hl as [Hx Hl]. cbn [append].
    rewrite (split_on_app (is_char c) x (join (String c "") (y :: l)) c Hx).
    + rewrite IH; [reflexivity | discriminate | exact Hl].
    + unfold is_char. apply Ascii.eqb_refl.
Qed.

Lemma join_chars (q : ascii -> bool) (sep : string) (l : list string) :
  forallb q sep = true -> List.forallb (forallb q) l = true ->
  forallb q (join sep l) = true.
Proof.
  intros Hsep. induction l as [| x [| y l] IH]; intros Hl; [reflexivity | |].
  - cbn [List.forallb] in Hl. apply andb_true_iff in Hl. now destruct Hl.
  - rewrite join_cons. cbn [List.forallb] in Hl. apply andb_true_iff in Hl.
    destruct Hl as [Hx Hl]. rewrite !forallb_app, Hx, Hsep. now apply IH.
Qed.

Lemma join_nil (sep : string) (l : list string) :
  List.forallb (fun x => negb (is_empty x)) l = true -> join sep l = "" -> l = [].
Proof.
  destruct l as [| x [| y l]]; [reflexivity | |]; cbn [List.forallb]; intros Hl Hj.
  - cbn [join] in Hj. subst x. discriminate.
  - rewrite join_cons in Hj. apply app_eq_nil in Hj. destruct Hj as [-> _].
    discriminate.
Qed.

(** ** Parsing a serialization *)

Lemma urlencoded_parse_clean (s : string) :
  List.Forall clean_pair (urlencoded_parse s).
Proof.
  unfold urlencoded_parse. apply List.Forall_forall. intros nv Hin.
  apply List.in_map_iff in Hin. destruct Hin as (seq & <- & _).
  destruct (split_pair seq) as [n v]. split; apply utf8_lossy_idem.
Qed.

Lemma urlencoded_serialize_spec (l : list (string * string)) :
  urlencoded_serialize l = join "&" (List.map pair_string l).
Proof. reflexivity. Qed.

Lemma urlencoded_serialize_nil (l : list (string * string)) :
  urlencoded_serialize l = "" -> l = [].
Proof.
  rewrite urlencoded_serialize_spec. intros H. apply join_nil in H.
  - destruct l; [reflexivity | discriminate].
  - apply List.forallb_forall. intros x Hin. apply List.in_map_iff in Hin.
    destruct Hin as (nv & <- & _). now rewrite pair_string_nonempty.
Qed.

Lemma urlencoded_serialize_chars (l : list (string * string)) :
  forallb form_char (urlencoded_serialize l) = true.
Proof.
  rewrite urlencoded_serialize_spec. apply join_chars; [reflexivity |].
  apply List.forallb_forall. intros x Hin. apply List.in_map_iff in Hin.
  destruct Hin as (nv & <- & _). generalize (pair_string_chars nv).
  apply forallb_impl. intros c Hc. now split_andb Hc.
Qed.

Lemma filter_all {A : Type} (p : A -> bool) (l : list A) :
  List.forallb p l = true -> List.filter p l = l.
Proof.
  induction l as [| x l IH]; cbn; [reflexivity |].
  intros H. apply andb_true_iff in H. destruct H as [-> Hl]. now rewrite IH.
Qed.

(** Parsing the serialization of a list of names and values gives the
    list back, provided its strings are in UTF-8. *)
Lemma urlencoded_round_trip (l : list (string * string)) :
  List.Forall clean_pair l -> urlencoded_parse (urlencoded_serialize l) = l.
Proof.
  intros Hl. unfold urlencoded_parse. rewrite urlencoded_serialize_spec.
  destruct l as [| nv l]; [reflexivity |].
  change (fun c : ascii => Ascii.eqb c "&") with (is_char "&").
  rewrite split_join.
  - rewrite filter_all.
    + rewrite List.map_map. rewrite <- (List.map_id (nv :: l)) at 2.
      apply List.map_ext_in. intros [n v] Hin.
      rewrite split_pair_string. cbn [fst snd].
      rewrite !urlencoded_decode_encode.
      rewrite List.Forall_forall in Hl. destruct (Hl _ Hin) as [Hn Hv].
      cbn [fst snd] in Hn, Hv. unfold utf8_clean in Hn, Hv. now rewrite Hn, Hv.
    + apply List.forallb_forall. intros x Hin. apply List.in_map_iff in Hin.
      destruct Hin as (y & <- & _). now rewrite pair_string_nonempty.
  - discriminate.
  - apply List.forallb_forall. intros x Hin. apply List.in_map_iff in Hin.
    destruct Hin as (y & <- & _). generalize (pair_string_chars y).
    unfold no_chars. apply forallb_impl. intros c Hc. now split_andb Hc.
Qed.

Lemma clean_filter (p : string * string -> bool) (l : list (string * string)) :
  List.Forall clean_pair l -> List.Forall clean_pair (List.filter p l).
Proof.
  rewrite !List.Forall_forall. intros H x Hin. apply List.filter_In in Hin.
  now apply H.
Qed.

End FormFacts.

(* ================================================================== *)
(** * What the parser answers is well formed *)
(* ================================================================== *)

Module ParseFacts.
Import Chars Str URLStd WF ProofNotions StrFacts EncodeFacts SplitFacts HostFacts PathFacts RoundTrip.

Lemma alpha_lower c : is_alpha c = true -> is_lower (lower c) = true.
Proof. revert c. apply ascii_implies. vm_compute. reflexivity. Qed.

Lemma alpha_not_colon c : is_alpha c = true -> negb (Ascii.eqb c ":") = true.
Proof. revert c. apply ascii_implies. vm_compute. reflexivity. Qed.

Lemma scheme_char_lower c :
  is_scheme_char c = true ->
  is_scheme_char (lower c) && negb (is_upper (lower c)) = true.
Proof. revert c. apply ascii_implies. vm_compute. reflexivity. Qed.

Lemma split_scheme_spec (s sch rest : string) :
  split_scheme s = Some (sch, rest) ->
  (exists raw, s = raw ++ ":" ++ rest /\ sch = toLowerCase raw
               /\ forallb is_scheme_char raw = true)
  /\ wf_scheme sch = true \/ sch = "file".
Proof.
  unfold split_scheme. destruct s as [| a s0]; [discriminate |].
  destruct (is_alpha a) eqn:Ha; [| discriminate].
  destruct (span is_scheme_char (String a s0)) as [raw b] eqn:E.
  destruct (span_spec _ _ _ _ E) as (Hs & Hraw & _).
  destruct b as [| c rest']; [discriminate |].
  destruct (Ascii.eqb_spec c ":") as [-> | Hne].
  2:{ destruct c as [[] [] [] [] [] [] [] []]; try discriminate. now elim Hne. }
  intros H. injection H as <- <-.
  destruct (String.eqb (toLowerCase raw) "file") eqn:Hfile.
  { right. now apply String.eqb_eq. }
  left. split.
  - exists raw. repeat split; assumption.
  - destruct raw as [| r0 raw'].
    + cbn [append] in Hs. injection Hs as -> _.
      pose proof (alpha_not_colon _ Ha). discriminate.
    + cbn [append] in Hs. injection Hs as <- _.
      unfold wf_scheme. rewrite Hfile.
      unfold toLowerCase at 1. cbn [map]. rewrite (alpha_lower _ Ha).
      unfold toLowerCase. rewrite forallb_map.
      rewrite (forallb_impl _ _ _ scheme_char_lower Hraw). reflexivity.
Qed.

Lemma parse_port_wf (sch digits : string) (p : option N) :
  parse_port sch digits = Some p -> wf_port sch p = true.
Proof.
  unfold parse_port. destruct (forallb is_digit digits); [| discriminate].
  destruct digits as [| c r]; [intros H; now injection H as <- |].
  cbv zeta. remember (digits_value 10 (String c r) 0) as n eqn:Hn. clear Hn.
  destruct (65535 <? n)%N eqn:Hmax; [discriminate |].
  destruct (match default_port sch with Some d => (d =? n)%N | None => false end) eqn:Hd;
    intros H; injection H as <-; [reflexivity |].
  unfold wf_port. rewrite Hd. apply N.ltb_ge in Hmax.
  apply N.leb_le in Hmax. now rewrite Hmax.
Qed.

Lemma parse_hostport_wf (sch hostport hst : string) (prt : option N) :
  parse_hostport sch hostport = Some (hst, prt) ->
  wf_host (is_special_scheme sch) hst = true
  /\ wf_port sch prt = true
  /\ (hst = "" -> is_special_scheme sch = false /\ prt = None /\ hostport = "").
Proof.
  unfold parse_hostport. destruct (cut ":" hostport) as [h p] eqn:Ecut.
  destruct (cut_spec _ _ _ _ Ecut) as [_ Hhp].
  set (checked := match p with
                  | Some digits => if is_empty h then None else parse_port sch digits
                  | None => if is_special_scheme sch && is_empty h then None else Some None
                  end).
  destruct checked as [prt' |] eqn:Hc; [| discriminate].
  destruct (host_parse (negb (is_special_scheme sch)) h) as [hst' |] eqn:Hh; [| discriminate].
  intros H. injection H as <- <-.
  destruct (host_parse_wf _ _ _ Hh) as [Hwf Hne]. rewrite negb_involutive in Hwf.
  subst checked. split; [exact Hwf |]. split.
  - destruct p as [digits |].
    + destruct (is_empty h); [discriminate |]. now apply parse_port_wf in Hc.
    + destruct (is_special_scheme sch && is_empty h); [discriminate |].
      now injection Hc as <-.
  - intros ->. destruct (is_special_scheme sch) eqn:Hsp.
    + now elim (Hne eq_refl).
    + split; [reflexivity |]. cbn [negb] in Hh. unfold host_parse in Hh.
      destruct (startsWith h "["); [discriminate |].
      destruct (existsb forbidden_host h); [discriminate |].
      injection Hh as Hh. apply percent_encode_nil in Hh. subst h.
      destruct p as [digits |]; [discriminate |].
      cbn in Hc. injection Hc as <-. now rewrite Hhp.
Qed.

Lemma parse_authority_wf (sch auth user pass hst : string) (prt : option N) :
  parse_authority sch auth = Some (user, pass, hst, prt) ->
  no_chars userinfo_set user = true
  /\ no_chars userinfo_set pass = true
  /\ wf_host (is_special_scheme sch) hst = true
  /\ wf_port sch prt = true
  /\ (hst = "" ->
      is_special_scheme sch = false /\ user = "" /\ pass = "" /\ prt = None).
Proof.
  unfold parse_authority.
  destruct (split_last "@" auth) as [[c hp] |] eqn:Hsl.
  - destruct (cut ":" c) as [u p].
    destruct hp as [| x hp']; [discriminate |].
    destruct (parse_hostport sch (String x hp')) as [[hst' prt'] |] eqn:Hhp; [| discriminate].
    intros H. injection H as <- <- <- <-.
    destruct (parse_hostport_wf _ _ _ _ Hhp) as (Hh & Hp & He).
    split; [apply percent_encode_clean; exact escapes_userinfo |].
    split; [apply percent_encode_clean; exact escapes_userinfo |].
    split; [exact Hh |]. split; [exact Hp |].
    intros Hn. destruct (He Hn) as (_ & _ & ?). discriminate.
  - destruct (parse_hostport sch auth) as [[hst' prt'] |] eqn:Hhp.
    2:{ destruct auth; discriminate. }
    intros H.
    assert (H' : Some ("", "", hst', prt') = Some (user, pass, hst, prt))
      by (destruct auth; exact H).
    injection H' as <- <- <- <-.
    destruct (parse_hostport_wf _ _ _ _ Hhp) as (Hh & Hp & He).
    split; [reflexivity |]. split; [reflexivity |].
    split; [exact Hh |]. split; [exact Hp |].
    intros Hn. destruct (He Hn) as (? & ? & ?). auto.
Qed.

Lemma wf_authority_intro (u : URL) (h : string) :
  host u = Some h ->
  no_chars userinfo_set (username u) = true ->
  no_chars userinfo_set (password u) = true ->
  wf_host (is_special u) h = true ->
  wf_port (scheme u) (port u) = true ->
  (h = "" -> is_special u = false /\ username u = "" /\ password u = "" /\ port u = None) ->
  wf_authority u = true.
Proof.
  intros Hh Hu Hp Hwf Hport He. unfold wf_authority.
  rewrite Hu, Hp, Hport, Hh, Hwf. cbn [andb].
  destruct h as [| c r]; [| reflexivity].
  destruct (He eq_refl) as (Hsp & Hun & Hpw & Hpt).
  unfold includes_credentials. now rewrite Hsp, Hun, Hpw, Hpt.
Qed.

Lemma parse_with_authority_wf (sch after : string) (h : hierarchy)
      (q f : option string) :
  parse_with_authority sch after = Some h ->
  let '(user, pass, hst, prt, pth) := h in
  let u := mkURL sch user pass hst prt pth q f in
  wf_authority u = true /\ wf_path u = true.
Proof.
  unfold parse_with_authority.
  destruct (span (fun c => negb (is_slash (is_special_scheme sch) c)) after) as [auth p].
  destruct (parse_authority sch auth) as [[[[user pass] hst] prt] |] eqn:Ha; [| discriminate].
  intros H. injection H as <-.
  destruct (parse_authority_wf _ _ _ _ _ _ Ha) as (Hu & Hp & Hh & Hport & He).
  split.
  - now apply (wf_authority_intro _ hst).
  - unfold wf_path, is_special. cbn [path scheme host is_none negb].
    destruct p as [| c p'].
    + destruct (is_special_scheme sch); reflexivity.
    + destruct (parse_path_wf (is_special_scheme sch) p') as [Hok Hne].
      rewrite Hok. destruct (parse_path _ p'); [now elim Hne | reflexivity].
Qed.

Lemma percent_encode_head (set : ascii -> bool) (s : string) (x : ascii) :
  Ascii.eqb x "%" = false ->
  startsWith s (String x "") = false ->
  startsWith (percent_encode set s) (String x "") = false.
Proof.
  intros Hx. destruct s as [| c s]; [reflexivity |].
  unfold startsWith. cbn [percent_encode prefixb].
  destruct (set c).
  - intros _. unfold percent_byte. cbn [append]. now rewrite Hx.
  - cbn [append]. now intros ->.
Qed.

Lemma percent_encode_ends (set p : ascii -> bool) (s : string) :
  escapes (fun c => negb (p c)) ->
  ends_clear p s -> ends_clear p (percent_encode set s).
Proof.
  intros Hesc. induction s as [| c s IH]; [reflexivity |].
  intros Hs. cbn [percent_encode].
  destruct s as [| d s'].
  - cbn [percent_encode]. rewrite app_nil_r. destruct (set c).
    + apply ends_clear_all. now apply percent_byte_forallb.
    + exact Hs.
  - apply ends_clear_app.
    + intros Hn. apply percent_encode_nil in Hn. discriminate.
    + apply IH. apply (ends_clear_tail p (String c "") (String d s')); [discriminate |].
      exact Hs.
Qed.

Lemma strip_prefix_none (s : string) :
  strip_prefix "/" s = None -> startsWith s "/" = false.
Proof.
  destruct s as [| c s]; [reflexivity |]. unfold startsWith. cbn [strip_prefix prefixb].
  destruct (Ascii.eqb "/" c); [discriminate | reflexivity].
Qed.

Lemma parse_hierarchy_wf (sch main : string) (h : hierarchy) (q f : option string) :
  no_chars query_delim main = true ->
  (q = None -> f = None -> ends_clear is_space main) ->
  parse_hierarchy sch main = Some h ->
  let '(user, pass, hst, prt, pth) := h in
  let u := mkURL sch user pass hst prt pth q f in
  wf_authority u = true /\ wf_path u = true.
Proof.
  intros Hd Hend. unfold parse_hierarchy.
  destruct (is_special_scheme sch) eqn:Hsp.
  { apply parse_with_authority_wf. }
  destruct (strip_prefix "//" main) as [after |].
  { apply parse_with_authority_wf. }
  destruct (strip_prefix "/" main) as [p |] eqn:Hone; intros H; injection H as <-.
  - split.
    + unfold wf_authority, is_special, includes_credentials.
      cbn [scheme username password host port]. now rewrite Hsp.
    + unfold wf_path, is_special. cbn [path scheme host].
      destruct (parse_path_wf false p) as [Hok Hne]. rewrite Hsp, Hok.
      destruct (parse_path false p); [now elim Hne | reflexivity].
  - split.
    + unfold wf_authority, is_special, includes_credentials.
      cbn [scheme username password host port]. now rewrite Hsp.
    + unfold wf_path, is_special. cbn [path scheme host query fragment is_none].
      rewrite Hsp. cbn [negb andb].
      rewrite (percent_encode_clean _ main escapes_c0).
      assert (Hq : no_chars query_delim (percent_encode c0_control_set main) = true).
      { unfold no_chars. apply percent_encode_keeps; [vm_compute; reflexivity | exact Hd]. }
      rewrite Hq.
      rewrite (percent_encode_head c0_control_set main "/" eq_refl (strip_prefix_none _ Hone)).
      cbn [negb andb].
      destruct q as [q |]; [cbn [is_none negb]; now rewrite orb_true_r |].
      destruct f as [f |]; [cbn [is_none negb]; now rewrite orb_true_r |].
      cbn [is_none negb]. rewrite !orb_false_r. apply String.eqb_eq.
      apply (percent_encode_ends c0_control_set is_space main); [vm_compute; reflexivity |].
      now apply Hend.
Qed.


Lemma tab_is_c0 c : negb (is_tab_or_newline c) = false -> is_c0_or_space c = true.
Proof.
  intros H. apply negb_false_iff in H. revert c H.
  apply ascii_implies. vm_compute. reflexivity.
Qed.

Lemma space_is_c0 c : is_space c = true -> is_c0_or_space c = true.
Proof. revert c. apply ascii_implies. vm_compute. reflexivity. Qed.

Lemma preprocess_ends (s : string) :
  ends_clear is_space (remove_tab_newline (strip_c0_space s)).
Proof.
  apply (ends_clear_weaken is_c0_or_space); [exact space_is_c0 |].
  unfold remove_tab_newline, strip_c0_space.
  apply ends_clear_filter; [exact tab_is_c0 |]. apply drop_while_end_idem.
Qed.

Lemma ends_clear_suffix (p : ascii -> bool) (a b : string) :
  ends_clear p (a ++ b) -> ends_clear p b.
Proof.
  destruct b as [| c b]; [reflexivity |]. apply ends_clear_tail. discriminate.
Qed.

(** Whatever [basic_parse] answers is a well-formed record. *)
Lemma basic_parse_wf (s : string) (u : URL) :
  basic_parse s = Some u -> wf_url u = true.
Proof.
  unfold basic_parse.
  pose proof (preprocess_ends s) as Hends.
  destruct (split_scheme (remove_tab_newline (strip_c0_space s)))
    as [[sch rest] |] eqn:Hsch; [| discriminate].
  destruct (cut "#" rest) as [rest1 frag] eqn:Hc1.
  destruct (cut "?" rest1) as [main qry] eqn:Hc2.
  destruct (String.eqb sch "file") eqn:Hfile; [discriminate |].
  destruct (split_scheme_spec _ _ _ Hsch) as [[(raw & Hraw & _) Hwf] | ->];
    [| discriminate].
  destruct (cut_spec _ _ _ _ Hc1) as [Hno1 Hrest].
  destruct (cut_spec _ _ _ _ Hc2) as [Hno2 Hrest1].
  set (q := option_map _ qry). set (f := option_map _ frag).
  destruct (parse_hierarchy sch main) as [[[[[user pass] hst] prt] pth] |] eqn:Hh;
    [| discriminate].
  intros H. injection H as <-.
  assert (Hd : no_chars query_delim main = true).
  { rewrite Hrest1 in Hno1. unfold no_chars in Hno1. rewrite forallb_app in Hno1.
    apply andb_true_iff in Hno1. destruct Hno1 as [Hno1 _].
    generalize (forallb_and _ _ _ Hno1 Hno2). unfold no_chars.
    apply forallb_impl. apply ascii_implies. vm_compute. reflexivity. }
  assert (Hend : q = None -> f = None -> ends_clear is_space main).
  { subst q f. destruct qry; [discriminate |]. destruct frag; [discriminate |].
    intros _ _. rewrite app_nil_r in Hrest1, Hrest. subst rest1 rest.
    rewrite Hraw in Hends. rewrite <- app_assoc in Hends.
    exact (ends_clear_suffix _ _ _ Hends). }
  pose proof (parse_hierarchy_wf sch main _ q f Hd Hend Hh) as Hw.
  cbv beta iota zeta in Hw. destruct Hw as [Ha Hp].
  unfold wf_url. rewrite Ha, Hp. cbn [scheme]. rewrite Hwf. cbn [andb].
  apply andb_true_iff. split.
  - unfold wf_query, is_special. cbn [query scheme]. subst q.
    destruct qry as [x |]; [| reflexivity]. cbn [option_map].
    apply percent_encode_clean.
    destruct (is_special_scheme sch); [exact escapes_special_query | exact escapes_query].
  - unfold wf_fragment. cbn [fragment]. subst f.
    destruct frag as [x |]; [| reflexivity]. cbn [option_map].
    apply percent_encode_clean. exact escapes_fragment.
Qed.

End ParseFacts.

(* ================================================================== *)
(** * [URL] objects: parsing, printing and [searchParams.delete] *)
(* ================================================================== *)

Module ObjectFacts.
Import Chars Str URLStd WF ProofNotions StrFacts EncodeFacts SplitFacts HostFacts PathFacts.
Import RoundTrip FormFacts ParseFacts.

Lemma URL_new_wf (s : string) (o : URLObject) :
  URL_new s = Returns o -> wf_object o.
Proof.
  unfold URL_new. destruct (basic_parse s) as [u |] eqn:Hp; [| discriminate].
  intros H. injection H as <-. split; [| reflexivity].
  exact (basic_parse_wf _ _ Hp).
Qed.

(** [new URL(o.href)] is [o] again. *)
Lemma URL_new_href (o : URLObject) :
  wf_object o -> URL_new (href o) = Returns o.
Proof.
  intros [Hw Hp]. unfold URL_new, href. rewrite (basic_parse_serialize _ Hw).
  destruct o as [u l]. cbn [record params] in *. now rewrite Hp.
Qed.

Lemma href_trim (o : URLObject) :
  wf_object o -> trim (href o) = href o /\ is_empty (href o) = false.
Proof.
  intros [Hw _]. unfold href.
  destruct (serialize_shape _ Hw) as ((c & r & Hser & Hc) & _ & Hend).
  rewrite Hser in *. split; [| reflexivity].
  apply trim_plain; [| exact Hend].
  pose proof (lower_is_alpha _ Hc) as H. now split_andb H.
Qed.

(** ** The scheme of a string that starts with [http] *)

Lemma drop_while_end_keep (p : ascii -> bool) (c : ascii) (s : string) :
  p c = false -> drop_while_end p (String c s) = String c (drop_while_end p s).
Proof.
  intros Hc. cbn [drop_while_end]. destruct (drop_while_end p s); [| reflexivity].
  now rewrite Hc.
Qed.

Lemma prefix_of_split (a y raw rest : string) (c : ascii) :
  a ++ y = raw ++ String c rest ->
  no_chars (is_char c) a = true ->
  prefixb a raw = true.
Proof.
  revert raw. induction a as [| x a IH]; intros raw Heq Hno; [reflexivity |].
  cbn [no_chars forallb] in Hno. unfold no_chars in Hno. cbn [forallb] in Hno.
  apply andb_true_iff in Hno. destruct Hno as [Hx Ha].
  destruct raw as [| r raw]; cbn [append] in Heq; injection Heq as -> Heq.
  - unfold is_char in Hx. now rewrite Ascii.eqb_refl in Hx.
  - cbn [prefixb]. rewrite Ascii.eqb_refl. cbn [andb]. now apply (IH raw).
Qed.

Lemma prefixb_spec (p s : string) :
  prefixb p s = true -> exists y, s = p ++ y.
Proof.
  revert s. induction p as [| a p IH]; intros s H; [now exists s |].
  destruct s as [| b s]; [discriminate |]. cbn [prefixb] in H.
  apply andb_true_iff in H. destruct H as [Hab Hp].
  apply Ascii.eqb_eq in Hab. subst b. destruct (IH _ Hp) as [y ->]. now exists y.
Qed.

Lemma prefixb_map (f : ascii -> ascii) (p s : string) :
  prefixb p s = true -> prefixb (map f p) (map f s) = true.
Proof.
  revert s. induction p as [| a p IH]; intros s H; [reflexivity |].
  destruct s as [| b s]; [discriminate |]. cbn [prefixb] in H.
  apply andb_true_iff in H. destruct H as [Hab Hp].
  apply Ascii.eqb_eq in Hab. subst b. cbn [map prefixb].
  rewrite Ascii.eqb_refl. now apply IH.
Qed.

Lemma basic_parse_scheme (s : string) (u : URL) :
  basic_parse s = Some u ->
  exists rest, split_scheme (remove_tab_newline (strip_c0_space s)) = Some (scheme u, rest).
Proof.
  unfold basic_parse.
  destruct (split_scheme (remove_tab_newline (strip_c0_space s)))
    as [[sch rest] |]; [| discriminate].
  destruct (cut "#" rest) as [rest1 frag]. destruct (cut "?" rest1) as [main qry].
  destruct (String.eqb sch "file"); [discriminate |].
  destruct (parse_hierarchy sch main) as [[[[[user pass] hst] prt] pth] |];
    [| discriminate].
  intros H. injection H as <-. now exists rest.
Qed.

Lemma preprocess_http (y : string) :
  exists y', remove_tab_newline (strip_c0_space ("http" ++ y)) = "http" ++ y'.
Proof.
  unfold strip_c0_space. cbn [append drop_while].
  change (is_c0_or_space "h") with false. cbv iota.
  rewrite !drop_while_end_keep by reflexivity.
  unfold remove_tab_newline. cbn [filter].
  change (negb (is_tab_or_newline "h")) with true.
  change (negb (is_tab_or_newline "t")) with true.
  change (negb (is_tab_or_newline "p")) with true. cbv iota. eauto.
Qed.

(** The scheme of a URL written with a leading [http] starts with
    [http]. *)
Lemma scheme_http (s : string) (u : URL) :
  startsWith s "http" = true -> basic_parse s = Some u ->
  startsWith (scheme u) "http" = true.
Proof.
  intros Hs Hp. apply prefixb_spec in Hs. destruct Hs as [y ->].
  destruct (basic_parse_scheme _ _ Hp) as [rest Hsch].
  destruct (preprocess_http y) as [y' Hy]. rewrite Hy in Hsch.
  destruct (split_scheme_spec _ _ _ Hsch) as [[(raw & Hraw & Hlow & _) _] | Hfile].
  - rewrite Hlow. unfold startsWith.
    apply (prefixb_map lower "http" raw).
    apply (prefix_of_split "http" y' raw rest ":"); [exact Hraw | reflexivity].
  - apply basic_parse_wf in Hp. unfold wf_url in Hp. split_andb Hp.
    unfold wf_scheme in Hp. rewrite Hfile in Hp. discriminate.
Qed.

Lemma href_http (o : URLObject) :
  startsWith (scheme (record o)) "http" = true -> startsWith (href o) "http" = true.
Proof.
  intros H. unfold href. rewrite serialize_unfold. unfold startsWith.
  now apply prefixb_app.
Qed.

(** ** [searchParams.delete] *)

Lemma strip_set_query (u : URL) :
  strip_opaque_path (set_query None (strip_opaque_path (set_query None u))) =
  strip_opaque_path (set_query None u).
Proof.
  unfold strip_opaque_path.
  destruct u as [sch us pw h pt [p | l] q [f |]]; cbn; try reflexivity.
  unfold set_path, strip_trailing_spaces. cbn.
  now rewrite (drop_while_end_idem is_space p).
Qed.

(** A second update with a part of the list of the first one. *)
Lemma update_query_twice (l l' : list (string * string)) (u : URL) :
  (l = [] -> l' = []) ->
  update_query l' (update_query l u) = update_query l' u.
Proof.
  intros Hl. unfold update_query at 2.
  destruct (urlencoded_serialize l) as [| c q] eqn:E.
  - apply urlencoded_serialize_nil in E. rewrite (Hl E). cbn. apply strip_set_query.
  - unfold update_query. destruct (urlencoded_serialize l'); reflexivity.
Qed.

Lemma drop_while_end_forallb (p q : ascii -> bool) (s : string) :
  forallb q s = true -> forallb q (drop_while_end p s) = true.
Proof.
  induction s as [| c s IH]; [reflexivity |]. cbn [forallb drop_while_end].
  intros H. apply andb_true_iff in H. destruct H as [Hc Hs].
  destruct (drop_while_end p s) eqn:E.
  - destruct (p c); [reflexivity |]. cbn. now rewrite Hc.
  - cbn [forallb]. rewrite Hc. now apply IH.
Qed.

Lemma drop_while_end_head (p : ascii -> bool) (s : string) (a : ascii) :
  startsWith s (String a "") = false ->
  startsWith (drop_while_end p s) (String a "") = false.
Proof.
  destruct s as [| c s]; [reflexivity |]. unfold startsWith.
  cbn [drop_while_end prefixb]. intros H.
  destruct (drop_while_end p s); [destruct (p c) |]; cbn [prefixb]; auto.
Qed.

Lemma wf_url_intro (u : URL) :
  wf_scheme (scheme u) = true -> wf_authority u = true -> wf_path u = true ->
  wf_query u = true -> wf_fragment u = true -> wf_url u = true.
Proof. unfold wf_url. now intros -> -> -> -> ->. Qed.

Lemma wf_authority_ext (u u' : URL) :
  scheme u' = scheme u -> username u' = username u -> password u' = password u ->
  host u' = host u -> port u' = port u ->
  wf_authority u' = wf_authority u.
Proof.
  intros Hs Hu Hp Hh Ht. unfold wf_authority, is_special, includes_credentials.
  now rewrite Hs, Hu, Hp, Hh, Ht.
Qed.

Lemma wf_query_ext (u u' : URL) :
  scheme u' = scheme u -> (query u' = None \/ query u' = query u) ->
  wf_query u = true -> wf_query u' = true.
Proof.
  intros Hs Hq. unfold wf_query, is_special. rewrite Hs.
  destruct Hq as [-> | ->]; auto.
Qed.

Lemma wf_fragment_ext (u u' : URL) :
  (fragment u' = None \/ fragment u' = fragment u) ->
  wf_fragment u = true -> wf_fragment u' = true.
Proof. unfold wf_fragment. intros [-> | ->]; auto. Qed.

Lemma wf_segments_ext (u u' : URL) (l : list string) :
  scheme u' = scheme u -> host u' = host u ->
  path u = Segments l -> path u' = Segments l ->
  wf_path u = true -> wf_path u' = true.
Proof.
  intros Hs Hh Hp Hp'. unfold wf_path, is_special. now rewrite Hs, Hh, Hp, Hp'.
Qed.

(** Dropping the query or the fragment, then stripping the opaque
    path, keeps a record well formed. *)
Lemma strip_opaque_path_wf (u u' : URL) :
  wf_url u = true ->
  scheme u' = scheme u -> username u' = username u -> password u' = password u ->
  host u' = host u -> port u' = port u -> path u' = path u ->
  (query u' = None \/ query u' = query u) ->
  (fragment u' = None \/ fragment u' = fragment u) ->
  wf_url (strip_opaque_path u') = true.
Proof.
  intros Hw Hs Hu Hpw Hh Hpt Hpa Hq Hf.
  destruct (wf_url_elim _ Hw) as (Hws & Hwa & Hwp & Hwq & Hwf).
  pose proof (wf_query_ext u u' Hs Hq Hwq) as Hwq'.
  pose proof (wf_fragment_ext u u' Hf Hwf) as Hwf'.
  pose proof (wf_authority_ext u u' Hs Hu Hpw Hh Hpt) as Hwa'. rewrite Hwa in Hwa'.
  unfold strip_opaque_path. rewrite Hpa.
  destruct (path u) as [p | l] eqn:Hpath.
  - destruct (wf_opaque_elim u p Hwp Hpath) as (Hsp & Hho & Hc0 & Hd & Hsl & Hend).
    assert (Hkeep :
      negb (is_none (query u')) || negb (is_none (fragment u')) = true ->
      wf_url u' = true).
    { intros Hsome. apply wf_url_intro; try assumption; [now rewrite Hs |].
      unfold wf_path, is_special. rewrite Hpa, Hs, Hh.
      unfold is_special in Hsp. rewrite Hsp, Hho, Hc0, Hd, Hsl. cbn [negb is_none andb].
      rewrite <- orb_assoc, Hsome. apply orb_true_r. }
    destruct (fragment u') as [f |] eqn:Hf'.
    { apply Hkeep. cbn. apply orb_true_r. }
    destruct (query u') as [q |] eqn:Hq'.
    { apply Hkeep. reflexivity. }
    apply wf_url_intro.
    + unfold set_path. cbn [scheme]. now rewrite Hs.
    + rewrite <- Hwa'. apply wf_authority_ext; reflexivity.
    + unfold wf_path, is_special, set_path. cbn [path scheme host query fragment].
      rewrite Hs, Hh, Hq', Hf'. unfold is_special in Hsp. rewrite Hsp, Hho.
      cbn [is_none negb andb]. unfold strip_trailing_spaces. unfold no_chars in *.
      rewrite (drop_while_end_forallb is_space _ p Hc0).
      rewrite (drop_while_end_forallb is_space _ p Hd).
      rewrite (drop_while_end_head is_space p "/" Hsl).
      rewrite (drop_while_end_idem is_space p). now rewrite String.eqb_refl.
    + unfold wf_query, set_path. cbn [query]. now rewrite Hq'.
    + unfold wf_fragment, set_path. cbn [fragment]. now rewrite Hf'.
  - assert (Hkeep : wf_url u' = true).
    { apply wf_url_intro; try assumption; [now rewrite Hs |].
      exact (wf_segments_ext u u' l Hs Hh Hpath Hpa Hwp). }
    destruct (fragment u'); [exact Hkeep |]. destruct (query u'); exact Hkeep.
Qed.

Lemma wf_path_some_query (u : URL) (q : string) :
  wf_path u = true -> wf_path (set_query (Some q) u) = true.
Proof.
  unfold wf_path, is_special, set_query. cbn [path scheme host query fragment].
  destruct (path u) as [p | l]; [| auto]. intros H.
  split_andb H. rewrite H, H4, H3, H2, H1. cbn [andb is_none negb].
  now rewrite orb_true_r.
Qed.

Lemma update_query_wf (l : list (string * string)) (u : URL) :
  wf_url u = true -> wf_url (update_query l u) = true.
Proof.
  intros Hw. unfold update_query.
  destruct (urlencoded_serialize l) as [| c q] eqn:E.
  - apply (strip_opaque_path_wf u); auto.
  - destruct (wf_url_elim _ Hw) as (Hs & Ha & Hp & Hq & Hf).
    apply wf_url_intro; try assumption.
    + now apply wf_path_some_query.
    + unfold wf_query, is_special, set_query. cbn [query scheme]. rewrite <- E.
      generalize (urlencoded_serialize_chars l). unfold no_chars.
      apply forallb_impl. apply form_char_spec.
Qed.

Lemma params_of_update (l : list (string * string)) (u : URL) :
  List.Forall clean_pair l ->
  l = urlencoded_parse (nullish (query (update_query l u)) "").
Proof.
  intros Hl. unfold update_query.
  destruct (urlencoded_serialize l) as [| c q] eqn:E.
  - apply urlencoded_serialize_nil in E. subst l.
    assert (Hq : query (strip_opaque_path (set_query None u)) = None).
    { unfold strip_opaque_path. cbn [path set_query fragment query].
      destruct (path u); destruct (fragment u); reflexivity. }
    now rewrite Hq.
  - cbn [set_query query nullish]. rewrite <- E. symmetry.
    now apply urlencoded_round_trip.
Qed.

Lemma wf_object_clean (o : URLObject) :
  wf_object o -> List.Forall clean_pair (params o).
Proof. intros [_ ->]. apply urlencoded_parse_clean. Qed.

Lemma searchParams_delete_wf (name : string) (o : URLObject) :
  wf_object o -> wf_object (searchParams_delete name o).
Proof.
  intros Ho. pose proof (wf_object_clean _ Ho) as Hc. destruct Ho as [Hw Hp].
  unfold searchParams_delete. split; cbn [record params].
  - now apply update_query_wf.
  - apply params_of_update. now apply clean_filter.
Qed.

Lemma filter_twice {A : Type} (p : A -> bool) (l : list A) :
  List.filter p (List.filter p l) = List.filter p l.
Proof.
  induction l as [| x l IH]; [reflexivity |]. cbn [List.filter].
  destruct (p x) eqn:Hx; [| exact IH]. cbn [List.filter]. now rewrite Hx, IH.
Qed.

Lemma searchParams_delete_idem (name : string) (o : URLObject) :
  searchParams_delete name (searchParams_delete name o) = searchParams_delete name o.
Proof.
  unfold searchParams_delete. cbn [params record]. rewrite filter_twice.
  now rewrite update_query_twice.
Qed.

End ObjectFacts.

(* ================================================================== *)
(** * C9: [stripRefParam] applied twice *)
(* ================================================================== *)

Import Chars Str URLStd WF ProofNotions StrFacts EncodeFacts SplitFacts HostFacts PathFacts.
Import RoundTrip FormFacts ParseFacts ObjectFacts.

Lemma URL_new_record (s : string) (o : URLObject) :
  URL_new s = Returns o -> basic_parse s = Some (record o).
Proof.
  unfold URL_new. destruct (basic_parse s); [| discriminate].
  intros H. now injection H as <-.
Qed.

Lemma reads_wf (x : string) (o : URLObject) : reads_as x o -> wf_object o.
Proof. apply URL_new_wf. Qed.

Lemma reads_scheme (x : string) (o : URLObject) :
  reads_as x o -> startsWith (scheme (record o)) "http" = true.
Proof.
  unfold reads_as, with_scheme. intros H. apply URL_new_record in H.
  destruct (startsWith (trim x) "http") eqn:E.
  - exact (scheme_http _ _ E H).
  - exact (scheme_http ("https://" ++ trim x) _ eq_refl H).
Qed.

Lemma reads_nonempty (x : string) (o : URLObject) :
  reads_as x o -> is_empty (trim x) = false.
Proof.
  unfold reads_as. destruct (trim x); [| reflexivity].
  vm_compute. discriminate.
Qed.

Lemma normalizeUrl_reads (x : string) (o : URLObject) :
  reads_as x o -> normalizeUrl (trim x) = Returns (href o).
Proof.
  intros H. unfold normalizeUrl. fold (with_scheme (trim x)).
  unfold reads_as in H. now rewrite H.
Qed.

Lemma parse_attempt_reads (x : string) (o : URLObject) :
  reads_as x o -> parse_attempt x = Returns o.
Proof.
  intros H. unfold parse_attempt. rewrite (normalizeUrl_reads _ _ H). cbn [bind].
  apply URL_new_href. exact (reads_wf _ _ H).
Qed.

Lemma stripRefParam_reads (x : string) (o : URLObject) :
  reads_as x o ->
  stripRefParam x = Returns (href (searchParams_delete "ref" o)).
Proof.
  intros H. unfold stripRefParam. rewrite (reads_nonempty _ _ H).
  rewrite (normalizeUrl_reads _ _ H). cbn [bind].
  rewrite (URL_new_href _ (reads_wf _ _ H)). reflexivity.
Qed.

(** A well-formed object whose scheme starts with [http] is read back
    from its [href]. *)
Lemma reads_href (o : URLObject) :
  wf_object o -> startsWith (scheme (record o)) "http" = true ->
  reads_as (href o) o.
Proof.
  intros Hw Hs. unfold reads_as. rewrite (proj1 (href_trim _ Hw)).
  unfold with_scheme. rewrite (href_http _ Hs). now apply URL_new_href.
Qed.

Lemma delete_scheme (name : string) (o : URLObject) :
  scheme (record (searchParams_delete name o)) = scheme (record o).
Proof.
  unfold searchParams_delete, update_query, strip_opaque_path. cbn [record].
  destruct (urlencoded_serialize _); [| reflexivity].
  cbn [set_query path fragment query].
  destruct (path (record o)); destruct (fragment (record o)); reflexivity.
Qed.






(* ================================================================== *)
(** * The canonical form of a URL *)
(* ================================================================== *)

Module CanonFacts.

(** ** The shape of a special URL *)

Lemma special_shape (u : URL) :
  wf_url u = true -> is_special u = true ->
  exists h segs,
    host u = Some h /\ h <> "" /\ wf_host true h = true
    /\ path u = Segments segs /\ segs <> []
    /\ List.forallb (seg_ok true) segs = true.
Proof.
  intros Hw Hsp. destruct (wf_url_elim _ Hw) as (_ & Ha & Hp & _ & _).
  destruct (host u) as [h |] eqn:Hh.
  2:{ destruct (no_host_elim _ Ha Hh) as [Hn _]. congruence. }
  destruct (wf_authority_elim _ _ Ha Hh) as (_ & _ & _ & Hwh & He).
  rewrite Hsp in Hwh.
  exists h. unfold wf_path in Hp. rewrite Hsp in Hp.
  destruct (path u) as [p | segs] eqn:Hpath; [discriminate |].
  exists segs. apply andb_true_iff in Hp. destruct Hp as [Hall Hne].
  repeat split; try assumption.
  - intros ->. destruct (He eq_refl) as [Hn _]. congruence.
  - intros ->. discriminate.
Qed.

Lemma is_http_special (o : URLObject) :
  is_http o = true -> is_special (record o) = true.
Proof.
  unfold is_http, is_special. intros H. apply orb_true_iff in H.
  destruct H as [H | H]; apply String.eqb_eq in H; now rewrite H.
Qed.

(** ** Prefixes *)

Lemma strip_prefix_some (p s r : string) :
  strip_prefix p s = Some r <-> s = p ++ r.
Proof.
  revert s. induction p as [| a p IH]; intros s; cbn [strip_prefix append].
  - split; [intros H; now injection H as -> | now intros ->].
  - destruct s as [| b s]; [split; discriminate |].
    destruct (Ascii.eqb_spec a b) as [-> | Hne].
    + rewrite IH. split; [now intros -> | intros H; now injection H].
    + split; [discriminate | intros H; injection H as H _; congruence].
Qed.

Lemma strip_prefix_prefixb (p s : string) :
  strip_prefix p s = None <-> startsWith s p = false.
Proof.
  unfold startsWith. revert s. induction p as [| a p IH]; intros s;
    cbn [strip_prefix prefixb].
  - split; discriminate.
  - destruct s as [| b s]; [tauto |].
    destruct (Ascii.eqb a b); [apply IH | tauto].
Qed.

Lemma forallb_suffix (q : ascii -> bool) (a b : string) :
  forallb q (a ++ b) = true -> forallb q b = true.
Proof.
  rewrite forallb_app. intros H. apply andb_true_iff in H. now destruct H.
Qed.

(** ** The host *)

Lemma canon_host_cases (h : string) :
  (canon_host h = h /\ (startsWith h "www." = false \/ h = "www."))
  \/ (h = "www." ++ canon_host h /\ canon_host h <> "").
Proof.
  unfold canon_host, replace_prefix. cbv zeta.
  destruct (strip_prefix "www." h) as [v |] eqn:E.
  - apply strip_prefix_some in E. destruct v as [| c v].
    + left. split; [reflexivity | now right].
    + right. split; [exact E | discriminate].
  - apply strip_prefix_prefixb in E. left. split; [| now left].
    destruct h; reflexivity.
Qed.

Lemma host_span (special : bool) (v : string) :
  no_chars host_delim v = true ->
  span (fun c => negb (is_slash special c || mem c ["?"; "#"; ":"]%char)) v = (v, "").
Proof.
  intros H. apply span_all. revert H. unfold no_chars. apply forallb_impl.
  destruct special; apply ascii_implies; vm_compute; reflexivity.
Qed.

Lemma plain_no_tab (s : string) :
  forallb plain s = true -> remove_tab_newline s = s.
Proof.
  intros H. unfold remove_tab_newline. apply filter_id.
  revert H. apply forallb_impl. intros c Hc. apply vis_no_tab. now apply plain_vis.
Qed.

Lemma set_host_same (u : URL) : set_host (host u) u = u.
Proof. now destruct u. Qed.

(** ** Records with a path list, lists of parameters *)

Lemma strip_segments (u : URL) (segs : list string) :
  path u = Segments segs -> strip_opaque_path u = u.
Proof. unfold strip_opaque_path. now intros ->. Qed.

Lemma update_query_segments (l : list (string * string)) (u : URL) (segs : list string) :
  path u = Segments segs -> update_query l u = set_query (query_of l) u.
Proof.
  intros Hp. unfold update_query, query_of.
  destruct (urlencoded_serialize l); [| reflexivity].
  now apply (strip_segments _ segs).
Qed.

Lemma filter_filter {A : Type} (p q : A -> bool) (l : list A) :
  List.filter p (List.filter q l) = List.filter (fun x => q x && p x) l.
Proof.
  induction l as [| x l IH]; [reflexivity |]. cbn [List.filter].
  destruct (q x) eqn:Hq; cbn [List.filter andb]; [| exact IH].
  destruct (p x); now rewrite IH.
Qed.

Lemma mem_string_In (k : string) (ks : list string) :
  In k ks -> mem_string k ks = true.
Proof.
  intros H. unfold mem_string. apply List.existsb_exists. exists k.
  split; [exact H | apply String.eqb_refl].
Qed.

Lemma kept_filter (l : list (string * string)) :
  List.filter (fun nv => negb (is_utm (fst nv)))
              (List.filter (fun nv => negb (String.eqb (fst nv) "ref")) l) =
  List.filter (fun nv => negb (tracking (fst nv))) l.
Proof.
  rewrite filter_filter. apply List.filter_ext. intros nv. unfold tracking.
  now rewrite negb_orb.
Qed.


(** ** The path *)

Lemma serialize_segments_app (a b : list string) :
  serialize_segments (a ++ b)%list = serialize_segments a ++ serialize_segments b.
Proof.
  induction a as [| s a IH]; [reflexivity |].
  cbn [List.app serialize_segments append]. now rewrite IH, app_assoc.
Qed.

Lemma serialize_segments_last (a : list string) (s : string) :
  serialize_segments (a ++ [s])%list = serialize_segments a ++ "/" ++ s.
Proof.
  rewrite serialize_segments_app. cbn [serialize_segments append].
  now rewrite app_nil_r.
Qed.

Lemma forallb_rev (q : ascii -> bool) (s : string) :
  forallb q (rev s) = forallb q s.
Proof.
  induction s as [| c s IH]; [reflexivity |].
  rewrite rev_cons, forallb_app, IH. cbn [forallb]. rewrite andb_true_r.
  apply andb_comm.
Qed.

Lemma rev_nil (s : string) : rev s = "" -> s = "".
Proof. intros H. rewrite <- (rev_involutive s), H. reflexivity. Qed.

Lemma endsWith_app (s p : string) : endsWith (s ++ p) p = true.
Proof.
  unfold endsWith. rewrite rev_app. apply prefixb_app.
  induction (rev p) as [| c r IH]; [reflexivity |].
  cbn [prefixb]. now rewrite Ascii.eqb_refl.
Qed.

Lemma endsWith_slash (x s : string) :
  no_chars (is_char "/") s = true ->
  endsWith (x ++ "/" ++ s) "/" = is_empty s.
Proof.
  intros Hs. unfold endsWith. rewrite rev_app.
  change (rev "/") with "/". destruct s as [| c s']; [reflexivity |].
  rewrite (rev_app "/" (String c s')).
  destruct (rev (String c s')) as [| d t] eqn:E.
  - apply rev_nil in E. discriminate.
  - assert (Hd : forallb (fun c => negb (is_char "/" c)) (String d t) = true).
    { rewrite <- E, forallb_rev. exact Hs. }
    cbn [forallb] in Hd. apply andb_true_iff in Hd. destruct Hd as [Hd _].
    cbn [append prefixb is_empty]. unfold is_char in Hd.
    apply negb_true_iff in Hd. rewrite Ascii.eqb_sym. now rewrite Hd.
Qed.

Lemma seg_no_slash (special : bool) (s : string) :
  seg_ok special s = true -> no_chars (is_char "/") s = true.
Proof.
  intros H. destruct (seg_ok_elim _ _ H) as (_ & Hs & _).
  revert Hs. unfold no_chars. apply forallb_impl.
  destruct special; apply ascii_implies; vm_compute; reflexivity.
Qed.

Lemma slice_app (x : string) (c : ascii) : slice_0_m1 (x ++ String c "") = x.
Proof.
  induction x as [| d x IH]; [reflexivity |]. cbn [append slice_0_m1].
  rewrite IH. destruct x; reflexivity.
Qed.

Lemma list_rev_cases {A : Type} (l : list A) :
  l = [] \/ exists a x, l = (a ++ [x])%list /\ List.rev l = x :: List.rev a.
Proof.
  destruct (List.rev l) as [| x r] eqn:E.
  - left. rewrite <- (List.rev_involutive l), E. reflexivity.
  - right. exists (List.rev r), x. split.
    + rewrite <- (List.rev_involutive l), E. reflexivity.
    + now rewrite List.rev_involutive.
Qed.

Lemma forallb_app_list {A : Type} (p : A -> bool) (a b : list A) :
  List.forallb p (a ++ b)%list = true ->
  List.forallb p a = true /\ List.forallb p b = true.
Proof. rewrite List.forallb_app. apply andb_true_iff. Qed.

Lemma set_path_same (u : URL) : set_path (path u) u = u.
Proof. now destruct u. Qed.

Lemma set_pathname_serialized (o : URLObject) (segs a : list string) :
  path (record o) = Segments segs ->
  a <> [] -> List.forallb (seg_ok (is_special (record o))) a = true ->
  set_pathname (serialize_segments a) o =
  mkObject (set_path (Segments a) (record o)) (params o).
Proof.
  intros Hp Hne Ha. unfold set_pathname, has_opaque_path. rewrite Hp.
  rewrite plain_no_tab.
  2:{ generalize (segments_chars _ _ Ha). apply forallb_impl.
      intros c Hc. now split_andb Hc. }
  destruct a as [| s a]; [congruence |]. cbn [serialize_segments append].
  replace (is_slash (is_special (record o)) "/") with true
    by (now destruct (is_special (record o))).
  now rewrite (parse_serialized _ _ _ Ha).
Qed.

(** Lines 24-26 of the storage module. *)
Lemma pathname_step (o : URLObject) (segs : list string) :
  path (record o) = Segments segs ->
  List.forallb (seg_ok (is_special (record o))) segs = true ->
  (if negb (String.eqb (pathname o) "/") && endsWith (pathname o) "/"
   then set_pathname (slice_0_m1 (pathname o)) o
   else o) =
  mkObject (set_path (Segments (canon_segs segs)) (record o)) (params o).
Proof.
  intros Hp Hall.
  assert (Hsame : o = mkObject (set_path (Segments segs) (record o)) (params o)).
  { rewrite <- Hp, set_path_same. now destruct o. }
  unfold pathname, canon_segs. rewrite Hp. cbn [serialize_path].
  destruct (list_rev_cases segs) as [-> | (a & s & -> & Hrev)].
  { exact Hsame. }
  rewrite Hrev. apply forallb_app_list in Hall. destruct Hall as [Ha Hs].
  cbn [List.forallb] in Hs. apply andb_true_iff in Hs. destruct Hs as [Hs _].
  rewrite serialize_segments_last, (endsWith_slash _ _ (seg_no_slash _ _ Hs)).
  destruct s as [| c s]; [| now rewrite andb_false_r].
  destruct a as [| a0 a].
  - exact Hsame.
  - replace (String.eqb (serialize_segments (a0 :: a) ++ "/" ++ "") "/") with false.
    2:{ cbn [serialize_segments append]. destruct a0; [destruct a |]; reflexivity. }
    cbn [negb andb is_empty]. change ("/" ++ "") with "/". rewrite slice_app.
    rewrite (set_pathname_serialized o _ (a0 :: a) Hp); [| discriminate | exact Ha].
    destruct (List.rev (a0 :: a)) as [| y r] eqn:E.
    + apply (f_equal (@List.rev string)) in E. rewrite List.rev_involutive in E.
      discriminate.
    + rewrite <- E. now rewrite List.rev_involutive.
Qed.


Lemma canon_segs_cases (segs : list string) :
  (canon_segs segs = segs
   /\ (forall a x, segs = (a ++ [x])%list -> x = "" -> a = []))
  \/ (segs = (canon_segs segs ++ [""])%list /\ canon_segs segs <> []).
Proof.
  unfold canon_segs.
  destruct (list_rev_cases segs) as [-> | (a & s & -> & Hrev)].
  { left. split; [reflexivity |]. intros a x H. now destruct a. }
  rewrite Hrev. destruct s as [| c s].
  - destruct (List.rev a) as [| y r] eqn:E.
    + left. split; [reflexivity |]. intros a' x H _.
      apply List.app_inj_tail in H. destruct H as [<- _].
      rewrite <- (List.rev_involutive a), E. reflexivity.
    + right. rewrite <- E, List.rev_involutive. split; [reflexivity |].
      intros ->. discriminate.
  - left. split; [reflexivity |]. intros a' x H Hx.
    apply List.app_inj_tail in H. destruct H as [_ H]. congruence.
Qed.

Lemma kept_params_delete (o : URLObject) :
  kept_params (searchParams_delete "ref" o) = kept_params o.
Proof.
  unfold kept_params, searchParams_delete. cbn [params].
  rewrite filter_filter. apply List.filter_ext. intros nv. unfold tracking.
  destruct (String.eqb (fst nv) "ref"); reflexivity.
Qed.

Lemma canon_segs_idem (segs : list string) :
  endsWith (serialize_segments segs) "//" = false ->
  canon_segs (canon_segs segs) = canon_segs segs.
Proof.
  intros Hss. destruct (canon_segs_cases segs) as [[E0 _] | [E Hne]]; [now rewrite !E0 |].
  destruct (canon_segs_cases (canon_segs segs)) as [[E' _] | [E' _]]; [exact E' |].
  rewrite E' in E. rewrite E in Hss.
  rewrite <- List.app_assoc, serialize_segments_app in Hss.
  change (serialize_segments ([""] ++ [""])%list) with "//" in Hss.
  now rewrite endsWith_app in Hss.
Qed.

(** ** Variants of a host and of a path *)

Lemma app_inv_head (p a b : string) : p ++ a = p ++ b -> a = b.
Proof.
  induction p as [| c p IH]; cbn [append]; [auto |].
  intros H. injection H as H. auto.
Qed.

Lemma startsWith_app (p s : string) : startsWith (p ++ s) p = true.
Proof.
  unfold startsWith. induction p as [| c p IH]; [reflexivity |].
  cbn [append prefixb]. now rewrite Ascii.eqb_refl.
Qed.

Lemma canon_host_strip (h : string) :
  h <> "" -> startsWith h "www." = false -> canon_host ("www." ++ h) = h.
Proof.
  intros Hne Hs. destruct (canon_host_cases ("www." ++ h)) as [[_ [E | E]] | [E _]].
  - now rewrite startsWith_app in E.
  - change "www." with ("www." ++ "") in E at 2. apply app_inv_head in E. congruence.
  - apply app_inv_head in E. now symmetry.
Qed.

Lemma canon_host_keep (h : string) :
  startsWith h "www." = false -> canon_host h = h.
Proof.
  intros Hs. destruct (canon_host_cases h) as [[E _] | [E _]]; [exact E |].
  rewrite E in Hs. now rewrite startsWith_app in Hs.
Qed.

Lemma canon_host_variant (a b : string) :
  a <> "" -> b <> "" -> prefix_variant "www." a b -> canon_host a = canon_host b.
Proof.
  intros Ha Hb [-> | [[-> Hs] | [-> Hs]]]; [reflexivity | |].
  - now rewrite (canon_host_strip b Hb Hs), (canon_host_keep b Hs).
  - now rewrite (canon_host_strip a Ha Hs), (canon_host_keep a Hs).
Qed.

Lemma serialize_segments_inj (special : bool) (a b : list string) :
  List.forallb (seg_ok special) a = true ->
  List.forallb (seg_ok special) b = true ->
  serialize_segments a = serialize_segments b -> a = b.
Proof.
  intros Ha Hb E. destruct a as [| s a]; destruct b as [| t b];
    try reflexivity; try discriminate.
  cbn [serialize_segments append] in E. injection E as E.
  rewrite <- (parse_serialized special s a Ha), <- (parse_serialized special t b Hb).
  now rewrite E.
Qed.

Lemma canon_segs_strip (b : list string) :
  b <> [] -> canon_segs (b ++ [""])%list = b.
Proof.
  intros Hne. destruct (canon_segs_cases (b ++ [""])%list) as [[_ H] | [E _]].
  - now elim Hne; apply (H b "").
  - apply List.app_inj_tail in E. now destruct E as [<- _].
Qed.

Lemma canon_segs_keep (special : bool) (b : list string) :
  List.forallb (seg_ok special) b = true ->
  endsWith (serialize_segments b) "/" = false -> canon_segs b = b.
Proof.
  intros Hall Hs. destruct (canon_segs_cases b) as [[E _] | [E _]]; [exact E |].
  rewrite E, serialize_segments_last in Hs.
  rewrite endsWith_slash in Hs; [discriminate | reflexivity].
Qed.

Lemma canon_segs_slash (special : bool) (a b : list string) :
  List.forallb (seg_ok special) a = true ->
  List.forallb (seg_ok special) b = true -> b <> [] ->
  serialize_segments a = serialize_segments b ++ "/" ->
  endsWith (serialize_segments b) "/" = false ->
  canon_segs a = canon_segs b.
Proof.
  intros Ha Hb Hne E Hs.
  assert (Ea : a = (b ++ [""])%list).
  { apply (serialize_segments_inj special); [exact Ha | |].
    - rewrite List.forallb_app, Hb. reflexivity.
    - now rewrite serialize_segments_last. }
  rewrite Ea, (canon_segs_strip b Hne). symmetry.
  exact (canon_segs_keep special b Hb Hs).
Qed.

Lemma canon_segs_variant (special : bool) (a b : list string) :
  List.forallb (seg_ok special) a = true -> a <> [] ->
  List.forallb (seg_ok special) b = true -> b <> [] ->
  suffix_variant "/" (serialize_segments a) (serialize_segments b) ->
  canon_segs a = canon_segs b.
Proof.
  intros Ha Hane Hb Hbne [E | [[E Hs] | [E Hs]]].
  - now rewrite (serialize_segments_inj special a b Ha Hb E).
  - exact (canon_segs_slash special a b Ha Hb Hbne E Hs).
  - symmetry. exact (canon_segs_slash special b a Hb Ha Hane E Hs).
Qed.


(** ** [compare_form] on any URL *)

Lemma replace_prefix_suffix (p h : string) :
  exists a, h = a ++ replace_prefix p h.
Proof.
  unfold replace_prefix. destruct (strip_prefix p h) as [v |] eqn:E.
  - apply strip_prefix_some in E. now exists p.
  - now exists "".
Qed.

Lemma hostname_chars (u : URL) :
  wf_url u = true ->
  no_chars host_delim (nullish (host u) "") = true
  /\ forallb plain (nullish (host u) "") = true.
Proof.
  intros Hw. destruct (wf_url_elim _ Hw) as (_ & Ha & _ & _ & _).
  destruct (host u) as [h |] eqn:Hh; [| now split].
  destruct (wf_authority_elim _ _ Ha Hh) as (_ & _ & _ & Hwh & _).
  destruct (wf_host_elim _ _ Hwh) as (_ & Hd & Hp). now split.
Qed.

Lemma replace_prefix_www_wf (u : URL) :
  wf_url u = true ->
  let v := replace_prefix "www." (nullish (host u) "") in
  host_blocked u v = false ->
  host_parse (negb (is_special u)) v = Some v.
Proof.
  intros Hw v Hb. destruct (wf_url_elim _ Hw) as (_ & Ha & _ & _ & _).
  assert (Hempty : v = "" -> host_parse (negb (is_special u)) v = Some v).
  { intros E. rewrite E in *. unfold host_blocked in Hb. cbn [is_empty andb] in Hb.
    apply orb_false_iff in Hb. destruct Hb as [Hb _].
    apply orb_false_iff in Hb. destruct Hb as [Hsp _]. now rewrite Hsp. }
  destruct (host u) as [h |] eqn:Hh.
  - destruct (wf_authority_elim _ _ Ha Hh) as (_ & _ & _ & Hwh & _).
    subst v. cbn [nullish] in *. unfold replace_prefix in *.
    destruct (strip_prefix "www." h) as [w |] eqn:E.
    + apply strip_prefix_some in E. destruct w as [| c w]; [now apply Hempty |].
      assert (Hww : wf_host (is_special u) (String c w) = true).
      { apply www_host; [now rewrite <- E | discriminate]. }
      now destruct (wf_host_elim _ _ Hww) as (Hp & _ & _).
    + now destruct (wf_host_elim _ _ Hwh) as (Hp & _ & _).
  - now apply Hempty.
Qed.

(** [parsed.hostname = parsed.hostname.replace(/^www\./, "")] on any
    well-formed URL. *)
Lemma set_hostname_canon (o : URLObject) :
  wf_url (record o) = true ->
  set_hostname (replace_prefix "www." (hostname o)) o =
  mkObject (set_host (canon_host_of (record o)) (record o)) (params o).
Proof.
  intros Hw.
  assert (Hsame : mkObject (set_host (host (record o)) (record o)) (params o) = o).
  { rewrite set_host_same. now destruct o. }
  unfold set_hostname, canon_host_of, hostname.
  destruct (has_opaque_path (record o)); [now rewrite Hsame |].
  change (match host (record o) with Some h => h | None => "" end)
    with (nullish (host (record o)) "").
  cbv zeta. set (v := replace_prefix "www." (nullish (host (record o)) "")).
  destruct (hostname_chars _ Hw) as [Hd Hp].
  destruct (replace_prefix_suffix "www." (nullish (host (record o)) "")) as [a Ha].
  fold v in Ha. rewrite Ha in Hd, Hp.
  apply forallb_suffix in Hd. apply forallb_suffix in Hp.
  rewrite (plain_no_tab _ Hp), (host_span (is_special (record o)) _ Hd).
  cbn [startsWith prefixb].
  pose proof (replace_prefix_www_wf _ Hw) as Hparse. cbv zeta in Hparse. fold v in Hparse.
  unfold host_blocked in *.
  destruct (is_empty v) eqn:Hv; cbn [andb] in *.
  - destruct (is_special (record o)); cbn [orb andb]; [now rewrite Hsame |].
    cbn [orb] in Hparse.
    destruct (includes_credentials (record o) || _) eqn:Hc.
    + now rewrite Hsame.
    + now rewrite (Hparse eq_refl).
  - rewrite andb_false_r. now rewrite (Hparse eq_refl).
Qed.

Lemma fold_utm_general (ks : list string) :
  forall (u : URL) (l : list (string * string)),
    List.fold_left delete_if_utm ks (mkObject (update_query l u) l) =
    let l' := List.filter (fun nv => negb (is_utm (fst nv) && mem_string (fst nv) ks)) l in
    mkObject (update_query l' u) l'.
Proof.
  induction ks as [| k ks IH]; intros u l; cbv zeta.
  - cbn [List.fold_left mem_string List.existsb].
    rewrite (List.filter_ext _ (fun _ => true)).
    + now rewrite filter_all by (now apply List.forallb_forall).
    + intros nv. now rewrite andb_false_r.
  - cbn [List.fold_left]. unfold delete_if_utm at 2. fold (is_utm k).
    destruct (is_utm k) eqn:Hk.
    + unfold searchParams_delete. cbn [params record].
      rewrite update_query_twice by (now intros ->).
      rewrite IH. cbv zeta. rewrite filter_filter.
      rewrite (List.filter_ext
                 (fun x => negb (String.eqb (fst x) k)
                           && negb (is_utm (fst x) && mem_string (fst x) ks))
                 (fun nv => negb (is_utm (fst nv) && mem_string (fst nv) (k :: ks)))).
      * reflexivity.
      * intros nv. cbn [mem_string List.existsb]. fold (mem_string (fst nv) ks).
        destruct (String.eqb_spec (fst nv) k) as [-> | Hne].
        -- now rewrite Hk.
        -- cbn [negb andb orb]. reflexivity.
    + rewrite IH. cbv zeta.
      rewrite (List.filter_ext
                 (fun nv => negb (is_utm (fst nv) && mem_string (fst nv) ks))
                 (fun nv => negb (is_utm (fst nv) && mem_string (fst nv) (k :: ks)))).
      * reflexivity.
      * intros nv. cbn [mem_string List.existsb]. fold (mem_string (fst nv) ks).
        destruct (String.eqb_spec (fst nv) k) as [-> | Hne].
        -- now rewrite Hk.
        -- reflexivity.
Qed.

Lemma fold_utm_all (u : URL) (l : list (string * string)) :
  let o := mkObject (update_query l u) l in
  List.fold_left delete_if_utm (searchParams_keys o) o =
  let l' := List.filter (fun nv => negb (is_utm (fst nv))) l in
  mkObject (update_query l' u) l'.
Proof.
  cbv zeta. unfold searchParams_keys. cbn [params].
  rewrite fold_utm_general. cbv zeta.
  rewrite (List.filter_ext_in
             (fun nv => negb (is_utm (fst nv) && mem_string (fst nv) (List.map fst l)))
             (fun nv => negb (is_utm (fst nv)))).
  - reflexivity.
  - intros nv Hin. rewrite (mem_string_In (fst nv) (List.map fst l)).
    + now rewrite andb_true_r.
    + now apply List.in_map.
Qed.


Lemma strip_opaque_path_fields (u : URL) :
  scheme (strip_opaque_path u) = scheme u
  /\ username (strip_opaque_path u) = username u
  /\ password (strip_opaque_path u) = password u
  /\ host (strip_opaque_path u) = host u
  /\ port (strip_opaque_path u) = port u
  /\ query (strip_opaque_path u) = query u
  /\ fragment (strip_opaque_path u) = fragment u
  /\ match path u with
     | Opaque p => exists p', path (strip_opaque_path u) = Opaque p'
     | Segments l => path (strip_opaque_path u) = Segments l
     end.
Proof.
  unfold strip_opaque_path.
  destruct (path u) as [p | l] eqn:Hp; destruct (fragment u) eqn:Hf;
    destruct (query u) eqn:Hq; cbn; rewrite ?Hp, ?Hf, ?Hq; repeat split; eauto.
Qed.

Lemma update_query_fields (l : list (string * string)) (u : URL) :
  scheme (update_query l u) = scheme u
  /\ username (update_query l u) = username u
  /\ password (update_query l u) = password u
  /\ host (update_query l u) = host u
  /\ port (update_query l u) = port u
  /\ fragment (update_query l u) = fragment u
  /\ match path u with
     | Opaque p => exists p', path (update_query l u) = Opaque p'
     | Segments s => path (update_query l u) = Segments s
     end.
Proof.
  unfold update_query. destruct (urlencoded_serialize l).
  - destruct (strip_opaque_path_fields (set_query None u))
      as (Hs & Hu & Hp & Hh & Ht & _ & Hf & Hpa).
    rewrite Hs, Hu, Hp, Hh, Ht, Hf. repeat split; try reflexivity. exact Hpa.
  - cbn. repeat split; try reflexivity. destruct (path u); eauto.
Qed.

Lemma canon_record_fields (o : URLObject) :
  scheme (canon_record o) = scheme (record o)
  /\ username (canon_record o) = username (record o)
  /\ password (canon_record o) = password (record o)
  /\ host (canon_record o) = canon_host_of (record o)
  /\ port (canon_record o) = port (record o)
  /\ fragment (canon_record o) = None
  /\ match path (record o) with
     | Opaque p => exists p', path (canon_record o) = Opaque p'
     | Segments s => path (canon_record o) = Segments s
     end.
Proof.
  unfold canon_record.
  set (u1 := set_fragment None (set_host (canon_host_of (record o)) (record o))).
  destruct (update_query_fields (kept_params o) (strip_opaque_path u1))
    as (Hs & Hu & Hp & Hh & Ht & Hf & Hpa).
  destruct (strip_opaque_path_fields u1) as (Hs' & Hu' & Hp' & Hh' & Ht' & _ & Hf' & Hpa').
  rewrite Hs, Hu, Hp, Hh, Ht, Hf, Hs', Hu', Hp', Hh', Ht', Hf'.
  repeat split; try reflexivity.
  change (path u1) with (path (record o)) in Hpa'.
  destruct (path (record o)) as [p | s].
  - destruct Hpa' as [p' Hp1]. rewrite Hp1 in Hpa. exact Hpa.
  - rewrite Hpa' in Hpa. exact Hpa.
Qed.

Lemma pathname_step_any (o : URLObject) :
  match path (record o) with
  | Opaque _ => True
  | Segments segs => List.forallb (seg_ok (is_special (record o))) segs = true
  end ->
  (if negb (String.eqb (pathname o) "/") && endsWith (pathname o) "/"
   then set_pathname (slice_0_m1 (pathname o)) o
   else o) =
  mkObject (set_path (canon_path_of (path (record o))) (record o)) (params o).
Proof.
  destruct (path (record o)) as [p | segs] eqn:Hp; intros Hall.
  - cbn [canon_path_of]. rewrite <- Hp, set_path_same.
    unfold set_pathname, has_opaque_path. rewrite Hp.
    destruct o; destruct (_ && _); reflexivity.
  - cbn [canon_path_of]. now apply pathname_step.
Qed.

Lemma wf_segments (u : URL) (segs : list string) :
  wf_url u = true -> path u = Segments segs ->
  List.forallb (seg_ok (is_special u)) segs = true.
Proof.
  intros Hw Hp. destruct (wf_url_elim _ Hw) as (_ & _ & Hwp & _ & _).
  unfold wf_path in Hwp. rewrite Hp in Hwp.
  apply andb_true_iff in Hwp. now destruct Hwp.
Qed.

(** What [normalizeCompareUrl] prints, for any well-formed object. *)
Lemma compare_form_canon (o : URLObject) :
  wf_object o -> compare_form o = canon_form o.
Proof.
  intros [Hw _].
  set (u2 := strip_opaque_path
               (set_fragment None (set_host (canon_host_of (record o)) (record o)))).
  set (l3 := List.filter (fun nv => negb (String.eqb (fst nv) "ref")) (params o)).
  assert (E1 : set_hostname (replace_prefix "www." (hostname o)) o =
               mkObject (set_host (canon_host_of (record o)) (record o)) (params o))
    by exact (set_hostname_canon o Hw).
  assert (E2 : set_hash "" (mkObject (set_host (canon_host_of (record o)) (record o))
                                     (params o))
               = mkObject u2 (params o)) by reflexivity.
  assert (E3 : searchParams_delete "ref" (mkObject u2 (params o)) =
               mkObject (update_query l3 u2) l3) by reflexivity.
  assert (E4 : List.fold_left delete_if_utm
                 (searchParams_keys (mkObject (update_query l3 u2) l3))
                 (mkObject (update_query l3 u2) l3) =
               mkObject (canon_record o) (kept_params o)).
  { rewrite (fold_utm_all u2 l3). cbv zeta. unfold l3. now rewrite kept_filter. }
  unfold compare_form. cbv zeta. rewrite E1, E2, E3, E4.
  rewrite pathname_step_any; [reflexivity |]. cbn [record].
  destruct (canon_record_fields o) as (Hs & _ & _ & _ & _ & _ & Hpa).
  destruct (path (record o)) as [p | segs] eqn:Hp.
  - destruct Hpa as [p' ->]. exact I.
  - rewrite Hpa. unfold is_special. rewrite Hs. exact (wf_segments _ _ Hw Hp).
Qed.


(** ** The canonical form, field by field *)

Lemma canon_form_segments (o : URLObject) (s : list string) :
  path (record o) = Segments s ->
  canon_form o =
  mkObject
    (mkURL (scheme (record o)) (username (record o)) (password (record o))
           (canon_host_of (record o)) (port (record o))
           (Segments (canon_segs s)) (query_of (kept_params o)) None)
    (kept_params o).
Proof.
  intros Hp. unfold canon_form. cbv zeta.
  set (u1 := set_fragment None (set_host (canon_host_of (record o)) (record o))).
  assert (Hp1 : path u1 = Segments s) by exact Hp.
  rewrite (strip_segments u1 s Hp1), (update_query_segments _ u1 s Hp1).
  unfold u1. cbn [set_query set_fragment set_host path scheme username password
                    host port query fragment].
  rewrite Hp. reflexivity.
Qed.

Lemma query_none_params (o : URLObject) :
  wf_object o -> query (record o) = None -> params o = [].
Proof. intros [_ Hp] Hq. now rewrite Hp, Hq. Qed.

Lemma query_of_nil : query_of [] = None.
Proof. reflexivity. Qed.

Lemma update_query_of (l : list (string * string)) (u : URL) :
  update_query l u =
  match query_of l with
  | None => strip_opaque_path (set_query None u)
  | Some q => set_query (Some q) u
  end.
Proof. unfold update_query, query_of. now destruct (urlencoded_serialize l). Qed.

Lemma canon_form_opaque (o : URLObject) (p : string) :
  wf_object o -> path (record o) = Opaque p ->
  canon_form o =
  mkObject
    (mkURL (scheme (record o)) (username (record o)) (password (record o))
           (host (record o)) (port (record o))
           (Opaque (if is_none (query_of (kept_params o))
                    then strip_trailing_spaces p else p))
           (query_of (kept_params o)) None)
    (kept_params o).
Proof.
  intros Hw Hp. pose proof (query_none_params o Hw) as Hnil.
  unfold canon_form, canon_host_of, has_opaque_path. rewrite Hp. cbv zeta.
  rewrite set_host_same, update_query_of.
  unfold kept_params in *.
  destruct o as [[sch us pw h pt pa q f] l]. cbn [record params path query] in *.
  subst pa. destruct q as [q |].
  - destruct (query_of _) as [q4 |]; reflexivity.
  - rewrite (Hnil eq_refl). cbn [List.filter]. rewrite query_of_nil.
    cbn. unfold set_path, strip_trailing_spaces. cbn.
    now rewrite (drop_while_end_idem is_space p).
Qed.


(** ** The canonical form is well formed *)

Lemma wf_authority_parts (u : URL) :
  wf_authority u = true ->
  no_chars userinfo_set (username u) = true
  /\ no_chars userinfo_set (password u) = true
  /\ wf_port (scheme u) (port u) = true.
Proof.
  unfold wf_authority. intros H.
  apply andb_true_iff in H. destruct H as [H _].
  apply andb_true_iff in H. destruct H as [H Hp].
  apply andb_true_iff in H. destruct H as [Hu Hpw]. auto.
Qed.

Lemma not_blocked_empty (u : URL) :
  host_blocked u "" = false ->
  is_special u = false /\ username u = "" /\ password u = "" /\ port u = None.
Proof.
  unfold host_blocked, includes_credentials. cbn [is_empty andb]. intros H.
  apply orb_false_iff in H. destruct H as [H Hp].
  apply orb_false_iff in H. destruct H as [Hs Hc].
  destruct (username u), (password u), (port u); try discriminate. auto.
Qed.

Lemma set_host_canon_wf (u : URL) :
  wf_url u = true -> wf_url (set_host (canon_host_of u) u) = true.
Proof.
  intros Hw. unfold canon_host_of.
  destruct (has_opaque_path u) eqn:Hop; [now rewrite set_host_same |].
  cbv zeta. set (v := replace_prefix "www." (nullish (host u) "")).
  destruct (host_blocked u v) eqn:Hb; [now rewrite set_host_same |].
  pose proof (replace_prefix_www_wf u Hw) as Hparse. cbv zeta in Hparse.
  fold v in Hparse. specialize (Hparse Hb).
  destruct (hostname_chars _ Hw) as [Hd Hp].
  destruct (replace_prefix_suffix "www." (nullish (host u) "")) as [a Ha].
  fold v in Ha. rewrite Ha in Hd, Hp.
  apply forallb_suffix in Hd. apply forallb_suffix in Hp.
  destruct (wf_url_elim _ Hw) as (Hs & Hwa & Hwp & Hq & Hf).
  destruct (wf_authority_parts _ Hwa) as (Hun & Hpw & Hpt).
  apply wf_url_intro.
  - exact Hs.
  - apply (wf_authority_intro _ v); try assumption; try reflexivity.
    + apply wf_host_intro; assumption.
    + intros E. rewrite E in Hb. exact (not_blocked_empty u Hb).
  - unfold has_opaque_path in Hop. unfold wf_path, is_special in *.
    cbn [set_host path scheme host query fragment].
    destruct (path u) as [p | l]; [discriminate |].
    apply andb_true_iff in Hwp. destruct Hwp as [Hall Hne]. rewrite Hall.
    destruct l as [| x l]; [| reflexivity].
    apply andb_true_iff in Hne. destruct Hne as [-> _]. reflexivity.
  - exact Hq.
  - exact Hf.
Qed.

Lemma set_path_canon_wf (u : URL) :
  wf_url u = true -> wf_url (set_path (canon_path_of (path u)) u) = true.
Proof.
  intros Hw. destruct (path u) as [p | l] eqn:Hp.
  - cbn [canon_path_of]. now rewrite <- Hp, set_path_same.
  - cbn [canon_path_of].
    destruct (wf_url_elim _ Hw) as (Hs & Hwa & Hwp & Hq & Hf).
    apply wf_url_intro; try assumption.
    unfold wf_path, is_special in *. cbn [set_path path scheme host query fragment].
    rewrite Hp in Hwp. apply andb_true_iff in Hwp. destruct Hwp as [Hall Hne].
    destruct (canon_segs_cases l) as [[-> _] | [E Hcne]].
    + now rewrite Hall, Hne.
    + rewrite E in Hall. apply forallb_app_list in Hall. destruct Hall as [-> _].
      destruct (canon_segs l); [congruence | reflexivity].
Qed.

Lemma canon_record_wf (o : URLObject) :
  wf_object o -> wf_url (canon_record o) = true.
Proof.
  intros [Hw _]. unfold canon_record. apply update_query_wf.
  apply (strip_opaque_path_wf (set_host (canon_host_of (record o)) (record o)));
    auto using set_host_canon_wf.
Qed.

Lemma canon_form_wf (o : URLObject) :
  wf_object o -> wf_object (canon_form o).
Proof.
  intros Ho. split.
  - apply (set_path_canon_wf (canon_record o)). now apply canon_record_wf.
  - change (kept_params o =
            urlencoded_parse (nullish (query (canon_record o)) "")).
    unfold canon_record. apply params_of_update.
    unfold kept_params. apply clean_filter. now apply wf_object_clean.
Qed.

Lemma canon_form_scheme (o : URLObject) :
  scheme (record (canon_form o)) = scheme (record o).
Proof. now destruct (canon_record_fields o) as (Hs & _). Qed.


(** ** One more round *)

Lemma replace_prefix_cases (p h : string) :
  (replace_prefix p h = h /\ startsWith h p = false)
  \/ h = p ++ replace_prefix p h.
Proof.
  unfold replace_prefix. destruct (strip_prefix p h) as [v |] eqn:E.
  - right. now apply strip_prefix_some.
  - left. split; [reflexivity | now apply strip_prefix_prefixb].
Qed.

Lemma replace_prefix_twice (h : string) :
  startsWith h "www.www." = false ->
  replace_prefix "www." (replace_prefix "www." h) = replace_prefix "www." h.
Proof.
  intros Hww. destruct (replace_prefix_cases "www." h) as [[E _] | E].
  - now rewrite !E.
  - destruct (replace_prefix_cases "www." (replace_prefix "www." h)) as [[E' _] | E'].
    + exact E'.
    + rewrite E' in E. rewrite E in Hww. discriminate.
Qed.

Lemma host_blocked_ext (u u' : URL) (v : string) :
  scheme u' = scheme u -> username u' = username u -> password u' = password u ->
  port u' = port u -> host_blocked u' v = host_blocked u v.
Proof.
  intros Hs Hu Hp Ht. unfold host_blocked, is_special, includes_credentials.
  now rewrite Hs, Hu, Hp, Ht.
Qed.

Lemma canon_host_of_ext (u u' : URL) :
  scheme u' = scheme u -> username u' = username u -> password u' = password u ->
  port u' = port u -> host u' = host u ->
  has_opaque_path u' = has_opaque_path u ->
  canon_host_of u' = canon_host_of u.
Proof.
  intros Hs Hu Hp Ht Hh Ho. unfold canon_host_of. rewrite Ho, Hh. cbv zeta.
  now rewrite (host_blocked_ext u u' _ Hs Hu Hp Ht).
Qed.

(** The host of the canonical form is canonical, unless the host
    starts with [www.www.]. *)
Lemma canon_host_of_idem (u u' : URL) :
  startsWith (nullish (host u) "") "www.www." = false ->
  scheme u' = scheme u -> username u' = username u -> password u' = password u ->
  port u' = port u -> host u' = canon_host_of u ->
  has_opaque_path u' = has_opaque_path u ->
  canon_host_of u' = canon_host_of u.
Proof.
  intros Hww Hs Hu Hp Ht Hh Ho. unfold canon_host_of at 1. rewrite Ho, Hh.
  destruct (has_opaque_path u) eqn:Hop; [reflexivity |]. cbv zeta.
  rewrite (host_blocked_ext u u' _ Hs Hu Hp Ht).
  unfold canon_host_of. rewrite Hop. cbv zeta.
  set (h := nullish (host u) "") in *.
  destruct (host_blocked u (replace_prefix "www." h)) eqn:Hb.
  - fold h. now rewrite Hb.
  - cbn [nullish]. rewrite (replace_prefix_twice h Hww).
    now destruct (host_blocked u (replace_prefix "www." h)).
Qed.

Lemma has_opaque_path_canon (o : URLObject) :
  has_opaque_path (record (canon_form o)) = has_opaque_path (record o).
Proof.
  unfold canon_form. cbv zeta. cbn [record]. fold (canon_record o).
  destruct (canon_record_fields o) as (_ & _ & _ & _ & _ & _ & Hpa).
  unfold has_opaque_path. cbn [set_path path].
  destruct (path (record o)) as [p | s].
  - destruct Hpa as [p' ->]. reflexivity.
  - rewrite Hpa. reflexivity.
Qed.

Lemma canon_form_fields (o : URLObject) :
  scheme (record (canon_form o)) = scheme (record o)
  /\ username (record (canon_form o)) = username (record o)
  /\ password (record (canon_form o)) = password (record o)
  /\ host (record (canon_form o)) = canon_host_of (record o)
  /\ port (record (canon_form o)) = port (record o).
Proof.
  destruct (canon_record_fields o) as (Hs & Hu & Hp & Hh & Ht & _).
  unfold canon_form. cbv zeta. cbn [record]. fold (canon_record o).
  cbn [set_path scheme username password host port]. auto.
Qed.

Lemma kept_params_canon_form (o : URLObject) :
  kept_params (canon_form o) = kept_params o.
Proof. unfold kept_params at 1. cbn [canon_form params]. apply filter_twice. Qed.

(** One more round changes nothing, unless the host starts with
    [www.www.] or the path ends with two slashes. *)
Lemma canon_form_idem (o : URLObject) :
  wf_object o ->
  startsWith (hostname o) "www.www." = false ->
  endsWith (pathname o) "//" = false ->
  canon_form (canon_form o) = canon_form o.
Proof.
  intros Hw Hww Hss.
  destruct (canon_form_fields o) as (Hs & Hu & Hp & Hh & Ht).
  pose proof (has_opaque_path_canon o) as Hop.
  pose proof (canon_host_of_idem (record o) (record (canon_form o)) Hww Hs Hu Hp Ht Hh Hop)
    as Hhost.
  destruct (path (record o)) as [p | s] eqn:Hpath.
  - pose proof (canon_form_opaque o p Hw Hpath) as E.
    assert (Hpath' : path (record (canon_form o)) =
                     Opaque (if is_none (query_of (kept_params o))
                             then strip_trailing_spaces p else p))
      by (now rewrite E).
    rewrite (canon_form_opaque (canon_form o) _ (canon_form_wf o Hw) Hpath').
    rewrite kept_params_canon_form, Hs, Hu, Hp, Ht, Hh, E.
    unfold canon_host_of, has_opaque_path. rewrite Hpath.
    destruct (query_of (kept_params o)); cbn [is_none]; [reflexivity |].
    unfold strip_trailing_spaces. now rewrite (drop_while_end_idem is_space p).
  - pose proof (canon_form_segments o s Hpath) as E.
    assert (Hpath' : path (record (canon_form o)) = Segments (canon_segs s))
      by (now rewrite E).
    rewrite (canon_form_segments (canon_form o) _ Hpath').
    rewrite kept_params_canon_form, Hs, Hu, Hp, Ht, Hhost, E.
    unfold pathname in Hss. rewrite Hpath in Hss. cbn [serialize_path] in Hss.
    now rewrite (canon_segs_idem s Hss).
Qed.

(** [stripRefParam] before [normalizeCompareUrl] changes nothing. *)
Lemma canon_form_delete (o : URLObject) :
  wf_object o -> canon_form (searchParams_delete "ref" o) = canon_form o.
Proof.
  intros Hw. pose proof (searchParams_delete_wf "ref" o Hw) as Hwd.
  set (l3 := List.filter (fun nv => negb (String.eqb (fst nv) "ref")) (params o)).
  destruct (update_query_fields l3 (record o)) as (Hs & Hu & Hp & Hh & Ht & Hf & Hpa).
  assert (Hrec : record (searchParams_delete "ref" o) = update_query l3 (record o))
    by reflexivity.
  rewrite <- Hrec in Hs, Hu, Hp, Hh, Ht, Hf, Hpa.
  pose proof (kept_params_delete o) as Hk.
  destruct (path (record o)) as [p | s] eqn:Hpath.
  - destruct Hpa as [p' Hpath'].
    rewrite (canon_form_opaque _ p' Hwd Hpath'), (canon_form_opaque o p Hw Hpath).
    rewrite Hk, Hs, Hu, Hp, Hh, Ht. do 2 f_equal.
    rewrite Hrec in Hpath'. unfold update_query in Hpath'.
    destruct (urlencoded_serialize l3) eqn:E.
    + apply urlencoded_serialize_nil in E.
      assert (Hknil : kept_params o = []).
      { rewrite <- Hk. unfold kept_params, searchParams_delete. cbn [params].
        fold l3. now rewrite E. }
      rewrite Hknil, query_of_nil. cbn [is_none]. f_equal.
      unfold strip_opaque_path in Hpath'. cbn [set_query path fragment query] in Hpath'.
      rewrite Hpath in Hpath'. destruct (fragment (record o)).
      * cbn [set_query path] in Hpath'. rewrite Hpath in Hpath'.
        now injection Hpath' as <-.
      * cbn in Hpath'. injection Hpath' as <-. unfold strip_trailing_spaces.
        now rewrite (drop_while_end_idem is_space p).
    + cbn in Hpath'. rewrite Hpath in Hpath'. now injection Hpath' as <-.
  - rewrite (canon_form_segments _ s Hpa), (canon_form_segments o s Hpath).
    rewrite Hk, Hs, Hu, Hp, Ht. f_equal. f_equal.
    apply canon_host_of_ext; try assumption.
    unfold has_opaque_path. now rewrite Hpa, Hpath.
Qed.

(** ** The [http(s)] case *)

Lemma canon_form_special (o : URLObject) :
  wf_object o -> is_special (record o) = true -> canon_form o = canon_obj o.
Proof.
  intros [Hw _] Hsp.
  destruct (special_shape _ Hw Hsp) as (h & segs & Hh & _ & _ & Hpath & _ & _).
  rewrite (canon_form_segments o segs Hpath). unfold canon_obj. cbv zeta.
  rewrite Hh, Hpath. cbn [option_map]. do 2 f_equal.
  unfold canon_host_of, has_opaque_path, host_blocked, canon_host.
  rewrite Hpath, Hh, Hsp. cbn [nullish orb]. cbv zeta. rewrite andb_true_r.
  now destruct (is_empty (replace_prefix "www." h)).
Qed.

End CanonFacts.

(* ================================================================== *)
(** * C3 and C1: [canonicalize] on the strings read as URLs *)
(* ================================================================== *)

Import CanonFacts.

Lemma normalizeCompareUrl_reads (x : string) (o : URLObject) :
  reads_as x o ->
  normalizeCompareUrl x = Returns (href (canon_form o)).
Proof.
  intros H. unfold normalizeCompareUrl. rewrite (reads_nonempty _ _ H).
  rewrite (normalizeUrl_reads _ _ H). cbn [bind].
  rewrite (URL_new_href _ (reads_wf _ _ H)).
  change (Returns (toString (compare_form o)) = Returns (href (canon_form o))).
  unfold toString. now rewrite (compare_form_canon o (reads_wf _ _ H)).
Qed.

(** The key of a string read as a URL is the [href] of the canonical
    form. *)
Lemma canonicalize_reads (x : string) (o : URLObject) :
  reads_as x o -> canonicalize x = Returns (href (canon_form o)).
Proof.
  intros H. unfold canonicalize. rewrite (stripRefParam_reads _ _ H). cbn [bind].
  pose proof (reads_wf _ _ H) as Hw.
  assert (Hr : reads_as (href (searchParams_delete "ref" o))
                        (searchParams_delete "ref" o)).
  { apply reads_href; [now apply searchParams_delete_wf |].
    rewrite delete_scheme. exact (reads_scheme _ _ H). }
  rewrite (normalizeCompareUrl_reads _ _ Hr).
  now rewrite (canon_form_delete o Hw).
Qed.

Lemma canon_form_reads (x : string) (o : URLObject) :
  reads_as x o -> reads_as (href (canon_form o)) (canon_form o).
Proof.
  intros H. apply reads_href.
  - apply canon_form_wf. exact (reads_wf _ _ H).
  - rewrite canon_form_scheme. exact (reads_scheme _ _ H).
Qed.

Lemma is_http_scheme (a b : URLObject) :
  scheme (record a) = scheme (record b) -> is_http a = is_http b.
Proof. unfold is_http. now intros ->. Qed.

Lemma canonicalize_http (x : string) (o : URLObject) :
  reads_as x o -> is_http o = true ->
  canonicalize x = Returns (href (canon_obj o)).
Proof.
  intros H Hh. rewrite (canonicalize_reads _ _ H).
  now rewrite (canon_form_special o (reads_wf _ _ H) (is_http_special _ Hh)).
Qed.

(** C3, as stated, fails: one trailing slash and one leading [www.]
    are removed at a time, so a second round still finds one to remove
    in a path that ends with two slashes or a host that starts with
    [www.www.]. *)
Lemma canonicalize_twice_counterexample :
  (exists o, reads_as "https://example.com/a//" o)
  /\ (k <- canonicalize "https://example.com/a//" ;; canonicalize k)
     <> canonicalize "https://example.com/a//"
  /\ (exists o, reads_as "https://www.www.example.com" o)
  /\ (k <- canonicalize "https://www.www.example.com" ;; canonicalize k)
     <> canonicalize "https://www.www.example.com".
Proof.
  split; [eexists; vm_compute; reflexivity |].
  split; [vm_compute; discriminate |].
  split; [eexists; vm_compute; reflexivity |].
  vm_compute. discriminate.
Qed.

(** C3, amended: for every string [x] that is read as a URL whose host
    name does not start with [www.www.] and whose path does not end
    with two slashes, [canonicalize] applied to [canonicalize(x)]
    returns [canonicalize(x)]; the same holds of [normalizeCompareUrl]
    alone. *)
Theorem canonicalize_idempotent (x : string) (o : URLObject) :
  reads_as x o ->
  startsWith (hostname o) "www.www." = false ->
  endsWith (pathname o) "//" = false ->
  (k <- canonicalize x ;; canonicalize k) = canonicalize x
  /\ (k <- normalizeCompareUrl x ;; normalizeCompareUrl k) = normalizeCompareUrl x.
Proof.
  intros H Hww Hss.
  pose proof (canon_form_reads _ _ H) as Hr.
  pose proof (canon_form_idem o (reads_wf _ _ H) Hww Hss) as Hidem.
  split.
  - rewrite (canonicalize_reads _ _ H). cbn [bind].
    rewrite (canonicalize_reads _ _ Hr). now rewrite Hidem.
  - rewrite (normalizeCompareUrl_reads _ _ H). cbn [bind].
    rewrite (normalizeCompareUrl_reads _ _ Hr). now rewrite Hidem.
Qed.

Lemma canonicalize_idempotent_witness :
  reads_as "https://www.example.com/page/?ref=abc&utm_source=x#frag" decorated_example
  /\ (k <- canonicalize "https://www.example.com/page/?ref=abc&utm_source=x#frag" ;;
      canonicalize k)
     = canonicalize "https://www.example.com/page/?ref=abc&utm_source=x#frag".
Proof.
  assert (H : reads_as "https://www.example.com/page/?ref=abc&utm_source=x#frag"
                       decorated_example) by (vm_compute; reflexivity).
  split; [exact H |].
  exact (proj1 (canonicalize_idempotent _ _ H eq_refl eq_refl)).
Defined.

(** C1, as stated, fails.  The scheme is part of the key: the two
    URLs of its example, one [http:] and the other [https:], get
    different keys.  Only one leading [www.] and one trailing slash are
    removed: a second [www.] or a second slash is left.  And the slash
    of the path [/] stays, also where the URL can do without a path. *)
Lemma canonicalize_scheme_counterexample :
  canonicalize "http://www.example.com/page/?ref=abc&utm_source=x#frag"
  <> canonicalize "https://example.com/page"
  /\ canonicalize "https://www.www.example.com/" <> canonicalize "https://www.example.com/"
  /\ canonicalize "https://example.com/a//" <> canonicalize "https://example.com/a/"
  /\ canonicalize "httpx://h/" <> canonicalize "httpx://h".
Proof. repeat split; vm_compute; discriminate. Qed.

Lemma canon_obj_decoration (a b : URLObject) :
  wf_object a -> wf_object b -> is_special (record a) = true ->
  decoration_only a b -> canon_obj a = canon_obj b.
Proof.
  intros [Hwa _] [Hwb _] Hsa (Hs & Hu & Hp & Hpt & Hh & Hpa & Hk).
  assert (Hsb : is_special (record b) = true).
  { unfold is_special in *. now rewrite <- Hs. }
  destruct (special_shape _ Hwa Hsa)
    as (ha & sa & Hha & Hane & _ & Hpatha & Hsane & Halla).
  destruct (special_shape _ Hwb Hsb)
    as (hb & sb & Hhb & Hbne & _ & Hpathb & Hsbne & Hallb).
  unfold hostname in Hh. unfold pathname in Hpa.
  rewrite Hha, Hhb in Hh. rewrite Hpatha, Hpathb in Hpa. cbn [serialize_path] in Hpa.
  unfold canon_obj. cbv zeta.
  rewrite Hs, Hu, Hp, Hpt, Hk, Hha, Hhb, Hpatha, Hpathb. cbn [option_map].
  rewrite (canon_host_variant ha hb Hane Hbne Hh).
  now rewrite (canon_segs_variant true sa sb Halla Hsane Hallb Hsbne Hpa).
Qed.

(** C1, amended: two strings that are read as [http(s)] URLs with the
    same scheme, credentials and port, whose host names are equal up to
    one leading [www.], whose paths are equal up to one trailing slash,
    and whose query parameters other than [ref] and [utm_*] are the
    same, get the same key from [canonicalize], whatever their
    fragments. *)
Theorem canonicalize_decoration (x y : string) (ox oy : URLObject) :
  reads_as x ox -> reads_as y oy -> is_http ox = true ->
  decoration_only ox oy ->
  canonicalize x = canonicalize y.
Proof.
  intros Hx Hy Hh Hd.
  assert (Hhy : is_http oy = true).
  { rewrite <- Hh. symmetry. apply is_http_scheme. exact (proj1 Hd). }
  rewrite (canonicalize_http _ _ Hx Hh), (canonicalize_http _ _ Hy Hhy).
  now rewrite (canon_obj_decoration ox oy (reads_wf _ _ Hx) (reads_wf _ _ Hy)
                                    (is_http_special _ Hh) Hd).
Qed.

Lemma canonicalize_decoration_witness :
  decoration_only decorated_example plain_example
  /\ canonicalize "https://www.example.com/page/?ref=abc&utm_source=x#frag"
     = canonicalize "https://example.com/page".
Proof.
  assert (Hd : decoration_only decorated_example plain_example).
  { repeat split; try reflexivity.
    - right. left. split; reflexivity.
    - right. left. split; reflexivity. }
  split; [exact Hd |].
  apply (canonicalize_decoration _ _ decorated_example plain_example);
    [vm_compute; reflexivity | vm_compute; reflexivity | reflexivity | exact Hd].
Defined.

(* ================================================================== *)
(** * Further properties: URLs *)
(* ================================================================== *)


Lemma with_scheme_http (x : string) : startsWith (with_scheme x) "http" = true.
Proof.
  unfold with_scheme. destruct (startsWith x "http") eqn:E; [exact E | reflexivity].
Qed.

(** What [normalizeUrl] returns, it hands back as it is. *)
Lemma normalizeUrl_fixed (x y : string) :
  normalizeUrl x = Returns y -> normalizeUrl y = Returns y.
Proof.
  unfold normalizeUrl at 1. fold (with_scheme x).
  destruct (URL_new (with_scheme x)) as [o | e] eqn:Hx; cbn [bind try_catch];
    intros E; injection E as <-.
  - pose proof (URL_new_wf _ _ Hx) as Hw.
    assert (Hs : startsWith (scheme (record o)) "http" = true).
    { apply (scheme_http (with_scheme x)); [apply with_scheme_http |].
      now apply URL_new_record. }
    unfold normalizeUrl. rewrite (href_http _ Hs).
    now rewrite (URL_new_href _ Hw).
  - unfold normalizeUrl. fold (with_scheme x). now rewrite Hx.
Qed.

(** X1.  [normalizeUrl] never throws and is idempotent on every string,
    whether it parses as a URL or not. *)
Theorem normalizeUrl_idempotent (x : string) :
  exists y, normalizeUrl x = Returns y
            /\ (y <- normalizeUrl x ;; normalizeUrl y) = normalizeUrl x.
Proof.
  destruct (normalizeUrl_returns x) as [y Hy]. exists y. split; [exact Hy |].
  rewrite Hy. cbn [bind]. exact (normalizeUrl_fixed _ _ Hy).
Qed.

Lemma isLikelyUrl_reads (v : string) :
  isLikelyUrl v = Returns true -> exists o, reads_as v o.
Proof.
  unfold isLikelyUrl, reads_as. destruct (is_empty v); [discriminate |].
  cbv zeta. destruct (includes (trim v) " "); [discriminate |].
  fold (with_scheme (trim v)).
  destruct (URL_new (with_scheme (trim v))) as [o | e]; [eauto | discriminate].
Qed.

(** What [stripRefParam] returns for a string that [normalizeUrl]
    reads as a URL is left as it is by [stripRefParam]. *)
Lemma stripRefParam_stable (x : string) (o : URLObject) :
  reads_as x o ->
  stripRefParam (href (searchParams_delete "ref" o))
  = Returns (href (searchParams_delete "ref" o)).
Proof.
  intros Hread.
  assert (Hr : reads_as (href (searchParams_delete "ref" o))
                        (searchParams_delete "ref" o)).
  { apply reads_href.
    - apply searchParams_delete_wf. exact (reads_wf _ _ Hread).
    - rewrite delete_scheme. exact (reads_scheme _ _ Hread). }
  rewrite (stripRefParam_reads _ _ Hr). now rewrite searchParams_delete_idem.
Qed.

Lemma find_duplicate_spec (n : string) (bookmarks : list Bookmark) :
  exists r,
    find_duplicate n bookmarks = Returns r
    /\ match r with
       | Some d =>
           exists before after,
             bookmarks = (before ++ d :: after)%list
             /\ stripRefParam (url d) = Returns n
             /\ forall b, In b before -> stripRefParam (url b) <> Returns n
       | None => forall b, In b bookmarks -> stripRefParam (url b) <> Returns n
       end.
Proof.
  induction bookmarks as [| b rest IH]; cbn [find_duplicate].
  - exists None. split; [reflexivity |]. intros b [].
  - destruct (stripRefParam_returns (url b)) as [s Hs]. rewrite Hs. cbn [bind].
    destruct (String.eqb_spec s n) as [-> | Hne].
    + exists (Some b). split; [reflexivity |].
      exists [], rest. split; [reflexivity |]. split; [exact Hs |]. intros b0 [].
    + destruct IH as (r & Hr & Hspec). exists r. split; [exact Hr |].
      assert (Hb : stripRefParam (url b) <> Returns n)
        by (rewrite Hs; intros E; injection E as E; contradiction).
      destruct r as [d |].
      * destruct Hspec as (before & after & -> & Hd & Hbefore).
        exists (b :: before), after. split; [reflexivity |]. split; [exact Hd |].
        intros b0 [<- | H0]; [exact Hb | now apply Hbefore].
      * intros b0 [<- | H0]; [exact Hb | now apply Hspec].
Qed.

(** X6.  [isDuplicateUrl] never throws.  It answers the first bookmark of
    the list whose URL has, under [stripRefParam], the same value as
    the given URL, and [null] exactly when the list has no such
    bookmark. *)
Theorem isDuplicateUrl_first_match (x : string) (bookmarks : list Bookmark) :
  exists r,
    isDuplicateUrl x bookmarks = Returns r
    /\ match r with
       | Some d =>
           exists before after,
             bookmarks = (before ++ d :: after)%list
             /\ stripRefParam (url d) = stripRefParam x
             /\ forall b, In b before -> stripRefParam (url b) <> stripRefParam x
       | None => forall b, In b bookmarks -> stripRefParam (url b) <> stripRefParam x
       end.
Proof.
  unfold isDuplicateUrl.
  destruct (stripRefParam_returns x) as [n Hn]. rewrite Hn. cbn [bind].
  exact (find_duplicate_spec n bookmarks).
Qed.

(** X7.  The path of [addBookmarkFromValue]: a value that [isLikelyUrl]
    accepts is stored under the URL that [stripRefParam] makes of it,
    at the head of the list; from then on [isDuplicateUrl] answers the
    stored bookmark for the same value. *)
Theorem isDuplicateUrl_after_add (v : string) (b : Bookmark) (bookmarks : list Bookmark) :
  isLikelyUrl v = Returns true ->
  stripRefParam v = Returns (url b) ->
  isDuplicateUrl v (b :: bookmarks) = Returns (Some b).
Proof.
  intros Hlikely Hstored.
  destruct (isLikelyUrl_reads _ Hlikely) as [o Hread].
  unfold isDuplicateUrl. rewrite Hstored. cbn [bind find_duplicate].
  rewrite (stripRefParam_reads _ _ Hread) in Hstored. injection Hstored as <-.
  rewrite (stripRefParam_stable _ _ Hread). cbn [bind].
  now rewrite String.eqb_refl.
Qed.

Lemma isDuplicateUrl_after_add_witness :
  let b := mkBookmark "1" "https://example.com/a?b=1" "A" "" None None None "default"
                      (Some 1%Z) (Some 1%Z) in
  isLikelyUrl "example.com/a?ref=x&b=1" = Returns true
  /\ isDuplicateUrl "example.com/a?ref=x&b=1" [b] = Returns (Some b).
Proof.
  intros b. split; [reflexivity |].
  apply isDuplicateUrl_after_add; reflexivity.
Defined.

Lemma includes_char_false (q : ascii -> bool) (c : ascii) (s : string) :
  forallb q s = true -> q c = false -> includes s (String c "") = false.
Proof.
  intros Hs Hc. induction s as [| d s IH]; [reflexivity |].
  cbn [forallb] in Hs. apply andb_true_iff in Hs. destruct Hs as [Hd Hs].
  cbn [includes prefixb].
  destruct (Ascii.eqb_spec c d) as [-> | _]; [congruence |].
  cbn [andb]. now apply IH.
Qed.

Lemma alpha_select (q : ascii -> bool) (w : string) :
  List.forallb (fun c => implb (is_alpha c) (q c)) all_ascii = true ->
  forallb is_alpha w = true -> forallb q w = true.
Proof.
  intros Hq. apply forallb_impl. now apply ascii_implies.
Qed.

Lemma lower_ipv4_number (c : ascii) (r : string) :
  is_lower c = true -> ipv4_number (String c r) = None.
Proof.
  intros Hc.
  destruct c as [[] [] [] [] [] [] [] []]; try discriminate Hc; reflexivity.
Qed.

Lemma lower_not_xn (d : string) :
  forallb is_lower d = true -> startsWith d "xn--" = false.
Proof.
  intros H. unfold startsWith.
  destruct d as [| a d]; [reflexivity |].
  destruct d as [| b d]; [cbn [prefixb]; apply andb_false_r |].
  destruct d as [| c d]; [cbn [prefixb]; now rewrite !andb_false_r |].
  cbn [forallb] in H. apply andb_true_iff in H. destruct H as [_ H].
  apply andb_true_iff in H. destruct H as [_ H].
  apply andb_true_iff in H. destruct H as [Hc _].
  cbn [prefixb].
  destruct (Ascii.eqb_spec "-"%char c) as [<- | _]; [discriminate |].
  cbn [andb]. now rewrite !andb_false_r.
Qed.

(** The host parser on a word of ASCII letters. *)
Lemma host_parse_word (w : string) :
  is_empty w = false -> forallb is_alpha w = true ->
  host_parse false w = Some (toLowerCase w).
Proof.
  intros He Hw.
  assert (Hl : forallb is_lower (toLowerCase w) = true).
  { unfold toLowerCase. rewrite forallb_map. revert Hw.
    apply alpha_select. vm_compute. reflexivity. }
  assert (Hsel : forall q : ascii -> bool,
             List.forallb (fun c => implb (is_lower c) (q c)) all_ascii = true ->
             forallb q (toLowerCase w) = true).
  { intros q Hq. revert Hl. apply forallb_impl. now apply ascii_implies. }
  unfold host_parse.
  rewrite (startsWith_head is_alpha w "[" Hw eq_refl).
  rewrite percent_decode_id by (revert Hw; apply alpha_select; vm_compute; reflexivity).
  rewrite (proj2 (existsb_false _ _)) by (apply Hsel; vm_compute; reflexivity).
  unfold has_punycode_label.
  rewrite split_on_none by (apply Hsel; vm_compute; reflexivity).
  cbn [List.existsb]. rewrite (lower_not_xn _ Hl). cbn [orb].
  destruct w as [| c w]; [discriminate |].
  change (toLowerCase (String c w)) with (String (lower c) (toLowerCase w)) in *.
  cbn [is_empty].
  rewrite (proj2 (existsb_false _ _)) by (apply Hsel; vm_compute; reflexivity).
  cbn [forallb] in Hl. apply andb_true_iff in Hl. destruct Hl as [Hc Hl].
  unfold ends_in_number, host_parts.
  rewrite split_on_none by (apply Hsel; vm_compute; reflexivity).
  cbn [List.rev List.app]. rewrite (lower_ipv4_number _ _ Hc).
  cbn [forallb].
  replace (is_digit (lower c)) with false; [reflexivity |].
  symmetry. revert Hc. generalize (lower c). intros x.
  destruct x as [[] [] [] [] [] [] [] []]; intros Hx; try discriminate Hx; reflexivity.
Qed.

Lemma URL_new_word (w : string) :
  is_empty w = false -> forallb is_alpha w = true ->
  URL_new ("https://" ++ w)
  = Returns (mkObject (mkURL "https" "" "" (Some (toLowerCase w)) None (Segments [""])
                             None None) []).
Proof.
  intros He Hw.
  assert (Hsel : forall q : ascii -> bool,
             List.forallb (fun c => implb (is_alpha c) (q c)) all_ascii = true ->
             forallb q w = true).
  { intros q Hq. now apply (alpha_select q w Hq). }
  assert (Hp : basic_parse ("https://" ++ w)
               = Some (mkURL "https" "" "" (Some (toLowerCase w)) None (Segments [""])
                             None None)).
  { unfold basic_parse.
    assert (E1 : strip_c0_space ("https://" ++ w) = "https://" ++ w).
    { unfold strip_c0_space.
      rewrite (drop_while_stops _ ("https://" ++ w)) by reflexivity.
      apply ends_clear_all. rewrite forallb_app. apply andb_true_iff. split; [reflexivity |].
      apply Hsel. vm_compute. reflexivity. }
    rewrite E1.
    assert (E2 : remove_tab_newline ("https://" ++ w) = "https://" ++ w).
    { apply filter_id. rewrite forallb_app. apply andb_true_iff. split; [reflexivity |].
      apply Hsel. vm_compute. reflexivity. }
    rewrite E2.
    assert (E3 : split_scheme ("https://" ++ w) = Some ("https", "//" ++ w)) by reflexivity.
    rewrite E3.
    assert (E4 : cut "#" ("//" ++ w) = ("//" ++ w, None)).
    { apply cut_none. unfold no_chars. rewrite forallb_app. apply andb_true_iff.
      split; [reflexivity |]. apply Hsel. vm_compute. reflexivity. }
    assert (E5 : cut "?" ("//" ++ w) = ("//" ++ w, None)).
    { apply cut_none. unfold no_chars. rewrite forallb_app. apply andb_true_iff.
      split; [reflexivity |]. apply Hsel. vm_compute. reflexivity. }
    rewrite E4, E5.
    cbn [option_map is_special_scheme List.existsb String.eqb Ascii.eqb Bool.eqb orb].
    assert (E6 : parse_hierarchy "https" ("//" ++ w)
                 = Some ("", "", Some (toLowerCase w), None, Segments [""])).
    { unfold parse_hierarchy.
      change (is_special_scheme "https") with true. cbv iota.
      assert (D : drop_while (is_slash true) ("//" ++ w) = w).
      { change (drop_while (is_slash true) ("//" ++ w)) with (drop_while (is_slash true) w).
        apply drop_while_stops. destruct w as [| c w]; [reflexivity |].
        cbn [stops]. cbn [forallb] in Hw. apply andb_true_iff in Hw. destruct Hw as [Hc _].
        apply (ascii_implies is_alpha (fun x => negb (is_slash true x)));
          [vm_compute; reflexivity | exact Hc]. }
      rewrite D. unfold parse_with_authority.
      change (is_special_scheme "https") with true. cbv zeta.
      rewrite span_all by (apply Hsel; vm_compute; reflexivity).
      unfold parse_authority.
      rewrite split_last_none by (apply Hsel; vm_compute; reflexivity).
      unfold parse_hostport. change (is_special_scheme "https") with true. cbv zeta.
      rewrite cut_none by (apply Hsel; vm_compute; reflexivity).
      rewrite He. cbn [andb negb]. rewrite (host_parse_word _ He Hw).
      destruct w; [discriminate | reflexivity]. }
    rewrite E6. reflexivity. }
  unfold URL_new. rewrite Hp. reflexivity.
Qed.

Lemma word_trim (w : string) :
  forallb is_alpha w = true -> trim w = w.
Proof.
  intros Hw. destruct w as [| c w]; [reflexivity |].
  assert (Hp : forallb plain (String c w) = true).
  { revert Hw. apply alpha_select. vm_compute. reflexivity. }
  apply trim_plain.
  - cbn [forallb] in Hp. now apply andb_true_iff in Hp.
  - apply ends_clear_all. revert Hp. apply forallb_impl.
    intros x Hx. now rewrite Hx.
Qed.

(** X4.  A word of ASCII letters that does not start with [http] is accepted
    by [isLikelyUrl], whatever the comment of lines 126-127 says about
    words without a dot, and [normalizeUrl] and [stripRefParam] make of
    it the URL [https://], the word in lower case, [/]. *)
Theorem isLikelyUrl_plain_word (w : string) :
  is_empty w = false -> forallb is_alpha w = true -> startsWith w "http" = false ->
  isLikelyUrl w = Returns true
  /\ normalizeUrl w = Returns ("https://" ++ toLowerCase w ++ "/")
  /\ stripRefParam w = Returns ("https://" ++ toLowerCase w ++ "/").
Proof.
  intros He Hw Hh.
  pose proof (URL_new_word w He Hw) as Hnew.
  pose proof (word_trim w Hw) as Ht.
  set (o := mkObject (mkURL "https" "" "" (Some (toLowerCase w)) None (Segments [""])
                            None None) []) in *.
  assert (Hhref : href o = "https://" ++ toLowerCase w ++ "/").
  { unfold href, serialize, serialize_hierarchy, serialize_authority, o.
    cbn [record scheme host port path query fragment includes_credentials username
         password is_empty negb orb serialize_path serialize_segments append].
    now rewrite !app_nil_r. }
  assert (Hread : reads_as w o).
  { unfold reads_as, with_scheme. now rewrite Ht, Hh. }
  split; [| split].
  - unfold isLikelyUrl. rewrite He. cbv zeta. rewrite Ht.
    rewrite (includes_char_false is_alpha " " w Hw eq_refl).
    now rewrite Hh, Hnew.
  - rewrite <- Ht at 1. rewrite (normalizeUrl_reads _ _ Hread). now rewrite Hhref.
  - rewrite (stripRefParam_reads _ _ Hread). now rewrite <- Hhref.
Qed.

Lemma isLikelyUrl_plain_word_witness :
  isLikelyUrl "Cats" = Returns true /\ stripRefParam "Cats" = Returns "https://cats/".
Proof.
  destruct (isLikelyUrl_plain_word "Cats" eq_refl eq_refl eq_refl) as (H1 & _ & H3).
  split; [exact H1 | exact H3].
Defined.

(* ================================================================== *)
(** * Further properties: search *)
(* ================================================================== *)


Lemma text_char_cases (c : ascii) :
  is_text_char c = true ->
  (is_space c = true /\ ws1 c = true) \/ (is_space c = false /\ ws1 c = false /\ plain c = true).
Proof.
  destruct c as [[] [] [] [] [] [] [] []]; intros H; try discriminate H;
    first [ left; split; reflexivity | right; repeat split; reflexivity ].
Qed.

Lemma strip_ws_text (fwd : bool) (s : string) :
  forallb is_text_char s = true -> strip_ws fwd s = drop_while is_space s.
Proof.
  induction s as [| c s IH]; [reflexivity |].
  cbn [forallb]. intros H. apply andb_true_iff in H. destruct H as [Hc Hs].
  destruct (text_char_cases c Hc) as [[Hsp Hw] | (Hsp & Hw & Hp)].
  - cbn [strip_ws drop_while]. rewrite Hw, Hsp. now apply IH.
  - rewrite (strip_ws_plain fwd c s Hp). cbn [drop_while]. now rewrite Hsp.
Qed.

Lemma forallb_drop_while (q p : ascii -> bool) (s : string) :
  forallb q s = true -> forallb q (drop_while p s) = true.
Proof.
  induction s as [| c s IH]; [reflexivity |].
  intros H. cbn [drop_while]. destruct (p c); [| exact H].
  cbn [forallb] in H. apply andb_true_iff in H. now apply IH.
Qed.

Lemma drop_while_stops_after (p : ascii -> bool) (s : string) :
  stops p (drop_while p s) = true.
Proof.
  induction s as [| c s IH]; [reflexivity |].
  cbn [drop_while]. destruct (p c) eqn:Hc; [exact IH |].
  cbn [stops]. now rewrite Hc.
Qed.

Lemma single_spaced_tail (c : ascii) (s : string) :
  single_spaced (String c s) = true -> single_spaced s = true.
Proof. cbn [single_spaced]. intros H. now apply andb_true_iff in H. Qed.

Lemma single_spaced_drop_while (p : ascii -> bool) (s : string) :
  single_spaced s = true -> single_spaced (drop_while p s) = true.
Proof.
  induction s as [| c s IH]; [reflexivity |].
  intros H. cbn [drop_while]. destruct (p c); [| exact H].
  apply IH. exact (single_spaced_tail _ _ H).
Qed.

Lemma single_spaced_app (a b : string) (c : ascii) :
  single_spaced (a ++ String c b) = true ->
  single_spaced a = true /\ single_spaced (String c b) = true.
Proof.
  induction a as [| x a IH]; [now cbn |].
  cbn [append single_spaced]. intros H.
  apply andb_true_iff in H. destruct H as [Hx Ha].
  destruct (IH Ha) as [H1 H2]. split; [| exact H2].
  apply andb_true_iff. split; [| exact H1].
  destruct (is_space x); [| reflexivity]. cbn [andb negb] in *.
  destruct a as [| y a]; [reflexivity | exact Hx].
Qed.

Lemma drop_while_snoc (p : ascii -> bool) (a : string) (c : ascii) :
  drop_while p (a ++ String c "")
  = if forallb p a then (if p c then "" else String c "")
    else drop_while p a ++ String c "".
Proof.
  induction a as [| x a IH]; [reflexivity |].
  cbn [append drop_while forallb]. destruct (p x); [exact IH | reflexivity].
Qed.

Lemma rev_drop_while (p : ascii -> bool) (x : string) :
  rev (drop_while p (rev x)) = drop_while_end p x.
Proof.
  induction x as [| c x IH]; [reflexivity |].
  rewrite rev_cons, drop_while_snoc, forallb_rev. cbn [drop_while_end].
  destruct (forallb p x) eqn:Hall.
  - rewrite (drop_while_end_all _ _ Hall). now destruct (p c).
  - rewrite rev_app, IH. cbn [rev rev_onto append].
    destruct (drop_while_end p x) eqn:Hd; [| reflexivity].
    apply drop_while_end_nil in Hd. congruence.
Qed.

Lemma drop_while_end_prefix (p : ascii -> bool) (s : string) :
  exists junk, s = drop_while_end p s ++ junk.
Proof.
  induction s as [| c s [junk IH]]; [now exists "" |].
  cbn [drop_while_end]. destruct (drop_while_end p s) as [| d r].
  - destruct (p c).
    + now exists (String c s).
    + exists s. reflexivity.
  - exists junk. rewrite IH at 1. reflexivity.
Qed.

Lemma trim_text (s : string) :
  forallb is_text_char s = true ->
  trim s = drop_while_end is_space (drop_while is_space s).
Proof.
  intros H. unfold trim, trimStart, trimEnd.
  rewrite (strip_ws_text true s H).
  rewrite strip_ws_text; [apply rev_drop_while |].
  rewrite forallb_rev. now apply forallb_drop_while.
Qed.

Lemma forallb_prefix (q : ascii -> bool) (a b : string) :
  forallb q (a ++ b) = true -> forallb q a = true.
Proof. rewrite forallb_app. intros H. now apply andb_true_iff in H. Qed.

Lemma single_spaced_prefix (a b : string) :
  single_spaced (a ++ b) = true -> single_spaced a = true.
Proof.
  destruct b as [| c b]; [now rewrite app_nil_r |].
  intros H. now apply single_spaced_app in H.
Qed.

Lemma stops_drop_while_end (p : ascii -> bool) (s : string) :
  stops p s = true -> stops p (drop_while_end p s) = true.
Proof.
  destruct s as [| c s]; [reflexivity |]. cbn [stops drop_while_end]. intros Hc.
  destruct (drop_while_end p s); [| exact Hc].
  apply negb_true_iff in Hc. rewrite Hc. cbn [stops]. now rewrite Hc.
Qed.

Lemma stops_startsWith (s : string) :
  stops is_space s = true -> startsWith s " " = false.
Proof.
  destruct s as [| c s]; [reflexivity |]. cbn [stops]. intros H.
  unfold startsWith. cbn [prefixb]. rewrite Ascii.eqb_sym.
  apply negb_true_iff in H. unfold is_space in H. now rewrite H.
Qed.

Lemma single_spaced_includes (s : string) :
  single_spaced s = true -> includes s "  " = false.
Proof.
  induction s as [| c s IH]; [reflexivity |].
  intros H. cbn [single_spaced] in H. apply andb_true_iff in H. destruct H as [Hc Hs].
  cbn [includes prefixb]. rewrite (IH Hs).
  replace (Ascii.eqb " " c) with (is_space c) by apply Ascii.eqb_sym.
  destruct (is_space c); [| reflexivity].
  destruct s as [| d s]; [reflexivity |]. cbn [stops] in Hc. cbn [prefixb].
  replace (Ascii.eqb " " d) with (is_space d) by apply Ascii.eqb_sym.
  destruct (is_space d); [discriminate Hc | reflexivity].
Qed.

Lemma collapse_other_shape (s : string) :
  forall inside,
    forallb is_text_char (collapse_other s inside) = true
    /\ single_spaced (collapse_other s inside) = true
    /\ (inside = true -> stops is_space (collapse_other s inside) = true).
Proof.
  induction s as [| c s IH]; intros inside; [now cbn |].
  cbn [collapse_other]. destruct (is_search_char c) eqn:Hc.
  - destruct (IH false) as (H1 & H2 & _).
    assert (Hsp : is_space c = false).
    { revert Hc. generalize c. intros x.
      destruct x as [[] [] [] [] [] [] [] []]; intros Hx; try discriminate Hx; reflexivity. }
    cbn [forallb single_spaced stops]. unfold is_text_char at 1. rewrite Hc, Hsp, H1, H2.
    now cbn.
  - destruct (IH true) as (H1 & H2 & H3). specialize (H3 eq_refl).
    destruct inside; [auto |].
    cbn [forallb single_spaced]. rewrite H1, H2, H3. repeat split. discriminate.
Qed.

Lemma join_rest (sep x : string) (l : list string) :
  l <> [] -> join sep (x :: l) = x ++ sep ++ join sep l.
Proof. destruct l; [congruence | reflexivity]. Qed.

Lemma join_split (s : string) :
  forallb is_text_char s = true -> join " " (split_on ws1 s) = s.
Proof.
  induction s as [| c s IH]; [reflexivity |].
  cbn [forallb]. intros H. apply andb_true_iff in H. destruct H as [Hc Hs].
  specialize (IH Hs). cbn [split_on].
  destruct (split_on_clean ws1 s) as [_ Hne].
  destruct (text_char_cases c Hc) as [[Hsp Hw] | (Hsp & Hw & _)]; rewrite Hw.
  - rewrite (join_rest _ _ _ Hne), IH. cbn [append].
    unfold is_space in Hsp. apply Ascii.eqb_eq in Hsp. now subst c.
  - destruct (split_on ws1 s) as [| x l]; [congruence |].
    destruct l as [| y l].
    + cbn [join] in *. now rewrite IH.
    + change (join " " (String c x :: y :: l))
        with (String c (x ++ " " ++ join " " (y :: l))).
      change (join " " (x :: y :: l)) with (x ++ " " ++ join " " (y :: l)) in IH.
      now rewrite IH.
Qed.

Lemma split_pieces (s : string) :
  forallb is_text_char s = true ->
  single_spaced s = true -> ends_clear is_space s -> s <> "" ->
  match split_on ws1 s with
  | x :: l => List.forallb nonempty l = true
              /\ (stops is_space s = true -> nonempty x = true)
  | [] => False
  end.
Proof.
  induction s as [| c s IH]; [congruence |].
  intros Ht Hs He _. cbn [forallb] in Ht. apply andb_true_iff in Ht. destruct Ht as [Hc Ht].
  cbn [split_on].
  destruct s as [| d s].
  - cbn [split_on]. destruct (text_char_cases c Hc) as [[Hsp Hw] | (Hsp & Hw & _)].
    + unfold ends_clear in He. cbn [drop_while_end] in He. rewrite Hsp in He. discriminate.
    + rewrite Hw. now split.
  - assert (He' : ends_clear is_space (String d s)).
    { apply (ends_clear_tail is_space (String c "") (String d s)); [discriminate | exact He]. }
    specialize (IH Ht (single_spaced_tail _ _ Hs) He' ltac:(discriminate)).
    destruct (split_on ws1 (String d s)) as [| x l]; [contradiction |].
    destruct IH as [Hl Hx].
    destruct (text_char_cases c Hc) as [[Hsp Hw] | (Hsp & Hw & _)]; rewrite Hw.
    + split; [| cbn [stops]; now rewrite Hsp].
      cbn [List.forallb]. rewrite Hl, andb_true_r. apply Hx.
      cbn [single_spaced] in Hs. rewrite Hsp in Hs. cbn [andb] in Hs.
      apply andb_true_iff in Hs. destruct Hs as [Hs _].
      now apply negb_true_iff, negb_false_iff in Hs.
    + split; [exact Hl | reflexivity].
Qed.

Lemma prefixb_refl_app (t post : string) : prefixb t (t ++ post) = true.
Proof.
  induction t as [| c t IH]; [reflexivity |].
  cbn [append prefixb]. now rewrite Ascii.eqb_refl.
Qed.

Lemma includes_middle (pre t post : string) : includes (pre ++ t ++ post) t = true.
Proof.
  induction pre as [| c pre IH].
  - cbn [append]. destruct (t ++ post) eqn:E.
    + apply app_eq_nil in E. destruct E as [-> _]. reflexivity.
    + rewrite <- E. unfold includes. rewrite E, <- E.
      now rewrite prefixb_refl_app.
  - cbn [append includes]. destruct (prefixb t (String c (pre ++ t ++ post))); [reflexivity |].
    exact IH.
Qed.

(** Being a part of a string. *)
Lemma piece_trans (a b c : string) :
  (exists pre post, b = pre ++ a ++ post) ->
  (exists pre post, c = pre ++ b ++ post) ->
  exists pre post, c = pre ++ a ++ post.
Proof.
  intros (p1 & q1 & ->) (p2 & q2 & ->). exists (p2 ++ p1), (q1 ++ q2).
  now rewrite !app_assoc.
Qed.

Lemma split_on_pieces (p : ascii -> bool) (s : string) :
  match split_on p s with
  | x :: l => (exists post, s = x ++ post)
              /\ (forall y, In y l -> exists pre post, s = pre ++ y ++ post)
  | [] => True
  end.
Proof.
  induction s as [| c s IH]; cbn [split_on].
  - split; [now exists "" | intros y []].
  - destruct (split_on p s) as [| x l].
    + destruct (p c); [| split; [now exists s | intros y []]].
      split; [now exists (String c s) | intros y []].
    + destruct IH as [(post & Hx) Hl]. destruct (p c).
      * split; [now exists (String c s) |].
        intros y [<- | Hy].
        -- exists (String c ""), post. cbn [append]. now rewrite <- Hx.
        -- destruct (Hl y Hy) as (pre & post' & E).
           exists (String c pre), post'. cbn [append]. now rewrite <- E.
      * split; [exists post; cbn [append]; now rewrite <- Hx |].
        intros y Hy. destruct (Hl y Hy) as (pre & post' & E).
        exists (String c pre), post'. cbn [append]. now rewrite <- E.
Qed.

Lemma split_on_piece (p : ascii -> bool) (s y : string) :
  In y (split_on p s) -> exists pre post, s = pre ++ y ++ post.
Proof.
  pose proof (split_on_pieces p s) as H.
  destruct (split_on p s) as [| x l]; [intros [] |].
  destruct H as [(post & Hx) Hl].
  intros [<- | Hy]; [now exists "", post | now apply Hl].
Qed.

Lemma join_piece (sep x : string) (l : list string) :
  In x l -> exists pre post, join sep l = pre ++ x ++ post.
Proof.
  induction l as [| y l IH]; [intros [] |].
  destruct l as [| z l].
  - intros [<- | []]. exists "", "". cbn [join append]. now rewrite app_nil_r.
  - change (join sep (y :: z :: l)) with (y ++ sep ++ join sep (z :: l)).
    intros [<- | H].
    + now exists "", (sep ++ join sep (z :: l)).
    + destruct (IH H) as (pre & post & ->).
      exists (y ++ sep ++ pre), post. now rewrite !app_assoc.
Qed.

Lemma alnum_select (q : ascii -> bool) (w : string) :
  List.forallb (fun c => implb (is_alnum c) (q c)) all_ascii = true ->
  forallb is_alnum w = true -> forallb q w = true.
Proof.
  intros Hq. apply forallb_impl. now apply ascii_implies.
Qed.

Lemma alnum_trim (pre t : string) :
  forallb plain pre = true -> forallb is_alnum t = true -> trim (pre ++ t) = pre ++ t.
Proof.
  intros Hpre Ht.
  assert (Hp : forallb plain (pre ++ t) = true).
  { rewrite forallb_app, Hpre. cbn [andb]. revert Ht. apply alnum_select.
    vm_compute. reflexivity. }
  destruct (pre ++ t) as [| c w]; [reflexivity |].
  apply trim_plain.
  - cbn [forallb] in Hp. now apply andb_true_iff in Hp.
  - apply ends_clear_all. revert Hp. apply forallb_impl.
    intros x Hx. now rewrite Hx.
Qed.

Lemma alnum_strip_tag_prefix (t : string) :
  forallb is_alnum t = true -> strip_tag_prefix t = t.
Proof.
  intros H. destruct t as [| a [| b [| c [| d r]]]]; try reflexivity.
  cbn [strip_tag_prefix].
  replace (String.eqb (toLowerCase (String a (String b (String c (String d ""))))) "tag:")
    with false; [reflexivity |].
  symmetry. apply String.eqb_neq. intros E.
  cbn [toLowerCase Str.map] in E. injection E as _ _ _ Ed.
  cbn [forallb] in H. apply andb_true_iff in H. destruct H as [_ H].
  apply andb_true_iff in H. destruct H as [_ H].
  apply andb_true_iff in H. destruct H as [_ H].
  apply andb_true_iff in H. destruct H as [Hd _].
  revert Hd Ed. generalize d. intros x.
  destruct x as [[] [] [] [] [] [] [] []]; intros Hx; try discriminate Hx;
    intros Ex; discriminate Ex.
Qed.

Section SearchFacts.
Variable toLowerCaseU : string -> string.
Variable normalizeNFD : string -> string.

Lemma filter_as_search (query : string) :
  exists keep : Bookmark -> bool,
    forall l, searchBookmarks toLowerCaseU normalizeNFD l query = List.filter keep l.
Proof.
  assert (Hall : forall l : list Bookmark, l = List.filter (fun _ => true) l).
  { induction l as [| x l IH]; cbn [List.filter]; [reflexivity | now f_equal]. }
  unfold searchBookmarks. cbv zeta.
  destruct (is_empty (trim query)); [exists (fun _ => true); exact Hall |].
  match goal with
  | |- context [if (List.length ?t =? 0)%nat then _ else _] =>
      destruct (List.length t =? 0)%nat
  end.
  - match goal with
    | |- context [if negb ?t then _ else _] => destruct (negb t)
    end.
    + exists (fun _ => true). exact Hall.
    + eexists. intros l. reflexivity.
  - eexists. intros l. reflexivity.
Qed.

Lemma filter_commute {A : Type} (p q : A -> bool) (l : list A) :
  List.filter p (List.filter q l) = List.filter q (List.filter p l).
Proof.
  induction l as [| x l IH]; [reflexivity |]. cbn [List.filter].
  destruct (p x) eqn:Hp, (q x) eqn:Hq; cbn [List.filter]; rewrite ?Hp, ?Hq, IH; reflexivity.
Qed.

Lemma filter_idem {A : Type} (p : A -> bool) (l : list A) :
  List.filter p (List.filter p l) = List.filter p l.
Proof.
  induction l as [| x l IH]; [reflexivity |]. cbn [List.filter].
  destruct (p x) eqn:Hp; cbn [List.filter]; rewrite ?Hp, IH; reflexivity.
Qed.

(** X19.  [searchBookmarks] judges every bookmark by itself: the result for
    two lists one after the other is made of the results for each,
    searching the result again with the same query changes nothing, and
    searching within a collection (page lines 174-178) gives the
    bookmarks of the collection among the results for all. *)
Theorem searchBookmarks_pointwise
        (a b : list Bookmark) (query : string) (inCollection : Bookmark -> bool) :
  searchBookmarks toLowerCaseU normalizeNFD (a ++ b) query
  = (searchBookmarks toLowerCaseU normalizeNFD a query
     ++ searchBookmarks toLowerCaseU normalizeNFD b query)%list
  /\ searchBookmarks toLowerCaseU normalizeNFD
       (searchBookmarks toLowerCaseU normalizeNFD a query) query
     = searchBookmarks toLowerCaseU normalizeNFD a query
  /\ searchBookmarks toLowerCaseU normalizeNFD (List.filter inCollection a) query
     = List.filter inCollection (searchBookmarks toLowerCaseU normalizeNFD a query).
Proof.
  destruct (filter_as_search query) as [keep Hkeep]. rewrite !Hkeep.
  split; [apply List.filter_app |]. split; [apply filter_idem | apply filter_commute].
Qed.

(** X20.  The text that [normalizeSearchText] returns is made of the letters
    [a] to [z], the digits and single spaces between them: it neither
    starts nor ends with a space and has no two spaces in a row.  The
    tokens that [searchBookmarks] makes of it (line 80) are therefore
    its words, and joined by spaces they give the text back. *)
Theorem normalizeSearchText_shape (value : string) :
  let text := normalizeSearchText toLowerCaseU normalizeNFD value in
  forallb is_text_char text = true
  /\ startsWith text " " = false
  /\ endsWith text " " = false
  /\ includes text "  " = false
  /\ join " " (split_tokens text) = text.
Proof.
  unfold normalizeSearchText.
  set (raw := collapse_other (remove_marks (normalizeNFD (toLowerCaseU value))) false).
  destruct (collapse_other_shape (remove_marks (normalizeNFD (toLowerCaseU value))) false)
    as (Hraw & Hsingle & _). fold raw in Hraw, Hsingle.
  rewrite (trim_text raw Hraw).
  set (mid := drop_while is_space raw).
  assert (Hmid : forallb is_text_char mid = true) by now apply forallb_drop_while.
  assert (Hmid1 : single_spaced mid = true) by now apply single_spaced_drop_while.
  assert (Hmid2 : stops is_space mid = true) by apply drop_while_stops_after.
  destruct (drop_while_end_prefix is_space mid) as [junk Hjunk].
  set (text := drop_while_end is_space mid) in *.
  assert (Htext : forallb is_text_char text = true).
  { apply (forallb_prefix _ text junk). now rewrite <- Hjunk. }
  assert (Htext1 : single_spaced text = true).
  { apply (single_spaced_prefix text junk). now rewrite <- Hjunk. }
  assert (Htext2 : stops is_space text = true) by now apply stops_drop_while_end.
  assert (Htext3 : ends_clear is_space text) by apply drop_while_end_idem.
  cbv zeta. split; [exact Htext |]. split; [now apply stops_startsWith |].
  split; [| split; [now apply single_spaced_includes |]].
  - unfold endsWith. destruct text as [| c r] eqn:Et; [reflexivity |].
    destruct (rev_ends_clear is_space (String c r)) as (x & y & Hr & Hx);
      [discriminate | exact Htext3 |].
    rewrite Hr. cbn [rev rev_onto prefixb]. rewrite Ascii.eqb_sym.
    unfold is_space in Hx. now rewrite Hx.
  - unfold split_tokens. destruct text as [| c r] eqn:Et; [reflexivity |].
    rewrite <- Et in *.
    assert (Hne : text <> "") by (rewrite Et; discriminate).
    pose proof (split_pieces text Htext Htext1 Htext3 Hne) as Hp.
    pose proof (join_split text Htext) as Hj.
    destruct (split_on ws1 text) as [| x l]; [contradiction |].
    destruct Hp as [Hl Hx]. specialize (Hx Htext2).
    replace (List.filter (fun t => negb (is_empty t)) (x :: l)) with (x :: l); [exact Hj |].
    symmetry. apply List.forallb_filter_id. cbn [List.forallb].
    now rewrite andb_true_iff.
Qed.

Lemma tokens_included (q text : string) :
  (exists pre post, text = pre ++ q ++ post) ->
  List.forallb (fun token => includes text token) (split_tokens q) = true.
Proof.
  intros Hq. apply List.forallb_forall. intros token Ht.
  unfold split_tokens in Ht. apply List.filter_In in Ht. destruct Ht as [Ht _].
  apply split_on_piece in Ht.
  destruct (piece_trans _ _ _ Ht Hq) as (pre & post & ->).
  apply includes_middle.
Qed.

(** X21.  A query that is not a tag query finds every bookmark of which it
    is, white space around it apart, the title, the URL, the
    description or one of the tags. *)
Theorem searchBookmarks_finds_field
        (bookmarks : list Bookmark) (query : string) (b : Bookmark) :
  In b bookmarks ->
  startsWith (trim query) "#" = false ->
  startsWith (toLowerCaseU (trim query)) "tag:" = false ->
  title b = trim query \/ url b = trim query \/ description b = trim query
  \/ In (trim query) (nullish (tags b) []) ->
  In b (searchBookmarks toLowerCaseU normalizeNFD bookmarks query).
Proof.
  intros Hb Hh Ht Hfield. unfold searchBookmarks. cbv zeta.
  destruct (is_empty (trim query)); [exact Hb |].
  rewrite Hh, Ht. cbn [orb negb].
  set (N := normalizeSearchText toLowerCaseU normalizeNFD).
  destruct (List.length (split_tokens (N (trim query))) =? 0)%nat eqn:Hlen; [exact Hb |].
  apply List.filter_In. split; [exact Hb |].
  set (combined := join " " [N (title b); N (url b); N (description b);
                             join " " (List.map N (nullish (tags b) []))]).
  assert (Hpiece : exists pre post, combined = pre ++ N (trim query) ++ post).
  { destruct Hfield as [E | [E | [E | Hin]]].
    - apply join_piece. rewrite E. now left.
    - apply join_piece. rewrite E. right. now left.
    - apply join_piece. rewrite E. right. right. now left.
    - apply (piece_trans _ (join " " (List.map N (nullish (tags b) [])))).
      + apply join_piece. now apply List.in_map.
      + apply join_piece. right. right. right. now left. }
  unfold matchesTokens. rewrite Hlen.
  now rewrite (tokens_included _ _ Hpiece).
Qed.

(** X22.  A query made of [#] and a tag of ASCII letters and digits finds
    every bookmark that carries this tag. *)
Theorem searchBookmarks_finds_tag
        (bookmarks : list Bookmark) (tag : string) (b : Bookmark) :
  In b bookmarks ->
  is_empty tag = false -> forallb is_alnum tag = true ->
  In tag (nullish (tags b) []) ->
  In b (searchBookmarks toLowerCaseU normalizeNFD bookmarks ("#" ++ tag)).
Proof.
  intros Hb Hne Htag Hin. unfold searchBookmarks. cbv zeta.
  rewrite (alnum_trim "#" tag eq_refl Htag).
  cbn [append is_empty startsWith prefixb Ascii.eqb Bool.eqb orb andb drop_while].
  assert (Hdrop : drop_while (Ascii.eqb "#") tag = tag).
  { apply drop_while_stops. destruct tag as [| c r]; [reflexivity |].
    cbn [stops]. cbn [forallb] in Htag. apply andb_true_iff in Htag.
    destruct Htag as [Hc _]. rewrite Ascii.eqb_sym.
    apply (ascii_implies is_alnum (fun x => negb (Ascii.eqb x "#")));
      [vm_compute; reflexivity | exact Hc]. }
  rewrite Hdrop, (alnum_strip_tag_prefix tag Htag).
  pose proof (alnum_trim "" tag eq_refl Htag) as Htrim. cbn [append] in Htrim.
  rewrite Htrim. cbn [negb].
  set (N := normalizeSearchText toLowerCaseU normalizeNFD).
  destruct (List.length (split_tokens (N tag)) =? 0)%nat eqn:Hlen.
  - apply List.filter_In. split; [exact Hb |].
    destruct (nullish (tags b) []); [destruct Hin | reflexivity].
  - apply List.filter_In. split; [exact Hb |].
    unfold matchesTokens. rewrite Hlen.
    apply tokens_included. apply join_piece. now apply List.in_map.
Qed.

End SearchFacts.

Lemma searchBookmarks_finds_field_witness :
  let b := mkBookmark "1" "https://example.com/" "Weekly News" "" None None
                      (Some ["news"]) "default" (Some 1%Z) (Some 2%Z) in
  In b (searchBookmarks toLowerCase (fun s => s) [b] " Weekly News ").
Proof.
  intros b.
  apply (searchBookmarks_finds_field toLowerCase (fun s => s) [b] " Weekly News " b);
    [now left | reflexivity | reflexivity | now left].
Defined.

Lemma searchBookmarks_finds_tag_witness :
  let b := mkBookmark "1" "https://example.com/" "Weekly" "" None None
                      (Some ["news"; "Q3"]) "default" (Some 1%Z) (Some 2%Z) in
  In b (searchBookmarks toLowerCase (fun s => s) [b] "#Q3").
Proof.
  intros b.
  apply (searchBookmarks_finds_tag toLowerCase (fun s => s) [b] "Q3" b);
    [now left | reflexivity | reflexivity | right; now left].
Defined.

(* ================================================================== *)
(** * Further properties: likely URLs, domains, keys *)
(* ================================================================== *)


Lemma forallb_suffix_of (q : ascii -> bool) (a b : string) :
  forallb q (a ++ b) = true -> forallb q b = true.
Proof. rewrite forallb_app. intros H. now apply andb_true_iff in H. Qed.

Lemma forallb_filter_keeps (q p : ascii -> bool) (s : string) :
  forallb q s = true -> forallb q (filter p s) = true.
Proof.
  induction s as [| c s IH]; [reflexivity |].
  cbn [forallb filter]. intros H. apply andb_true_iff in H. destruct H as [Hc Hs].
  destruct (p c); [cbn [forallb]; now rewrite Hc, IH | now apply IH].
Qed.

Lemma forallb_drop_while_end (q p : ascii -> bool) (s : string) :
  forallb q s = true -> forallb q (drop_while_end p s) = true.
Proof.
  intros H. destruct (drop_while_end_prefix p s) as [junk E].
  rewrite E in H. exact (forallb_prefix _ _ _ H).
Qed.

(** The opaque path of a parsed URL has only characters of the input
    and characters that percent encoding writes. *)
Lemma opaque_path_chars (q : ascii -> bool) (s : string) (u : URL) (p : string) :
  escapes q -> forallb q s = true ->
  basic_parse s = Some u -> path u = Opaque p -> forallb q p = true.
Proof.
  intros Hq Hs. unfold basic_parse.
  assert (H1 : forallb q (remove_tab_newline (strip_c0_space s)) = true).
  { apply forallb_filter_keeps. unfold strip_c0_space.
    apply forallb_drop_while_end. now apply forallb_drop_while. }
  set (s1 := remove_tab_newline (strip_c0_space s)) in *.
  destruct (split_scheme s1) as [[sch rest] |] eqn:Hsplit; [| discriminate].
  assert (Hrest : forallb q rest = true).
  { unfold split_scheme in Hsplit. destruct s1 as [| c s1']; [discriminate |].
    destruct (is_alpha c); [| discriminate].
    destruct (span is_scheme_char (String c s1')) as [a b] eqn:Hspan.
    destruct (span_spec _ _ _ _ Hspan) as (E & _ & _).
    destruct b as [| d b]; [discriminate |].
    destruct (Ascii.eqb_spec d ":") as [-> | Hne].
    - injection Hsplit as _ <-. rewrite E in H1.
      apply forallb_suffix_of in H1. cbn [forallb] in H1.
      now apply andb_true_iff in H1.
    - exfalso. revert Hsplit. clear - Hne.
      destruct d as [[] [] [] [] [] [] [] []]; try discriminate. congruence. }
  destruct (cut "#" rest) as [rest1 frag] eqn:Hc1.
  destruct (cut "?" rest1) as [main qry] eqn:Hc2.
  destruct (cut_spec _ _ _ _ Hc1) as [_ E1]. destruct (cut_spec _ _ _ _ Hc2) as [_ E2].
  assert (Hmain : forallb q main = true).
  { rewrite E1 in Hrest. apply forallb_prefix in Hrest.
    rewrite E2 in Hrest. now apply forallb_prefix in Hrest. }
  destruct (String.eqb sch "file"); [discriminate |].
  destruct (parse_hierarchy sch main) as [[[[[user pass] hst] prt] pth] |] eqn:Hh;
    [| discriminate].
  intros E Hp. injection E as <-. cbn [path] in Hp. subst pth.
  unfold parse_hierarchy in Hh.
  assert (Hauth : forall after, parse_with_authority sch after
                                <> Some (user, pass, hst, prt, Opaque p)).
  { intros after. unfold parse_with_authority.
    destruct (span _ after) as [auth pp].
    destruct (parse_authority sch auth) as [[[[? ?] ?] ?] |]; congruence. }
  destruct (is_special_scheme sch); [now apply Hauth in Hh |].
  destruct (strip_prefix "//" main); [now apply Hauth in Hh |].
  destruct (strip_prefix "/" main); [discriminate |].
  injection Hh as _ _ _ _ <-. now apply percent_encode_keeps.
Qed.

Lemma no_chars_no_space (set : ascii -> bool) (s : string) :
  set " "%char = true -> no_chars set s = true -> forallb no_space s = true.
Proof.
  intros Hset. unfold no_chars. apply forallb_impl. intros c Hc. unfold no_space.
  destruct (Ascii.eqb_spec c " ") as [-> | _]; [| reflexivity].
  now rewrite Hset in Hc.
Qed.

Lemma serialize_no_space (u : URL) :
  wf_url u = true ->
  (forall p, path u = Opaque p -> forallb no_space p = true) ->
  forallb no_space (serialize u) = true.
Proof.
  intros Hw Hop. destruct (wf_url_elim _ Hw) as (Hs & Ha & Hp & Hq & Hf).
  assert (A1 : forallb no_space (scheme u) = true).
  { unfold wf_scheme in Hs. apply andb_true_iff in Hs. destruct Hs as [Hs _].
    apply andb_true_iff in Hs. destruct Hs as [_ Hs].
    revert Hs. apply forallb_impl. apply ascii_implies. vm_compute. reflexivity. }
  assert (A2 : forallb no_space (serialize_hierarchy u) = true).
  { destruct (has_opaque_path u) eqn:Ho.
    - unfold has_opaque_path in Ho. unfold serialize_hierarchy.
      unfold wf_path in Hp.
      destruct (path u) as [p | l] eqn:Epath; [| discriminate].
      apply andb_true_iff in Hp. destruct Hp as [Hp _].
      apply andb_true_iff in Hp. destruct Hp as [Hp _].
      apply andb_true_iff in Hp. destruct Hp as [Hp _].
      apply andb_true_iff in Hp. destruct Hp as [Hp _].
      apply andb_true_iff in Hp. destruct Hp as [_ Hp].
      destruct (host u); [discriminate |]. cbn [serialize_path].
      now apply Hop.
    - destruct (hierarchy_chars u Hw) as (_ & _ & Hplain). specialize (Hplain Ho).
      revert Hplain. apply forallb_impl. apply ascii_implies. vm_compute. reflexivity. }
  assert (A3 : forallb no_space (query_string (query u)) = true).
  { unfold wf_query in Hq. destruct (query u) as [q |]; [| reflexivity].
    cbn [query_string append forallb]. apply andb_true_iff. split; [reflexivity |].
    destruct (is_special u); revert Hq; apply no_chars_no_space; reflexivity. }
  assert (A4 : forallb no_space (fragment_string (fragment u)) = true).
  { unfold wf_fragment in Hf. destruct (fragment u) as [f |]; [| reflexivity].
    cbn [fragment_string append forallb]. apply andb_true_iff. split; [reflexivity |].
    revert Hf. apply no_chars_no_space. reflexivity. }
  rewrite serialize_unfold, !forallb_app, A1, A2, A3, A4. reflexivity.
Qed.

Lemma delete_opaque_path (name : string) (o : URLObject) (p : string) :
  path (record (searchParams_delete name o)) = Opaque p ->
  exists p0, path (record o) = Opaque p0
             /\ (p = p0 \/ p = drop_while_end is_space p0).
Proof.
  unfold searchParams_delete, update_query, strip_opaque_path, strip_trailing_spaces.
  cbn [record].
  destruct (urlencoded_serialize _); cbn [set_query path fragment query].
  - destruct (path (record o)) as [p0 | l] eqn:Ep; destruct (fragment (record o));
      cbn [set_path set_query path]; intros E; rewrite ?Ep in E; try discriminate E;
      injection E as <-; eauto.
  - intros E. eauto.
Qed.

Lemma includes_space_false (s : string) :
  includes s " " = false -> forallb no_space s = true.
Proof.
  induction s as [| c s IH]; [reflexivity |].
  cbn [includes prefixb forallb]. rewrite andb_true_r.
  unfold no_space at 1. rewrite (Ascii.eqb_sym c " ").
  destruct (Ascii.eqb " " c); [intros H; discriminate H |]. cbn [andb negb]. exact IH.
Qed.

(** X5.  What [stripRefParam] makes of a value that [isLikelyUrl] accepts is
    accepted by [isLikelyUrl] in its turn, as is what [normalizeUrl]
    makes of the trimmed value. *)
Theorem isLikelyUrl_of_stored (v : string) :
  isLikelyUrl v = Returns true ->
  (r <- stripRefParam v ;; isLikelyUrl r) = Returns true
  /\ (r <- normalizeUrl (trim v) ;; isLikelyUrl r) = Returns true.
Proof.
  intros Hv. destruct (isLikelyUrl_reads _ Hv) as [o Hread].
  assert (Hclean : forallb no_space (with_scheme (trim v)) = true).
  { unfold isLikelyUrl in Hv. destruct (is_empty v); [discriminate |]. cbv zeta in Hv.
    destruct (includes (trim v) " ") eqn:Hi; [discriminate |].
    apply includes_space_false in Hi. unfold with_scheme.
    destruct (startsWith (trim v) "http"); [exact Hi |].
    rewrite forallb_app. now rewrite Hi. }
  pose proof (reads_wf _ _ Hread) as Hw.
  pose proof (reads_scheme _ _ Hread) as Hs.
  assert (Hpath : forall p, path (record o) = Opaque p -> forallb no_space p = true).
  { intros p Hp.
    apply (opaque_path_chars no_space (with_scheme (trim v)) (record o) p eq_refl Hclean);
      [| exact Hp].
    now apply URL_new_record. }
  assert (Haccept : forall o', wf_object o' ->
             startsWith (scheme (record o')) "http" = true ->
             (forall p, path (record o') = Opaque p -> forallb no_space p = true) ->
             isLikelyUrl (href o') = Returns true).
  { intros o' Hw' Hs' Hp'. unfold isLikelyUrl.
    destruct (href_trim _ Hw') as [Ht He]. rewrite He. cbv zeta. rewrite Ht.
    rewrite (includes_char_false no_space " " (href o'));
      [| exact (serialize_no_space _ (proj1 Hw') Hp') | reflexivity].
    rewrite (href_http _ Hs'). now rewrite (URL_new_href _ Hw'). }
  split.
  - rewrite (stripRefParam_reads _ _ Hread). cbn [bind]. apply Haccept.
    + now apply searchParams_delete_wf.
    + now rewrite delete_scheme.
    + intros p Hp. destruct (delete_opaque_path _ _ _ Hp) as (p0 & Hp0 & [-> | ->]).
      * now apply Hpath.
      * apply forallb_drop_while_end. now apply Hpath.
  - rewrite (normalizeUrl_reads _ _ Hread). cbn [bind]. now apply Haccept.
Qed.

Lemma isLikelyUrl_of_stored_witness :
  isLikelyUrl " Example.com/a b " = Returns false
  /\ isLikelyUrl "mailto:a@b.c?ref=x" = Returns true
  /\ (r <- stripRefParam "mailto:a@b.c?ref=x" ;; isLikelyUrl r) = Returns true.
Proof.
  split; [reflexivity |]. split; [reflexivity |].
  exact (proj1 (isLikelyUrl_of_stored "mailto:a@b.c?ref=x" eq_refl)).
Defined.

Lemma delete_hostname (name : string) (o : URLObject) :
  hostname (searchParams_delete name o) = hostname o.
Proof.
  unfold hostname, searchParams_delete, update_query, strip_opaque_path. cbn [record].
  destruct (urlencoded_serialize _); [| reflexivity].
  cbn [set_query path fragment query].
  destruct (path (record o)); destruct (fragment (record o)); reflexivity.
Qed.

Lemma getDomainFromUrl_href (o : URLObject) :
  wf_object o ->
  getDomainFromUrl (href o) = Returns (replace_first "www." (hostname o)).
Proof.
  intros Hw. unfold getDomainFromUrl. now rewrite (URL_new_href _ Hw).
Qed.

(** X8.  [getDomainFromUrl] never throws: it answers the empty string for a
    string that is no URL.  For the URL that [normalizeUrl] or
    [stripRefParam] makes of an input, it answers the host name of the
    input as [normalizeUrl] reads it, without its first [www.]. *)
Theorem getDomainFromUrl_of_stored (x : string) :
  (exists d, getDomainFromUrl x = Returns d)
  /\ ((exists e, URL_new x = Throws e) -> getDomainFromUrl x = Returns "")
  /\ (forall o, reads_as x o ->
                (u <- normalizeUrl (trim x) ;; getDomainFromUrl u)
                = Returns (replace_first "www." (hostname o))
                /\ (u <- stripRefParam x ;; getDomainFromUrl u)
                   = Returns (replace_first "www." (hostname o))).
Proof.
  split; [unfold getDomainFromUrl; apply try_catch_returns |].
  split; [intros [e He]; unfold getDomainFromUrl; now rewrite He |].
  intros o Hread. pose proof (reads_wf _ _ Hread) as Hw. split.
  - rewrite (normalizeUrl_reads _ _ Hread). cbn [bind]. now apply getDomainFromUrl_href.
  - rewrite (stripRefParam_reads _ _ Hread). cbn [bind].
    rewrite getDomainFromUrl_href by now apply searchParams_delete_wf.
    now rewrite delete_hostname.
Qed.

Lemma getDomainFromUrl_of_stored_witness :
  reads_as " www.Example.com/a?ref=1 "
           (mkObject (mkURL "https" "" "" (Some "www.example.com") None (Segments ["a"])
                            (Some "ref=1") None) [("ref", "1")])
  /\ (u <- stripRefParam " www.Example.com/a?ref=1 " ;; getDomainFromUrl u)
     = Returns "example.com".
Proof.
  assert (H : reads_as " www.Example.com/a?ref=1 "
                (mkObject (mkURL "https" "" "" (Some "www.example.com") None (Segments ["a"])
                                 (Some "ref=1") None) [("ref", "1")]))
    by reflexivity.
  split; [exact H |].
  exact (proj2 (proj2 (proj2 (getDomainFromUrl_of_stored " www.Example.com/a?ref=1 ")) _ H)).
Defined.

Lemma delete_fields (name : string) (o : URLObject) :
  let o' := searchParams_delete name o in
  scheme (record o') = scheme (record o)
  /\ username (record o') = username (record o)
  /\ password (record o') = password (record o)
  /\ host (record o') = host (record o)
  /\ port (record o') = port (record o)
  /\ fragment (record o') = fragment (record o)
  /\ (has_opaque_path (record o) = false -> path (record o') = path (record o)).
Proof.
  unfold searchParams_delete, update_query, strip_opaque_path, has_opaque_path.
  cbv zeta. cbn [record].
  destruct (urlencoded_serialize _); cbn [set_query path fragment query].
  - destruct (path (record o)) eqn:Ep; destruct (fragment (record o)) eqn:Ef;
      cbn [set_path set_query scheme username password host port fragment path];
      rewrite ?Ep, ?Ef; repeat split; auto; discriminate.
  - repeat split; auto.
Qed.

(** X2.  [stripRefParam] on a string that [normalizeUrl] reads as a URL:
    the result is a URL again, with the parameters of the query other
    than [ref] in their order and with the same scheme, credentials,
    host, port and fragment, and, the URLs with an opaque path apart,
    the same path. *)
Theorem stripRefParam_only_ref (x : string) (o : URLObject) :
  reads_as x o ->
  exists r o',
    stripRefParam x = Returns r
    /\ URL_new r = Returns o'
    /\ params o' = List.filter (fun nv => negb (String.eqb (fst nv) "ref")) (params o)
    /\ scheme (record o') = scheme (record o)
    /\ username (record o') = username (record o)
    /\ password (record o') = password (record o)
    /\ host (record o') = host (record o)
    /\ port (record o') = port (record o)
    /\ fragment (record o') = fragment (record o)
    /\ (has_opaque_path (record o) = false -> path (record o') = path (record o)).
Proof.
  intros Hread. exists (href (searchParams_delete "ref" o)), (searchParams_delete "ref" o).
  split; [exact (stripRefParam_reads _ _ Hread) |].
  split; [apply URL_new_href, searchParams_delete_wf; exact (reads_wf _ _ Hread) |].
  split; [reflexivity |]. apply (delete_fields "ref" o).
Qed.

Lemma stripRefParam_only_ref_witness :
  reads_as "example.com/a?x=1&ref=me&y=2#top"
           (mkObject (mkURL "https" "" "" (Some "example.com") None (Segments ["a"])
                            (Some "x=1&ref=me&y=2") (Some "top"))
                     [("x", "1"); ("ref", "me"); ("y", "2")])
  /\ exists r o',
       stripRefParam "example.com/a?x=1&ref=me&y=2#top" = Returns r
       /\ URL_new r = Returns o'
       /\ params o' = [("x", "1"); ("y", "2")].
Proof.
  assert (H : reads_as "example.com/a?x=1&ref=me&y=2#top"
                (mkObject (mkURL "https" "" "" (Some "example.com") None (Segments ["a"])
                                 (Some "x=1&ref=me&y=2") (Some "top"))
                          [("x", "1"); ("ref", "me"); ("y", "2")]))
    by reflexivity.
  split; [exact H |].
  destruct (stripRefParam_only_ref _ _ H) as (r & o' & H1 & H2 & H3 & _).
  exists r, o'. auto.
Defined.

(** X3.  The key of a string that [normalizeUrl] reads as a URL is a URL
    again: it has no fragment; of the parameters of the query it has
    those that are neither [ref] nor start with [utm_], in their
    order; scheme, credentials and port are those of the URL read. *)
Theorem canonicalize_key_shape (x : string) (o : URLObject) :
  reads_as x o ->
  exists k o',
    canonicalize x = Returns k
    /\ URL_new k = Returns o'
    /\ fragment (record o') = None
    /\ params o' = kept_params o
    /\ (forall key, In key (searchParams_keys o') -> tracking key = false)
    /\ scheme (record o') = scheme (record o)
    /\ username (record o') = username (record o)
    /\ password (record o') = password (record o)
    /\ port (record o') = port (record o).
Proof.
  intros Hread. exists (href (canon_form o)), (canon_form o).
  split; [exact (canonicalize_reads _ _ Hread) |].
  split; [apply URL_new_href, canon_form_wf; exact (reads_wf _ _ Hread) |].
  destruct (canon_form_fields o) as (Hs & Hu & Hp & _ & Ht).
  split.
  { unfold canon_form. cbv zeta. cbn [record set_path fragment].
    fold (canon_record o). now destruct (canon_record_fields o) as (_ & _ & _ & _ & _ & Hf & _). }
  split; [reflexivity |]. split; [| auto].
  intros key Hkey. unfold searchParams_keys in Hkey. apply in_map_iff in Hkey.
  destruct Hkey as [[k v] [<- Hin]]. change (params (canon_form o)) with (kept_params o) in Hin.
  unfold kept_params in Hin. apply List.filter_In in Hin. destruct Hin as [_ Hin].
  now apply negb_true_iff in Hin.
Qed.

Lemma canonicalize_key_shape_witness :
  reads_as "https://www.example.com/a/?utm_source=n&x=1&ref=me&UTM_id=7#top"
           (mkObject (mkURL "https" "" "" (Some "www.example.com") None (Segments ["a"; ""])
                            (Some "utm_source=n&x=1&ref=me&UTM_id=7") (Some "top"))
                     [("utm_source", "n"); ("x", "1"); ("ref", "me"); ("UTM_id", "7")])
  /\ exists k o',
       canonicalize "https://www.example.com/a/?utm_source=n&x=1&ref=me&UTM_id=7#top"
       = Returns k
       /\ URL_new k = Returns o'
       /\ fragment (record o') = None
       /\ params o' = [("x", "1")].
Proof.
  assert (H : reads_as "https://www.example.com/a/?utm_source=n&x=1&ref=me&UTM_id=7#top"
           (mkObject (mkURL "https" "" "" (Some "www.example.com") None (Segments ["a"; ""])
                            (Some "utm_source=n&x=1&ref=me&UTM_id=7") (Some "top"))
                     [("utm_source", "n"); ("x", "1"); ("ref", "me"); ("UTM_id", "7")]))
    by reflexivity.
  split; [exact H |].
  destruct (canonicalize_key_shape _ _ H) as (k & o' & H1 & H2 & H3 & H4 & _).
  exists k, o'. auto.
Defined.

(* ================================================================== *)
(** * Further properties: deduplication *)
(* ================================================================== *)


Lemma get_set_same {V : Type} (k : string) (v : V) (m : JSMap.t V) :
  JSMap.get k (JSMap.set k v m) = Some v.
Proof.
  induction m as [| [k' v'] m IH]; cbn [JSMap.set JSMap.get].
  - now rewrite String.eqb_refl.
  - destruct (String.eqb_spec k k') as [-> | Hne]; cbn [JSMap.get].
    + now rewrite String.eqb_refl.
    + destruct (String.eqb_spec k k'); [contradiction | exact IH].
Qed.

Lemma get_set_other {V : Type} (k k0 : string) (v : V) (m : JSMap.t V) :
  k0 <> k -> JSMap.get k0 (JSMap.set k v m) = JSMap.get k0 m.
Proof.
  intros Hne. induction m as [| [k' v'] m IH]; cbn [JSMap.set JSMap.get].
  - destruct (String.eqb_spec k0 k); [contradiction | reflexivity].
  - destruct (String.eqb_spec k k') as [-> | Hne']; cbn [JSMap.get].
    + destruct (String.eqb_spec k0 k'); [contradiction | reflexivity].
    + destruct (String.eqb_spec k0 k'); [reflexivity | exact IH].
Qed.

Lemma get_In {V : Type} (k : string) (v : V) (m : JSMap.t V) :
  JSMap.get k m = Some v -> In (k, v) m.
Proof.
  induction m as [| [k' v'] m IH]; cbn [JSMap.get]; [discriminate |].
  destruct (String.eqb_spec k k') as [-> | Hne].
  - intros H. injection H as ->. now left.
  - intros H. right. now apply IH.
Qed.

Lemma stored_in_default (now : nat -> Z) (tick : nat) (b : Bookmark) (k : string) :
  in_default (fst (stored now tick b k)) = in_default b.
Proof.
  unfold in_default.
  destruct (stored_payload now tick b k) as (_ & _ & _ & _ & _ & _ & ->). reflexivity.
Qed.

(** The loop keeps, for every key, an entry once there is one, and an
    entry outside the default collection once it has seen a bookmark
    outside of it under that key. *)
Lemma dedupe_loop_keeps (now : nat -> Z) (bookmarks : list Bookmark) :
  forall byUrl tick r,
    dedupe_loop now bookmarks byUrl tick = Returns r ->
    (forall k v, JSMap.get k byUrl = Some v ->
                 exists v', JSMap.get k (fst r) = Some v'
                            /\ (in_default v = false -> in_default v' = false))
    /\ (forall b, In b bookmarks ->
                  exists v', JSMap.get (canonical_key (url b)) (fst r) = Some v'
                             /\ (in_default b = false -> in_default v' = false)).
Proof.
  induction bookmarks as [| b rest IH]; intros byUrl tick r Hrun; cbn [dedupe_loop] in Hrun.
  - injection Hrun as <-. cbn [fst]. split; [eauto | intros b []].
  - rewrite canonicalize_returns in Hrun. cbn [bind] in Hrun.
    set (k := canonical_key (url b)) in *.
    destruct (preferIncoming (JSMap.get k byUrl) b) eqn:Hpref.
    + destruct (stored now tick b k) as [b' tick'] eqn:Hst.
      assert (Hb' : in_default b' = in_default b).
      { replace b' with (fst (stored now tick b k)) by now rewrite Hst.
        apply stored_in_default. }
      destruct (IH _ _ _ Hrun) as [Hmap Hrest]. split.
      * intros k0 v Hget. destruct (String.eqb_spec k0 k) as [-> | Hne].
        -- destruct (Hmap k b' (get_set_same k b' byUrl)) as (v' & Hv' & Hd).
           exists v'. split; [exact Hv' |]. intros Hv. apply Hd. rewrite Hb'.
           unfold preferIncoming in Hpref. rewrite Hget in Hpref.
           fold (in_default v) in Hpref. fold (in_default b) in Hpref.
           rewrite Hv in Hpref. cbn [andb orb] in Hpref.
           destruct (in_default b); [discriminate | reflexivity].
        -- apply Hmap. now rewrite get_set_other.
      * intros b0 [<- | H0]; [| now apply Hrest].
        destruct (Hmap k b' (get_set_same k b' byUrl)) as (v' & Hv' & Hd).
        exists v'. split; [exact Hv' |]. intros Hb. apply Hd. now rewrite Hb'.
    + destruct (IH _ _ _ Hrun) as [Hmap Hrest]. split; [exact Hmap |].
      intros b0 [<- | H0]; [| now apply Hrest].
      unfold preferIncoming in Hpref.
      destruct (JSMap.get k byUrl) as [e |] eqn:Hget; [| discriminate].
      destruct (Hmap k e Hget) as (v' & Hv' & Hd).
      exists v'. split; [exact Hv' |]. intros Hb. apply Hd.
      fold (in_default e) in Hpref. fold (in_default b) in Hpref.
      rewrite Hb in Hpref. cbn [negb] in Hpref. rewrite andb_true_r in Hpref.
      destruct (in_default e); [discriminate | reflexivity].
Qed.

(** X10.  [dedupeBookmarks] drops no URL: the key of every bookmark of the
    input is the [url] of a record of the output, and when the bookmark is
    outside the default collection so is that record, whatever the
    order and the timestamps of the bookmarks that share its key. *)
Theorem dedupe_keeps_every_key
        (now : nat -> Z) (tick : nat) (bookmarks out : list Bookmark) (b : Bookmark) :
  dedupeBookmarks now tick bookmarks = Returns out ->
  In b bookmarks ->
  exists r, In r out
            /\ canonicalize (url b) = Returns (url r)
            /\ (in_default b = false -> in_default r = false).
Proof.
  unfold dedupeBookmarks. intros Hrun Hb.
  destruct (dedupe_loop now bookmarks (JSMap.empty Bookmark) tick) as [[m t] | e] eqn:Hl;
    cbn [bind fst] in Hrun; [| discriminate].
  injection Hrun as <-.
  destruct (dedupe_loop_keeps _ _ _ _ _ Hl) as [_ Hkeep].
  destruct (Hkeep b Hb) as (v & Hv & Hd). cbn [fst] in Hv.
  apply get_In in Hv.
  destruct (@dedupe_loop_invariant now bookmarks _ _ _ Hl) as (_ & _ & Hfrom); [constructor |].
  exists v. split; [| split].
  - unfold JSMap.values. apply in_map_iff. exists (canonical_key (url b), v). auto.
  - rewrite canonicalize_returns. f_equal.
    destruct (Hfrom _ _ Hv) as [[] | (b0 & n & _ & _ & ->)].
    now rewrite stored_url.
  - exact Hd.
Qed.

Lemma dedupe_keeps_every_key_witness :
  let now := fun _ : nat => 0%Z in
  let a := mkBookmark "1" "http://a.com" "A" "" None None None "default"
                      (Some 9%Z) (Some 9%Z) in
  let b := mkBookmark "2" "http://www.a.com/?ref=z" "B" "" None None None "work"
                      (Some 1%Z) (Some 1%Z) in
  let c := mkBookmark "3" "http://a.com/#top" "C" "" None None None "default"
                      (Some 5%Z) (Some 5%Z) in
  exists r, In r [mkBookmark "2" "http://a.com/" "B" "" None None None "work"
                             (Some 1%Z) (Some 1%Z)]
            /\ canonicalize (url b) = Returns (url r)
            /\ (in_default b = false -> in_default r = false).
Proof.
  intros now a b c.
  apply (dedupe_keeps_every_key now 0%nat [a; b; c]).
  - vm_compute. reflexivity.
  - right. now left.
Defined.

Lemma first_seen_ext (l : list string) :
  forall seen seen',
    (forall k, List.existsb (String.eqb k) seen = List.existsb (String.eqb k) seen') ->
    first_seen seen l = first_seen seen' l.
Proof.
  induction l as [| k l IH]; intros seen seen' H; cbn [first_seen]; [reflexivity |].
  rewrite <- (H k). destruct (List.existsb (String.eqb k) seen); [now apply IH |].
  f_equal. apply IH. intros k0. cbn [List.existsb]. now rewrite H.
Qed.

Lemma get_keys {V : Type} (k : string) (m : JSMap.t V) :
  List.existsb (String.eqb k) (JSMap.keys m)
  = match JSMap.get k m with Some _ => true | None => false end.
Proof.
  induction m as [| [k' v'] m IH]; cbn [JSMap.keys JSMap.get List.map List.existsb fst];
    [reflexivity |].
  destruct (String.eqb k k'); [reflexivity | exact IH].
Qed.

Lemma set_keys_present {V : Type} (k : string) (v : V) (m : JSMap.t V) :
  JSMap.get k m <> None -> JSMap.keys (JSMap.set k v m) = JSMap.keys m.
Proof.
  induction m as [| [k' v'] m IH]; cbn [JSMap.get JSMap.set]; [congruence |].
  destruct (String.eqb k k'); [reflexivity |].
  intros H. cbn [JSMap.keys List.map fst]. f_equal. now apply IH.
Qed.

Lemma set_fresh {V : Type} (k : string) (v : V) (m : JSMap.t V) :
  JSMap.get k m = None -> JSMap.set k v m = (m ++ [(k, v)])%list.
Proof.
  induction m as [| [k' v'] m IH]; cbn [JSMap.get JSMap.set]; [reflexivity |].
  destruct (String.eqb k k'); [discriminate |].
  intros H. cbn [List.app]. f_equal. now apply IH.
Qed.

Lemma dedupe_loop_keys (now : nat -> Z) (bookmarks : list Bookmark) :
  forall byUrl tick r,
    dedupe_loop now bookmarks byUrl tick = Returns r ->
    JSMap.keys (fst r)
    = (JSMap.keys byUrl ++ first_seen (JSMap.keys byUrl) (keys_of bookmarks))%list.
Proof.
  induction bookmarks as [| b rest IH]; intros byUrl tick r Hrun; cbn [dedupe_loop] in Hrun.
  - injection Hrun as <-. cbn [fst keys_of List.map first_seen]. now rewrite List.app_nil_r.
  - rewrite canonicalize_returns in Hrun. cbn [bind] in Hrun.
    cbn [keys_of List.map first_seen]. fold (keys_of rest).
    set (k := canonical_key (url b)) in *. rewrite get_keys.
    destruct (JSMap.get k byUrl) as [e |] eqn:Hget.
    + assert (Hsame : forall v, JSMap.keys (JSMap.set k v byUrl) = JSMap.keys byUrl).
      { intros v. apply set_keys_present. congruence. }
      destruct (preferIncoming (Some e) b).
      * destruct (stored now tick b k) as [b' tick'].
        rewrite (IH _ _ _ Hrun). now rewrite Hsame.
      * exact (IH _ _ _ Hrun).
    + cbn [preferIncoming] in Hrun.
      destruct (stored now tick b k) as [b' tick'].
      rewrite (IH _ _ _ Hrun). rewrite (set_fresh k b' byUrl Hget).
      unfold JSMap.keys at 1 2. rewrite List.map_app. cbn [List.map fst].
      rewrite <- List.app_assoc. cbn [List.app]. do 2 f_equal.
      apply first_seen_ext. intros k0.
      rewrite List.existsb_app. cbn [List.existsb].
      rewrite orb_false_r. apply orb_comm.
Qed.

Lemma first_seen_In (l : list string) :
  forall seen k,
    In k (first_seen seen l) <-> In k l /\ List.existsb (String.eqb k) seen = false.
Proof.
  induction l as [| x l IH]; intros seen k; cbn [first_seen].
  - split; [intros [] | intros [[] _]].
  - destruct (List.existsb (String.eqb x) seen) eqn:Hx.
    + rewrite IH. split.
      * intros [H1 H2]. split; [now right | exact H2].
      * intros [[<- | H1] H2]; [congruence | auto].
    + cbn [In]. rewrite IH. cbn [List.existsb]. split.
      * intros [<- | [H1 H2]]; [auto |].
        apply orb_false_iff in H2. destruct H2 as [_ H2]. auto.
      * intros [[<- | H1] H2]; [now left |].
        destruct (String.eqb_spec k x) as [-> | Hne]; [now left |].
        right. split; [exact H1 |]. now rewrite H2.
Qed.

Lemma first_seen_NoDup (l : list string) :
  forall seen, NoDup (first_seen seen l).
Proof.
  induction l as [| x l IH]; intros seen; cbn [first_seen]; [constructor |].
  destruct (List.existsb (String.eqb x) seen); [apply IH |].
  constructor; [| apply IH].
  intros H. apply first_seen_In in H. destruct H as [_ H].
  cbn [List.existsb] in H. now rewrite String.eqb_refl in H.
Qed.

(** X9.  [dedupeBookmarks] returns one record for every distinct key of the
    input: the [url]s of the output are the keys of the input, each
    once, in the order in which they first occur. *)
Theorem dedupe_urls_first_seen (now : nat -> Z) (tick : nat) (bookmarks : list Bookmark) :
  (out <- dedupeBookmarks now tick bookmarks ;; Returns (List.map url out))
  = Returns (first_seen [] (keys_of bookmarks))
  /\ NoDup (first_seen [] (keys_of bookmarks))
  /\ (forall k, In k (first_seen [] (keys_of bookmarks)) <-> In k (keys_of bookmarks)).
Proof.
  split; [| split; [apply first_seen_NoDup |]];
    [| intros k; rewrite first_seen_In; cbn [List.existsb]; intuition].
  unfold dedupeBookmarks.
  destruct (dedupe_loop_returns now bookmarks (JSMap.empty Bookmark) tick) as [[m t] Hl].
  rewrite Hl. cbn [bind fst]. f_equal.
  pose proof (dedupe_loop_keys _ _ _ _ _ Hl) as Hkeys.
  cbn [fst JSMap.keys JSMap.empty List.map List.app] in Hkeys.
  rewrite <- Hkeys.
  destruct (@dedupe_loop_invariant now bookmarks _ _ _ Hl) as (_ & _ & Hfrom); [constructor |].
  apply values_url_keys. intros k v Hkv.
  destruct (Hfrom _ _ Hkv) as [[] | (b0 & n & _ & _ & ->)].
  apply stored_url.
Qed.

Lemma stored_form_intro (now : nat -> Z) (tick : nat) (b : Bookmark) :
  stored_form now b (fst (stored now tick b (canonical_key (url b)))).
Proof.
  unfold stored_form. split; [apply stored_url |]. split; [apply stored_payload |].
  split; [exists tick; apply stored_updatedAt | apply stored_createdAt].
Qed.

Lemma dedupe_loop_distinct (now : nat -> Z) (bookmarks : list Bookmark) :
  forall byUrl tick r,
    dedupe_loop now bookmarks byUrl tick = Returns r ->
    NoDup (keys_of bookmarks) ->
    (forall b, In b bookmarks -> JSMap.get (canonical_key (url b)) byUrl = None) ->
    exists added,
      fst r = (byUrl ++ added)%list
      /\ Forall2 (fun b kv => stored_form now b (snd kv)) bookmarks added.
Proof.
  induction bookmarks as [| b rest IH]; intros byUrl tick r Hrun Hnd Hfresh;
    cbn [dedupe_loop] in Hrun.
  - injection Hrun as <-. exists []. cbn [fst]. now rewrite List.app_nil_r.
  - rewrite canonicalize_returns in Hrun. cbn [bind] in Hrun.
    rewrite (Hfresh b (or_introl eq_refl)) in Hrun. cbn [preferIncoming] in Hrun.
    pose proof (stored_form_intro now tick b) as Hform.
    destruct (stored now tick b (canonical_key (url b))) as [b' tick'].
    cbn [fst] in Hform.
    cbn [keys_of List.map] in Hnd. fold (keys_of rest) in Hnd.
    inversion Hnd as [| ? ? Hnot Hnd']; subst.
    destruct (IH _ _ _ Hrun Hnd') as (added & Hadded & Hall).
    + intros b0 H0. rewrite get_set_other; [apply Hfresh; now right |].
      intros E. apply Hnot. rewrite <- E. unfold keys_of. apply in_map_iff. eauto.
    + exists ((canonical_key (url b), b') :: added). split.
      * rewrite Hadded, (set_fresh _ b' byUrl (Hfresh b (or_introl eq_refl))).
        now rewrite <- List.app_assoc.
      * constructor; assumption.
Qed.

Lemma dedupeBookmarks_distinct
      (now : nat -> Z) (tick : nat) (bookmarks : list Bookmark) :
  NoDup (keys_of bookmarks) ->
  exists out,
    dedupeBookmarks now tick bookmarks = Returns out
    /\ Forall2 (stored_form now) bookmarks out.
Proof.
  intros Hnd. unfold dedupeBookmarks.
  destruct (dedupe_loop_returns now bookmarks (JSMap.empty Bookmark) tick) as [[m t] Hl].
  rewrite Hl. cbn [bind fst]. eexists. split; [reflexivity |].
  destruct (dedupe_loop_distinct _ _ _ _ _ Hl Hnd) as (added & Hadded & Hall);
    [reflexivity |].
  cbn [fst JSMap.empty List.app] in Hadded. subst m.
  unfold JSMap.values. clear Hl Hnd. induction Hall as [| b kv l l' H _ IH]; cbn [List.map].
  - constructor.
  - constructor; assumption.
Qed.

(** X11.  [dedupeBookmarks] removes nothing from a list whose bookmarks have
    pairwise different keys: the output has a record for each bookmark,
    in the same order, which is the bookmark with its key as [url] and
    a reading of the clock for the timestamps it lacks. *)
Theorem dedupe_distinct_keys_all_kept
        (now : nat -> Z) (tick : nat) (bookmarks : list Bookmark) :
  NoDup (keys_of bookmarks) ->
  exists out,
    dedupeBookmarks now tick bookmarks = Returns out
    /\ Forall2 (stored_form now) bookmarks out.
Proof. apply dedupeBookmarks_distinct. Qed.

Lemma dedupe_distinct_keys_all_kept_witness :
  let now := fun n : nat => (100 + Z.of_nat n)%Z in
  let a := mkBookmark "1" "a.com/x?utm_source=y" "A" "" None None None "default" None None in
  let b := mkBookmark "2" "http://a.com/x" "B" "" None None (Some ["t"]) "work"
                      (Some 1%Z) (Some 2%Z) in
  NoDup (keys_of [a; b])
  /\ exists out, dedupeBookmarks now 0 [a; b] = Returns out
                 /\ Forall2 (stored_form now) [a; b] out.
Proof.
  intros now a b.
  assert (Hnd : NoDup (keys_of [a; b])).
  { vm_compute. constructor; [| constructor; [intros [] | constructor]].
    intros [H | []]. discriminate H. }
  split; [exact Hnd |]. exact (dedupe_distinct_keys_all_kept now 0%nat [a; b] Hnd).
Defined.

Lemma stored_form_same (now : nat -> Z) (r r2 : Bookmark) :
  canonical_key (url r) = url r ->
  updatedAt r <> None -> createdAt r <> None ->
  stored_form now r r2 -> r2 = r.
Proof.
  intros Hk Hu Hc (Hurl & Hp & [n1 Hu2] & [n2 Hc2]).
  destruct Hp as (H1 & H2 & H3 & H4 & H5 & H6 & H7).
  destruct r as [i u t d ic im tg c cr up], r2 as [i2 u2 t2 d2 ic2 im2 tg2 c2 cr2 up2].
  cbn in *. subst.
  destruct up; [| congruence]. destruct cr; [| congruence].
  cbn [nullish]. now rewrite Hk.
Qed.

(** X12.  Deduplicating the output of [dedupeBookmarks] once more changes
    nothing, provided that the keys of the URLs of the input are their
    own keys. *)
Theorem dedupe_twice (now : nat -> Z) (tick tick' : nat) (bookmarks : list Bookmark) :
  (forall b, In b bookmarks ->
             (k <- canonicalize (url b) ;; canonicalize k) = canonicalize (url b)) ->
  (out <- dedupeBookmarks now tick bookmarks ;; dedupeBookmarks now tick' out)
  = dedupeBookmarks now tick bookmarks.
Proof.
  intros Hidem.
  destruct (dedupeBookmarks_returns now tick bookmarks) as [out Hout]. rewrite Hout.
  cbn [bind].
  destruct (@dedupeBookmarks_spec now tick bookmarks out Hout) as (_ & Hnd & Hfrom).
  assert (Hkey : forall r, In r out -> canonical_key (url r) = url r
                                       /\ updatedAt r <> None /\ createdAt r <> None).
  { intros r Hr. destruct (Hfrom r Hr) as (b & n & Hb & Hk & Hv). split; [| split].
    - specialize (Hidem b Hb). rewrite Hk in Hidem. cbn [bind] in Hidem.
      unfold canonical_key. now rewrite Hidem.
    - rewrite Hv, stored_updatedAt. discriminate.
    - rewrite Hv. destruct (stored_createdAt now n b (url r)) as [m ->]. discriminate. }
  assert (Hkeys : keys_of out = List.map url out).
  { unfold keys_of. apply List.map_ext_in. intros r Hr. now apply Hkey. }
  destruct (dedupeBookmarks_distinct now tick' out) as (out2 & -> & Hall);
    [now rewrite Hkeys |].
  f_equal. clear Hout Hnd Hfrom Hkeys.
  induction Hall as [| r r2 l l2 H _ IH]; [reflexivity |].
  destruct (Hkey r (or_introl eq_refl)) as (H1 & H2 & H3).
  rewrite (stored_form_same now r r2 H1 H2 H3 H). f_equal.
  apply IH. intros r0 Hr0. apply Hkey. now right.
Qed.

Lemma dedupe_twice_witness :
  let now := fun n : nat => (100 + Z.of_nat n)%Z in
  let b := fun i u => mkBookmark i u "" "" None None None "default" None (Some 1%Z) in
  let bookmarks := [b "1" "https://www.example.com/a/"; b "2" "example.com/a#x";
                    b "3" "not a url"] in
  (out <- dedupeBookmarks now 0 bookmarks ;; dedupeBookmarks now 5 out)
  = dedupeBookmarks now 0 bookmarks.
Proof.
  intros now b bookmarks. apply dedupe_twice.
  intros x [<- | [<- | [<- | []]]]; vm_compute; reflexivity.
Defined.

(* ================================================================== *)
(** * Further properties: the store *)
(* ================================================================== *)


Lemma strip_refs_spec (bookmarks : list Bookmark) :
  forall n,
  exists out,
    strip_refs bookmarks n
    = Returns (out, (n + Z.of_nat (List.length (List.filter carries_ref bookmarks)))%Z)
    /\ List.length out = List.length bookmarks
    /\ (List.filter carries_ref bookmarks = [] -> out = bookmarks).
Proof.
  induction bookmarks as [| b rest IH]; intros n; cbn [strip_refs List.filter].
  - exists []. cbn [List.length Z.of_nat]. rewrite Z.add_0_r. auto.
  - destruct (stripRefParam_returns (url b)) as [s Hs]. rewrite Hs. cbn [bind].
    assert (Hc : carries_ref b = negb (String.eqb s (url b))).
    { unfold carries_ref, stripped_url. now rewrite Hs. }
    rewrite Hc.
    destruct (String.eqb_spec s (url b)) as [E | Hne]; cbn [negb].
    + destruct (IH n) as (out & -> & Hlen & Hid). cbn [bind fst snd].
      exists (b :: out). split; [reflexivity |].
      split; [cbn [List.length]; lia |].
      intros K. now rewrite (Hid K).
    + destruct (IH (n + 1)%Z) as (out & -> & Hlen & Hid). cbn [bind fst snd].
      exists (with_url b s :: out). split; [f_equal; f_equal; cbn [List.length]; lia |].
      split; [cbn [List.length]; lia |]. discriminate.
Qed.

(** X13.  In the browser, the report of [dedupeBookmarksByUrl] is exact when
    the store answers: [removed] is the number of records by which the
    store has shrunk, [normalizedRef] the number of bookmarks whose
    URL [stripRefParam] changes; when both are 0 the store is left as
    it was, and otherwise no two of its records have the same [url]
    afterwards. *)
Theorem dedupeBookmarksByUrl_report
        (now : nat -> Z) (tick : nat) (store : list Bookmark) :
  exists report store',
    dedupeBookmarksByUrl now tick Answered Answered store = Returns (report, store')
    /\ (Z.of_nat (List.length store') + removed report = Z.of_nat (List.length store))%Z
    /\ normalizedRef report = Z.of_nat (List.length (List.filter carries_ref store))
    /\ (if (removed report =? 0)%Z && (normalizedRef report =? 0)%Z
        then store' = store
        else NoDup (List.map url store')).
Proof.
  unfold dedupeBookmarksByUrl. cbn [getBookmarks try_catch bind].
  destruct (strip_refs_spec store 0%Z) as (out & -> & Hlen & Hid). cbn [bind fst snd].
  destruct (dedupeBookmarks_returns now tick out) as [deduped Hd]. rewrite Hd. cbn [bind].
  destruct (@dedupeBookmarks_spec now tick out deduped Hd) as (Hle & Hnd & _).
  rewrite Z.add_0_l.
  set (k := Z.of_nat (List.length (List.filter carries_ref store))) in *.
  assert (Hk : (0 <= k)%Z) by (unfold k; lia).
  rewrite Z.max_r by lia.
  set (r := (Z.of_nat (List.length store) - Z.of_nat (List.length deduped))%Z).
  assert (Hr : (0 <= r)%Z) by (unfold r; lia).
  destruct ((0 <? r)%Z || (0 <? k)%Z) eqn:Hsave.
  - cbn [saveBookmarks bind]. eexists _, _. split; [reflexivity |].
    cbn [removed normalizedRef]. split; [unfold r; lia |]. split; [reflexivity |].
    replace ((r =? 0)%Z && (k =? 0)%Z) with false; [exact Hnd |].
    symmetry. apply andb_false_iff. apply orb_true_iff in Hsave.
    destruct Hsave as [H | H]; apply Z.ltb_lt in H; [left | right]; apply Z.eqb_neq; lia.
  - eexists _, _. split; [reflexivity |].
    apply orb_false_iff in Hsave. destruct Hsave as [H1 H2].
    apply Z.ltb_ge in H1, H2.
    assert (r = 0%Z) as -> by lia. assert (k = 0%Z) as Ek by lia.
    cbn [removed normalizedRef]. split; [lia |]. split; [now rewrite Ek |].
    now rewrite Ek.
Qed.

Lemma filter_fresh (i : string) (store : list Bookmark) :
  (forall x, In x store -> id x <> i) ->
  List.filter (fun b => negb (String.eqb (id b) i)) store = store.
Proof.
  induction store as [| x store IH]; intros H; cbn [List.filter]; [reflexivity |].
  destruct (String.eqb_spec (id x) i) as [E | _].
  - exfalso. exact (H x (or_introl eq_refl) E).
  - cbn [negb]. f_equal. apply IH. intros y Hy. apply H. now right.
Qed.

(** X14.  Undoing an addition in the browser, with the store answering (page
    lines 329-331): [deleteBookmark] with the [id] of the bookmark
    that [addBookmark] has just put into the store gives back the
    store as it was, provided that no bookmark of the store had that
    [id]; a bookmark that had it is deleted as well. *)
Theorem addBookmark_then_deleteBookmark (b : Bookmark) (store : list Bookmark) :
  (s <- addBookmark Answered Answered b store ;;
   deleteBookmark Answered Answered (id b) s)
  = Returns (List.filter (fun x => negb (String.eqb (id x) (id b))) store)
  /\ ((forall x, In x store -> id x <> id b) ->
      (s <- addBookmark Answered Answered b store ;;
       deleteBookmark Answered Answered (id b) s)
      = Returns store).
Proof.
  assert (H : (s <- addBookmark Answered Answered b store ;;
               deleteBookmark Answered Answered (id b) s)
              = Returns (List.filter (fun x => negb (String.eqb (id x) (id b))) store)).
  { unfold addBookmark, deleteBookmark.
    cbn [getBookmarks saveBookmarks try_catch bind List.filter].
    now rewrite String.eqb_refl. }
  split; [exact H |]. intros Hfresh. rewrite H. f_equal. now apply filter_fresh.
Qed.

Lemma addBookmark_then_deleteBookmark_witness :
  let a := mkBookmark "1" "https://a.com/" "A" "" None None None "default"
                      (Some 1%Z) (Some 1%Z) in
  let b := mkBookmark "2" "https://b.com/" "B" "" None None None "default"
                      (Some 2%Z) (Some 2%Z) in
  (s <- addBookmark Answered Answered b [a] ;;
   deleteBookmark Answered Answered (id b) s)
  = Returns [a].
Proof.
  intros a b. apply (addBookmark_then_deleteBookmark b [a]).
  intros x [<- | []]. discriminate.
Defined.

(** X15.  In the browser, with the store answering, [deleteBookmarks] does
    to the store what [deleteBookmark] does for one [id] after the
    other; for a single [id] the two are the same (the page, lines
    694-698, tells these cases apart). *)
Theorem deleteBookmarks_one_by_one (ids : list string) (store : list Bookmark) :
  deleteBookmarks Answered Answered ids store
  = List.fold_left (fun st i => s <- st ;; deleteBookmark Answered Answered i s)
                   ids (Returns store).
Proof.
  unfold deleteBookmarks, deleteBookmark.
  cbn [getBookmarks saveBookmarks try_catch bind].
  revert store. induction ids as [| i ids IH]; intros store; cbn [List.fold_left bind].
  - cbn [List.existsb negb]. f_equal.
    induction store as [| x store IHs]; cbn [List.filter]; [reflexivity | now f_equal].
  - rewrite <- IH. f_equal. clear IH.
    induction store as [| x store IHs]; cbn [List.filter]; [reflexivity |].
    cbn [List.existsb].
    destruct (String.eqb (id x) i); cbn [negb orb]; [exact IHs |].
    cbn [List.filter].
    destruct (negb (List.existsb (String.eqb (id x)) ids)); [f_equal |]; exact IHs.
Qed.

Lemma findIndex_spec {A : Type} (p : A -> bool) (f : A -> A) (a : list A) :
  match findIndex p a with
  | Some index =>
      exists before x after,
        a = (before ++ x :: after)%list
        /\ p x = true
        /\ (forall y, In y before -> p y = false)
        /\ assign_at index f a = (before ++ f x :: after)%list
  | None => forall y, In y a -> p y = false
  end.
Proof.
  induction a as [| x a IH]; cbn [findIndex]; [intros y [] |].
  destruct (p x) eqn:Hx.
  - exists [], x, a. split; [reflexivity |]. split; [exact Hx |].
    split; [intros y [] | reflexivity].
  - destruct (findIndex p a) as [index |]; cbn [option_map].
    + destruct IH as (before & x0 & after & Ea & Hp & Hb & Ha).
      exists (x :: before), x0, after. cbn [assign_at List.app]. rewrite Ha.
      split; [now rewrite Ea |]. split; [exact Hp |]. split; [| reflexivity].
      intros y [<- | Hy]; [exact Hx | now apply Hb].
    + intros y [<- | Hy]; [exact Hx | now apply IH].
Qed.

(** X16.  [updateBookmark] in the browser, with the store answering: when no
    bookmark of the store has the given [id], nothing is saved and the
    clock is not read; otherwise the first bookmark with that [id],
    and no other record, is replaced by itself with the updates spread
    over it and the clock reading as [updatedAt], whatever [updatedAt]
    the updates name. *)
Theorem updateBookmark_first_match
        (now : nat -> Z) (tick : nat) (i : string) (updates : BookmarkUpdates)
        (store : list Bookmark) :
  ((forall x, In x store -> id x <> i)
   /\ updateBookmark now tick Answered Answered i updates store = Returns (store, tick))
  \/ (exists before b after,
         store = (before ++ b :: after)%list
         /\ id b = i
         /\ (forall x, In x before -> id x <> i)
         /\ updateBookmark now tick Answered Answered i updates store
            = Returns ((before ++ spread_updates b updates (now tick) :: after)%list,
                       S tick)
         /\ updatedAt (spread_updates b updates (now tick)) = Some (now tick)).
Proof.
  unfold updateBookmark. cbn [getBookmarks try_catch bind].
  pose proof (findIndex_spec (fun b => String.eqb (id b) i)
                             (fun b => spread_updates b updates (now tick)) store) as H.
  destruct (findIndex (fun b => String.eqb (id b) i) store) as [index |].
  - right. destruct H as (before & b & after & Hs & Hb & Hbefore & Ha).
    exists before, b, after. rewrite Ha. cbn [saveBookmarks bind].
    split; [exact Hs |]. split; [now apply String.eqb_eq |].
    split; [| split; reflexivity].
    intros x Hx. apply String.eqb_neq. now apply Hbefore.
  - left. split; [| reflexivity].
    intros x Hx. apply String.eqb_neq. now apply H.
Qed.

(** X17.  In the browser, when the request that loads the bookmarks fails,
    [getBookmarks] answers the empty list, and the operations go on
    with it: [addBookmark] then saves the new bookmark alone and
    [deleteBookmark] and [deleteBookmarks] save the empty list,
    whatever the store held, while [updateBookmark] and
    [dedupeBookmarksByUrl] save nothing. *)
Theorem store_after_failed_load
        (now : nat -> Z) (tick : nat) (e : JSError) (store : list Bookmark) :
  (forall b, addBookmark (Failed e) Answered b store = Returns [b])
  /\ (forall i, deleteBookmark (Failed e) Answered i store = Returns [])
  /\ (forall ids, deleteBookmarks (Failed e) Answered ids store = Returns [])
  /\ (forall save i updates,
         updateBookmark now tick (Failed e) save i updates store = Returns (store, tick))
  /\ (forall save,
         dedupeBookmarksByUrl now tick (Failed e) save store
         = Returns (mkDedupeReport 0 0, store)).
Proof.
  repeat split; reflexivity.
Qed.





(* ================================================================== *)
(** * Further properties: tag colours, icons and images *)
(* ================================================================== *)


Lemma tag_hash_range (units : list Z) :
  forall hash, (0 <= hash < 2147483647)%Z -> (0 <= tag_hash units hash < 2147483647)%Z.
Proof.
  induction units as [| c rest IH]; intros hash Hh; cbn [tag_hash]; [exact Hh |].
  apply IH. apply Z.mod_pos_bound. lia.
Qed.

(** X23.  Without a colour map, [getTagColorClasses] answers one of the
    eight [tagColorOptions] for every tag but the empty one: the hash
    stays within 0 and 2147483646, so the index is within the array
    and the answer is never [undefined]. *)
Theorem getTagColorClasses_in_options (tag : string) :
  (0 <= tag_hash (utf16_units tag) 0 < 2147483647)%Z
  /\ exists c, getTagColorClasses tag None = Some c
               /\ (tag <> "" -> In c tagColorOptions).
Proof.
  pose proof (tag_hash_range (utf16_units tag) 0%Z ltac:(lia)) as Hh.
  split; [exact Hh |].
  unfold getTagColorClasses. destruct tag as [| a r].
  - eexists. split; [reflexivity | congruence].
  - cbn [is_empty]. cbv zeta.
    set (h := tag_hash (utf16_units (String a r)) 0) in *.
    assert (Hi : (0 <= Z.abs h mod Z.of_nat (List.length tagColorOptions) < 8)%Z)
      by (apply Z.mod_pos_bound; reflexivity).
    set (i := (Z.abs h mod Z.of_nat (List.length tagColorOptions))%Z) in *.
    assert (Hn : (Z.to_nat i < List.length tagColorOptions)%nat).
    { change (List.length tagColorOptions) with 8%nat. lia. }
    destruct (List.nth_error tagColorOptions (Z.to_nat i)) as [c |] eqn:Hc.
    + exists c. split; [reflexivity |]. intros _. exact (List.nth_error_In _ _ Hc).
    + apply List.nth_error_None in Hc. lia.
Qed.

Lemma tag_re_titles :
  tag_re "meta" "property" "og:title" "content" = Metadata.og_title_re
  /\ tag_re "meta" "name" "twitter:title" "content" = Metadata.twitter_title_re.
Proof. split; reflexivity. Qed.





(* ================================================================== *)
(** * Further properties: export and entities *)
(* ================================================================== *)


Import Regex.

Lemma replace_char_app (c : ascii) (r a b : string) :
  replace_char c r (a ++ b) = replace_char c r a ++ replace_char c r b.
Proof.
  induction a as [| d a IH]; [reflexivity |].
  cbn [append replace_char]. now rewrite IH, app_assoc.
Qed.

Lemma escapeHtml_cons (c : ascii) (s : string) :
  escapeHtml (String c s) = escapeHtml (String c "") ++ escapeHtml s.
Proof.
  change (String c s) with (String c "" ++ s) at 1.
  unfold escapeHtml. now rewrite !replace_char_app.
Qed.

Lemma escapeHtml_char (c : ascii) :
  escapeHtml (String c "")
  = if Ascii.eqb c "&" then "&amp;"
    else if Ascii.eqb c "<" then "&lt;"
    else if Ascii.eqb c ">" then "&gt;"
    else if Ascii.eqb c dquote then "&quot;"
    else if Ascii.eqb c "'" then "&#39;"
    else String c "".
Proof.
  unfold escapeHtml. cbn [replace_char append].
  destruct (Ascii.eqb_spec c "&") as [-> | H1]; [reflexivity |].
  cbn [replace_char append].
  destruct (Ascii.eqb_spec c "<") as [-> | H2]; [reflexivity |].
  cbn [replace_char append].
  destruct (Ascii.eqb_spec c ">") as [-> | H3]; [reflexivity |].
  cbn [replace_char append].
  destruct (Ascii.eqb_spec c dquote) as [-> | H4]; [reflexivity |].
  cbn [replace_char append].
  destruct (Ascii.eqb_spec c "'") as [-> | H5]; reflexivity.
Qed.

Lemma replace_go_skip (ci : bool) (re : regex) (f : string -> string) (m rest : string) :
  replace_go ci re f (m ++ rest) (String.length m) = replace_go ci re f rest 0.
Proof.
  induction m as [| c m IH]; [reflexivity |].
  cbn [append String.length replace_go]. exact IH.
Qed.

Lemma length_append (a b : string) :
  String.length (a ++ b) = (String.length a + String.length b)%nat.
Proof. induction a as [| c a IH]; cbn [append String.length]; [reflexivity | now rewrite IH]. Qed.

Lemma substring_prefix (m rest : string) :
  String.substring 0 (String.length m) (m ++ rest) = m.
Proof.
  induction m as [| c m IH]; cbn [append String.length String.substring].
  - now destruct rest.
  - now rewrite IH.
Qed.

(** A match at the head of the text is replaced, and the search goes
    on behind it. *)
Lemma replace_go_hit (ci : bool) (re : regex) (f : string -> string)
      (c : ascii) (m rest g : string) :
  match_here ci re (String c m ++ rest) = Some (g, rest) ->
  replace_go ci re f (String c m ++ rest) 0
  = f (String c m) ++ replace_go ci re f rest 0.
Proof.
  intros H. cbn [append replace_go]. cbn [append] in H. rewrite H.
  replace (String.length (String c (m ++ rest)) - String.length rest)%nat
    with (S (String.length m))
    by (cbn [String.length]; rewrite length_append; lia).
  change (String c (m ++ rest)) with (String c m ++ rest).
  change (S (String.length m)) with (String.length (String c m)).
  rewrite substring_prefix. now rewrite replace_go_skip.
Qed.

Lemma replace_go_miss (ci : bool) (re : regex) (f : string -> string)
      (c : ascii) (s : string) :
  match_here ci re (String c s) = None ->
  replace_go ci re f (String c s) 0 = String c (replace_go ci re f s 0).
Proof. intros H. cbn [replace_go]. now rewrite H. Qed.

Lemma decode_entity (c : ascii) (m rest : string) (v : string) :
  match_here false Metadata.entity_re (String c m ++ rest) = Some ("", rest) ->
  Metadata.lookup (String c m) Metadata.entities = Some v ->
  Metadata.decodeHtmlEntities (String c m ++ rest) = v ++ Metadata.decodeHtmlEntities rest.
Proof.
  intros Hm Hl. unfold Metadata.decodeHtmlEntities, replace_all.
  rewrite (replace_go_hit _ _ _ _ _ _ _ Hm). now rewrite Hl.
Qed.

(** X27.  [decodeHtmlEntities] of the metadata module undoes [escapeHtml] of
    the export: for every text, decoding the escaped text gives the
    text back; and the escaped text has none of the characters [<],
    [>], the double quote and the single quote. *)
Theorem decodeHtmlEntities_escapeHtml (text : string) :
  Metadata.decodeHtmlEntities (escapeHtml text) = text
  /\ no_chars (fun c => mem c ["<"; ">"; dquote; "'"]%char) (escapeHtml text) = true.
Proof.
  induction text as [| c text [IH1 IH2]]; [split; reflexivity |].
  rewrite escapeHtml_cons, escapeHtml_char. unfold no_chars in *.
  destruct (Ascii.eqb_spec c "&") as [-> | H1];
    [split; [rewrite (decode_entity "&" "amp;" _ "&" eq_refl eq_refl); now rewrite IH1
            | rewrite forallb_app, IH2; reflexivity] |].
  destruct (Ascii.eqb_spec c "<") as [-> | H2];
    [split; [rewrite (decode_entity "&" "lt;" _ "<" eq_refl eq_refl); now rewrite IH1
            | rewrite forallb_app, IH2; reflexivity] |].
  destruct (Ascii.eqb_spec c ">") as [-> | H3];
    [split; [rewrite (decode_entity "&" "gt;" _ ">" eq_refl eq_refl); now rewrite IH1
            | rewrite forallb_app, IH2; reflexivity] |].
  destruct (Ascii.eqb_spec c dquote) as [-> | H4];
    [split; [rewrite (decode_entity "&" "quot;" _ (String dquote "") eq_refl eq_refl);
             now rewrite IH1
            | rewrite forallb_app, IH2; reflexivity] |].
  destruct (Ascii.eqb_spec c "'") as [-> | H5];
    [split; [rewrite (decode_entity "&" "#39;" _ "'" eq_refl eq_refl); now rewrite IH1
            | rewrite forallb_app, IH2; reflexivity] |].
  split.
  - cbn [append]. unfold Metadata.decodeHtmlEntities, replace_all in *.
    rewrite replace_go_miss; [now rewrite IH1 |].
    cbn [Metadata.entity_re match_here char_eq].
    destruct (Ascii.eqb_spec "&"%char c) as [E | _]; [congruence | reflexivity].
  - cbn [append forallb]. rewrite IH2, andb_true_r.
    cbn [mem List.existsb].
    apply Ascii.eqb_neq in H2, H3, H4, H5. now rewrite H2, H3, H4, H5.
Qed.

(* ================================================================== *)
(** * Further properties: markdown *)
(* ================================================================== *)


Lemma add_url_keeps (urls : list string) (url : string) :
  NoDup urls /\ Forall normalized_url urls ->
  NoDup (add_url urls url) /\ Forall normalized_url (add_url urls url).
Proof.
  intros [Hnd Hall]. unfold add_url.
  destruct (normalizeUrl_returns url) as [n Hn]. rewrite Hn. cbn [bind].
  destruct (List.existsb (String.eqb n) urls) eqn:Hin; cbn [negb try_catch]; [auto |].
  split.
  - apply NoDup_app; [exact Hnd | constructor; [intros [] | constructor] |].
    intros x Hx [E | []]. subst x.
    assert (Htrue : List.existsb (String.eqb n) urls = true).
    { apply List.existsb_exists. exists n. split; [exact Hx | apply String.eqb_refl]. }
    congruence.
  - apply Forall_app. split; [exact Hall |]. constructor; [| constructor].
    exact (normalizeUrl_fixed _ _ Hn).
Qed.

Lemma fold_keeps (P : list string -> Prop) (f : list string -> string -> list string)
      (l : list string) :
  (forall urls x, P urls -> P (f urls x)) ->
  forall urls, P urls -> P (List.fold_left f l urls).
Proof.
  intros Hf. induction l as [| x l IH]; intros urls Hu; cbn [List.fold_left]; [exact Hu |].
  apply IH. now apply Hf.
Qed.

(** X24.  [extractUrlsFromMarkdown] returns no URL twice, and every URL that
    it returns is one that [normalizeUrl] hands back as it is, so that
    the import (SettingsModal line 326) stores it unchanged. *)
Theorem extractUrlsFromMarkdown_distinct (markdown : string) :
  NoDup (extractUrlsFromMarkdown markdown)
  /\ Forall normalized_url (extractUrlsFromMarkdown markdown).
Proof.
  unfold extractUrlsFromMarkdown. cbv zeta.
  apply (fold_keeps (fun urls => NoDup urls /\ Forall normalized_url urls)).
  - intros urls m. unfold add_plain. apply add_url_keeps.
  - apply (fold_keeps (fun urls => NoDup urls /\ Forall normalized_url urls)).
    + intros urls t. unfold add_link. cbv zeta.
      destruct (negb (is_empty (first_word (trim t)))
                && negb (startsWith (first_word (trim t)) "#")); [apply add_url_keeps | auto].
    + split; constructor.
Qed.

(* ================================================================== *)
(** * Further properties: Open Graph tags *)
(* ================================================================== *)


Lemma star_cons (ci neg : bool) (cs : list ascii) (re : regex) (d : ascii) (s : string) :
  match_here ci (Star neg cs :: re) (String d s)
  = if in_class neg cs d then
      match match_here ci (Star neg cs :: re) s with
      | Some r => Some r
      | None => match_here ci re (String d s)
      end
    else match_here ci re (String d s).
Proof. reflexivity. Qed.

Lemma star_nil (ci neg : bool) (cs : list ascii) (re : regex) :
  match_here ci (Star neg cs :: re) "" = match_here ci re "".
Proof. reflexivity. Qed.

(** A greedy star over [a], all of whose characters are in the class,
    followed by a string that the star cannot enter. *)
Lemma star_scan (ci neg : bool) (cs : list ascii) (re : regex) (a b : string) :
  forallb (in_class neg cs) a = true ->
  stops (in_class neg cs) b = true ->
  match_here ci (Star neg cs :: re) (a ++ b)
  = scan_back ci re (match_here ci re b) a b.
Proof.
  intros Ha Hb. induction a as [| d a IH].
  - cbn [append scan_back]. destruct b as [| c b]; [apply star_nil |].
    rewrite star_cons. cbn [stops] in Hb. apply negb_true_iff in Hb. now rewrite Hb.
  - cbn [forallb] in Ha. apply andb_true_iff in Ha. destruct Ha as [Hd Ha].
    cbn [append scan_back]. rewrite star_cons, Hd, (IH Ha). reflexivity.
Qed.

Lemma scan_back_app (ci : bool) (re : regex) (init : option (string * string))
      (x y rest : string) :
  scan_back ci re init (x ++ y) rest
  = scan_back ci re (scan_back ci re init y rest) x (y ++ rest).
Proof.
  induction x as [| d x IH]; [reflexivity |].
  cbn [append scan_back]. now rewrite IH, app_assoc.
Qed.

Lemma scan_back_none (ci : bool) (re : regex) (a rest : string) :
  (forall x y, a = x ++ y -> y <> "" -> match_here ci re (y ++ rest) = None) ->
  scan_back ci re None a rest = None.
Proof.
  induction a as [| d a IH]; intros H; [reflexivity |].
  cbn [scan_back]. rewrite IH.
  - apply (H "" (String d a)); [reflexivity | discriminate].
  - intros x y E Hy. apply (H (String d x) y); [now rewrite E | exact Hy].
Qed.

Lemma lit_app (s t : string) : lit (s ++ t) = (lit s ++ lit t)%list.
Proof. induction s as [| c s IH]; [reflexivity |]. cbn [append lit List.app]. now rewrite IH. Qed.

Lemma lit_match (ci : bool) (A : string) (re : regex) (s : string) :
  match_here ci (lit A ++ re)%list (A ++ s) = match_here ci re s.
Proof.
  induction A as [| a A IH]; [reflexivity |].
  cbn [lit List.app append match_here].
  replace (char_eq ci a a) with true; [exact IH |].
  unfold char_eq. destruct ci; now rewrite Ascii.eqb_refl.
Qed.

Lemma char_eq_equals (ci : bool) (c : ascii) :
  char_eq ci "=" c = true -> c = "="%char.
Proof.
  unfold char_eq. destruct ci.
  - destruct c as [[] [] [] [] [] [] [] []]; intros H; try discriminate H; reflexivity.
  - intros H. now apply Ascii.eqb_eq in H.
Qed.

Lemma group_cons (ci neg : bool) (cs : list ascii) (re : regex) (d : ascii) (s : string) :
  match_here ci (Group neg cs :: re) (String d s)
  = let stop :=
      match match_here ci re (String d s) with
      | Some (_, r) => Some ("", r)
      | None => None
      end in
    if in_class neg cs d then
      match match_here ci (Group neg cs :: re) s with
      | Some (g, r) => Some (String d g, r)
      | None => stop
      end
    else stop.
Proof. reflexivity. Qed.

(** The group of the patterns takes the text up to the next quote. *)
Lemma group_content (ci : bool) (t : string) (q : ascii) (r : string) :
  no_chars attr_stop t = true ->
  mem q Metadata.quotes = true ->
  match_here ci [Group true Metadata.quotes; Class false Metadata.quotes] (t ++ String q r)
  = Some (t, r).
Proof.
  intros Ht Hq. unfold no_chars in Ht. induction t as [| d t IH].
  - cbn [append]. rewrite group_cons. cbv zeta.
    unfold in_class at 1. rewrite Hq. cbn [xorb].
    cbn [match_here]. unfold in_class. rewrite Hq. reflexivity.
  - cbn [forallb] in Ht. apply andb_true_iff in Ht. destruct Ht as [Hd Ht].
    cbn [append]. rewrite group_cons. cbv zeta. rewrite (IH Ht).
    replace (in_class true Metadata.quotes d) with true; [reflexivity |].
    symmetry. revert Hd. generalize d. intros x.
    destruct x as [[] [] [] [] [] [] [] []]; intros Hx; try discriminate Hx; reflexivity.
Qed.

Lemma scan_back_some (ci : bool) (re : regex) (r : string * string) (a rest : string) :
  scan_back ci re (Some r) a rest = Some r.
Proof.
  induction a as [| d a IH]; [reflexivity |]. cbn [scan_back]. now rewrite IH.
Qed.

Lemma char_eq_stop_back (ci : bool) (a q : ascii) :
  attr_stop q = true -> char_eq ci a q = true -> attr_stop a = true.
Proof.
  unfold char_eq. intros Hq. destruct ci.
  - revert Hq. generalize a. intros x.
    destruct q as [[] [] [] [] [] [] [] []]; intros Hq; try discriminate Hq;
      destruct x as [[] [] [] [] [] [] [] []]; intros H; try discriminate H; reflexivity.
  - intros H. apply Ascii.eqb_eq in H. now subst.
Qed.

(** A literal without quotes, [>] and [=] that is followed by [=] does
    not match where the text has no [=] before the next quote or
    [>]. *)
Lemma lit_blocked (ci : bool) (A : string) (re : regex) (u : string) (q : ascii) (r : string) :
  no_chars attr_stop A = true ->
  no_chars (is_char "=") u = true ->
  attr_stop q = true -> q <> "="%char ->
  match_here ci (lit (A ++ "=") ++ re)%list (u ++ String q r) = None.
Proof.
  intros HA Hu Hq Hne. revert u Hu. unfold no_chars in *.
  induction A as [| a A IH]; intros u Hu.
  - cbn [append lit List.app match_here].
    destruct u as [| c u]; cbn [append].
    + destruct (char_eq ci "=" q) eqn:E; [| reflexivity].
      apply char_eq_equals in E. contradiction.
    + destruct (char_eq ci "=" c) eqn:E; [| reflexivity].
      apply char_eq_equals in E. subst c. discriminate Hu.
  - cbn [forallb] in HA. apply andb_true_iff in HA. destruct HA as [Ha HA].
    cbn [append lit List.app match_here].
    destruct u as [| c u]; cbn [append].
    + destruct (char_eq ci a q) eqn:E; [| reflexivity].
      apply (char_eq_stop_back _ _ _ Hq) in E. now rewrite E in Ha.
    + destruct (char_eq ci a c); [| reflexivity].
      apply (IH HA). cbn [forallb] in Hu. now apply andb_true_iff in Hu.
Qed.

Lemma stop_free_equals (s : string) :
  no_chars attr_stop s = true -> no_chars (is_char "=") s = true.
Proof.
  unfold no_chars. apply forallb_impl. intros c.
  destruct c as [[] [] [] [] [] [] [] []]; intros H; try discriminate H; reflexivity.
Qed.

Lemma end_free_equals (s : string) :
  no_chars attr_end s = true -> no_chars (is_char "=") s = true.
Proof.
  unfold no_chars. apply forallb_impl. intros c.
  destruct c as [[] [] [] [] [] [] [] []]; intros H; try discriminate H; reflexivity.
Qed.

Lemma end_free_class (s : string) :
  no_chars attr_end s = true -> forallb (in_class true [">"%char]) s = true.
Proof.
  unfold no_chars. apply forallb_impl. intros c.
  destruct c as [[] [] [] [] [] [] [] []]; intros H; try discriminate H; reflexivity.
Qed.

Lemma append_split (x y a b : string) :
  x ++ y = a ++ b ->
  (exists m, a = x ++ m /\ y = m ++ b) \/ (exists m, x = a ++ m /\ b = m ++ y).
Proof.
  revert a. induction x as [| c x IH]; intros a E.
  - left. exists a. auto.
  - destruct a as [| d a].
    + right. exists (String c x). auto.
    + cbn [append] in E. injection E as -> E.
      destruct (IH a E) as [(m & -> & ->) | (m & -> & ->)]; [left | right]; exists m; auto.
Qed.

(** The tails of a text without stop characters that is followed by a
    quote, a text without [>] and [=], and [>]. *)
Lemma tails_blocked (ci : bool) (A : string) (re : regex)
      (content : string) (q : ascii) (e post : string) :
  no_chars attr_stop A = true ->
  no_chars attr_stop content = true -> no_chars attr_end e = true ->
  mem q Metadata.quotes = true ->
  forall x y, content ++ String q e = x ++ y -> y <> "" ->
              match_here ci (lit (A ++ "=") ++ re)%list (y ++ ">" ++ post) = None.
Proof.
  intros HA Hc He Hq x y E Hy.
  assert (Hq' : attr_stop q = true /\ q <> "="%char).
  { destruct q as [[] [] [] [] [] [] [] []]; try discriminate Hq; split;
      first [reflexivity | discriminate]. }
  destruct Hq' as [Hq1 Hq2].
  apply stop_free_equals in Hc. apply end_free_equals in He. unfold no_chars in *.
  symmetry in E. destruct (append_split _ _ _ _ E) as [(m & Em & ->) | (m & -> & Em)].
  - rewrite app_assoc. cbn [append].
    apply (lit_blocked ci A re m q); auto.
    rewrite Em in Hc. exact (forallb_suffix_of _ _ _ Hc).
  - destruct m as [| d m].
    + cbn [append] in Em. subst y. cbn [append].
      apply (lit_blocked ci A re "" q); auto.
    + cbn [append] in Em. injection Em as _ Em.
      apply (lit_blocked ci A re y ">" post); auto; [| discriminate].
      rewrite Em in He. exact (forallb_suffix_of _ _ _ He).
Qed.

Lemma stop_free_class (s : string) :
  no_chars attr_stop s = true -> forallb (in_class true [">"%char]) s = true.
Proof.
  unfold no_chars. apply forallb_impl. intros c.
  destruct c as [[] [] [] [] [] [] [] []]; intros H; try discriminate H; reflexivity.
Qed.

Lemma quote_class (q : ascii) :
  mem q Metadata.quotes = true -> in_class true [">"%char] q = true.
Proof.
  destruct q as [[] [] [] [] [] [] [] []]; intros H; try discriminate H; reflexivity.
Qed.

(** A greedy star over the text of attributes, followed by a literal
    attribute name with [=]: the pattern goes on at the last place of
    the text where the rest of it matches. *)
Lemma star_attr (ci : bool) (A : string) (re : regex)
      (x T content : string) (q : ascii) (e post : string) (r : string * string) :
  no_chars attr_stop A = true ->
  forallb (in_class true [">"%char]) (x ++ (A ++ "=") ++ T) = true ->
  no_chars attr_stop content = true -> no_chars attr_end e = true ->
  mem q Metadata.quotes = true ->
  scan_back ci (lit (A ++ "=") ++ re)%list None (tail_of ((A ++ "=") ++ T))
            ((content ++ String q e) ++ ">" ++ post) = None ->
  match_here ci (lit (A ++ "=") ++ re)%list
             (((A ++ "=") ++ T) ++ (content ++ String q e) ++ ">" ++ post) = Some r ->
  match_here ci (Star true [">"%char] :: lit (A ++ "=") ++ re)%list
             (x ++ ((A ++ "=") ++ T) ++ (content ++ String q e) ++ ">" ++ post) = Some r.
Proof.
  intros HA Hcls Hc He Hq Hscan Hhere.
  set (P := (A ++ "=") ++ T) in *. set (S := content ++ String q e) in *.
  set (b := ">" ++ post) in *.
  replace (x ++ P ++ S ++ b) with ((x ++ P ++ S) ++ b) by now rewrite !app_assoc.
  rewrite star_scan; [| | reflexivity].
  - assert (Hinit : match_here ci (lit (A ++ "=") ++ re)%list b = None).
    { apply (lit_blocked ci A re "" ">" post); auto. discriminate. }
    rewrite Hinit, !scan_back_app.
    rewrite (scan_back_none ci _ S b);
      [| intros x0 y0 E0 Hy0; apply (tails_blocked ci A re content q e post HA Hc He Hq x0 y0);
         [exact E0 | exact Hy0]].
    assert (HP : exists d P', P = String d P').
    { unfold P. destruct A; cbn [append]; eauto. }
    destruct HP as (d & P' & EP). rewrite EP in Hscan |- *. cbn [tail_of] in Hscan.
    cbn [scan_back]. rewrite Hscan. rewrite <- EP. rewrite Hhere.
    apply scan_back_some.
  - replace (x ++ P ++ S) with ((x ++ P) ++ S) by now rewrite !app_assoc.
    rewrite forallb_app, Hcls. cbn [andb].
    unfold S. rewrite forallb_app. cbn [forallb].
    now rewrite (stop_free_class _ Hc), (end_free_class _ He), (quote_class _ Hq).
Qed.

Lemma class_quote (ci : bool) (q : ascii) (re : regex) (s : string) :
  mem q Metadata.quotes = true ->
  match_here ci (Class false Metadata.quotes :: re) (String q s) = match_here ci re s.
Proof. intros Hq. cbn [match_here]. unfold in_class. now rewrite Hq. Qed.

(** The patterns of the metadata module on a tag written as they
    expect it. *)
Lemma tag_re_here (tag attr value target : string) (q1 q2 : ascii)
      (content e post : string) :
  no_chars attr_stop attr = true -> no_chars attr_stop target = true ->
  forallb (in_class true [">"%char]) value = true ->
  mem q1 Metadata.quotes = true -> mem q2 Metadata.quotes = true ->
  no_chars attr_stop content = true -> no_chars attr_end e = true ->
  (forall re rest,
      scan_back true (lit (attr ++ "=") ++ re)%list None
                (tail_of ((attr ++ "=")
                          ++ String q1 (value ++ String q1 (" " ++ (target ++ "=")
                                                               ++ String q2 ""))))
                rest = None) ->
  (forall re rest,
      scan_back true (lit (target ++ "=") ++ re)%list None
                (tail_of ((target ++ "=") ++ String q2 "")) rest = None) ->
  match_here true (tag_re tag attr value target)
             (tag_text tag attr value target q1 q2 content ++ e ++ ">" ++ post)
  = Some (content, e ++ ">" ++ post).
Proof.
  intros Hattr Htarget Hvalue Hq1 Hq2 Hc He Hscan1 Hscan2.
  set (S := content ++ String q2 e). set (b := ">" ++ post).
  set (T2 := String q2 "").
  set (T1 := String q1 (value ++ String q1 (" " ++ (target ++ "=") ++ T2))).
  assert (Etext : tag_text tag attr value target q1 q2 content ++ e ++ b
                  = ("<" ++ tag) ++ " " ++ ((attr ++ "=") ++ T1) ++ S ++ b).
  { unfold tag_text, T1, T2, S, b. repeat (rewrite app_assoc || cbn [append]).
    reflexivity. }
  rewrite Etext. unfold tag_re.
  rewrite lit_match. cbn [List.app].
  assert (Hgroup : match_here true (lit (target ++ "=")
                                    ++ [Class false Metadata.quotes;
                                        Group true Metadata.quotes;
                                        Class false Metadata.quotes])%list
                              (((target ++ "=") ++ T2) ++ S ++ b)
                   = Some (content, e ++ b)).
  { rewrite app_assoc, lit_match. unfold T2, S. cbn [append].
    rewrite (class_quote _ _ _ _ Hq2). rewrite app_assoc. cbn [append].
    now apply group_content. }
  assert (Hsecond : match_here true
                      (Star true [">"%char]
                       :: lit (target ++ "=")
                          ++ [Class false Metadata.quotes; Group true Metadata.quotes;
                              Class false Metadata.quotes])%list
                      (" " ++ ((target ++ "=") ++ T2) ++ S ++ b)
                    = Some (content, e ++ b)).
  { apply star_attr; auto.
    - change (" " ++ (target ++ "=") ++ T2)
        with (String " " ((target ++ "=") ++ T2)).
      cbn [forallb]. rewrite !forallb_app. unfold T2. cbn [forallb].
      now rewrite (stop_free_class _ Htarget), (quote_class _ Hq2). }
  apply star_attr; auto.
  - change (" " ++ (attr ++ "=") ++ T1) with (String " " ((attr ++ "=") ++ T1)).
    unfold T1, T2. repeat (rewrite forallb_app || cbn [forallb append]).
    now rewrite (stop_free_class _ Hattr), (stop_free_class _ Htarget), Hvalue,
      (quote_class _ Hq1), (quote_class _ Hq2).
  - rewrite app_assoc, lit_match. unfold T1.
    cbn [append]. rewrite (class_quote _ _ _ _ Hq1).
    rewrite app_assoc, lit_match. cbn [append].
    rewrite (class_quote _ _ _ _ Hq1).
    change (String " " (((target ++ "=") ++ T2) ++ S ++ b))
      with (" " ++ ((target ++ "=") ++ T2) ++ S ++ b) in *.
    exact Hsecond.
Qed.

Lemma lit_prefix_fail (A : string) (re : regex) (s : string) :
  toLowerCase A = A -> prefixb A (toLowerCase s) = false ->
  match_here true (lit A ++ re)%list s = None.
Proof.
  revert s. induction A as [| a A IH]; intros s HA Hs; [discriminate Hs |].
  cbn [toLowerCase Str.map] in HA. injection HA as Ha HA.
  cbn [lit List.app match_here]. destruct s as [| c s]; [reflexivity |].
  cbn [toLowerCase Str.map prefixb] in Hs. unfold char_eq. rewrite Ha.
  destruct (Ascii.eqb a (lower c)); [| reflexivity].
  cbn [andb] in Hs. now apply IH.
Qed.

Lemma prefixb_before_tag (A x rest : string) :
  no_chars (is_char "<") A = true ->
  prefixb A (toLowerCase (x ++ String "<" rest)) = prefixb A (toLowerCase x).
Proof.
  unfold no_chars. revert x. induction A as [| a A IH]; intros x HA; [reflexivity |].
  cbn [forallb] in HA. apply andb_true_iff in HA. destruct HA as [Ha HA].
  destruct x as [| c x]; cbn [append toLowerCase Str.map prefixb].
  - change (lower "<") with "<"%char.
    unfold is_char in Ha. apply negb_true_iff in Ha. now rewrite Ha.
  - fold (toLowerCase (x ++ String "<" rest)). fold (toLowerCase x). now rewrite IH.
Qed.

Lemma search_cons (ci : bool) (re : regex) (c : ascii) (s : string) :
  search ci re (String c s)
  = match match_here ci re (String c s) with
    | Some r => Some r
    | None => search ci re s
    end.
Proof. reflexivity. Qed.

(** The search for a pattern that starts with [<] and a tag name goes
    past a text in which that tag is not opened. *)
Lemma search_skip (tag : string) (re : regex) (pre rest : string) :
  toLowerCase tag = tag -> no_chars (is_char "<") tag = true ->
  includes (toLowerCase pre) (String "<" tag) = false ->
  search true (lit (String "<" tag) ++ re)%list (pre ++ String "<" rest)
  = search true (lit (String "<" tag) ++ re)%list (String "<" rest).
Proof.
  intros Hl Ht. induction pre as [| c pre IH]; intros Hpre; [reflexivity |].
  change (toLowerCase (String c pre)) with (String (lower c) (toLowerCase pre)) in Hpre.
  cbn [includes] in Hpre.
  destruct (prefixb (String "<" tag) (String (lower c) (toLowerCase pre))) eqn:Hp;
    [discriminate Hpre |].
  change (String c pre ++ String "<" rest) with (String c (pre ++ String "<" rest)).
  rewrite search_cons.
  rewrite lit_prefix_fail; [now apply IH | |].
  - change (toLowerCase (String "<" tag)) with (String "<" (toLowerCase tag)).
    now rewrite Hl.
  - change (toLowerCase (String c (pre ++ String "<" rest)))
      with (String (lower c) (toLowerCase (pre ++ String "<" rest))).
    cbn [prefixb] in Hp |- *.
    destruct (Ascii.eqb "<" (lower c)); [| reflexivity]. cbn [andb] in Hp |- *.
    now rewrite prefixb_before_tag.
Qed.

Lemma quote_cases (q : ascii) :
  mem q Metadata.quotes = true -> q = dquote \/ q = "'"%char.
Proof.
  destruct q as [[] [] [] [] [] [] [] []]; intros H; try discriminate H; auto.
Qed.

(** What the patterns of [extractDescription] and [extractTitle] find
    in a page whose first [meta] tag gives the Open Graph property
    with its content. *)
Lemma og_tag_found (value : string) (q1 q2 : ascii) (pre content e post : string) :
  value = "og:description" \/ value = "og:title" ->
  mem q1 Metadata.quotes = true -> mem q2 Metadata.quotes = true ->
  includes (toLowerCase pre) "<meta" = false ->
  no_chars attr_stop content = true -> no_chars attr_end e = true ->
  match_group true (tag_re "meta" "property" value "content")
              (pre ++ tag_text "meta" "property" value "content" q1 q2 content
                   ++ e ++ ">" ++ post)
  = Some content.
Proof.
  intros Hv Hq1 Hq2 Hpre Hc He. unfold match_group.
  assert (Hhere : match_here true (tag_re "meta" "property" value "content")
                             (tag_text "meta" "property" value "content" q1 q2 content
                                       ++ e ++ ">" ++ post)
                  = Some (content, e ++ ">" ++ post)).
  { apply tag_re_here; auto;
      try (destruct Hv as [-> | ->]; reflexivity);
      destruct (quote_cases _ Hq1) as [-> | ->]; destruct (quote_cases _ Hq2) as [-> | ->];
      destruct Hv as [-> | ->]; intros re rest; reflexivity. }
  unfold tag_text in *. cbn [append] in Hhere |- *.
  unfold tag_re at 1. change ("<" ++ "meta") with (String "<" "meta").
  rewrite search_skip; [| reflexivity | reflexivity | exact Hpre].
  change (String "<" "meta") with ("<" ++ "meta").
  fold (tag_re "meta" "property" value "content").
  rewrite search_cons. now rewrite Hhere.
Qed.

(** X25.  A page whose first [meta] tag gives the Open Graph description, or
    title, as [<meta property="og:description" content="...">], with
    quotes of either kind: for a content that is not empty and has no
    quote, [>] or [=], [extractDescription], or [extractTitle], answers
    that content with its entities decoded, whatever follows the tag.
    The content ends at the first quote of either kind: in
    [content="It's here"] it is [It]. *)
Theorem extract_og_content (q1 q2 : ascii) (pre content e post url : string) :
  mem q1 Metadata.quotes = true -> mem q2 Metadata.quotes = true ->
  includes (toLowerCase pre) "<meta" = false ->
  content <> "" ->
  no_chars attr_stop content = true -> no_chars attr_end e = true ->
  extractDescription
    (pre ++ tag_text "meta" "property" "og:description" "content" q1 q2 content
         ++ e ++ ">" ++ post)
  = Metadata.decodeHtmlEntities content
  /\ Metadata.extractTitle
       (pre ++ tag_text "meta" "property" "og:title" "content" q1 q2 content
            ++ e ++ ">" ++ post) url
     = Returns (Metadata.decodeHtmlEntities content).
Proof.
  intros Hq1 Hq2 Hpre Hne Hc He.
  assert (Htruthy : Metadata.truthy_group (Some content) = Some content)
    by (destruct content; [congruence | reflexivity]).
  split.
  - unfold extractDescription, group_of, og_description_re.
    rewrite (og_tag_found "og:description" q1 q2 pre content e post); auto.
    now rewrite Htruthy.
  - unfold Metadata.extractTitle.
    change Metadata.og_title_re with (tag_re "meta" "property" "og:title" "content").
    rewrite (og_tag_found "og:title" q1 q2 pre content e post); auto.
    now rewrite Htruthy.
Qed.

Lemma extract_og_content_witness :
  Metadata.extractTitle
    ("<html><head><meta property=" ++ String dquote "og:title" ++ String dquote " content="
       ++ String dquote "It's here" ++ String dquote "></head></html>")
    "https://example.com/"
  = Returns "It".
Proof.
  refine (proj2 (extract_og_content dquote "'" "<html><head>" "It"
                   ("s here" ++ String dquote "") "</head></html>" "https://example.com/"
                   _ _ _ _ _ _)); first [reflexivity | discriminate].
Defined.
